(** * Sync engine of the compute service: cloudproviders, zones, sync ranges
      and the account sync task.

    A shallow embedding of
    - [pkg/compute/models/zones.go] (SyncZones, syncRemoveCloudZone,
      ValidateDeleteCondition, GeneralUsage),
    - [pkg/compute/models/cloudproviders.go] (SSyncRange and its
      normalisation, PerformSync, StartSyncCloudProviderInfoTask, the
      mark*Sync family, cancelStartingSync, getSyncStatus2,
      ValidateDeleteCondition, GetRegionIds, syncCloudproviderRegions,
      PerformSetSyncing, initAllRecords, IsProviderAccountEnabled and the
      project mapping of a provider),
    - [pkg/compute/tasks/cloud_account_sync_task.go] (the stage handlers of
      CloudAccountSyncInfoTask),
    - [cloudmux/pkg/multicloud/huawei/provider/provider.go] (the validation
      of credentials, parseAccount, GetClientRC).

    Persistent rows live in a [Store]; a method of a Go model object takes the
    in-memory object ([self]) and threads the store.  Every call that reaches
    the database may fail: the store carries a schedule of faults that the
    calls consume, so the [if err != nil] branches of the source are
    reachable. Object locks (lockman) are not modelled: the embedding is
    sequential. *)

From Stdlib Require Import String Ascii List ZArith Bool Lia Permutation.
Import ListNotations.
Open Scope string_scope.
Open Scope list_scope.

Set Implicit Arguments.

(** ** Errors *)

(** The error values the embedded code builds or tests for. [Wrap] is
    [errors.Wrap]/[errors.Wrapf]; [ErrNoRows] is [sql.ErrNoRows]; [ErrStorage]
    stands for any other failure of the persistence layer; [ComparisonError]
    is the comparator's failure to read a key. *)
Inductive error : Type :=
| InvalidStatusError (msg : string)
| ResourceNotFoundError (msg : string)
| NotEmptyError (msg : string)
| ComparisonError (msg : string)
| ErrNoRows
| ErrStorage (what : string)
| ErrOther (what : string)
| Wrap (e : error) (msg : string).

Definition is_ErrNoRows (e : error) : bool :=
  match e with ErrNoRows => true | _ => false end.

(** ** Sync status *)

(** The values of the [sync_status] column the code compares against
    ([api.CLOUD_PROVIDER_SYNC_STATUS_*]). *)
Inductive TSyncStatus : Type :=
| CLOUD_PROVIDER_SYNC_STATUS_QUEUING
| CLOUD_PROVIDER_SYNC_STATUS_QUEUED
| CLOUD_PROVIDER_SYNC_STATUS_SYNCING
| CLOUD_PROVIDER_SYNC_STATUS_IDLE
| CLOUD_PROVIDER_SYNC_STATUS_ERROR.

Definition status_eqb (a b : TSyncStatus) : bool :=
  match a, b with
  | CLOUD_PROVIDER_SYNC_STATUS_QUEUING, CLOUD_PROVIDER_SYNC_STATUS_QUEUING
  | CLOUD_PROVIDER_SYNC_STATUS_QUEUED, CLOUD_PROVIDER_SYNC_STATUS_QUEUED
  | CLOUD_PROVIDER_SYNC_STATUS_SYNCING, CLOUD_PROVIDER_SYNC_STATUS_SYNCING
  | CLOUD_PROVIDER_SYNC_STATUS_IDLE, CLOUD_PROVIDER_SYNC_STATUS_IDLE
  | CLOUD_PROVIDER_SYNC_STATUS_ERROR, CLOUD_PROVIDER_SYNC_STATUS_ERROR => true
  | _, _ => false
  end.

Definition is_idle (s : TSyncStatus) : bool :=
  status_eqb s CLOUD_PROVIDER_SYNC_STATUS_IDLE.

(** Wall-clock time, in seconds; [time.Time{}] is [time_zero]. *)
Definition Time : Type := Z.
Definition time_zero : Time := 0%Z.

(** ** Rows *)

Record SCloudaccount : Type := mkCloudaccount {
  ca_Id : string;
  ca_Name : string;
  ca_Enabled : bool;
  ca_SyncStatus : TSyncStatus;
  ca_LastSync : Time;
  ca_LastSyncEndAt : Time
}.

(** [SCloudprovider]: the enabled flag of SEnabledStatusStandaloneResourceBase,
    the three fields of SSyncableBaseResource and the owning account. *)
Record SCloudprovider : Type := mkCloudprovider {
  Id : string;
  Name : string;
  Enabled : bool;
  SyncStatus : TSyncStatus;
  LastSync : Time;
  LastSyncEndAt : Time;
  CloudaccountId : string
}.

Record SCloudproviderregion : Type := mkCloudproviderregion {
  cpr_CloudproviderId : string;
  cpr_CloudregionId : string;
  cpr_Enabled : bool;
  cpr_SyncStatus : TSyncStatus
}.

(** The request body of a sync ([api.SyncRangeInput], embedded in
    [SSyncRange]). *)
Record SSyncRange : Type := mkSyncRange {
  Force : bool;
  FullSync : bool;
  DeepSync : bool;
  Region : list string;
  Zone : list string;
  Host : list string;
  Resources : list string
}.

(** A task row of the task manager. *)
Record STask : Type := mkTask {
  task_Id : nat;
  task_Name : string;
  task_ObjId : string;
  task_SyncRange : option SSyncRange;
  task_ParentTaskId : string;
  task_Scheduled : bool
}.

(** An entry of the operation log ([db.OpsLog.LogEvent]). *)
Record SOpsLog : Type := mkOpsLog {
  log_ObjId : string;
  log_Action : string
}.

(** The actions the embedded code logs; their texts are declared in package
    [db] and play no part. *)
Definition ACT_SYNC_HOST_START : string := "sync_start".
Definition ACT_SYNCING_HOST : string := "syncing".
Definition ACT_SYNC_HOST_COMPLETE : string := "sync_complete".
Definition ACT_SYNC_HOST_FAILED : string := "sync_fail".

(** ** Regions, zones, hosts and what hangs on a zone *)

Record SCloudregion : Type := mkCloudregion {
  cr_Id : string;
  cr_Name : string
}.

Record SZone : Type := mkZone {
  z_Id : string;
  z_Name : string;
  z_ExternalId : string;
  z_Status : string;
  z_IsEmulated : bool;
  z_CloudregionId : string
}.

Record SHost : Type := mkHost {
  h_Id : string;
  h_Name : string;
  h_ZoneId : string;
  h_Status : string;
  h_HostStatus : string;
  h_Enabled : bool;
  h_HostType : string;
  h_IsBaremetal : bool
}.

Record SWire : Type := mkWire {
  w_Id : string;
  w_ZoneId : string
}.

Record SStorage : Type := mkStorage {
  st_Id : string;
  st_ZoneId : string
}.

(** The provider-side view of a zone ([cloudprovider.ICloudZone]); a global
    id that cannot be read is [None]. *)
Record ICloudZone : Type := mkCloudZone {
  GetGlobalId : option string;
  GetName : string;
  GetStatus : string;
  IsEmulated : bool
}.

(** ** The store *)

Record Store : Type := mkStore {
  cloudaccounts_tbl : list SCloudaccount;
  cloudproviders_tbl : list SCloudprovider;
  cloudproviderregions_tbl : list SCloudproviderregion;
  cloudregions_tbl : list SCloudregion;
  zones_tbl : list SZone;
  hosts_tbl : list SHost;
  wires_tbl : list SWire;
  storages_tbl : list SStorage;
  tasks_tbl : list STask;
  opslogs : list SOpsLog;
  now : Time;
  (** the outcome of the coming database calls, in order: [true] is a
      failure; past the end of the schedule every call succeeds *)
  faults : list bool
}.

Definition set_cloudaccounts (v : list SCloudaccount) (s : Store) : Store :=
  mkStore v (cloudproviders_tbl s) (cloudproviderregions_tbl s) (cloudregions_tbl s)
          (zones_tbl s) (hosts_tbl s) (wires_tbl s) (storages_tbl s) (tasks_tbl s)
          (opslogs s) (now s) (faults s).

Definition set_cloudproviders (v : list SCloudprovider) (s : Store) : Store :=
  mkStore (cloudaccounts_tbl s) v (cloudproviderregions_tbl s) (cloudregions_tbl s)
          (zones_tbl s) (hosts_tbl s) (wires_tbl s) (storages_tbl s) (tasks_tbl s)
          (opslogs s) (now s) (faults s).

Definition set_cloudproviderregions (v : list SCloudproviderregion) (s : Store) : Store :=
  mkStore (cloudaccounts_tbl s) (cloudproviders_tbl s) v (cloudregions_tbl s)
          (zones_tbl s) (hosts_tbl s) (wires_tbl s) (storages_tbl s) (tasks_tbl s)
          (opslogs s) (now s) (faults s).

Definition set_zones (v : list SZone) (s : Store) : Store :=
  mkStore (cloudaccounts_tbl s) (cloudproviders_tbl s) (cloudproviderregions_tbl s)
          (cloudregions_tbl s) v (hosts_tbl s) (wires_tbl s) (storages_tbl s)
          (tasks_tbl s) (opslogs s) (now s) (faults s).

Definition set_tasks (v : list STask) (s : Store) : Store :=
  mkStore (cloudaccounts_tbl s) (cloudproviders_tbl s) (cloudproviderregions_tbl s)
          (cloudregions_tbl s) (zones_tbl s) (hosts_tbl s) (wires_tbl s) (storages_tbl s)
          v (opslogs s) (now s) (faults s).

Definition set_opslogs (v : list SOpsLog) (s : Store) : Store :=
  mkStore (cloudaccounts_tbl s) (cloudproviders_tbl s) (cloudproviderregions_tbl s)
          (cloudregions_tbl s) (zones_tbl s) (hosts_tbl s) (wires_tbl s) (storages_tbl s)
          (tasks_tbl s) v (now s) (faults s).

Definition set_DeepSync (b : bool) (r : SSyncRange) : SSyncRange :=
  mkSyncRange (Force r) (FullSync r) b (Region r) (Zone r) (Host r) (Resources r).

Definition set_faults (v : list bool) (s : Store) : Store :=
  mkStore (cloudaccounts_tbl s) (cloudproviders_tbl s) (cloudproviderregions_tbl s)
          (cloudregions_tbl s) (zones_tbl s) (hosts_tbl s) (wires_tbl s) (storages_tbl s)
          (tasks_tbl s) (opslogs s) (now s) v.

(** ** The monad of store-passing computations that may return an error

    A Go method returning [error] (or [(T, error)]) is a function from the
    store to a result and the store it leaves: an error does not undo the
    writes made before it. *)
Definition M (A : Type) : Type := Store -> (error + A) * Store.

Definition ret {A} (a : A) : M A := fun s => (inr a, s).
Definition fail {A} (e : error) : M A := fun s => (inl e, s).

Definition bind {A B} (m : M A) (k : A -> M B) : M B :=
  fun s => match m s with
           | (inl e, s') => (inl e, s')
           | (inr a, s') => k a s'
           end.

(** Run [m] and hand its outcome, error or not, to the continuation (a call
    whose [err] the caller inspects or drops). *)
Definition catch {A B} (m : M A) (k : error + A -> M B) : M B :=
  fun s => let (r, s') := m s in k r s'.

Definition get : M Store := fun s => (inr s, s).
Definition modify (f : Store -> Store) : M unit := fun s => (inr tt, f s).

Declare Scope m_scope.
Delimit Scope m_scope with m.
Notation "x <- m ;; k" := (bind m (fun x => k))
  (at level 61, m at next level, right associativity) : m_scope.
Notation "m ;;; k" := (bind m (fun _ => k))
  (at level 61, right associativity) : m_scope.
Open Scope m_scope.

(** One database call: consumes the head of the fault schedule. *)
Definition db_call (what : string) : M unit :=
  fun s => match faults s with
           | [] => (inr tt, s)
           | false :: fs => (inr tt, set_faults fs s)
           | true :: fs => (inl (ErrStorage what), set_faults fs s)
           end.

(** [reliable s]: no database call fails from [s] on. *)
Definition reliable (s : Store) : Prop := faults s = [].

(** [timeutils.UtcNow()]. *)
Definition UtcNow : M Time := fun s => (inr (now s), s).

(** Modelled from the spec: [db.OpsLog.LogEvent] is not among the sources.
    Section 6: "Audit/event log sink: append-only LogEvent(entity, action,
    payload)". It returns nothing. *)
Definition LogEvent (objId action : string) : M unit :=
  modify (fun s => set_opslogs (opslogs s ++ [mkOpsLog objId action]) s).

(** ** Row access *)

Fixpoint find_row {R} (p : R -> bool) (l : list R) : option R :=
  match l with
  | [] => None
  | r :: l' => if p r then Some r else find_row p l'
  end.

(** [UPDATE ... WHERE key]: every row selected by [p] is rewritten by [f]. *)
Definition update_rows {R} (p : R -> bool) (f : R -> R) (l : list R) : list R :=
  map (fun r => if p r then f r else r) l.

(** Modelled from the spec: [FetchById] of a model manager is not among the
    sources. Section 6: "FetchById/Name [...] each failing with NotFound or a
    generic storage error": the row with that id, [sql.ErrNoRows] when there
    is none, or the failure of the call. *)
Definition FetchById {R} (what : string) (key : R -> string) (tbl : Store -> list R)
    (id : string) : M R :=
  db_call what ;;;
  s <- get ;;
  match find_row (fun r => String.eqb (key r) id) (tbl s) with
  | Some r => ret r
  | None => fail ErrNoRows
  end.

(** ** The task manager *)

Module taskman.

(** Modelled from the spec: [taskman.TaskManager.NewTask] is not among the
    sources. Section 6: "Async task runtime: NewTask(kind, target, params)
    -> handle, handle.ScheduleRun()". The new row is not yet scheduled. *)
Definition NewTask (name objId : string) (params : option SSyncRange)
    (parentTaskId : string) : M STask :=
  db_call "NewTask" ;;;
  s <- get ;;
  let task := mkTask (length (tasks_tbl s)) name objId params parentTaskId false in
  modify (set_tasks (tasks_tbl s ++ [task])) ;;;
  ret task.

Definition set_Scheduled (t : STask) : STask :=
  mkTask (task_Id t) (task_Name t) (task_ObjId t) (task_SyncRange t)
         (task_ParentTaskId t) true.

(** Modelled from the spec: [ScheduleRun] of a task handle (section 6). *)
Definition ScheduleRun (task : STask) : M unit :=
  db_call "ScheduleRun" ;;;
  modify (fun s => set_tasks (update_rows (fun t => Nat.eqb (task_Id t) (task_Id task))
                                          set_Scheduled (tasks_tbl s)) s).

End taskman.

(** ** Cloudprovider-region bindings *)

Module Cloudproviderregion.

Definition same_row (a b : SCloudproviderregion) : bool :=
  String.eqb (cpr_CloudproviderId a) (cpr_CloudproviderId b)
  && String.eqb (cpr_CloudregionId a) (cpr_CloudregionId b).

Definition set_SyncStatus (st : TSyncStatus) (r : SCloudproviderregion)
    : SCloudproviderregion :=
  mkCloudproviderregion (cpr_CloudproviderId r) (cpr_CloudregionId r)
                        (cpr_Enabled r) st.

(** Modelled from the spec: [db.Update] is not among the sources. Section 6:
    "Persistence gateway: [...] Update(mutatorFn)", failing with "a generic
    storage error": the mutator's assignments are written to the row of
    [self]. *)
Definition Update (self : SCloudproviderregion)
    (f : SCloudproviderregion -> SCloudproviderregion) : M SCloudproviderregion :=
  db_call "db.Update" ;;;
  modify (fun s => set_cloudproviderregions
                     (update_rows (same_row self) f (cloudproviderregions_tbl s)) s) ;;;
  ret (f self).

(** Whether the binding is within the scope of a request: there is no
    scope, the scope lists no region, or the region of the binding is among
    the regions of the scope. It is the test [len(regionIds) == 0 ||
    utils.IsInStringArray(cprs[i].CloudregionId, regionIds)] that
    [syncCloudproviderRegions] applies to the bindings it submits. *)
Definition in_scope (self : SCloudproviderregion) (syncRange : option SSyncRange) : bool :=
  match syncRange with
  | None => true
  | Some sr =>
      Nat.eqb (length (Region sr)) 0
      || existsb (String.eqb (cpr_CloudregionId self)) (Region sr)
  end.

(** Modelled from the spec: [SCloudproviderregion.markStartingSync] is not
    among the sources. Section 4.3: "idle/queued -> queuing: triggered when
    an account/provider-level sync request begins propagating to children;
    requires the entity to be enabled; idempotent if already queuing".
    Section 2: the scope is normalised "into canonical region-id sets used
    to filter which children are synced", and section 4.4 speaks of "each
    enabled child provider/region within scope": a binding outside the
    scope is left as it is. *)
Definition markStartingSync (self : SCloudproviderregion) (syncRange : option SSyncRange)
    : M SCloudproviderregion :=
  if negb (cpr_Enabled self) then fail (ErrOther "disabled")
  else if negb (in_scope self syncRange) then ret self
  else Update self (set_SyncStatus CLOUD_PROVIDER_SYNC_STATUS_QUEUING).

(** Modelled from the spec: [SCloudproviderregion.cancelStartingSync] is not
    among the sources. Section 4.3: "a sync still in queuing may be
    cancelled, reverting affected children back to idle without side
    effects". It has the shape of the provider's method of the same name. *)
Definition cancelStartingSync (self : SCloudproviderregion) : M SCloudproviderregion :=
  if status_eqb (cpr_SyncStatus self) CLOUD_PROVIDER_SYNC_STATUS_QUEUING
  then Update self (set_SyncStatus CLOUD_PROVIDER_SYNC_STATUS_IDLE)
  else ret self.

End Cloudproviderregion.

(** ** Cloudaccounts (the part the provider and the task call) *)

Module Cloudaccount.

Definition set_sync (st : TSyncStatus) (lastSync lastEnd : Time) (a : SCloudaccount)
    : SCloudaccount :=
  mkCloudaccount (ca_Id a) (ca_Name a) (ca_Enabled a) st lastSync lastEnd.

(** [db.Update(self, f)] on an account, as for the bindings. *)
Definition Update (self : SCloudaccount) (f : SCloudaccount -> SCloudaccount)
    : M SCloudaccount :=
  db_call "db.Update" ;;;
  modify (fun s => set_cloudaccounts
                     (update_rows (fun r => String.eqb (ca_Id r) (ca_Id self)) f
                                  (cloudaccounts_tbl s)) s) ;;;
  ret (f self).

(** The children of an account: the cloudproviders that belong to it. *)
Definition providers_of (accountId : string) (s : Store) : list SCloudprovider :=
  filter (fun p => String.eqb (CloudaccountId p) accountId) (cloudproviders_tbl s).

Definition children_idle (accountId : string) (s : Store) : bool :=
  forallb (fun p => is_idle (SyncStatus p)) (providers_of accountId s).

(** Modelled from the spec: [SCloudaccount.MarkSyncing] is not among the
    sources. Section 4.3: "queued -> syncing: recorded when work actually
    starts; sets last-sync-start timestamp, clears last-sync-end". The
    caller drops its error. *)
Definition MarkSyncing (self : SCloudaccount) : M SCloudaccount :=
  t <- UtcNow ;;
  Update self (set_sync CLOUD_PROVIDER_SYNC_STATUS_SYNCING t time_zero).

(** Modelled from the spec: [SCloudaccount.MarkEndSyncWithLock] is not among
    the sources. Section 4.3: "syncing -> idle: recorded on completion; sets
    last-sync-end timestamp. Only transitions if all children of this entity
    have themselves returned to idle (parent completion is gated on child
    completion)". The children are read from the store, as the provider's
    [getSyncStatus2] does. *)
Definition MarkEndSyncWithLock (self : SCloudaccount) : M SCloudaccount :=
  s <- get ;;
  if children_idle (ca_Id self) s
  then t <- UtcNow ;;
       Update self (fun a => set_sync CLOUD_PROVIDER_SYNC_STATUS_IDLE (ca_LastSync a) t a)
  else ret self.

End Cloudaccount.

(** ** Cloudproviders *)

Module Cloudprovider.

Definition set_SyncStatus (st : TSyncStatus) (p : SCloudprovider) : SCloudprovider :=
  mkCloudprovider (Id p) (Name p) (Enabled p) st (LastSync p) (LastSyncEndAt p)
                  (CloudaccountId p).

Definition set_LastSync (t : Time) (p : SCloudprovider) : SCloudprovider :=
  mkCloudprovider (Id p) (Name p) (Enabled p) (SyncStatus p) t (LastSyncEndAt p)
                  (CloudaccountId p).

Definition set_LastSyncEndAt (t : Time) (p : SCloudprovider) : SCloudprovider :=
  mkCloudprovider (Id p) (Name p) (Enabled p) (SyncStatus p) (LastSync p) t
                  (CloudaccountId p).

Definition same_row (self r : SCloudprovider) : bool := String.eqb (Id r) (Id self).

(** [db.Update(self, f)], as for the bindings: [f] assigns fields of [self];
    the assignments are written to the row of [self]. *)
Definition Update (self : SCloudprovider) (f : SCloudprovider -> SCloudprovider)
    : M SCloudprovider :=
  db_call "db.Update" ;;;
  modify (fun s => set_cloudproviders
                     (update_rows (same_row self) f (cloudproviders_tbl s)) s) ;;;
  ret (f self).

Definition GetEnabled (self : SCloudprovider) : bool := Enabled self.

(** [GetCloudaccount]. *)
Definition GetCloudaccount (self : SCloudprovider) : M SCloudaccount :=
  catch (FetchById "FetchById" ca_Id cloudaccounts_tbl (CloudaccountId self))
        (fun r => match r with
                  | inl err => fail (Wrap err "FetchById")
                  | inr obj => ret obj
                  end).

Definition is_child (self : SCloudprovider) (r : SCloudproviderregion) : bool :=
  String.eqb (cpr_CloudproviderId r) (Id self).

(** [GetCloudproviderRegions]: the bindings of this provider, enabled or
    not, idle or not. [CloudproviderRegionManager.fetchRecordsByQuery] gives
    no rows when the query fails, as [SCloudproviderManager.fetchRecordsByQuery]
    does. *)
Definition GetCloudproviderRegions (self : SCloudprovider) : M (list SCloudproviderregion) :=
  catch (db_call "FetchModelObjects")
        (fun r => match r with
                  | inl _ => ret []
                  | inr _ => s <- get ;;
                             ret (filter (is_child self) (cloudproviderregions_tbl s))
                  end).

(** [getSyncStatus2]: the number of bindings of this provider that are not
    idle decides; a failed count reads as [error]. *)
Definition getSyncStatus2 (self : SCloudprovider) : M TSyncStatus :=
  catch (db_call "CountWithError")
        (fun r => match r with
                  | inl _ => ret CLOUD_PROVIDER_SYNC_STATUS_ERROR
                  | inr _ =>
                      s <- get ;;
                      let cnt := length (filter (fun c => is_child self c
                                                          && negb (is_idle (cpr_SyncStatus c)))
                                                (cloudproviderregions_tbl s)) in
                      if (0 <? cnt)%nat
                      then ret CLOUD_PROVIDER_SYNC_STATUS_SYNCING
                      else ret CLOUD_PROVIDER_SYNC_STATUS_IDLE
                  end).

(** The loop [for i := range cprs { err := f(cprs[i]); if err != nil
    { return errors.Wrap(err, msg) } }]. *)
Fixpoint for_each_cpr (f : SCloudproviderregion -> M SCloudproviderregion) (msg : string)
    (cprs : list SCloudproviderregion) : M unit :=
  match cprs with
  | [] => ret tt
  | c :: rest =>
      catch (f c) (fun r => match r with
                            | inl err => fail (Wrap err msg)
                            | inr _ => for_each_cpr f msg rest
                            end)
  end.

Definition markStartingSync (self : SCloudprovider) (syncRange : option SSyncRange)
    : M SCloudprovider :=
  catch (Update self (set_SyncStatus CLOUD_PROVIDER_SYNC_STATUS_QUEUING))
        (fun r => match r with
                  | inl err => fail (Wrap err "db.Update")
                  | inr self' =>
                      cprs <- GetCloudproviderRegions self' ;;
                      for_each_cpr (fun c => if cpr_Enabled c
                                             then Cloudproviderregion.markStartingSync c syncRange
                                             else ret c)
                                   "cprs[i].markStartingSync" cprs ;;;
                      ret self'
                  end).

Definition markStartSync (self : SCloudprovider) (syncRange : option SSyncRange)
    : M SCloudprovider :=
  catch (Update self (set_SyncStatus CLOUD_PROVIDER_SYNC_STATUS_QUEUED))
        (fun r => match r with
                  | inl err => fail (Wrap err "db.Update")
                  | inr self' =>
                      cprs <- GetCloudproviderRegions self' ;;
                      for_each_cpr (fun c => if cpr_Enabled c
                                             then Cloudproviderregion.markStartingSync c syncRange
                                             else ret c)
                                   "cprs[i].markStartingSync" cprs ;;;
                      ret self'
                  end).

Definition markSyncing (self : SCloudprovider) : M SCloudprovider :=
  t <- UtcNow ;;
  Update self (fun p => set_LastSyncEndAt time_zero
                          (set_LastSync t
                             (set_SyncStatus CLOUD_PROVIDER_SYNC_STATUS_SYNCING p))).

Definition markEndSync (self : SCloudprovider) : M SCloudprovider :=
  t <- UtcNow ;;
  catch (Update self (fun p => set_LastSyncEndAt t
                                 (set_SyncStatus CLOUD_PROVIDER_SYNC_STATUS_IDLE p)))
        (fun r => match r with
                  | inl err => fail (Wrap err "markEndSync")
                  | inr self' => ret self'
                  end).

(** The locked part of [markEndSyncWithLock] (the function literal). *)
Definition markEndSyncLocked (self : SCloudprovider) : M SCloudprovider :=
  if status_eqb (SyncStatus self) CLOUD_PROVIDER_SYNC_STATUS_IDLE then ret self
  else
    st <- getSyncStatus2 self ;;
    if negb (status_eqb st CLOUD_PROVIDER_SYNC_STATUS_IDLE) then ret self
    else markEndSync self.

Definition markEndSyncWithLock (self : SCloudprovider) : M SCloudprovider :=
  self' <- markEndSyncLocked self ;;
  catch (GetCloudaccount self')
        (fun r => match r with
                  | inl err => fail (Wrap err "GetCloudaccount")
                  | inr account =>
                      Cloudaccount.MarkEndSyncWithLock account ;;;
                      ret self'
                  end).

Definition cancelStartingSync (self : SCloudprovider) : M SCloudprovider :=
  if status_eqb (SyncStatus self) CLOUD_PROVIDER_SYNC_STATUS_QUEUING then
    cprs <- GetCloudproviderRegions self ;;
    for_each_cpr Cloudproviderregion.cancelStartingSync "cprs[i].cancelStartingSync" cprs ;;;
    catch (Update self (set_SyncStatus CLOUD_PROVIDER_SYNC_STATUS_IDLE))
          (fun r => match r with
                    | inl err => fail (Wrap err "db.Update")
                    | inr self' => ret self'
                    end)
  else ret self.

Section Requests.

(** [SSyncableBaseResource.CanSync] (the re-entrancy and rate guard) is
    declared outside these sources: a parameter, free to read the
    provider's sync fields, the clock and the options. *)
Variable CanSync : SCloudprovider -> Store -> bool.

(** [SEnabledStatusStandaloneResourceBase.ValidateDeleteCondition], the
    check of the embedded base type, declared outside these sources. *)
Variable base_ValidateDeleteCondition : SCloudprovider -> M unit.

Definition ValidateDeleteCondition (self : SCloudprovider) : M unit :=
  if GetEnabled self then fail (InvalidStatusError "provider is enabled")
  else if negb (status_eqb (SyncStatus self) CLOUD_PROVIDER_SYNC_STATUS_IDLE)
  then fail (InvalidStatusError "provider is not idle")
  else base_ValidateDeleteCondition self.

Definition StartSyncCloudProviderInfoTask (self : SCloudprovider)
    (syncRange : option SSyncRange) (parentTaskId : string) : M unit :=
  catch (taskman.NewTask "CloudProviderSyncInfoTask" (Id self) syncRange parentTaskId)
        (fun r => match r with
                  | inl err => fail (Wrap err "NewTask")
                  | inr task =>
                      catch (GetCloudaccount self)
                            (fun a => match a with
                                      | inr cloudaccount =>
                                          catch (Cloudaccount.MarkSyncing cloudaccount)
                                                (fun _ => ret tt)
                                      | inl _ => ret tt
                                      end) ;;;
                      catch (markStartSync self syncRange) (fun _ => ret tt) ;;;
                      LogEvent (Id self) ACT_SYNC_HOST_START ;;;
                      taskman.ScheduleRun task
                  end).

(** The scope [PerformSync] hands on: [DeepSync] is set when the request
    asks for a full sync or names any region, zone, host or resource. *)
Definition PerformSync_range (input : SSyncRange) : SSyncRange :=
  if FullSync input
     || (0 <? length (Region input))%nat || (0 <? length (Zone input))%nat
     || (0 <? length (Host input))%nat || (0 <? length (Resources input))%nat
  then set_DeepSync true input
  else input.

Definition PerformSync (self : SCloudprovider) (input : SSyncRange) : M unit :=
  if negb (GetEnabled self) then fail (InvalidStatusError "Cloudprovider disabled")
  else
    catch (GetCloudaccount self)
          (fun r => match r with
                    | inl err => fail (Wrap err "GetCloudaccount")
                    | inr account =>
                        if negb (ca_Enabled account)
                        then fail (InvalidStatusError "Cloudaccount disabled")
                        else
                          let syncRange := PerformSync_range input in
                          s <- get ;;
                          if CanSync self s || Force syncRange
                          then StartSyncCloudProviderInfoTask self (Some syncRange) ""
                          else fail (InvalidStatusError "Unable to synchronize frequently")
                    end).

End Requests.

End Cloudprovider.

(** ** The comparator and the result of a reconciliation pass *)

Module compare.

(** Modelled from the spec: [compare.SyncResult] is not among the sources.
    Section 3: "accumulator of counts {added, updated, deleted, add-errors,
    update-errors, delete-errors} for one Comparator-driven reconciliation
    pass"; [Error] records an error of the pass as a whole. *)
Record SyncResult : Type := mkSyncResult {
  AddCnt : nat;
  AddErrCnt : nat;
  UpdateCnt : nat;
  UpdateErrCnt : nat;
  DelCnt : nat;
  DelErrCnt : nat;
  errors : list error
}.

Definition empty : SyncResult := mkSyncResult 0 0 0 0 0 0 [].

Definition Error (err : error) (r : SyncResult) : SyncResult :=
  mkSyncResult (AddCnt r) (AddErrCnt r) (UpdateCnt r) (UpdateErrCnt r)
               (DelCnt r) (DelErrCnt r) (errors r ++ [err]).

Definition Add (r : SyncResult) : SyncResult :=
  mkSyncResult (S (AddCnt r)) (AddErrCnt r) (UpdateCnt r) (UpdateErrCnt r)
               (DelCnt r) (DelErrCnt r) (errors r).

Definition AddError (err : error) (r : SyncResult) : SyncResult :=
  mkSyncResult (AddCnt r) (S (AddErrCnt r)) (UpdateCnt r) (UpdateErrCnt r)
               (DelCnt r) (DelErrCnt r) (errors r ++ [err]).

Definition Update (r : SyncResult) : SyncResult :=
  mkSyncResult (AddCnt r) (AddErrCnt r) (S (UpdateCnt r)) (UpdateErrCnt r)
               (DelCnt r) (DelErrCnt r) (errors r).

Definition UpdateError (err : error) (r : SyncResult) : SyncResult :=
  mkSyncResult (AddCnt r) (AddErrCnt r) (UpdateCnt r) (S (UpdateErrCnt r))
               (DelCnt r) (DelErrCnt r) (errors r ++ [err]).

Definition Delete (r : SyncResult) : SyncResult :=
  mkSyncResult (AddCnt r) (AddErrCnt r) (UpdateCnt r) (UpdateErrCnt r)
               (S (DelCnt r)) (DelErrCnt r) (errors r).

Definition DeleteError (err : error) (r : SyncResult) : SyncResult :=
  mkSyncResult (AddCnt r) (AddErrCnt r) (UpdateCnt r) (UpdateErrCnt r)
               (DelCnt r) (S (DelErrCnt r)) (errors r ++ [err]).

Section Sets.

(** Local records and remote records, each with its matching key; a key
    that cannot be read is [None]. *)
Variables L R : Type.
Variable GetExternalId : L -> option string.
Variable GetGlobalId : R -> option string.

(** The four partitions, in the order of [CompareSets]'s out-parameters. *)
Record Partition : Type := mkPartition {
  removed : list L;
  commondb : list L;
  commonext : list R;
  added : list R
}.

(** Read the key of every element, or fail. *)
Fixpoint keyed {A} (key : A -> option string) (l : list A) : option (list (string * A)) :=
  match l with
  | [] => Some []
  | a :: l' =>
      match key a, keyed key l' with
      | Some k, Some kl => Some ((k, a) :: kl)
      | _, _ => None
      end
  end.

(** The first remote record whose key is exactly [k], taken out of the
    list. *)
Fixpoint take_match (k : string) (ext : list (string * R))
    : option (R * list (string * R)) :=
  match ext with
  | [] => None
  | (k', r) :: ext' =>
      if String.eqb k k' then Some (r, ext')
      else match take_match k ext' with
           | Some (m, rest) => Some (m, (k', r) :: rest)
           | None => None
           end
  end.

(** Each local record, in order, is paired with a remote record of the
    same key that is still unpaired, or else it is [removed]; the remote
    records left unpaired are [added]. *)
Fixpoint pair_up (db : list (string * L)) (ext : list (string * R)) : Partition :=
  match db with
  | [] => mkPartition [] [] [] (map snd ext)
  | (k, l) :: db' =>
      match take_match k ext with
      | Some (r, ext') =>
          let p := pair_up db' ext' in
          mkPartition (removed p) (l :: commondb p) (r :: commonext p) (added p)
      | None =>
          let p := pair_up db' ext in
          mkPartition (l :: removed p) (commondb p) (commonext p) (added p)
      end
  end.

(** Modelled from the spec: [compare.CompareSets] is not among the
    sources. Section 4.1: "given an ordered collection of LocalRecord and
    an ordered collection of RemoteRecord, both exposing a stable matching
    key [...], partitions into: removed: LocalRecord present locally,
    absent remotely. added: RemoteRecord present remotely, absent locally.
    commonLocal / commonRemote: pairs matched by key, aligned by index.
    Matching is by exact key equality; no fuzzy matching. Fails with
    ComparisonError if key extraction fails for any element". *)
Definition CompareSets (dbSet : list L) (extSet : list R) : error + Partition :=
  match keyed GetExternalId dbSet, keyed GetGlobalId extSet with
  | Some db, Some ext => inr (pair_up db ext)
  | _, _ => inl (ComparisonError "key")
  end.

End Sets.

End compare.

(** ** Zones *)

Module Zones.

Inductive TriState : Type := tristate_None | tristate_True | tristate_False.

(** [api.ZoneGeneralUsage]. *)
Record ZoneGeneralUsage : Type := mkUsage {
  Hosts : Z;
  HostsEnabled : Z;
  Baremetals : Z;
  BaremetalsEnabled : Z;
  Wires : Z;
  Networks : Z;
  Storages : Z
}.

(** Modelled from the spec: [ZoneGeneralUsage.IsEmpty] is not among the
    sources. Section 4.2, step 4: the deletion precondition is "not in use -
    no dependent resources reference it": no host, wire, network or storage
    is counted. *)
Definition IsEmpty (usage : ZoneGeneralUsage) : bool :=
  negb (0 <? Hosts usage)%Z && negb (0 <? Wires usage)%Z
  && negb (0 <? Networks usage)%Z && negb (0 <? Storages usage)%Z.

Definition GetCloudRegionId (zone : SZone) : string :=
  if Nat.eqb (String.length (z_CloudregionId zone)) 0 then "default"
  else z_CloudregionId zone.

Definition GetRegion (zone : SZone) : M SCloudregion :=
  FetchById "FetchById" cr_Id cloudregions_tbl (GetCloudRegionId zone).

(** The rows [HostCount] counts. *)
Definition HostCount_filter (zone : SZone) (status hostStatus : string)
    (enabled : TriState) (hostType : string) (isBaremetal : TriState) (h : SHost) : bool :=
  String.eqb (h_ZoneId h) (z_Id zone)
  && (if (0 <? String.length status)%nat then String.eqb (h_Status h) status else true)
  && (if (0 <? String.length hostStatus)%nat then String.eqb (h_HostStatus h) hostStatus
      else true)
  && match enabled with
     | tristate_True => h_Enabled h
     | tristate_False => negb (h_Enabled h)
     | tristate_None => true
     end
  && (if (0 <? String.length hostType)%nat then String.eqb (h_HostType h) hostType else true)
  && match isBaremetal with
     | tristate_True => h_IsBaremetal h
     | tristate_False => negb (h_IsBaremetal h)
     | tristate_None => true
     end.

Definition count_rows {R} (p : R -> bool) (l : list R) : Z :=
  Z.of_nat (length (filter p l)).

(** [db.UpdateWithLock(ctx, self, f)] on a zone, as [db.Update]. *)
Definition Update (self : SZone) (f : SZone -> SZone) : M SZone :=
  db_call "db.Update" ;;;
  modify (fun s => set_zones (update_rows (fun r => String.eqb (z_Id r) (z_Id self)) f
                                          (zones_tbl s)) s) ;;;
  ret (f self).

(** Modelled from the spec: [Delete] of the zone's base type is not among
    the sources. Section 4.2, step 4: "if satisfied, delete": the row is no
    longer among the local records. *)
Definition Delete (self : SZone) : M unit :=
  db_call "Delete" ;;;
  modify (fun s => set_zones (filter (fun r => negb (String.eqb (z_Id r) (z_Id self)))
                                     (zones_tbl s)) s).

(** Modelled from the spec: [SCloudregion.GetZones] is not among the
    sources. Section 4.2, step 2: "Fetch all LocalRecords under
    parentScope". *)
Definition GetZones (region : SCloudregion) : M (list SZone) :=
  db_call "GetZones" ;;;
  s <- get ;;
  ret (filter (fun z => String.eqb (z_CloudregionId z) (cr_Id region)) (zones_tbl s)).

(** [SyncI18ns] and [RemoveI18ns] write a table that is not modelled; only
    their outcome is. *)
Definition SyncI18ns : M unit := db_call "SyncI18ns".
Definition RemoveI18ns : M unit := catch (db_call "RemoveI18ns") (fun _ => ret tt).

Section Sync.

(** What [CountWithError] returns as the count when the query fails. *)
Variable count_on_error : Z.

(** [getNetworkCount(nil, rbacscope.ScopeSystem, nil, zone)], a helper of
    the networks model: the number of networks of the zone. *)
Variable networkCount : SZone -> Store -> Z.

(** [SStandaloneResourceBase.ValidateDeleteCondition], the check of the
    embedded base type: a reading of the store. *)
Variable base_ValidateDeleteCondition : SZone -> Store -> option error.

(** [db.GenerateName]: the name it picks, and the id [Insert] gives the
    new row. *)
Variable UniqueName : string -> Store -> string.
Variable NewId : Store -> string.

Definition CountWithError {R} (what : string) (p : R -> bool) (tbl : Store -> list R)
    : M Z :=
  catch (db_call what)
        (fun r => match r with
                  | inl err => fail err
                  | inr _ => s <- get ;; ret (count_rows p (tbl s))
                  end).

(** [n, _ = q.CountWithError()]: the error is dropped, the count kept. *)
Definition count_dropping_error (c : M Z) : M Z :=
  catch c (fun r => match r with
                    | inl _ => ret count_on_error
                    | inr n => ret n
                    end).

Definition HostCount (zone : SZone) (status hostStatus : string) (enabled : TriState)
    (hostType : string) (isBaremetal : TriState) : M Z :=
  CountWithError "HostCount"
                 (HostCount_filter zone status hostStatus enabled hostType isBaremetal)
                 hosts_tbl.

Definition getWireCount (zone : SZone) : M Z :=
  CountWithError "getWireCount" (fun w => String.eqb (w_ZoneId w) (z_Id zone)) wires_tbl.

Definition getStorageCount (zone : SZone) : M Z :=
  CountWithError "getStorageCount" (fun st => String.eqb (st_ZoneId st) (z_Id zone))
                 storages_tbl.

Definition getNetworkCount (zone : SZone) : M Z :=
  catch (db_call "getNetworkCount")
        (fun r => match r with
                  | inl err => fail err
                  | inr _ => s <- get ;; ret (networkCount zone s)
                  end).

Definition GeneralUsage (zone : SZone) : M ZoneGeneralUsage :=
  hosts <- count_dropping_error
             (HostCount zone "" "" tristate_None "" tristate_None) ;;
  hostsEnabled <- count_dropping_error
                    (HostCount zone "" "" tristate_True "" tristate_None) ;;
  baremetals <- count_dropping_error
                  (HostCount zone "" "" tristate_None "" tristate_True) ;;
  baremetalsEnabled <- count_dropping_error
                         (HostCount zone "" "" tristate_True "" tristate_True) ;;
  wires <- count_dropping_error (getWireCount zone) ;;
  networks <- count_dropping_error (getNetworkCount zone) ;;
  storages <- count_dropping_error (getStorageCount zone) ;;
  ret (mkUsage hosts hostsEnabled baremetals baremetalsEnabled wires networks storages).

Definition ValidateDeleteCondition (zone : SZone) : M unit :=
  usage <- GeneralUsage zone ;;
  if negb (IsEmpty usage) then fail (NotEmptyError ("not empty zone: " ++ z_Id zone)%string)
  else fun s => match base_ValidateDeleteCondition zone s with
                | Some err => (inl err, s)
                | None => (inr tt, s)
                end.

Definition syncRemoveCloudZone (self : SZone) : M unit :=
  catch (ValidateDeleteCondition self)
        (fun r => match r with
                  | inl err => fail (Wrap err "ValidateDeleteCondition")
                  | inr _ => RemoveI18ns ;;; Delete self
                  end).

Definition syncWithCloudZone (self : SZone) (extZone : ICloudZone) (region : SCloudregion)
    : M SZone :=
  catch SyncI18ns
        (fun r => match r with
                  | inl err => fail (Wrap err "SyncI18ns")
                  | inr _ =>
                      self' <- Update self
                                 (fun z => mkZone (z_Id z) (GetName extZone) (z_ExternalId z)
                                                  (GetStatus extZone) (IsEmulated extZone)
                                                  (cr_Id region)) ;;
                      LogEvent (z_Id self') "update" ;;;
                      ret self'
                  end).

(** Modelled from the spec: [TableSpec().Insert] is not among the sources.
    Section 4.2, step 6: "insert a new LocalRecord"; the row gets its id on
    the way in. *)
Definition Insert (zone : SZone) : M SZone :=
  db_call "Insert" ;;;
  s <- get ;;
  let zone' := mkZone (NewId s) (z_Name zone) (z_ExternalId zone) (z_Status zone)
                      (z_IsEmulated zone) (z_CloudregionId zone) in
  modify (set_zones (zones_tbl s ++ [zone'])) ;;;
  ret zone'.

(** Modelled from the spec: [db.GenerateName] is not among the sources.
    Section 4.2, step 6: "generate a collision-free local name". *)
Definition GenerateName (hint : string) : M string :=
  db_call "GenerateName" ;;;
  s <- get ;;
  ret (UniqueName hint s).

Definition newFromCloudZone (extZone : ICloudZone) (region : SCloudregion) : M SZone :=
  let zone := mkZone "" "" (match GetGlobalId extZone with Some g => g | None => "" end)
                     (GetStatus extZone) (IsEmulated extZone) (cr_Id region) in
  catch (newName <- GenerateName (GetName extZone) ;;
         Insert (mkZone (z_Id zone) newName (z_ExternalId zone) (z_Status zone)
                        (z_IsEmulated zone) (z_CloudregionId zone)))
        (fun r => match r with
                  | inl err => fail (Wrap err "Insert")
                  | inr zone' =>
                      catch SyncI18ns
                            (fun r2 => match r2 with
                                       | inl err => fail (Wrap err "SyncI18ns")
                                       | inr _ => LogEvent (z_Id zone') "create" ;;;
                                                  ret zone'
                                       end)
                  end).

(** What a pass hands back: the local and the remote records that are in
    step, and the counts. *)
Record SyncOut : Type := mkSyncOut {
  localZones : list SZone;
  remoteZones : list ICloudZone;
  syncResult : compare.SyncResult
}.

(** The loop over [removed]. *)
Fixpoint sync_removed (removed : list SZone) (out : SyncOut) (s : Store)
    : SyncOut * Store :=
  match removed with
  | [] => (out, s)
  | z :: rest =>
      match syncRemoveCloudZone z s with
      | (inl err, s') =>
          sync_removed rest
            (mkSyncOut (localZones out) (remoteZones out)
                       (compare.DeleteError err (syncResult out))) s'
      | (inr _, s') =>
          sync_removed rest
            (mkSyncOut (localZones out) (remoteZones out)
                       (compare.Delete (syncResult out))) s'
      end
  end.

(** The loop over the matched pairs, [commondb[i]] with [commonext[i]]
    ([syncMetadata] writes the metadata table, not modelled). *)
Fixpoint sync_common (region : SCloudregion) (common : list (SZone * ICloudZone))
    (out : SyncOut) (s : Store) : SyncOut * Store :=
  match common with
  | [] => (out, s)
  | (z, ext) :: rest =>
      match syncWithCloudZone z ext region s with
      | (inl err, s') =>
          sync_common region rest
            (mkSyncOut (localZones out) (remoteZones out)
                       (compare.UpdateError err (syncResult out))) s'
      | (inr z', s') =>
          sync_common region rest
            (mkSyncOut (localZones out ++ [z']) (remoteZones out ++ [ext])
                       (compare.Update (syncResult out))) s'
      end
  end.

(** The loop over [added]. *)
Fixpoint sync_added (region : SCloudregion) (added : list ICloudZone)
    (out : SyncOut) (s : Store) : SyncOut * Store :=
  match added with
  | [] => (out, s)
  | ext :: rest =>
      match newFromCloudZone ext region s with
      | (inl err, s') =>
          sync_added region rest
            (mkSyncOut (localZones out) (remoteZones out)
                       (compare.AddError err (syncResult out))) s'
      | (inr new, s') =>
          sync_added region rest
            (mkSyncOut (localZones out ++ [new]) (remoteZones out ++ [ext])
                       (compare.Add (syncResult out))) s'
      end
  end.

Definition CompareZones (dbZones : list SZone) (zones : list ICloudZone)
    : error + compare.Partition SZone ICloudZone :=
  compare.CompareSets (fun z => Some (z_ExternalId z)) GetGlobalId dbZones zones.

Definition SyncZones (region : SCloudregion) (zones : list ICloudZone) (s : Store)
    : SyncOut * Store :=
  match Zones.GetZones region s with
  | (inl err, s1) => (mkSyncOut [] [] (compare.Error err compare.empty), s1)
  | (inr dbZones, s1) =>
      match CompareZones dbZones zones with
      | inl err => (mkSyncOut [] [] (compare.Error err compare.empty), s1)
      | inr p =>
          let (out1, s2) := sync_removed (compare.removed p)
                                         (mkSyncOut [] [] compare.empty) s1 in
          let (out2, s3) := sync_common region
                                        (combine (compare.commondb p) (compare.commonext p))
                                        out1 s2 in
          sync_added region (compare.added p) out2 s3
      end
  end.

End Sync.

End Zones.

(** ** Sync ranges and their normalisation *)

Module SyncRange.

Definition set_Region (v : list string) (r : SSyncRange) : SSyncRange :=
  mkSyncRange (Force r) (FullSync r) (DeepSync r) v (Zone r) (Host r) (Resources r).

Definition set_Zone (v : list string) (r : SSyncRange) : SSyncRange :=
  mkSyncRange (Force r) (FullSync r) (DeepSync r) (Region r) v (Host r) (Resources r).

Definition set_Host (v : list string) (r : SSyncRange) : SSyncRange :=
  mkSyncRange (Force r) (FullSync r) (DeepSync r) (Region r) (Zone r) v (Resources r).

(** [utils.IsInStringArray]. *)
Definition IsInStringArray (x : string) (l : list string) : bool :=
  existsb (String.eqb x) l.

Definition NeedSyncResource (sr : SSyncRange) (res : string) : bool :=
  if FullSync sr then true
  else if Nat.eqb (length (Resources sr)) 0 then true
  else IsInStringArray res (Resources sr).

Definition NeedSyncInfo (sr : SSyncRange) : bool :=
  if FullSync sr then true
  else if (0 <? length (Region sr))%nat || (0 <? length (Zone sr))%nat
          || (0 <? length (Host sr))%nat || (0 <? length (Resources sr))%nat
  then true
  else false.

(** The row an identifier names: the row with that id, or else the first
    row with that name. *)
Definition by_id_or_name {R} (key name : R -> string) (l : list R) (idStr : string)
    : option R :=
  match find_row (fun r => String.eqb (key r) idStr) l with
  | Some r => Some r
  | None => find_row (fun r => String.eqb (name r) idStr) l
  end.

(** Modelled from the spec: [FetchByIdOrName] of a model manager is not
    among the sources. Section 4.5: identifiers are given "by id or by human
    name"; section 6: "FetchById/Name [...] each failing with NotFound or a
    generic storage error". *)
Definition FetchByIdOrName {R} (what : string) (key name : R -> string)
    (tbl : Store -> list R) (idStr : string) : M R :=
  db_call what ;;;
  s <- get ;;
  match by_id_or_name key name (tbl s) idStr with
  | Some r => ret r
  | None => fail ErrNoRows
  end.

(** Modelled from the spec: [SHost.GetZone] is not among the sources; the
    owning zone of a host (section 4.5) is the zone its [zone_id] names. *)
Definition Host_GetZone (host : SHost) : M SZone :=
  FetchById "FetchById" z_Id zones_tbl (h_ZoneId host).

Definition append_missing (x : string) (l : list string) : list string :=
  if negb (IsInStringArray x l) then l ++ [x] else l.

(** The loop of [normalizeRegionIds]: [done] are the entries already
    rewritten, [todo] those from index [i] on. *)
Fixpoint normalizeRegionIds_loop (done todo : list string) (s : Store)
    : (option error * list string) * Store :=
  match todo with
  | [] => ((None, done), s)
  | x :: rest =>
      match FetchByIdOrName "CloudregionManager" cr_Id cr_Name cloudregions_tbl x s with
      | (inl err, s') =>
          ((Some (if is_ErrNoRows err
                  then ResourceNotFoundError ("Region " ++ x ++ " not found")%string
                  else err),
            done ++ x :: rest), s')
      | (inr obj, s') => normalizeRegionIds_loop (done ++ [cr_Id obj]) rest s'
      end
  end.

Definition normalizeRegionIds (sr : SSyncRange) (s : Store)
    : (option error * SSyncRange) * Store :=
  let '((e, regions), s') := normalizeRegionIds_loop [] (Region sr) s in
  ((e, set_Region regions sr), s').

(** The loop of [normalizeZoneIds]; [regions] is [sr.Region], which grows. *)
Fixpoint normalizeZoneIds_loop (done todo : list string) (regions : list string) (s : Store)
    : (option error * (list string * list string)) * Store :=
  match todo with
  | [] => ((None, (done, regions)), s)
  | x :: rest =>
      match FetchByIdOrName "ZoneManager" z_Id z_Name zones_tbl x s with
      | (inl err, s') =>
          ((Some (if is_ErrNoRows err
                  then ResourceNotFoundError ("Zone " ++ x ++ " not found")%string
                  else err),
            (done ++ x :: rest, regions)), s')
      | (inr zone, s') =>
          match Zones.GetRegion zone s' with
          | (inl _, s'') => normalizeZoneIds_loop (done ++ [x]) rest regions s''
          | (inr region, s'') =>
              normalizeZoneIds_loop (done ++ [z_Id zone]) rest
                                    (append_missing (cr_Id region) regions) s''
          end
      end
  end.

Definition normalizeZoneIds (sr : SSyncRange) (s : Store)
    : (option error * SSyncRange) * Store :=
  let '((e, (zones, regions)), s') := normalizeZoneIds_loop [] (Zone sr) (Region sr) s in
  ((e, set_Region regions (set_Zone zones sr)), s').

(** The loop of [normalizeHostIds]; [zones] and [regions] are [sr.Zone] and
    [sr.Region], which grow. *)
Fixpoint normalizeHostIds_loop (done todo : list string) (zones regions : list string)
    (s : Store) : (option error * (list string * list string * list string)) * Store :=
  match todo with
  | [] => ((None, (done, zones, regions)), s)
  | x :: rest =>
      match FetchByIdOrName "HostManager" h_Id h_Name hosts_tbl x s with
      | (inl err, s') =>
          ((Some (if is_ErrNoRows err
                  then ResourceNotFoundError ("Host " ++ x ++ " not found")%string
                  else err),
            (done ++ x :: rest, zones, regions)), s')
      | (inr host, s') =>
          match Host_GetZone host s' with
          | (inl _, s'') => normalizeHostIds_loop (done ++ [x]) rest zones regions s''
          | (inr zone, s'') =>
              match Zones.GetRegion zone s'' with
              | (inl _, s3) => normalizeHostIds_loop (done ++ [x]) rest zones regions s3
              | (inr region, s3) =>
                  normalizeHostIds_loop (done ++ [h_Id host]) rest
                                        (append_missing (z_Id zone) zones)
                                        (append_missing (cr_Id region) regions) s3
              end
          end
      end
  end.

Definition normalizeHostIds (sr : SSyncRange) (s : Store)
    : (option error * SSyncRange) * Store :=
  let '((e, (hosts, zones, regions)), s') :=
    normalizeHostIds_loop [] (Host sr) (Zone sr) (Region sr) s in
  ((e, set_Region regions (set_Zone zones (set_Host hosts sr))), s').

(** [Normalize]: the three steps in turn, the first error ends it; the
    receiver keeps what was rewritten before the error. *)
Definition Normalize (sr : SSyncRange) (s : Store) : (option error * SSyncRange) * Store :=
  let '((e1, sr1), s1) :=
    if (0 <? length (Region sr))%nat then normalizeRegionIds sr s
    else ((None, set_Region [] sr), s) in
  match e1 with
  | Some err => ((Some err, sr1), s1)
  | None =>
      let '((e2, sr2), s2) :=
        if (0 <? length (Zone sr1))%nat then normalizeZoneIds sr1 s1
        else ((None, set_Zone [] sr1), s1) in
      match e2 with
      | Some err => ((Some err, sr2), s2)
      | None =>
          if (0 <? length (Host sr2))%nat then normalizeHostIds sr2 s2
          else ((None, set_Host [] sr2), s2)
      end
  end.

(** *** What the closure properties speak of *)

(** The stored row an id names, and the owner one level up. *)
Definition zone_by_id (s : Store) (id : string) : option SZone :=
  find_row (fun z => String.eqb (z_Id z) id) (zones_tbl s).

Definition host_by_id (s : Store) (id : string) : option SHost :=
  find_row (fun h => String.eqb (h_Id h) id) (hosts_tbl s).

Definition region_of (s : Store) (zone : SZone) : option SCloudregion :=
  find_row (fun r => String.eqb (cr_Id r) (Zones.GetCloudRegionId zone)) (cloudregions_tbl s).

Definition zone_of (s : Store) (host : SHost) : option SZone :=
  find_row (fun z => String.eqb (z_Id z) (h_ZoneId host)) (zones_tbl s).

(** An identifier resolves when some stored row has it as id or as name. *)
Definition resolves {R} (key name : R -> string) (l : list R) (idStr : string) : bool :=
  match by_id_or_name key name l idStr with Some _ => true | None => false end.

(** Every identifier of the three lists of a range resolves. *)
Definition all_resolve (s : Store) (sr : SSyncRange) : bool :=
  forallb (resolves cr_Id cr_Name (cloudregions_tbl s)) (Region sr)
  && forallb (resolves z_Id z_Name (zones_tbl s)) (Zone sr)
  && forallb (resolves h_Id h_Name (hosts_tbl s)) (Host sr).

End SyncRange.

(** ** The account sync task *)

Module CloudAccountSyncInfoTask.

Inductive TaskStatus : Type := task_running | task_complete | task_failed.

(** The task object a stage handler receives as [self]: its id, the
    [sync_range] entry of its parameters, the stage it waits in and whether
    it has ended. *)
Record STaskSelf : Type := mkSelf {
  Params_sync_range : option SSyncRange;
  GetId : string;
  Stage : string;
  Status : TaskStatus
}.

(** Modelled from the spec: [STask.SetStage], [SetStageComplete] and
    [SetStageFailed] are not among the sources. Section 6: "stage callbacks
    OnStage(name)/OnStageFailed(name, err)"; section 4.4: the completion stage
    ends the task, with success or with failure. *)
Definition SetStage (name : string) (self : STaskSelf) : STaskSelf :=
  mkSelf (Params_sync_range self) (GetId self) name (Status self).

Definition SetStageComplete (self : STaskSelf) : STaskSelf :=
  mkSelf (Params_sync_range self) (GetId self) (Stage self) task_complete.

Definition SetStageFailed (self : STaskSelf) : STaskSelf :=
  mkSelf (Params_sync_range self) (GetId self) (Stage self) task_failed.

(** A call whose results the handler drops: only the store it leaves counts. *)
Definition dropping {A} (m : M A) (s : Store) : Store := snd (m s).

(** [logclient.AddActionLogWithStartable]: an entry of the action log. *)
Definition AddActionLog (objId : string) (success : bool) (s : Store) : Store :=
  set_opslogs (opslogs s ++ [mkOpsLog objId (if success then "cloud_sync" else "cloud_sync_fail")]) s.

(** Modelled from the spec: [SCloudaccount.GetEnabledCloudproviders] is not
    among the sources. Section 4.4: "for each enabled child provider". *)
Definition GetEnabledCloudproviders (account : SCloudaccount) (s : Store)
    : list SCloudprovider :=
  filter (fun p => String.eqb (CloudaccountId p) (ca_Id account) && Enabled p)
         (cloudproviders_tbl s).

Section Handlers.

(** [SCloudaccount.SyncCallSyncAccountTask] and [SyncCloudaccountResources]
    are declared outside these sources: any computation on the store. *)
Variable SyncCallSyncAccountTask : SCloudaccount -> M unit.
Variable SyncCloudaccountResources : SCloudaccount -> SSyncRange -> M unit.

Definition OnCloudaccountSyncReadyFailed (self : STaskSelf) (cloudaccount : SCloudaccount)
    (s : Store) : STaskSelf * Store :=
  let s1 := dropping (LogEvent (ca_Id cloudaccount) ACT_SYNC_HOST_FAILED) s in
  let self1 := SetStageFailed self in
  (self1, AddActionLog (ca_Id cloudaccount) false s1).

Definition OnCloudaccountSyncComplete (self : STaskSelf) (cloudaccount : SCloudaccount)
    (s : Store) : STaskSelf * Store :=
  let s1 := dropping (Cloudaccount.MarkEndSyncWithLock cloudaccount) s in
  let s2 := dropping (LogEvent (ca_Id cloudaccount) ACT_SYNC_HOST_COMPLETE) s1 in
  let self1 := SetStageComplete self in
  (self1, AddActionLog (ca_Id cloudaccount) true s2).

Definition OnCloudaccountSyncCompleteFailed (self : STaskSelf) (cloudaccount : SCloudaccount)
    (s : Store) : STaskSelf * Store :=
  let s1 := dropping (Cloudaccount.MarkEndSyncWithLock cloudaccount) s in
  let s2 := dropping (LogEvent (ca_Id cloudaccount) ACT_SYNC_HOST_FAILED) s1 in
  let self1 := SetStageFailed self in
  (self1, AddActionLog (ca_Id cloudaccount) false s2).

(** The loop that starts one sub-task per enabled provider; the error of a
    start is dropped. *)
Fixpoint start_provider_tasks (cloudproviders : list SCloudprovider) (syncRange : SSyncRange)
    (parentTaskId : string) (s : Store) : Store :=
  match cloudproviders with
  | [] => s
  | p :: rest =>
      start_provider_tasks rest syncRange parentTaskId
        (dropping (Cloudprovider.StartSyncCloudProviderInfoTask p (Some syncRange) parentTaskId) s)
  end.

Definition OnCloudaccountSyncReady (self : STaskSelf) (cloudaccount : SCloudaccount)
    (s : Store) : STaskSelf * Store :=
  let syncRange :=
    match Params_sync_range self with
    | Some r => r
    | None => mkSyncRange false true true [] [] [] []
    end in
  if negb (SyncRange.NeedSyncInfo syncRange)
  then OnCloudaccountSyncComplete self cloudaccount s
  else
    let s1 := dropping (SyncCloudaccountResources cloudaccount syncRange) s in
    let cloudproviders := GetEnabledCloudproviders cloudaccount s1 in
    if (0 <? length cloudproviders)%nat
    then
      let self1 := SetStage "on_cloudaccount_sync_complete" self in
      (self1, start_provider_tasks cloudproviders syncRange (GetId self1) s1)
    else OnCloudaccountSyncComplete self cloudaccount s1.

(** The function [OnInit] hands to [taskman.LocalTaskRun]. *)
Definition OnInit_proc (cloudaccount : SCloudaccount) : M unit :=
  catch (SyncCallSyncAccountTask cloudaccount)
        (fun r => match r with
                  | inl err =>
                      catch (Cloudaccount.MarkEndSyncWithLock cloudaccount)
                            (fun _ => fail (Wrap err "SyncCallSyncAccountTask"))
                  | inr _ => ret tt
                  end).

(** Modelled from the spec: [taskman.LocalTaskRun] and the dispatch on the
    stage name are not among the sources. Section 6: "stage callbacks
    OnStage(name)/OnStageFailed(name, err)"; section 9: "stage name strings
    driving on-success/on-failure dispatch": when the function returns, the
    handler named by the stage runs, or on an error the handler named by the
    stage with [Failed] appended. *)
Definition dispatch (self : STaskSelf) (cloudaccount : SCloudaccount) (failed : bool)
    (s : Store) : STaskSelf * Store :=
  if String.eqb (Stage self) "OnCloudaccountSyncReady" then
    if failed then OnCloudaccountSyncReadyFailed self cloudaccount s
    else OnCloudaccountSyncReady self cloudaccount s
  else if String.eqb (Stage self) "on_cloudaccount_sync_complete" then
    if failed then OnCloudaccountSyncCompleteFailed self cloudaccount s
    else OnCloudaccountSyncComplete self cloudaccount s
  else (self, s).

Definition LocalTaskRun (self : STaskSelf) (cloudaccount : SCloudaccount) (proc : M unit)
    (s : Store) : STaskSelf * Store :=
  match proc s with
  | (inl _, s') => dispatch self cloudaccount true s'
  | (inr _, s') => dispatch self cloudaccount false s'
  end.

Definition OnInit (self : STaskSelf) (cloudaccount : SCloudaccount) (s : Store)
    : STaskSelf * Store :=
  let s1 := dropping (LogEvent (ca_Id cloudaccount) ACT_SYNCING_HOST) s in
  let self1 := SetStage "OnCloudaccountSyncReady" self in
  LocalTaskRun self1 cloudaccount (OnInit_proc cloudaccount) s1.

End Handlers.

(** The sync status of the stored row of an account. *)
Definition stored_status (s : Store) (accountId : string) : option TSyncStatus :=
  match find_row (fun a => String.eqb (ca_Id a) accountId) (cloudaccounts_tbl s) with
  | Some a => Some (ca_SyncStatus a)
  | None => None
  end.

End CloudAccountSyncInfoTask.

(** ** Go's [strings.Split] and [strings.Join], for a separator of one byte *)

Module strings.

(** [strings.Split(s, sep)]: the pieces of [s] between the occurrences of
    [sep]; a string with [n] occurrences gives [n + 1] pieces, the empty
    string one empty piece. *)
Fixpoint Split (s : string) (sep : ascii) : list string :=
  match s with
  | EmptyString => [EmptyString]
  | String c s' =>
      if Ascii.eqb c sep then EmptyString :: Split s' sep
      else match Split s' sep with
           | seg :: segs => String c seg :: segs
           | [] => [String c EmptyString]
           end
  end.

(** [strings.Join(elems, sep)]. *)
Definition Join (elems : list string) (sep : ascii) : string :=
  String.concat (String sep EmptyString) elems.

(** [strings.Count(s, sep)]. *)
Fixpoint Count (s : string) (sep : ascii) : nat :=
  match s with
  | EmptyString => 0
  | String c s' => (if Ascii.eqb c sep then 1 else 0) + Count s' sep
  end.

End strings.

(** ** The provider factory of Huawei Cloud
    ([cloudmux/pkg/multicloud/huawei/provider/provider.go]) *)

Module HuaweiProvider.

(** [cloudprovider.SCloudaccountCredential], [cloudprovider.SCloudaccount]
    and [cloudprovider.SProviderInfo]: the fields the factory reads and
    writes. *)
Record SCloudaccountCredential : Type := mkCredential {
  AccessKeyId : string;
  AccessKeySecret : string;
  Environment : string
}.

Record SCloudaccount : Type := mkAccount {
  Account : string;
  Secret : string;
  AccessUrl : string
}.

Record SProviderInfo : Type := mkProviderInfo {
  info_Name : string;
  info_Url : string;
  info_Account : string;
  info_Secret : string
}.

(** The sentinel [cloudprovider.ErrMissingParameter]. *)
Definition ErrMissingParameter : error := ErrOther "MissingParameterError".

Definition ValidateCreateCloudaccountData (input : SCloudaccountCredential)
    : error + SCloudaccount :=
  if Nat.eqb (String.length (AccessKeyId input)) 0
  then inl (Wrap ErrMissingParameter "access_key_id")
  else if Nat.eqb (String.length (AccessKeySecret input)) 0
  then inl (Wrap ErrMissingParameter "access_key_secret")
  else if Nat.eqb (String.length (Environment input)) 0
  then inl (Wrap ErrMissingParameter "environment")
  else inr (mkAccount (AccessKeyId input) (AccessKeySecret input) (Environment input)).

Definition ValidateUpdateCloudaccountCredential (input : SCloudaccountCredential)
    (cloudaccount : string) : error + SCloudaccount :=
  if Nat.eqb (String.length (AccessKeyId input)) 0
  then inl (Wrap ErrMissingParameter "access_key_id")
  else if Nat.eqb (String.length (AccessKeySecret input)) 0
  then inl (Wrap ErrMissingParameter "access_key_secret")
  else inr (mkAccount (AccessKeyId input) (AccessKeySecret input) "").

(** [parseAccount]: the access key and the project id of an account of the
    form [key/project]. *)
Definition parseAccount (account : string) : string * string :=
  match strings.Split account "/" with
  | [accessKey; projectId] => (accessKey, projectId)
  | _ => (account, "")
  end.

Section ClientRC.

(** [huawei.HUAWEI_DEFAULT_REGION], a constant of package [huawei]. *)
Variable HUAWEI_DEFAULT_REGION : string.

(** The region [GetClientRC] reads off the name of the provider. *)
Definition GetClientRC_region (name : string) : string :=
  let data := strings.Split name "-" in
  if (3 <=? length data)%nat
  then strings.Join (skipn (length data - 3) data) "-"
  else HUAWEI_DEFAULT_REGION.

(** [GetClientRC]: the map it returns, as the list of its entries; it
    returns no error. *)
Definition GetClientRC (info : SProviderInfo) : list (string * string) :=
  let (accessKey, projectId) := parseAccount (info_Account info) in
  let region := GetClientRC_region (info_Name info) in
  [("HUAWEI_CLOUD_ENV", info_Url info);
   ("HUAWEI_ACCESS_KEY", accessKey);
   ("HUAWEI_SECRET", info_Secret info);
   ("HUAWEI_REGION", region);
   ("HUAWEI_PROJECT", projectId)].

End ClientRC.

(** The entry of a map of strings. *)
Definition lookup (key : string) (m : list (string * string)) : option string :=
  match find_row (fun kv => String.eqb (fst kv) key) m with
  | Some kv => Some (snd kv)
  | None => None
  end.

End HuaweiProvider.

(** ** The project mapping of a cloudprovider *)

Module ProjectMapping.

(** [pmCache]: what [refreshPmCaches] reads of a provider and of its
    account. *)
Record pmCache : Type := mkPmCache {
  pm_Id : string;
  pm_CloudaccountId : string;
  AccountProjectMappingId : string;
  ManagerProjectMappingId : string;
  AccountEnableProjectSync : bool;
  ManagerEnableProjectSync : bool;
  AccountEnableResourceSync : bool;
  ManagerEnableResourceSync : bool
}.

Section Rules.

(** [SProjectMapping], the stored rule set, and [GetRuleMapping], its
    lookup by id, are declared outside these sources. *)
Variable SProjectMapping : Type.
Variable GetRuleMapping : string -> error + SProjectMapping.

Record sProjectMapping : Type := mkMapping {
  rules : SProjectMapping;
  EnableProjectSync : bool;
  EnableResourceSync : bool
}.

Definition IsNeedResourceSync (self : sProjectMapping) : bool :=
  EnableResourceSync self || negb (EnableProjectSync self).

Definition IsNeedProjectSync (self : sProjectMapping) : bool :=
  EnableProjectSync self.

(** The sentinel [cloudprovider.ErrNotFound]. *)
Definition ErrNotFound : error := ErrOther "NotFoundError".

(** [pmCache.GetProjectMapping]. On an error of the account's rules the
    source hands back, with the error, a mapping that has the flags and no
    rules; the error is what is modelled. *)

Definition GetProjectMapping (self : pmCache) : error + sProjectMapping :=
  if (0 <? String.length (ManagerProjectMappingId self))%nat then
    match GetRuleMapping (ManagerProjectMappingId self) with
    | inl err => inl (Wrap err ("GetRuleMapping(" ++ ManagerProjectMappingId self ++ ")")%string)
    | inr pm => inr (mkMapping pm (ManagerEnableProjectSync self)
                               (ManagerEnableResourceSync self))
    end
  else if (0 <? String.length (AccountProjectMappingId self))%nat then
    match GetRuleMapping (AccountProjectMappingId self) with
    | inl err => inl err
    | inr pm => inr (mkMapping pm (AccountEnableProjectSync self)
                               (AccountEnableResourceSync self))
    end
  else inl (Wrap ErrNotFound "empty project mapping id").

End Rules.

End ProjectMapping.

(** ** The manager of the cloudproviders *)

Module CloudproviderManager.

(** [fetchRecordsByQuery]: no rows when the query fails. *)
Definition fetchRecordsByQuery (q : SCloudprovider -> bool) : M (list SCloudprovider) :=
  catch (db_call "FetchModelObjects")
        (fun r => match r with
                  | inl _ => ret []
                  | inr _ => s <- get ;; ret (filter q (cloudproviders_tbl s))
                  end).

(** The loop of [initAllRecords]; what [db.Update] returns is dropped. *)
Fixpoint initAllRecords_loop (recs : list SCloudprovider) : M unit :=
  match recs with
  | [] => ret tt
  | r :: rest =>
      catch (Cloudprovider.Update r (Cloudprovider.set_SyncStatus CLOUD_PROVIDER_SYNC_STATUS_IDLE))
            (fun _ => initAllRecords_loop rest)
  end.

Definition initAllRecords : M unit :=
  recs <- fetchRecordsByQuery (fun _ => true) ;;
  initAllRecords_loop recs.

(** [FetchCloudproviderById]: [nil] on any error. *)
Definition FetchCloudproviderById (providerId : string) : M (option SCloudprovider) :=
  catch (FetchById "FetchById" Id cloudproviders_tbl providerId)
        (fun r => match r with
                  | inl _ => ret None
                  | inr providerObj => ret (Some providerObj)
                  end).

(** [SCloudproviderManager.IsProviderAccountEnabled]. *)
Definition Manager_IsProviderAccountEnabled (providerId : string) : M bool :=
  p <- FetchCloudproviderById providerId ;;
  match p with
  | None => ret false
  | Some providerObj =>
      if negb (Cloudprovider.GetEnabled providerObj) then ret false
      else catch (Cloudprovider.GetCloudaccount providerObj)
                 (fun r => match r with
                           | inl _ => ret false
                           | inr account => ret (ca_Enabled account)
                           end)
  end.

(** The function [IsProviderAccountEnabled] of the package. *)
Definition IsProviderAccountEnabled (providerId : string) : M bool :=
  if Nat.eqb (String.length providerId) 0 then ret true
  else Manager_IsProviderAccountEnabled providerId.

End CloudproviderManager.

(** ** The regions a sync range reaches *)

Module SyncRangeQuery.

(** The loop over the rows of the query: each [rows.Scan] may fail. *)
Fixpoint scan_rows (rows : list string) (regionIds : list string) : M (list string) :=
  match rows with
  | [] => ret regionIds
  | regionId :: rest =>
      catch (db_call "rows.Scan")
            (fun r => match r with
                      | inl err => fail (Wrap err "rows.Scan")
                      | inr _ => scan_rows rest (regionIds ++ [regionId])
                      end)
  end.

(** The rows of the three nested queries of [GetRegionIds]; [sqlchemy.In]
    of an empty list selects nothing. *)
Definition hosts_named (sr : SSyncRange) (s : Store) : list SHost :=
  filter (fun h => SyncRange.IsInStringArray (h_Id h) (Host sr)
                   || SyncRange.IsInStringArray (h_Name h) (Host sr))
         (hosts_tbl s).

Definition zones_named (sr : SSyncRange) (s : Store) : list SZone :=
  filter (fun z => SyncRange.IsInStringArray (z_Id z) (Zone sr)
                   || SyncRange.IsInStringArray (z_Name z) (Zone sr)
                   || SyncRange.IsInStringArray (z_Id z) (map h_ZoneId (hosts_named sr s)))
         (zones_tbl s).

Definition regions_named (sr : SSyncRange) (s : Store) : list SCloudregion :=
  filter (fun r => SyncRange.IsInStringArray (cr_Id r) (Region sr)
                   || SyncRange.IsInStringArray (cr_Name r) (Region sr)
                   || SyncRange.IsInStringArray (cr_Id r)
                        (map z_CloudregionId (zones_named sr s)))
         (cloudregions_tbl s).

Definition GetRegionIds (sr : SSyncRange) : M (list string) :=
  if Nat.eqb (length (Host sr)) 0 && Nat.eqb (length (Zone sr)) 0
     && Nat.eqb (length (Region sr)) 0
  then ret []
  else
    catch (db_call "q.Rows")
          (fun r => match r with
                    | inl err => fail (Wrap err "q.Rows")
                    | inr _ =>
                        s <- get ;;
                        scan_rows (map cr_Id (regions_named sr s)) []
                    end).

End SyncRangeQuery.

(** ** Cloudproviders: the fan-out of a sync over the regions, and the
    switch of the regions *)

Module CloudproviderRegions.

Definition set_Enabled (b : bool) (r : SCloudproviderregion) : SCloudproviderregion :=
  mkCloudproviderregion (cpr_CloudproviderId r) (cpr_CloudregionId r) b (cpr_SyncStatus r).

Section FanOut.

(** [SCloudproviderregion.CanSync] and [SCloudproviderregion.submitSyncTask]
    are declared outside these sources: a reading of the store, and any
    action on it. *)
Variable cpr_CanSync : SCloudproviderregion -> Store -> bool.
Variable submitSyncTask : SCloudproviderregion -> SSyncRange -> Store -> Store.

(** The loop of [syncCloudproviderRegions]: the number of bindings a sync
    was submitted for (the wait group is not modelled). *)
Fixpoint submit_loop (cprs : list SCloudproviderregion) (regionIds : list string)
    (syncRange : SSyncRange) (syncCnt : nat) (s : Store) : nat * Store :=
  match cprs with
  | [] => (syncCnt, s)
  | c :: rest =>
      if cpr_Enabled c && cpr_CanSync c s
         && (Nat.eqb (length regionIds) 0
             || SyncRange.IsInStringArray (cpr_CloudregionId c) regionIds)
      then submit_loop rest regionIds syncRange (S syncCnt) (submitSyncTask c syncRange s)
      else submit_loop rest regionIds syncRange syncCnt s
  end.

(** [syncCloudproviderRegions]: the errors of [markSyncing], of
    [GetRegionIds] and of [markEndSyncWithLock] are dropped; [provider]
    carries the assignments of a [markSyncing] that went through. *)
Definition syncCloudproviderRegions (provider : SCloudprovider) (syncRange : SSyncRange)
    (s : Store) : Store :=
  let '(r0, s0) := Cloudprovider.markSyncing provider s in
  let provider0 := match r0 with inr p => p | inl _ => provider end in
  let '(r1, s1) := Cloudprovider.GetCloudproviderRegions provider0 s0 in
  let cprs := match r1 with inr l => l | inl _ => [] end in
  let '(r2, s2) := SyncRangeQuery.GetRegionIds syncRange s1 in
  let regionIds := match r2 with inr l => l | inl _ => [] end in
  let '(syncCnt, s3) := submit_loop cprs regionIds syncRange 0 s2 in
  if Nat.eqb syncCnt 0
  then snd (Cloudprovider.markEndSyncWithLock provider0 s3)
  else s3.

End FanOut.

Section SetSyncing.

(** [validators.ValidateModel], declared outside these sources: a reading
    of the store that checks that the id names a cloudregion and may rewrite
    it in place. *)
Variable ValidateModel : string -> Store -> error + string.

(** The first loop of [PerformSetSyncing]. *)
Fixpoint validate_regions (ids : list string) (regionIds : list string) : M (list string) :=
  match ids with
  | [] => ret regionIds
  | x :: rest =>
      x' <- (fun s => (ValidateModel x s, s)) ;;
      validate_regions rest (regionIds ++ [x'])
  end.

(** The second loop: the first failed update ends it. *)
Fixpoint enable_loop (enabled : bool) (cpcds : list SCloudproviderregion) : M unit :=
  match cpcds with
  | [] => ret tt
  | c :: rest =>
      catch (Cloudproviderregion.Update c (set_Enabled enabled))
            (fun r => match r with
                      | inl err => fail (Wrap err "db.Update")
                      | inr _ => enable_loop enabled rest
                      end)
  end.

(** [api.CloudproviderSync] is the flag [Enabled] and the list
    [CloudregionIds]. *)
Definition PerformSetSyncing (self : SCloudprovider) (input_Enabled : bool)
    (input_CloudregionIds : list string) : M unit :=
  regionIds <- validate_regions input_CloudregionIds [] ;;
  if Nat.eqb (length regionIds) 0 then ret tt
  else
    db_call "FetchModelObjects" ;;;
    s <- get ;;
    enable_loop input_Enabled
      (filter (fun c => String.eqb (cpr_CloudproviderId c) (Id self)
                        && SyncRange.IsInStringArray (cpr_CloudregionId c) regionIds)
              (cloudproviderregions_tbl s)).

End SetSyncing.

End CloudproviderRegions.

(** * Example data *)

Module Examples.

Definition account1 : SCloudaccount :=
  mkCloudaccount "a1" "account-1" true CLOUD_PROVIDER_SYNC_STATUS_SYNCING 90%Z 0%Z.

Definition provider_idle : SCloudprovider :=
  mkCloudprovider "p1" "provider-1" true CLOUD_PROVIDER_SYNC_STATUS_IDLE 90%Z 95%Z "a1".

Definition provider_syncing : SCloudprovider :=
  mkCloudprovider "p1" "provider-1" true CLOUD_PROVIDER_SYNC_STATUS_SYNCING 90%Z 0%Z "a1".

Definition provider_queuing : SCloudprovider :=
  mkCloudprovider "p1" "provider-1" true CLOUD_PROVIDER_SYNC_STATUS_QUEUING 90%Z 0%Z "a1".

Definition provider_idle_after_cancel : SCloudprovider :=
  mkCloudprovider "p1" "provider-1" true CLOUD_PROVIDER_SYNC_STATUS_IDLE 90%Z 0%Z "a1".

Definition provider_disabled : SCloudprovider :=
  mkCloudprovider "p1" "provider-1" false CLOUD_PROVIDER_SYNC_STATUS_IDLE 90%Z 95%Z "a1".

Definition cpr (region : string) (st : TSyncStatus) : SCloudproviderregion :=
  mkCloudproviderregion "p1" region true st.

Definition store_of (providers : list SCloudprovider) (cprs : list SCloudproviderregion)
    : Store :=
  mkStore [account1] providers cprs [] [] [] [] [] [] [] 100%Z [].

(** The account syncing, its only provider idle. *)
Definition store_quiet : Store :=
  store_of [provider_idle] [cpr "r1" CLOUD_PROVIDER_SYNC_STATUS_IDLE].

(** The account syncing, its provider still syncing: another pass is at
    work. *)
Definition store_busy : Store :=
  store_of [provider_syncing] [cpr "r1" CLOUD_PROVIDER_SYNC_STATUS_SYNCING].

(** The provider syncing, its bindings back to idle. *)
Definition store_done : Store :=
  store_of [provider_syncing] [cpr "r1" CLOUD_PROVIDER_SYNC_STATUS_IDLE;
                               cpr "r2" CLOUD_PROVIDER_SYNC_STATUS_IDLE].

(** The provider and one of its bindings queuing. *)
Definition store_queuing : Store :=
  store_of [provider_queuing] [cpr "r1" CLOUD_PROVIDER_SYNC_STATUS_QUEUING;
                               cpr "r2" CLOUD_PROVIDER_SYNC_STATUS_IDLE].

Definition task1 : CloudAccountSyncInfoTask.STaskSelf :=
  CloudAccountSyncInfoTask.mkSelf None "t1" "" CloudAccountSyncInfoTask.task_running.

(** A sync of the account that is turned away at once. *)
Definition failing_SyncCall : SCloudaccount -> M unit :=
  fun _ => fail (ErrOther "conflict").

Definition no_SyncResources : SCloudaccount -> SSyncRange -> M unit :=
  fun _ _ => ret tt.

Definition never_CanSync : SCloudprovider -> Store -> bool := fun _ _ => false.

Definition base_ok : SCloudprovider -> M unit := fun _ => ret tt.

(** A forced request for a full sync that does not ask for a deep one. *)
Definition request_forced : SSyncRange := mkSyncRange true true false [] [] [] [].

(** A request that is neither forced nor scoped. *)
Definition request_plain : SSyncRange := mkSyncRange false false false [] [] [] [].

End Examples.

Module Inventory.

Definition region1 : SCloudregion := mkCloudregion "r1" "region-1".

Definition zone1 : SZone := mkZone "z1" "zone-1" "ext-z1" "enable" false "r1".

(** A zone whose region is not (or no longer) stored. *)
Definition zone_stray : SZone := mkZone "z9" "zone-9" "ext-z9" "enable" false "r-gone".

Definition host_of (id name zone : string) : SHost :=
  mkHost id name zone "running" "online" true "hypervisor" false.

Definition host1 : SHost := host_of "h1" "host-1" "z1".
Definition host_stray : SHost := host_of "h9" "host-9" "z9".

Definition store : Store :=
  mkStore [] [] [] [region1] [zone1; zone_stray] [host1; host_stray] [] [] [] [] 100%Z [].

Definition scope (regions zones hosts : list string) : SSyncRange :=
  mkSyncRange false false false regions zones hosts [].

End Inventory.

(** Scenario A of the spec: the zones zoneA (ext z1) and zoneB (ext z2) are
    stored; the provider shows z1, renamed, and a new zone z3. *)
Module ScenarioA.

Definition region : SCloudregion := mkCloudregion "r1" "region-1".
Definition zoneA : SZone := mkZone "zA" "Zone-A" "z1" "enable" false "r1".
Definition zoneB : SZone := mkZone "zB" "Zone-B" "z2" "enable" false "r1".
Definition remote_z1 : ICloudZone := mkCloudZone (Some "z1") "Zone-A2" "enable" false.
Definition remote_z3 : ICloudZone := mkCloudZone (Some "z3") "Zone-C" "enable" false.
Definition remote_unreadable : ICloudZone := mkCloudZone None "Zone-X" "enable" false.

Definition hostB : SHost := mkHost "h1" "host-1" "zB" "running" "online" true "hypervisor" false.

(** Nothing hangs on zoneB. *)
Definition store_free : Store :=
  mkStore [] [] [] [region] [zoneA; zoneB] [] [] [] [] [] 100%Z [].

(** A host still sits in zoneB. *)
Definition store_in_use : Store :=
  mkStore [] [] [] [region] [zoneA; zoneB] [hostB] [] [] [] [] 100%Z [].

(** The database fails on the first call of the pass. *)
Definition store_failing : Store :=
  mkStore [] [] [] [region] [zoneA; zoneB] [] [] [] [] [] 100%Z [true].

(** A host still sits in zoneB, and the second database call of the pass -
    the first count of the usage of zoneB - fails. *)
Definition store_in_use_count_failing : Store :=
  mkStore [] [] [] [region] [zoneA; zoneB] [hostB] [] [] [] [] 100%Z [false; true].

(** A host still sits in zoneB; the fetch and the seven counts of the usage
    of zoneB go through, the database call after them fails. *)
Definition store_in_use_late_fault : Store :=
  mkStore [] [] [] [region] [zoneA; zoneB] [hostB] [] [] [] [] 100%Z
          [false; false; false; false; false; false; false; false; true].

Definition count_on_error : Z := (-1)%Z.
Definition networkCount : SZone -> Store -> Z := fun _ _ => 0%Z.
Definition base_ValidateDeleteCondition : SZone -> Store -> option error := fun _ _ => None.
Definition UniqueName : string -> Store -> string := fun hint _ => hint.
Definition NewId : Store -> string := fun _ => "zC".

Definition SyncZones : SCloudregion -> list ICloudZone -> Store -> Zones.SyncOut * Store :=
  Zones.SyncZones count_on_error networkCount base_ValidateDeleteCondition UniqueName NewId.

End ScenarioA.

(** * The vocabulary of the statements *)

(** [returns m s]: from the store [s], [m] returns without error and leaves a
    store on which no database call fails. *)
Definition returns {A} (m : M A) (s : Store) : Prop :=
  exists a s', m s = (inr a, s') /\ reliable s'.

(** [succeeds m]: [m] returns whenever no database call fails. *)
Definition succeeds {A} (m : M A) : Prop :=
  forall s, reliable s -> returns m s.

(** [preserves proj m]: [m] leaves the part [proj] of the store as it was,
    whatever it returns. *)
Definition preserves {X A} (proj : Store -> X) (m : M A) : Prop :=
  forall s, proj (snd (m s)) = proj s.

(** A part of the store that is not the fault schedule. *)
Definition table {X} (proj : Store -> X) : Prop :=
  forall fs s, proj (set_faults fs s) = proj s.

(** The account row a provider points at. *)
Definition account_of (self : SCloudprovider) (s : Store) : option SCloudaccount :=
  find_row (fun r => String.eqb (ca_Id r) (CloudaccountId self)) (cloudaccounts_tbl s).

Definition regions_idle (self : SCloudprovider) (s : Store) : bool :=
  forallb (fun c => implb (Cloudprovider.is_child self c) (is_idle (cpr_SyncStatus c)))
          (cloudproviderregions_tbl s).

Definition siblings_idle (self : SCloudprovider) (account : SCloudaccount) (s : Store) : bool :=
  forallb (fun p => Cloudprovider.same_row self p
                    || negb (String.eqb (CloudaccountId p) (ca_Id account))
                    || is_idle (SyncStatus p))
          (cloudproviders_tbl s).

Definition end_sync (t : Time) (p : SCloudprovider) : SCloudprovider :=
  Cloudprovider.set_LastSyncEndAt t (Cloudprovider.set_SyncStatus CLOUD_PROVIDER_SYNC_STATUS_IDLE p).

Definition account_end_sync (t : Time) (a : SCloudaccount) : SCloudaccount :=
  Cloudaccount.set_sync CLOUD_PROVIDER_SYNC_STATUS_IDLE (ca_LastSync a) t a.

Definition cancel_row (cprs : list SCloudproviderregion) (r : SCloudproviderregion)
    : SCloudproviderregion :=
  if existsb (fun c => Cloudproviderregion.same_row c r
                       && status_eqb (cpr_SyncStatus c) CLOUD_PROVIDER_SYNC_STATUS_QUEUING) cprs
  then Cloudproviderregion.set_SyncStatus CLOUD_PROVIDER_SYNC_STATUS_IDLE r
  else r.

(** Every pair of a keyed list holds an element with the key read from it. *)
Definition well_keyed {A} (key : A -> option string) (kl : list (string * A)) : Prop :=
  Forall (fun ka => key (snd ka) = Some (fst ka)) kl.

(** A zone is in use when a host, a wire, a network or a storage hangs on
    it. *)
Definition in_use (networkCount : SZone -> Store -> Z) (zone : SZone) (s : Store) : bool :=
  (0 <? Zones.count_rows (fun h => String.eqb (h_ZoneId h) (z_Id zone)) (hosts_tbl s))%Z
  || (0 <? Zones.count_rows (fun w => String.eqb (w_ZoneId w) (z_Id zone)) (wires_tbl s))%Z
  || (0 <? networkCount zone s)%Z
  || (0 <? Zones.count_rows (fun st => String.eqb (st_ZoneId st) (z_Id zone)) (storages_tbl s))%Z.

(** The first identifier of a list that names no stored row. *)
Definition first_missing {R} (key name : R -> string) (l : list R) (ids : list string)
    : option string :=
  find (fun x => negb (SyncRange.resolves key name l x)) ids.

(** The first identifier of a range that names no stored row, in the order
    [Normalize] goes through them, with the message of its error. *)
Definition first_unresolved (s : Store) (sr : SSyncRange) : option string :=
  match first_missing cr_Id cr_Name (cloudregions_tbl s) (Region sr) with
  | Some x => Some ("Region " ++ x ++ " not found")%string
  | None =>
      match first_missing z_Id z_Name (zones_tbl s) (Zone sr) with
      | Some x => Some ("Zone " ++ x ++ " not found")%string
      | None =>
          match first_missing h_Id h_Name (hosts_tbl s) (Host sr) with
          | Some x => Some ("Host " ++ x ++ " not found")%string
          | None => None
          end
      end
  end.

(** [Normalize] has stopped at an identifier that names no stored row: the
    range it leaves is what the normalisation of the identifiers before that
    one gives, then, in the list of that identifier, the identifier itself
    and those after it as the request had them; the lists [Normalize] had
    not reached are as the request had them. *)
Inductive stopped (s : Store) (sr sr' : SSyncRange) : Prop :=
  | stopped_in_regions (pre : list string) (x : string) (post : list string)
                       (srp : SSyncRange) :
      Region sr = pre ++ x :: post ->
      SyncRange.resolves cr_Id cr_Name (cloudregions_tbl s) x = false ->
      SyncRange.Normalize
        (SyncRange.set_Host [] (SyncRange.set_Zone [] (SyncRange.set_Region pre sr))) s
      = ((None, srp), s) ->
      sr' = SyncRange.set_Region (Region srp ++ x :: post) sr ->
      stopped s sr sr'
  | stopped_in_zones (pre : list string) (x : string) (post : list string)
                     (srp : SSyncRange) :
      Zone sr = pre ++ x :: post ->
      SyncRange.resolves z_Id z_Name (zones_tbl s) x = false ->
      SyncRange.Normalize (SyncRange.set_Host [] (SyncRange.set_Zone pre sr)) s
      = ((None, srp), s) ->
      sr' = SyncRange.set_Region (Region srp)
              (SyncRange.set_Zone (Zone srp ++ x :: post) sr) ->
      stopped s sr sr'
  | stopped_in_hosts (pre : list string) (x : string) (post : list string)
                     (srp : SSyncRange) :
      Host sr = pre ++ x :: post ->
      SyncRange.resolves h_Id h_Name (hosts_tbl s) x = false ->
      SyncRange.Normalize (SyncRange.set_Host pre sr) s = ((None, srp), s) ->
      sr' = SyncRange.set_Region (Region srp)
              (SyncRange.set_Zone (Zone srp)
                 (SyncRange.set_Host (Host srp ++ x :: post) sr)) ->
      stopped s sr sr'.

(** Every zone id of the range has the id of the zone's region in the
    range. *)
Definition zones_closed (s : Store) (zones regions : list string) : Prop :=
  forall id z r,
    In id zones -> SyncRange.zone_by_id s id = Some z -> SyncRange.region_of s z = Some r ->
    In (cr_Id r) regions.

(** Every host id of the range whose zone and region are both found has
    their ids in the range. *)
Definition hosts_closed (s : Store) (hosts zones regions : list string) : Prop :=
  forall id h z r,
    In id hosts -> SyncRange.host_by_id s id = Some h -> SyncRange.zone_of s h = Some z ->
    SyncRange.region_of s z = Some r ->
    In (z_Id z) zones /\ In (cr_Id r) regions.

Definition closed_upward (s : Store) (sr : SSyncRange) : Prop :=
  zones_closed s (Zone sr) (Region sr) /\ hosts_closed s (Host sr) (Zone sr) (Region sr).

(** What [Normalize] makes of one entry. A region entry becomes the id of
    the region it names. A zone entry becomes the id of the zone it names
    when the region of that zone is found, and stays as given when it is
    not. A host entry becomes the id of the host it names when the zone of
    the host and the region of that zone are found, and stays as given when
    one of them is not. *)
Definition region_entry (s : Store) (x x' : string) : Prop :=
  exists r,
    SyncRange.by_id_or_name cr_Id cr_Name (cloudregions_tbl s) x = Some r /\ x' = cr_Id r.

Definition zone_entry (s : Store) (x x' : string) : Prop :=
  exists z,
    SyncRange.by_id_or_name z_Id z_Name (zones_tbl s) x = Some z
    /\ x' = match SyncRange.region_of s z with
            | Some _ => z_Id z
            | None => x
            end.

Definition host_entry (s : Store) (x x' : string) : Prop :=
  exists h,
    SyncRange.by_id_or_name h_Id h_Name (hosts_tbl s) x = Some h
    /\ x' = match SyncRange.zone_of s h with
            | Some z => match SyncRange.region_of s z with
                        | Some _ => h_Id h
                        | None => x
                        end
            | None => x
            end.

(** What an entry brings into the range besides itself: a zone entry the id
    of the region of its zone, a host entry the ids of its zone and of the
    region of its zone - when these are found. *)
Definition zone_gives (s : Store) (x rid : string) : Prop :=
  exists z r,
    SyncRange.by_id_or_name z_Id z_Name (zones_tbl s) x = Some z
    /\ SyncRange.region_of s z = Some r
    /\ rid = cr_Id r.

Definition host_gives (s : Store) (x zid rid : string) : Prop :=
  exists h z r,
    SyncRange.by_id_or_name h_Id h_Name (hosts_tbl s) x = Some h
    /\ SyncRange.zone_of s h = Some z
    /\ SyncRange.region_of s z = Some r
    /\ zid = z_Id z /\ rid = cr_Id r.

(** The range [sr'] is the range [sr], entry by entry: the hosts are the
    host entries of [sr], each as [Normalize] makes it; the zones are the
    zone entries of [sr], each as [Normalize] makes it, followed by zone ids
    that host entries bring in; the regions are the region entries of [sr],
    each as [Normalize] makes it, followed by region ids that zone entries
    and host entries bring in. An entry whose zone or region is not found
    stays as given and brings nothing in. *)
Definition entry_by_entry (s : Store) (sr sr' : SSyncRange) : Prop :=
  Forall2 (host_entry s) (Host sr) (Host sr')
  /\ (exists zs zs',
        Zone sr' = zs ++ zs'
        /\ Forall2 (zone_entry s) (Zone sr) zs
        /\ forall y, In y zs' -> exists x rid, In x (Host sr) /\ host_gives s x y rid)
  /\ (exists rs rs',
        Region sr' = rs ++ rs'
        /\ Forall2 (region_entry s) (Region sr) rs
        /\ forall y, In y rs' ->
             (exists x, In x (Zone sr) /\ zone_gives s x y)
             \/ (exists x zid, In x (Host sr) /\ host_gives s x zid y)).

(** The closure with no proviso on the host's region: a host id in the range
    has the id of its zone in the range, and the id of its region when that
    is found. *)
Definition closed_upward_unguarded (s : Store) (sr : SSyncRange) : Prop :=
  zones_closed s (Zone sr) (Region sr)
  /\ forall id h z,
       In id (Host sr) -> SyncRange.host_by_id s id = Some h ->
       SyncRange.zone_of s h = Some z ->
       In (z_Id z) (Zone sr)
       /\ forall r, SyncRange.region_of s z = Some r -> In (cr_Id r) (Region sr).

(** Ids are primary keys. *)
Definition primary_keys (s : Store) : Prop :=
  NoDup (map z_Id (zones_tbl s)) /\ NoDup (map h_Id (hosts_tbl s)).

(** The three tables a range is resolved against. *)
Definition inventory (s : Store) : list SCloudregion * list SZone * list SHost :=
  (cloudregions_tbl s, zones_tbl s, hosts_tbl s).

(** The records a pass attempted to delete, to update and to add, done or
    failed. *)
Definition deletes (o : Zones.SyncOut) : nat :=
  compare.DelCnt (Zones.syncResult o) + compare.DelErrCnt (Zones.syncResult o).

Definition updates (o : Zones.SyncOut) : nat :=
  compare.UpdateCnt (Zones.syncResult o) + compare.UpdateErrCnt (Zones.syncResult o).

Definition adds (o : Zones.SyncOut) : nat :=
  compare.AddCnt (Zones.syncResult o) + compare.AddErrCnt (Zones.syncResult o).

(** What a pass that aborts hands back: no records, one error. *)
Definition aborted (err : error) : Zones.SyncOut :=
  Zones.mkSyncOut [] [] (compare.Error err compare.empty).

(** The store a pass has reached when the removed records [pre] have had
    their turn. *)
Definition at_turn (count_on_error : Z) (networkCount : SZone -> Store -> Z)
    (base : SZone -> Store -> option error) (pre : list SZone) (s : Store) : Store :=
  snd (Zones.sync_removed count_on_error networkCount base pre
         (Zones.mkSyncOut [] [] compare.empty) s).

(** The result a pass has come to when the removed records [pre] have had
    their turn. *)
Definition result_at_turn (count_on_error : Z) (networkCount : SZone -> Store -> Z)
    (base : SZone -> Store -> option error) (pre : list SZone) (s : Store)
    : compare.SyncResult :=
  Zones.syncResult
    (fst (Zones.sync_removed count_on_error networkCount base pre
            (Zones.mkSyncOut [] [] compare.empty) s)).

(** The store once [n] database calls have been made from [s]. *)
Definition after_calls (n : nat) (s : Store) : Store := set_faults (skipn n (faults s)) s.

(** The seven counts [GeneralUsage] makes from [s] all go through. *)
Definition counts_go_through (s : Store) : bool := forallb negb (firstn 7 (faults s)).

(** A host, a wire, a network or a storage hangs on the zone, as
    [GeneralUsage] counts them from [s]: the networks are counted by the
    sixth database call, after the four counts of hosts and the count of
    wires. *)
Definition in_use_counted (networkCount : SZone -> Store -> Z) (zone : SZone) (s : Store)
    : bool :=
  (0 <? Zones.count_rows (fun h => String.eqb (h_ZoneId h) (z_Id zone)) (hosts_tbl s))%Z
  || (0 <? Zones.count_rows (fun w => String.eqb (w_ZoneId w) (z_Id zone)) (wires_tbl s))%Z
  || (0 <? networkCount zone (after_calls 6 s))%Z
  || (0 <? Zones.count_rows (fun st => String.eqb (st_ZoneId st) (z_Id zone)) (storages_tbl s))%Z.

(** [appends m]: whatever it returns, [m] leaves the zone rows as they were,
    with new rows after them. *)
Definition appends {A} (m : M A) : Prop :=
  forall s, exists news, zones_tbl (snd (m s)) = zones_tbl s ++ news.

(** The ids of the zone rows, in the order of the rows. *)
Definition zone_ids (s : Store) : list string := map z_Id (zones_tbl s).

(** The assignments of [syncWithCloudZone]. *)
Definition synced_with (ext : ICloudZone) (region : SCloudregion) (z : SZone) : SZone :=
  mkZone (z_Id z) (GetName ext) (z_ExternalId z) (GetStatus ext) (IsEmulated ext)
         (cr_Id region).

(** The zone rows once the matched pairs [common] have been updated, in
    their order. *)
Fixpoint updated_rows (region : SCloudregion) (common : list (SZone * ICloudZone))
    (rows : list SZone) : list SZone :=
  match common with
  | [] => rows
  | (z, ext) :: rest =>
      updated_rows region rest
        (update_rows (fun r => String.eqb (z_Id r) (z_Id z)) (synced_with ext region) rows)
  end.

(** The row [n] is the one [newFromCloudZone] makes for the remote zone
    [ext] of the region. *)
Definition new_row_of (region : SCloudregion) (n : SZone) (ext : ICloudZone) : Prop :=
  z_ExternalId n = match GetGlobalId ext with Some g => g | None => "" end
  /\ z_Status n = GetStatus ext
  /\ z_IsEmulated n = IsEmulated ext
  /\ z_CloudregionId n = cr_Id region.

(** The rows a sync request may write: accounts, providers, bindings, tasks
    and the operation log. *)
Definition sync_rows (s : Store)
    : list SCloudaccount * list SCloudprovider * list SCloudproviderregion
      * list STask * list SOpsLog :=
  (cloudaccounts_tbl s, cloudproviders_tbl s, cloudproviderregions_tbl s, tasks_tbl s,
   opslogs s).

(** A provider row after [initAllRecords]: as it was, or as it was with its
    sync status idle. *)
Definition kept_or_idle (r r' : SCloudprovider) : Prop :=
  r' = r \/ r' = Cloudprovider.set_SyncStatus CLOUD_PROVIDER_SYNC_STATUS_IDLE r.

(** A binding after the loop that starts, for the scope [range], the
    enabled bindings [cprs]. *)
Definition start_row (range : option SSyncRange) (cprs : list SCloudproviderregion)
    (r : SCloudproviderregion) : SCloudproviderregion :=
  if existsb (fun c => Cloudproviderregion.same_row c r && cpr_Enabled c
                       && Cloudproviderregion.in_scope c range) cprs
  then Cloudproviderregion.set_SyncStatus CLOUD_PROVIDER_SYNC_STATUS_QUEUING r
  else r.

(** The assignments of [markSyncing] at time [t]. *)
Definition mark_syncing (t : Time) (p : SCloudprovider) : SCloudprovider :=
  Cloudprovider.set_LastSyncEndAt time_zero
    (Cloudprovider.set_LastSync t
       (Cloudprovider.set_SyncStatus CLOUD_PROVIDER_SYNC_STATUS_SYNCING p)).

(** The store once [markSyncing] has written the rows of [p]. *)
Definition syncing_store (p : SCloudprovider) (s : Store) : Store :=
  set_cloudproviders
    (update_rows (Cloudprovider.same_row p) (mark_syncing (now s)) (cloudproviders_tbl s)) s.

(** The bindings of a provider, as [GetCloudproviderRegions] reads them. *)
Definition bindings_of (self : SCloudprovider) (s : Store) : list SCloudproviderregion :=
  filter (Cloudprovider.is_child self) (cloudproviderregions_tbl s).

(** Every stored row of the provider is idle. *)
Definition rows_idle (self : SCloudprovider) (s : Store) : Prop :=
  forall r, In r (cloudproviders_tbl s) -> Cloudprovider.same_row self r = true ->
            SyncStatus r = CLOUD_PROVIDER_SYNC_STATUS_IDLE.

(** A local zone and a remote zone are in step when the external id of the
    one is the global id of the other. *)
Definition in_step (z : SZone) (e : ICloudZone) : Prop :=
  GetGlobalId e = Some (z_ExternalId z).

(** The scope a stage handler of the account task works with: the
    [sync_range] of the task's parameters, or a full, deep sync. *)
Definition task_range (self : CloudAccountSyncInfoTask.STaskSelf) : SSyncRange :=
  match CloudAccountSyncInfoTask.Params_sync_range self with
  | Some r => r
  | None => mkSyncRange false true true [] [] [] []
  end.

(** [t] is the scheduled sync task of the provider [p], started under the
    task [parent] with the scope [range]. *)
Definition started_for (p : SCloudprovider) (parent : string) (range : SSyncRange)
    (t : STask) : Prop :=
  task_Name t = "CloudProviderSyncInfoTask"
  /\ task_ObjId t = Id p
  /\ task_ParentTaskId t = parent
  /\ task_SyncRange t = Some range
  /\ task_Scheduled t = true.

(** A binding after [PerformSetSyncing] on the provider [self]: as it was,
    or a binding of [self] as it was but for its enabled flag. *)
Definition kept_or_switched (self : SCloudprovider) (enabled : bool)
    (r r' : SCloudproviderregion) : Prop :=
  r' = r
  \/ (Cloudprovider.is_child self r = true
      /\ r' = CloudproviderRegions.set_Enabled enabled r).

(** *** Ranges in normal form

    What [Normalize] leaves in a range, entry by entry. A region entry is
    the id of a stored region. A zone entry names a zone; when the region of
    that zone is found, the entry is the id of the zone and the id of the
    region is among the regions. A host entry names a host; when its zone
    and the region of its zone are found, the entry is the id of the host
    and the ids of the zone and of the region are in the range. *)
Definition region_ids_stored (s : Store) (regions : list string) : Prop :=
  forall id, In id regions -> exists r, In r (cloudregions_tbl s) /\ cr_Id r = id.

Definition zone_entry_normal (s : Store) (regions : list string) (x : string) : Prop :=
  exists z,
    SyncRange.by_id_or_name z_Id z_Name (zones_tbl s) x = Some z
    /\ match SyncRange.region_of s z with
       | None => True
       | Some r => x = z_Id z /\ In (cr_Id r) regions
       end.

Definition host_entry_normal (s : Store) (zones regions : list string) (x : string) : Prop :=
  exists h,
    SyncRange.by_id_or_name h_Id h_Name (hosts_tbl s) x = Some h
    /\ match SyncRange.zone_of s h with
       | None => True
       | Some z =>
           match SyncRange.region_of s z with
           | None => True
           | Some r => x = h_Id h /\ In (z_Id z) zones /\ In (cr_Id r) regions
           end
       end.

Definition normal_form (s : Store) (sr : SSyncRange) : Prop :=
  region_ids_stored s (Region sr)
  /\ Forall (zone_entry_normal s (Region sr)) (Zone sr)
  /\ Forall (host_entry_normal s (Zone sr) (Region sr)) (Host sr).

(** A binding after [cancelStartingSync] on the provider [self]: as it was,
    or a binding of [self] as it was but idle. *)
Definition kept_or_cancelled (self : SCloudprovider) (r r' : SCloudproviderregion) : Prop :=
  r' = r
  \/ (Cloudprovider.is_child self r = true
      /\ r' = Cloudproviderregion.set_SyncStatus CLOUD_PROVIDER_SYNC_STATUS_IDLE r).

(** * Properties *)

Unset Implicit Arguments.

(** ** Reasoning about store-passing computations *)

Lemma status_eqb_eq : forall a b, status_eqb a b = true <-> a = b.
Proof. intros a b; split; [destruct a, b; simpl; congruence | intros ->; destruct b; reflexivity]. Qed.

Lemma status_eqb_neq : forall a b, status_eqb a b = false <-> a <> b.
Proof.
  intros a b; split.
  - intros H E; apply status_eqb_eq in E; congruence.
  - intros H; destruct (status_eqb a b) eqn:E; [apply status_eqb_eq in E; contradiction | reflexivity].
Qed.

Lemma db_call_reliable : forall what s, reliable s -> db_call what s = (inr tt, s).
Proof. intros what s H; unfold db_call; rewrite H; reflexivity. Qed.

Lemma succeeds_ret : forall A (a : A), succeeds (ret a).
Proof. intros A a s H; exists a, s; auto. Qed.

Lemma succeeds_db_call : forall what, succeeds (db_call what).
Proof. intros what s H; exists tt, s; split; [apply db_call_reliable; assumption | assumption]. Qed.

Lemma succeeds_get : succeeds get.
Proof. intros s H; exists s, s; auto. Qed.

Lemma succeeds_UtcNow : succeeds UtcNow.
Proof. intros s H; exists (now s), s; auto. Qed.

Lemma succeeds_modify : forall f,
  (forall s, faults (f s) = faults s) -> succeeds (modify f).
Proof.
  intros f Hf s H; exists tt, (f s); split; [reflexivity | unfold reliable; rewrite Hf; exact H].
Qed.

Lemma succeeds_bind : forall A B (m : M A) (k : A -> M B),
  succeeds m -> (forall a, succeeds (k a)) -> succeeds (bind m k).
Proof.
  intros A B m k Hm Hk s H.
  destruct (Hm s H) as (a & s1 & E & R1).
  destruct (Hk a s1 R1) as (b & s2 & E2 & R2).
  exists b, s2; split; [unfold bind; rewrite E; exact E2 | exact R2].
Qed.

Lemma succeeds_catch : forall A B (m : M A) (k : error + A -> M B),
  succeeds m -> (forall a, succeeds (k (inr a))) -> succeeds (catch m k).
Proof.
  intros A B m k Hm Hk s H.
  destruct (Hm s H) as (a & s1 & E & R1).
  destruct (Hk a s1 R1) as (b & s2 & E2 & R2).
  exists b, s2; split; [unfold catch; rewrite E; exact E2 | exact R2].
Qed.

Lemma preserves_ret : forall X A (proj : Store -> X) (a : A), preserves proj (ret a).
Proof. intros; intro s; reflexivity. Qed.

Lemma preserves_fail : forall X A (proj : Store -> X) (e : error),
  preserves proj (fail e : M A).
Proof. intros; intro s; reflexivity. Qed.

Lemma preserves_get : forall X (proj : Store -> X), preserves proj get.
Proof. intros; intro s; reflexivity. Qed.

Lemma preserves_UtcNow : forall X (proj : Store -> X), preserves proj UtcNow.
Proof. intros; intro s; reflexivity. Qed.

Lemma preserves_db_call : forall X (proj : Store -> X) what,
  table proj -> preserves proj (db_call what).
Proof.
  intros X proj what T s; unfold db_call.
  destruct (faults s) as [|[|] fs]; simpl; auto.
Qed.

Lemma preserves_modify : forall X (proj : Store -> X) f,
  (forall s, proj (f s) = proj s) -> preserves proj (modify f).
Proof. intros X proj f Hf s; simpl; apply Hf. Qed.

Lemma preserves_bind : forall X A B (proj : Store -> X) (m : M A) (k : A -> M B),
  preserves proj m -> (forall a, preserves proj (k a)) -> preserves proj (bind m k).
Proof.
  intros X A B proj m k Hm Hk s; unfold bind.
  specialize (Hm s); destruct (m s) as [[e|a] s1]; simpl in *; [exact Hm|].
  rewrite Hk; exact Hm.
Qed.

Lemma preserves_catch : forall X A B (proj : Store -> X) (m : M A) (k : error + A -> M B),
  preserves proj m -> (forall r, preserves proj (k r)) -> preserves proj (catch m k).
Proof.
  intros X A B proj m k Hm Hk s; unfold catch.
  specialize (Hm s); destruct (m s) as [r s1]; simpl in *.
  rewrite Hk; exact Hm.
Qed.

Lemma table_tasks : table tasks_tbl. Proof. intros fs s; reflexivity. Qed.
Lemma table_accounts : table cloudaccounts_tbl. Proof. intros fs s; reflexivity. Qed.
Lemma table_providers : table cloudproviders_tbl. Proof. intros fs s; reflexivity. Qed.
Lemma table_cprs : table cloudproviderregions_tbl. Proof. intros fs s; reflexivity. Qed.
Lemma table_zones : table zones_tbl. Proof. intros fs s; reflexivity. Qed.
Lemma table_now : table now. Proof. intros fs s; reflexivity. Qed.

Create HintDb store discriminated.
#[export] Hint Resolve succeeds_ret succeeds_db_call succeeds_get succeeds_UtcNow
  succeeds_bind succeeds_catch succeeds_modify : store.
#[export] Hint Resolve preserves_ret preserves_fail preserves_get preserves_UtcNow
  preserves_db_call preserves_modify preserves_bind preserves_catch : store.
#[export] Hint Resolve table_tasks table_accounts table_providers table_cprs table_zones
  table_now : store.

(** Splits a computation along its binds, leaving the side conditions on the
    writes. *)
Ltac frame :=
  repeat first
    [ apply preserves_ret | apply preserves_fail | apply preserves_get
    | apply preserves_UtcNow
    | apply preserves_db_call; [solve [auto with store | intros ? ?; reflexivity]]
    | apply preserves_modify; intros; try reflexivity
    | apply preserves_bind; [|intros]
    | apply preserves_catch; [|intros [?|?]] ].

Ltac go :=
  repeat first
    [ apply succeeds_ret | apply succeeds_get | apply succeeds_UtcNow
    | apply succeeds_db_call
    | apply succeeds_modify; intros; reflexivity
    | apply succeeds_bind; [|intros]
    | apply succeeds_catch; [|intros] ].

Lemma preserves_for_each_cpr : forall X (proj : Store -> X) f msg cprs,
  (forall c, preserves proj (f c)) -> preserves proj (Cloudprovider.for_each_cpr f msg cprs).
Proof.
  intros X proj f msg cprs Hf; induction cprs as [|c rest IH]; simpl.
  - apply preserves_ret.
  - apply preserves_catch; [apply Hf|]. intros [e|a]; [apply preserves_fail | exact IH].
Qed.

Lemma succeeds_for_each_cpr : forall f msg cprs,
  (forall c, succeeds (f c)) -> succeeds (Cloudprovider.for_each_cpr f msg cprs).
Proof.
  intros f msg cprs Hf; induction cprs as [|c rest IH]; simpl.
  - apply succeeds_ret.
  - apply succeeds_catch; [apply Hf | intros; exact IH].
Qed.

Lemma succeeds_cpr_Update : forall self f, succeeds (Cloudproviderregion.Update self f).
Proof. intros; unfold Cloudproviderregion.Update; go. Qed.

Lemma succeeds_provider_Update : forall self f, succeeds (Cloudprovider.Update self f).
Proof. intros; unfold Cloudprovider.Update; go. Qed.

Lemma succeeds_account_Update : forall self f, succeeds (Cloudaccount.Update self f).
Proof. intros; unfold Cloudaccount.Update; go. Qed.

Lemma succeeds_GetCloudproviderRegions : forall self,
  succeeds (Cloudprovider.GetCloudproviderRegions self).
Proof. intros; unfold Cloudprovider.GetCloudproviderRegions; go. Qed.

Lemma succeeds_markStartSync : forall self range,
  succeeds (Cloudprovider.markStartSync self range).
Proof.
  intros; unfold Cloudprovider.markStartSync.
  apply succeeds_catch; [apply succeeds_provider_Update|]; intros.
  apply succeeds_bind; [apply succeeds_GetCloudproviderRegions|]; intros.
  apply succeeds_bind; [|intros; apply succeeds_ret].
  apply succeeds_for_each_cpr; intros c.
  destruct (cpr_Enabled c) eqn:E; [|apply succeeds_ret].
  unfold Cloudproviderregion.markStartingSync; rewrite E; simpl.
  destruct (Cloudproviderregion.in_scope c range); simpl;
    [apply succeeds_cpr_Update | apply succeeds_ret].
Qed.

Lemma preserves_tasks_markStartSync : forall self range,
  preserves tasks_tbl (Cloudprovider.markStartSync self range).
Proof.
  intros; unfold Cloudprovider.markStartSync, Cloudprovider.Update,
    Cloudprovider.GetCloudproviderRegions.
  frame.
  apply preserves_for_each_cpr; intros c.
  unfold Cloudproviderregion.markStartingSync, Cloudproviderregion.Update.
  destruct (cpr_Enabled c); simpl; [|frame].
  destruct (Cloudproviderregion.in_scope c range); simpl; frame.
Qed.

Lemma run_bind_framed : forall X A B (proj : Store -> X) (m : M A) (k : A -> M B) s,
  succeeds m -> preserves proj m -> reliable s ->
  exists a s1, bind m k s = k a s1 /\ reliable s1 /\ proj s1 = proj s.
Proof.
  intros X A B proj m k s Hs Hp R.
  destruct (Hs s R) as (a & s1 & E & R1).
  exists a, s1; repeat split; auto.
  - unfold bind; rewrite E; reflexivity.
  - specialize (Hp s); rewrite E in Hp; exact Hp.
Qed.

Lemma GetCloudaccount_reliable : forall self s,
  reliable s ->
  Cloudprovider.GetCloudaccount self s =
  (match account_of self s with
   | Some a => inr a
   | None => inl (Wrap ErrNoRows "FetchById")
   end, s).
Proof.
  intros self s R.
  unfold Cloudprovider.GetCloudaccount, catch, FetchById, bind, get, account_of.
  rewrite (db_call_reliable _ _ R).
  destruct (find_row _ _); reflexivity.
Qed.

Lemma succeeds_GetCloudaccount_step : forall self,
  succeeds (catch (Cloudprovider.GetCloudaccount self)
                  (fun a => match a with
                            | inr cloudaccount =>
                                catch (Cloudaccount.MarkSyncing cloudaccount) (fun _ => ret tt)
                            | inl _ => ret tt
                            end)).
Proof.
  intros self s R.
  unfold returns, catch at 1.
  rewrite (GetCloudaccount_reliable _ _ R).
  destruct (account_of self s) as [a|]; simpl.
  - unfold catch, Cloudaccount.MarkSyncing, Cloudaccount.Update, bind, UtcNow, modify, ret.
    rewrite (db_call_reliable _ _ R). eexists _, _; split; [reflexivity | exact R].
  - exists tt, s; auto.
Qed.

Lemma preserves_tasks_GetCloudaccount_step : forall self,
  preserves tasks_tbl
            (catch (Cloudprovider.GetCloudaccount self)
                   (fun a => match a with
                             | inr cloudaccount =>
                                 catch (Cloudaccount.MarkSyncing cloudaccount) (fun _ => ret tt)
                             | inl _ => ret tt
                             end)).
Proof.
  intros self.
  unfold Cloudprovider.GetCloudaccount, FetchById.
  apply preserves_catch.
  - apply preserves_catch; [|intros [?|?]; frame].
    apply preserves_bind; [frame|intros].
    apply preserves_bind; [frame|intros s0].
    destruct (find_row _ _); frame.
  - intros [e|a]; [frame|].
    unfold Cloudaccount.MarkSyncing, Cloudaccount.Update; frame.
Qed.

Lemma NewTask_reliable : forall name objId params parent s,
  reliable s ->
  taskman.NewTask name objId params parent s =
  (inr (mkTask (length (tasks_tbl s)) name objId params parent false),
   set_tasks (tasks_tbl s ++ [mkTask (length (tasks_tbl s)) name objId params parent false]) s).
Proof.
  intros name objId params parent s R.
  unfold taskman.NewTask, bind, get, modify, ret.
  rewrite (db_call_reliable _ _ R). reflexivity.
Qed.

(** A started sync has a task row of its own, scheduled, that carries the
    scope it was started with. *)
Lemma StartSyncCloudProviderInfoTask_starts : forall self range parent s,
  reliable s ->
  exists s',
    Cloudprovider.StartSyncCloudProviderInfoTask self range parent s = (inr tt, s')
    /\ In (mkTask (length (tasks_tbl s)) "CloudProviderSyncInfoTask" (Id self) range parent true)
          (tasks_tbl s').
Proof.
  intros self range parent s R.
  unfold Cloudprovider.StartSyncCloudProviderInfoTask, catch at 1.
  rewrite (NewTask_reliable _ _ _ _ _ R).
  set (task := mkTask (length (tasks_tbl s)) _ _ _ _ false).
  set (s1 := set_tasks (tasks_tbl s ++ [task]) s).
  assert (R1 : reliable s1) by exact R.
  destruct (@run_bind_framed _ _ unit tasks_tbl _
              (fun _ => catch (Cloudprovider.markStartSync self range) (fun _ => ret tt) ;;;
                        LogEvent (Id self) ACT_SYNC_HOST_START ;;;
                        taskman.ScheduleRun task)
              s1 (succeeds_GetCloudaccount_step self)
              (preserves_tasks_GetCloudaccount_step self) R1)
    as (a1 & s2 & E2 & R2 & T2).
  rewrite E2; clear E2.
  assert (Hs3 : succeeds (catch (Cloudprovider.markStartSync self range)
                                (fun _ => ret tt : M unit))).
  { apply succeeds_catch; [apply succeeds_markStartSync | intros; apply succeeds_ret]. }
  assert (Hp3 : preserves tasks_tbl (catch (Cloudprovider.markStartSync self range)
                                           (fun _ => ret tt : M unit))).
  { apply preserves_catch; [apply preserves_tasks_markStartSync | intros; apply preserves_ret]. }
  destruct (@run_bind_framed _ _ unit tasks_tbl _
              (fun _ => LogEvent (Id self) ACT_SYNC_HOST_START ;;; taskman.ScheduleRun task)
              s2 Hs3 Hp3 R2) as (a2 & s3 & E3 & R3 & T3).
  rewrite E3; clear E3.
  unfold bind, LogEvent, modify, taskman.ScheduleRun, bind, modify.
  rewrite db_call_reliable by exact R3.
  eexists; split; [reflexivity|].
  simpl. rewrite T3, T2. unfold s1; simpl.
  unfold update_rows. rewrite map_app. apply in_or_app; right; simpl; left.
  rewrite Nat.eqb_refl. reflexivity.
Qed.

(** C10. A cloudprovider passes [ValidateDeleteCondition] only when it is
    disabled and its sync status is idle: an enabled provider is refused with
    an InvalidStatus error, a provider that is not idle is refused with an
    InvalidStatus error, and a disabled, idle provider is handed to the check
    of the base type, whose outcome is the outcome. *)
Theorem ValidateDeleteCondition_disabled_and_idle :
  forall (base : SCloudprovider -> M unit) (self : SCloudprovider) (s : Store),
    (Enabled self = true ->
     Cloudprovider.ValidateDeleteCondition base self s
     = (inl (InvalidStatusError "provider is enabled"), s))
    /\ (SyncStatus self <> CLOUD_PROVIDER_SYNC_STATUS_IDLE ->
        exists msg, Cloudprovider.ValidateDeleteCondition base self s
                    = (inl (InvalidStatusError msg), s))
    /\ (Enabled self = false -> SyncStatus self = CLOUD_PROVIDER_SYNC_STATUS_IDLE ->
        Cloudprovider.ValidateDeleteCondition base self s = base self s)
    /\ (forall r s', Cloudprovider.ValidateDeleteCondition base self s = (r, s') ->
        (Enabled self = false /\ SyncStatus self = CLOUD_PROVIDER_SYNC_STATUS_IDLE)
        \/ (s' = s /\ exists msg, r = inl (InvalidStatusError msg))).
Proof.
  intros base self s.
  unfold Cloudprovider.ValidateDeleteCondition, Cloudprovider.GetEnabled.
  repeat split.
  - intros ->; reflexivity.
  - intros Hn. apply status_eqb_neq in Hn.
    destruct (Enabled self); [eexists; reflexivity|].
    rewrite Hn; simpl. eexists; reflexivity.
  - intros -> ->; reflexivity.
  - intros r s'.
    destruct (Enabled self).
    + intros E; inversion E; subst. right; split; [reflexivity | eexists; reflexivity].
    + destruct (status_eqb (SyncStatus self) CLOUD_PROVIDER_SYNC_STATUS_IDLE) eqn:Hs; simpl.
      * intros _; left; split; [reflexivity | apply status_eqb_eq; exact Hs].
      * intros E; inversion E; subst. right; split; [reflexivity | eexists; reflexivity].
Qed.

Lemma PerformSync_range_deep : forall input,
  FullSync input = true \/ Region input <> [] \/ Zone input <> [] \/ Host input <> []
  \/ Resources input <> [] ->
  Cloudprovider.PerformSync_range input = set_DeepSync true input.
Proof.
  intros input H. unfold Cloudprovider.PerformSync_range.
  destruct (FullSync input); [reflexivity|].
  destruct (Region input); [|reflexivity].
  destruct (Zone input); [|reflexivity].
  destruct (Host input); [|reflexivity].
  destruct (Resources input); [|reflexivity].
  exfalso. destruct H as [H|[H|[H|[H|H]]]]; congruence.
Qed.

(** What [PerformSync] does once the provider and its account are found
    enabled. *)
Lemma PerformSync_enabled : forall CanSync self input s s1 account,
  Enabled self = true ->
  Cloudprovider.GetCloudaccount self s = (inr account, s1) ->
  ca_Enabled account = true ->
  Cloudprovider.PerformSync CanSync self input s =
  if CanSync self s1 || Force (Cloudprovider.PerformSync_range input)
  then Cloudprovider.StartSyncCloudProviderInfoTask
         self (Some (Cloudprovider.PerformSync_range input)) "" s1
  else (inl (InvalidStatusError "Unable to synchronize frequently"), s1).
Proof.
  intros CanSync self input s s1 account He Ha Hae.
  unfold Cloudprovider.PerformSync, Cloudprovider.GetEnabled.
  rewrite He; simpl. unfold catch at 1. rewrite Ha, Hae; simpl.
  unfold bind, get.
  destruct (CanSync self s1 || Force (Cloudprovider.PerformSync_range input)); reflexivity.
Qed.

Lemma Force_PerformSync_range : forall input,
  Force (Cloudprovider.PerformSync_range input) = Force input.
Proof.
  intros input; unfold Cloudprovider.PerformSync_range.
  destruct (_ || _); reflexivity.
Qed.

(** C9. A request that asks for a full sync, or names a region, a zone, a
    host or a resource, is run as a deep sync whatever its own [DeepSync]
    says: [PerformSync] treats it as the same request with [DeepSync] set,
    and the task it starts carries the scope with [DeepSync] set. *)
Theorem PerformSync_forces_DeepSync :
  forall (CanSync : SCloudprovider -> Store -> bool) (self : SCloudprovider)
         (input : SSyncRange),
    FullSync input = true \/ Region input <> [] \/ Zone input <> [] \/ Host input <> []
    \/ Resources input <> [] ->
    (forall s, Cloudprovider.PerformSync CanSync self input s
               = Cloudprovider.PerformSync CanSync self (set_DeepSync true input) s)
    /\ (forall s account,
          reliable s -> Enabled self = true ->
          account_of self s = Some account -> ca_Enabled account = true ->
          CanSync self s || Force input = true ->
          exists s',
            Cloudprovider.PerformSync CanSync self input s = (inr tt, s')
            /\ In (mkTask (length (tasks_tbl s)) "CloudProviderSyncInfoTask" (Id self)
                          (Some (set_DeepSync true input)) "" true)
                  (tasks_tbl s')).
Proof.
  intros CanSync self input H; split.
  - intros s. unfold Cloudprovider.PerformSync.
    rewrite (PerformSync_range_deep _ H).
    assert (H' : Cloudprovider.PerformSync_range (set_DeepSync true input)
                 = set_DeepSync true input).
    { rewrite PerformSync_range_deep; [reflexivity | destruct input; simpl in *; exact H]. }
    rewrite H'. reflexivity.
  - intros s account R He Ha Hae Hc.
    assert (G := GetCloudaccount_reliable self s R). rewrite Ha in G.
    rewrite (PerformSync_enabled CanSync self input s s account He G Hae).
    rewrite Force_PerformSync_range, Hc, (PerformSync_range_deep _ H).
    apply StartSyncCloudProviderInfoTask_starts; exact R.
Qed.

(** C2. On an enabled cloudprovider of an enabled cloudaccount, a sync
    request that [CanSync] does not admit and that is not forced is refused
    with an InvalidStatus error and starts nothing; a forced request goes on
    to start the sync task whatever [CanSync] and the current status say, and
    when no database call fails the task is there, scheduled. *)
Theorem PerformSync_admission :
  forall (CanSync : SCloudprovider -> Store -> bool) (self : SCloudprovider)
         (input : SSyncRange) (s s1 : Store) (account : SCloudaccount),
    Enabled self = true ->
    Cloudprovider.GetCloudaccount self s = (inr account, s1) ->
    ca_Enabled account = true ->
    (CanSync self s1 = false -> Force input = false ->
     Cloudprovider.PerformSync CanSync self input s
     = (inl (InvalidStatusError "Unable to synchronize frequently"), s1))
    /\ (Force input = true ->
        Cloudprovider.PerformSync CanSync self input s
        = Cloudprovider.StartSyncCloudProviderInfoTask
            self (Some (Cloudprovider.PerformSync_range input)) "" s1)
    /\ (Force input = true -> reliable s ->
        exists s',
          Cloudprovider.PerformSync CanSync self input s = (inr tt, s')
          /\ In (mkTask (length (tasks_tbl s)) "CloudProviderSyncInfoTask" (Id self)
                        (Some (Cloudprovider.PerformSync_range input)) "" true)
                (tasks_tbl s')).
Proof.
  intros CanSync self input s s1 account He Ha Hae.
  rewrite (PerformSync_enabled CanSync self input s s1 account He Ha Hae), Force_PerformSync_range.
  repeat split.
  - intros -> ->; reflexivity.
  - intros ->; rewrite orb_true_r; reflexivity.
  - intros -> R. rewrite orb_true_r.
    rewrite (GetCloudaccount_reliable self s R) in Ha.
    assert (s1 = s) by (destruct (account_of self s); congruence). subst s1.
    apply StartSyncCloudProviderInfoTask_starts; exact R.
Qed.

(** ** Cloudproviders: the end of a sync *)

Lemma count_not_idle : forall self l,
  (0 <? length (filter (fun c => Cloudprovider.is_child self c
                                 && negb (is_idle (cpr_SyncStatus c))) l))%nat
  = negb (forallb (fun c => implb (Cloudprovider.is_child self c)
                                  (is_idle (cpr_SyncStatus c))) l).
Proof.
  intros self l; induction l as [|c l IH]; simpl; [reflexivity|].
  destruct (Cloudprovider.is_child self c), (is_idle (cpr_SyncStatus c)); simpl; auto.
Qed.

(** [getSyncStatus2] never fails; it says idle only when the count went
    through and found every binding of the provider idle. *)
Lemma getSyncStatus2_cases : forall self s,
  exists st s',
    Cloudprovider.getSyncStatus2 self s = (inr st, s')
    /\ cloudproviders_tbl s' = cloudproviders_tbl s
    /\ now s' = now s
    /\ (st = CLOUD_PROVIDER_SYNC_STATUS_IDLE -> regions_idle self s = true)
    /\ (reliable s -> s' = s /\ (regions_idle self s = true -> st = CLOUD_PROVIDER_SYNC_STATUS_IDLE)).
Proof.
  intros self s.
  unfold Cloudprovider.getSyncStatus2, catch, db_call, regions_idle.
  destruct (faults s) as [|[|] fs] eqn:F; simpl; unfold bind, get; simpl;
    rewrite ?count_not_idle;
    try (destruct (forallb _ (cloudproviderregions_tbl s)) eqn:E; simpl);
    eexists _, _; repeat split; auto; try congruence;
    try (intros R; unfold reliable in R; congruence).
Qed.

Lemma preserves_providers_account_step : forall (self' : SCloudprovider),
  preserves cloudproviders_tbl
    (catch (Cloudprovider.GetCloudaccount self')
           (fun r => match r with
                     | inl err => fail (Wrap err "GetCloudaccount")
                     | inr account => Cloudaccount.MarkEndSyncWithLock account ;;; ret self'
                     end)).
Proof.
  intros self'.
  unfold Cloudprovider.GetCloudaccount, FetchById.
  apply preserves_catch.
  - apply preserves_catch; [|intros [?|?]; frame].
    apply preserves_bind; [frame|intros].
    apply preserves_bind; [frame|intros s0].
    destruct (find_row _ _); frame.
  - intros [e|a]; [frame|].
    unfold Cloudaccount.MarkEndSyncWithLock, Cloudaccount.Update.
    apply preserves_bind; [|intros; frame].
    apply preserves_bind; [frame|intros s0].
    destruct (Cloudaccount.children_idle _ _); frame.
Qed.

(** The locked part of [markEndSyncWithLock], case by case. *)
Lemma markEndSyncLocked_gate : forall self s,
  regions_idle self s = false ->
  exists s', Cloudprovider.markEndSyncLocked self s = (inr self, s')
             /\ cloudproviders_tbl s' = cloudproviders_tbl s.
Proof.
  intros self s Hg. unfold Cloudprovider.markEndSyncLocked.
  destruct (status_eqb (SyncStatus self) CLOUD_PROVIDER_SYNC_STATUS_IDLE).
  - exists s; split; reflexivity.
  - destruct (getSyncStatus2_cases self s) as (st & s' & E & Hp & _ & Hi & _).
    unfold bind; rewrite E.
    destruct (status_eqb st CLOUD_PROVIDER_SYNC_STATUS_IDLE) eqn:Est; simpl.
    + apply status_eqb_eq in Est. rewrite (Hi Est) in Hg; discriminate.
    + exists s'; split; [reflexivity | exact Hp].
Qed.

Lemma markEndSyncLocked_idle : forall self s,
  SyncStatus self = CLOUD_PROVIDER_SYNC_STATUS_IDLE ->
  Cloudprovider.markEndSyncLocked self s = (inr self, s).
Proof.
  intros self s H. unfold Cloudprovider.markEndSyncLocked; rewrite H; reflexivity.
Qed.

Lemma markEndSyncLocked_transition : forall self s,
  reliable s ->
  SyncStatus self <> CLOUD_PROVIDER_SYNC_STATUS_IDLE ->
  regions_idle self s = true ->
  Cloudprovider.markEndSyncLocked self s =
  (inr (end_sync (now s) self),
   set_cloudproviders (update_rows (Cloudprovider.same_row self) (end_sync (now s))
                                   (cloudproviders_tbl s)) s).
Proof.
  intros self s R Hn Hg. unfold Cloudprovider.markEndSyncLocked.
  apply status_eqb_neq in Hn; rewrite Hn.
  destruct (getSyncStatus2_cases self s) as (st & s' & E & _ & _ & _ & Hr).
  destruct (Hr R) as [-> Hst]. rewrite (Hst Hg) in E.
  unfold bind; rewrite E; simpl.
  unfold Cloudprovider.markEndSync, bind, UtcNow, catch, Cloudprovider.Update, bind, modify.
  rewrite (db_call_reliable _ _ R). reflexivity.
Qed.

(** Whatever the faults, the locked part writes the provider's rows only on
    the way through the gate. *)
Lemma markEndSyncLocked_only_when : forall self s,
  cloudproviders_tbl (snd (Cloudprovider.markEndSyncLocked self s)) <> cloudproviders_tbl s ->
  SyncStatus self <> CLOUD_PROVIDER_SYNC_STATUS_IDLE /\ regions_idle self s = true.
Proof.
  intros self s Hc.
  destruct (status_eqb (SyncStatus self) CLOUD_PROVIDER_SYNC_STATUS_IDLE) eqn:Ei.
  - apply status_eqb_eq in Ei. rewrite (markEndSyncLocked_idle self s Ei) in Hc.
    exfalso; apply Hc; reflexivity.
  - split; [apply status_eqb_neq; exact Ei|].
    destruct (regions_idle self s) eqn:Hg; [reflexivity|].
    destruct (markEndSyncLocked_gate self s Hg) as (s' & E & Hp).
    rewrite E in Hc; simpl in Hc. contradiction.
Qed.

Lemma markEndSyncWithLock_providers : forall self s,
  cloudproviders_tbl (snd (Cloudprovider.markEndSyncWithLock self s))
  = cloudproviders_tbl (snd (Cloudprovider.markEndSyncLocked self s)).
Proof.
  intros self s. unfold Cloudprovider.markEndSyncWithLock, bind.
  destruct (Cloudprovider.markEndSyncLocked self s) as [[e|self'] s1]; simpl; [reflexivity|].
  apply preserves_providers_account_step.
Qed.

Lemma children_idle_after : forall self account t l,
  CloudaccountId self = ca_Id account ->
  forallb (fun p => Cloudprovider.same_row self p
                    || negb (String.eqb (CloudaccountId p) (ca_Id account))
                    || is_idle (SyncStatus p)) l = true ->
  forallb (fun p => is_idle (SyncStatus p))
          (filter (fun p => String.eqb (CloudaccountId p) (ca_Id account))
                  (update_rows (Cloudprovider.same_row self) (end_sync t) l)) = true.
Proof.
  intros self account t l Ha; induction l as [|p l IH]; simpl; [reflexivity|].
  intros H; apply andb_true_iff in H; destruct H as [Hp Hl].
  destruct (Cloudprovider.same_row self p) eqn:Es; simpl.
  - destruct (String.eqb (CloudaccountId p) (ca_Id account)); simpl; auto.
  - destruct (String.eqb (CloudaccountId p) (ca_Id account)); simpl in *; auto.
    rewrite Hp; simpl; auto.
Qed.

Lemma find_row_key : forall R (p : R -> bool) l r, find_row p l = Some r -> p r = true.
Proof.
  intros R p l r; induction l as [|x l IH]; simpl; [discriminate|].
  destruct (p x) eqn:E; [intros H; inversion H; subst; exact E | exact IH].
Qed.

Lemma find_row_In : forall R (p : R -> bool) l r, find_row p l = Some r -> In r l.
Proof.
  intros R p l r; induction l as [|x l IH]; simpl; [discriminate|].
  destruct (p x); [intros H; inversion H; auto | auto].
Qed.

Lemma find_row_None : forall R (p : R -> bool) l,
  find_row p l = None -> forall r, In r l -> p r = false.
Proof.
  intros R p l; induction l as [|x l IH]; simpl; [contradiction|].
  destruct (p x) eqn:E; [discriminate|]. intros H r [->|Hin]; auto.
Qed.

(** With every database call going through, a provider that is not idle and
    whose bindings are all idle ends its sync, and with its sibling providers
    idle so does its account. *)
Lemma markEndSyncWithLock_completes : forall self s account,
  reliable s ->
  SyncStatus self <> CLOUD_PROVIDER_SYNC_STATUS_IDLE ->
  regions_idle self s = true ->
  account_of self s = Some account ->
  exists s',
    Cloudprovider.markEndSyncWithLock self s = (inr (end_sync (now s) self), s')
    /\ cloudproviders_tbl s'
       = update_rows (Cloudprovider.same_row self) (end_sync (now s)) (cloudproviders_tbl s)
    /\ (siblings_idle self account s = true ->
        cloudaccounts_tbl s'
        = update_rows (fun r => String.eqb (ca_Id r) (ca_Id account))
                      (account_end_sync (now s)) (cloudaccounts_tbl s))
    /\ (siblings_idle self account s = false ->
        cloudaccounts_tbl s' = cloudaccounts_tbl s).
Proof.
  intros self s account R Hn Hg Ha.
  unfold Cloudprovider.markEndSyncWithLock, bind at 1.
  rewrite (markEndSyncLocked_transition self s R Hn Hg).
  set (s1 := set_cloudproviders _ s).
  assert (R1 : reliable s1) by exact R.
  unfold catch at 1. rewrite (GetCloudaccount_reliable _ s1 R1).
  assert (Ha1 : account_of (end_sync (now s) self) s1 = Some account) by exact Ha.
  rewrite Ha1.
  assert (Hid : CloudaccountId self = ca_Id account).
  { apply find_row_key in Ha. apply String.eqb_eq in Ha. symmetry; exact Ha. }
  unfold Cloudaccount.MarkEndSyncWithLock, bind at 1 2, get.
  assert (Hch : Cloudaccount.children_idle (ca_Id account) s1 = siblings_idle self account s).
  { unfold Cloudaccount.children_idle, Cloudaccount.providers_of, siblings_idle, s1; simpl.
    generalize (cloudproviders_tbl s) as l. intros l.
    induction l as [|p l IH]; simpl; [reflexivity|].
    unfold update_rows in IH |- *.
    destruct (Cloudprovider.same_row self p) eqn:Es; simpl.
    - unfold Cloudprovider.same_row in Es. 
      destruct (String.eqb (CloudaccountId p) (ca_Id account)); simpl; exact IH.
    - destruct (String.eqb (CloudaccountId p) (ca_Id account)); simpl; [|exact IH].
      rewrite IH; reflexivity. }
  rewrite Hch.
  destruct (siblings_idle self account s) eqn:Hsib.
  - unfold bind, UtcNow, Cloudaccount.Update, bind, modify, ret.
    rewrite (db_call_reliable _ _ R1).
    eexists; split; [reflexivity|]. repeat split; intros; try reflexivity; discriminate.
  - unfold bind, ret. eexists; split; [reflexivity|].
    repeat split; intros; try reflexivity; discriminate.
Qed.

(** C3. [markEndSyncWithLock] sets a cloudprovider idle, with the time as its
    last sync end, only when the provider is not idle and every one of its
    cloudprovider-region bindings is idle: with a binding that is not idle the
    provider's rows and the object are left as they were, whatever else
    happens; and when the provider does end its sync, the owning cloudaccount
    is asked to end its own, which it does when no other provider of it is
    still at work. *)
Theorem markEndSyncWithLock_gated_on_regions :
  forall (self : SCloudprovider) (s : Store),
    (regions_idle self s = false ->
     cloudproviders_tbl (snd (Cloudprovider.markEndSyncWithLock self s)) = cloudproviders_tbl s
     /\ forall self' s', Cloudprovider.markEndSyncWithLock self s = (inr self', s') ->
                         self' = self)
    /\ (cloudproviders_tbl (snd (Cloudprovider.markEndSyncWithLock self s))
        <> cloudproviders_tbl s ->
        SyncStatus self <> CLOUD_PROVIDER_SYNC_STATUS_IDLE /\ regions_idle self s = true)
    /\ (reliable s ->
        SyncStatus self <> CLOUD_PROVIDER_SYNC_STATUS_IDLE ->
        regions_idle self s = true ->
        forall account, account_of self s = Some account ->
        exists s',
          Cloudprovider.markEndSyncWithLock self s = (inr (end_sync (now s) self), s')
          /\ SyncStatus (end_sync (now s) self) = CLOUD_PROVIDER_SYNC_STATUS_IDLE
          /\ LastSyncEndAt (end_sync (now s) self) = now s
          /\ cloudproviders_tbl s'
             = update_rows (Cloudprovider.same_row self) (end_sync (now s))
                           (cloudproviders_tbl s)
          /\ (siblings_idle self account s = true ->
              cloudaccounts_tbl s'
              = update_rows (fun r => String.eqb (ca_Id r) (ca_Id account))
                            (account_end_sync (now s)) (cloudaccounts_tbl s))).
Proof.
  intros self s. repeat split.
  - rewrite markEndSyncWithLock_providers.
    destruct (markEndSyncLocked_gate self s H) as (s' & E & Hp). rewrite E; exact Hp.
  - intros self' s'. unfold Cloudprovider.markEndSyncWithLock, bind.
    destruct (markEndSyncLocked_gate self s H) as (s1 & E & Hp). rewrite E.
    unfold catch. destruct (Cloudprovider.GetCloudaccount self s1) as [[e|a] s2]; simpl.
    + discriminate.
    + destruct (Cloudaccount.MarkEndSyncWithLock a s2) as [[e|a'] s3]; simpl;
        [discriminate | intros E'; inversion E'; reflexivity].
  - rewrite markEndSyncWithLock_providers in H.
    apply (markEndSyncLocked_only_when self s H).
  - rewrite markEndSyncWithLock_providers in H.
    apply (markEndSyncLocked_only_when self s H).
  - intros R Hn Hg account Ha.
    destruct (markEndSyncWithLock_completes self s account R Hn Hg Ha)
      as (s' & E & Hp & Hacc & _).
    exists s'; repeat split; auto.
Qed.

(** ** Cloudproviders: cancelling a sync that is still queuing *)

Lemma set_cloudproviderregions_same : forall s,
  set_cloudproviderregions (cloudproviderregions_tbl s) s = s.
Proof. intros s; destruct s; reflexivity. Qed.

Lemma cancel_row_step : forall c rest r,
  cancel_row rest
    (if Cloudproviderregion.same_row c r
        && status_eqb (cpr_SyncStatus c) CLOUD_PROVIDER_SYNC_STATUS_QUEUING
     then Cloudproviderregion.set_SyncStatus CLOUD_PROVIDER_SYNC_STATUS_IDLE r else r)
  = cancel_row (c :: rest) r.
Proof.
  intros c rest r. unfold cancel_row; simpl.
  destruct (Cloudproviderregion.same_row c r
            && status_eqb (cpr_SyncStatus c) CLOUD_PROVIDER_SYNC_STATUS_QUEUING); simpl.
  - destruct (existsb _ rest); reflexivity.
  - reflexivity.
Qed.

(** The loop of [cancelStartingSync] over the bindings [l], when no database
    call fails: only the table of bindings changes, row by row. *)
Lemma cancel_loop : forall msg l s,
  reliable s ->
  Cloudprovider.for_each_cpr Cloudproviderregion.cancelStartingSync msg l s
  = (inr tt, set_cloudproviderregions (map (cancel_row l) (cloudproviderregions_tbl s)) s).
Proof.
  intros msg l; induction l as [|c rest IH]; intros s R; simpl.
  - unfold ret. f_equal. rewrite <- (set_cloudproviderregions_same s) at 1.
    f_equal. symmetry. rewrite <- (map_id (cloudproviderregions_tbl s)) at 2.
    apply map_ext; intros r; reflexivity.
  - unfold catch, Cloudproviderregion.cancelStartingSync.
    destruct (status_eqb (cpr_SyncStatus c) CLOUD_PROVIDER_SYNC_STATUS_QUEUING) eqn:Eq.
    + unfold Cloudproviderregion.Update, bind, modify, ret.
      rewrite (db_call_reliable _ _ R).
      rewrite IH by exact R. simpl. f_equal. unfold set_cloudproviderregions; simpl.
      f_equal. unfold update_rows. rewrite map_map. apply map_ext; intros r.
      rewrite <- cancel_row_step. rewrite Eq, andb_true_r. reflexivity.
    + unfold ret. rewrite IH by exact R. f_equal. f_equal.
      apply map_ext; intros r. rewrite <- cancel_row_step. rewrite Eq, andb_false_r.
      reflexivity.
Qed.

Lemma cancel_row_other : forall self l r,
  Cloudprovider.is_child self r = false ->
  cancel_row (filter (Cloudprovider.is_child self) l) r = r.
Proof.
  intros self l r Hr. unfold cancel_row.
  replace (existsb _ _) with false; [reflexivity|].
  symmetry. induction l as [|c l IH]; simpl; [reflexivity|].
  destruct (Cloudprovider.is_child self c) eqn:Ec; simpl; [|exact IH].
  rewrite IH, orb_false_r.
  unfold Cloudproviderregion.same_row, Cloudprovider.is_child in *.
  apply String.eqb_eq in Ec. rewrite Ec.
  rewrite String.eqb_sym, Hr. reflexivity.
Qed.

Lemma same_row_refl : forall r, Cloudproviderregion.same_row r r = true.
Proof. intros r; unfold Cloudproviderregion.same_row; rewrite !String.eqb_refl; reflexivity. Qed.

Lemma cancel_row_queuing : forall self l r,
  In r l -> Cloudprovider.is_child self r = true ->
  cpr_SyncStatus r = CLOUD_PROVIDER_SYNC_STATUS_QUEUING ->
  cancel_row (filter (Cloudprovider.is_child self) l) r
  = Cloudproviderregion.set_SyncStatus CLOUD_PROVIDER_SYNC_STATUS_IDLE r.
Proof.
  intros self l r Hin Hc Hq. unfold cancel_row.
  replace (existsb _ _) with true; [reflexivity|].
  symmetry; apply existsb_exists. exists r; split.
  - apply filter_In; auto.
  - rewrite same_row_refl, Hq; reflexivity.
Qed.

Lemma cancel_row_not_queuing : forall self l r,
  In r l -> Cloudprovider.is_child self r = true ->
  cpr_SyncStatus (cancel_row (filter (Cloudprovider.is_child self) l) r)
  <> CLOUD_PROVIDER_SYNC_STATUS_QUEUING.
Proof.
  intros self l r Hin Hc.
  destruct (status_eqb (cpr_SyncStatus r) CLOUD_PROVIDER_SYNC_STATUS_QUEUING) eqn:Eq.
  - apply status_eqb_eq in Eq. rewrite (cancel_row_queuing self l r Hin Hc Eq); simpl.
    discriminate.
  - unfold cancel_row. destruct (existsb _ _); simpl; [discriminate|].
    apply status_eqb_neq; exact Eq.
Qed.

(** C8. [cancelStartingSync] acts in the queuing state and in no other: on a
    provider whose sync status is not queuing it returns at once and the
    provider, its bindings and the rest of the store are as they were; on a
    queuing provider (with every database call going through) it cancels each
    of the provider's bindings, so that none is left queuing and those that
    were are idle, sets the provider idle, and touches no binding of another
    provider. *)
Theorem cancelStartingSync_only_in_queuing :
  forall (self : SCloudprovider) (s : Store),
    (SyncStatus self <> CLOUD_PROVIDER_SYNC_STATUS_QUEUING ->
     Cloudprovider.cancelStartingSync self s = (inr self, s))
    /\ (SyncStatus self = CLOUD_PROVIDER_SYNC_STATUS_QUEUING -> reliable s ->
        let cprs := filter (Cloudprovider.is_child self) (cloudproviderregions_tbl s) in
        Cloudprovider.cancelStartingSync self s
        = (inr (Cloudprovider.set_SyncStatus CLOUD_PROVIDER_SYNC_STATUS_IDLE self),
           set_cloudproviders
             (update_rows (Cloudprovider.same_row self)
                          (Cloudprovider.set_SyncStatus CLOUD_PROVIDER_SYNC_STATUS_IDLE)
                          (cloudproviders_tbl s))
             (set_cloudproviderregions
                (map (cancel_row cprs) (cloudproviderregions_tbl s)) s))
        /\ forall r, In r (cloudproviderregions_tbl s) ->
             (Cloudprovider.is_child self r = false -> cancel_row cprs r = r)
             /\ (Cloudprovider.is_child self r = true ->
                 cpr_SyncStatus (cancel_row cprs r) <> CLOUD_PROVIDER_SYNC_STATUS_QUEUING
                 /\ (cpr_SyncStatus r = CLOUD_PROVIDER_SYNC_STATUS_QUEUING ->
                     cancel_row cprs r
                     = Cloudproviderregion.set_SyncStatus CLOUD_PROVIDER_SYNC_STATUS_IDLE r))).
Proof.
  intros self s; split.
  - intros Hn. apply status_eqb_neq in Hn.
    unfold Cloudprovider.cancelStartingSync. rewrite Hn. reflexivity.
  - intros Hq R cprs; split.
    + unfold Cloudprovider.cancelStartingSync. rewrite Hq; simpl.
      unfold bind at 1, Cloudprovider.GetCloudproviderRegions, catch at 1.
      rewrite (db_call_reliable _ _ R). unfold bind at 1, get. unfold ret at 1.
      unfold bind at 1. fold cprs. rewrite (cancel_loop _ cprs s R).
      unfold catch, Cloudprovider.Update, bind, modify, ret.
      rewrite db_call_reliable by exact R. reflexivity.
    + intros r Hin; split; [|split].
      * apply cancel_row_other.
      * apply cancel_row_not_queuing; assumption.
      * apply cancel_row_queuing; assumption.
Qed.

(** ** The account sync task *)

Lemma account_MarkEndSyncWithLock_reliable : forall account s,
  reliable s ->
  Cloudaccount.MarkEndSyncWithLock account s =
  if Cloudaccount.children_idle (ca_Id account) s
  then (inr (account_end_sync (now s) account),
        set_cloudaccounts (update_rows (fun r => String.eqb (ca_Id r) (ca_Id account))
                                       (account_end_sync (now s)) (cloudaccounts_tbl s)) s)
  else (inr account, s).
Proof.
  intros account s R.
  unfold Cloudaccount.MarkEndSyncWithLock, bind at 1, get.
  destruct (Cloudaccount.children_idle (ca_Id account) s); [|reflexivity].
  unfold bind, UtcNow, Cloudaccount.Update, bind, modify, ret.
  rewrite (db_call_reliable _ _ R). reflexivity.
Qed.

(** Whatever the faults, the account's rows change only through the gate. *)
Lemma account_MarkEndSyncWithLock_gate : forall account s,
  Cloudaccount.children_idle (ca_Id account) s = false ->
  Cloudaccount.MarkEndSyncWithLock account s = (inr account, s).
Proof.
  intros account s H.
  unfold Cloudaccount.MarkEndSyncWithLock, bind, get. rewrite H. reflexivity.
Qed.

Lemma ended_rows_idle : forall id t l a,
  In a (update_rows (fun r => String.eqb (ca_Id r) id) (account_end_sync t) l) ->
  ca_Id a = id -> ca_SyncStatus a = CLOUD_PROVIDER_SYNC_STATUS_IDLE.
Proof.
  intros id t l a Hin Hid. unfold update_rows in Hin.
  apply in_map_iff in Hin. destruct Hin as (r & E & _).
  destruct (String.eqb (ca_Id r) id) eqn:Er.
  - subst a; reflexivity.
  - subst a. apply String.eqb_neq in Er. contradiction.
Qed.

(** [OnCloudaccountSyncReadyFailed] itself writes no account row: on the
    path through [OnInit] the sync was already ended by the function that
    failed. *)
Lemma OnCloudaccountSyncReadyFailed_accounts : forall self account s,
  cloudaccounts_tbl (snd (CloudAccountSyncInfoTask.OnCloudaccountSyncReadyFailed self account s))
  = cloudaccounts_tbl s
  /\ CloudAccountSyncInfoTask.Status
       (fst (CloudAccountSyncInfoTask.OnCloudaccountSyncReadyFailed self account s))
     = CloudAccountSyncInfoTask.task_failed.
Proof. intros; split; reflexivity. Qed.

Lemma OnCloudaccountSyncCompleteFailed_accounts : forall self account s,
  cloudaccounts_tbl
    (snd (CloudAccountSyncInfoTask.OnCloudaccountSyncCompleteFailed self account s))
  = cloudaccounts_tbl (snd (Cloudaccount.MarkEndSyncWithLock account s))
  /\ CloudAccountSyncInfoTask.Status
       (fst (CloudAccountSyncInfoTask.OnCloudaccountSyncCompleteFailed self account s))
     = CloudAccountSyncInfoTask.task_failed.
Proof. intros; split; reflexivity. Qed.

(** What a pass that fails in [OnInit] comes to: the function's own clean-up,
    then the failure handler of the stage. *)
Lemma OnInit_failed : forall SyncCall SyncRes self account s err s1,
  SyncCall account (CloudAccountSyncInfoTask.dropping
                      (LogEvent (ca_Id account) ACT_SYNCING_HOST) s) = (inl err, s1) ->
  CloudAccountSyncInfoTask.OnInit SyncCall SyncRes self account s
  = CloudAccountSyncInfoTask.OnCloudaccountSyncReadyFailed
      (CloudAccountSyncInfoTask.SetStage "OnCloudaccountSyncReady" self) account
      (snd (Cloudaccount.MarkEndSyncWithLock account s1)).
Proof.
  intros SyncCall SyncRes self account s err s1 H.
  unfold CloudAccountSyncInfoTask.OnInit, CloudAccountSyncInfoTask.LocalTaskRun,
    CloudAccountSyncInfoTask.OnInit_proc.
  unfold catch at 1. rewrite H.
  unfold catch. destruct (Cloudaccount.MarkEndSyncWithLock account s1) as [r s2]; simpl.
  reflexivity.
Qed.




(** ** The properties at work on example data *)

Lemma ValidateDeleteCondition_disabled_and_idle_witness :
  Cloudprovider.ValidateDeleteCondition Examples.base_ok Examples.provider_idle
                                        Examples.store_quiet
  = (inl (InvalidStatusError "provider is enabled"), Examples.store_quiet)
  /\ Cloudprovider.ValidateDeleteCondition Examples.base_ok Examples.provider_disabled
                                           Examples.store_quiet
     = Examples.base_ok Examples.provider_disabled Examples.store_quiet.
Proof.
  split.
  - exact (proj1 (ValidateDeleteCondition_disabled_and_idle
                    Examples.base_ok Examples.provider_idle Examples.store_quiet) eq_refl).
  - exact (proj1 (proj2 (proj2 (ValidateDeleteCondition_disabled_and_idle
                    Examples.base_ok Examples.provider_disabled Examples.store_quiet)))
                 eq_refl eq_refl).
Defined.

Lemma PerformSync_forces_DeepSync_witness :
  exists s',
    Cloudprovider.PerformSync Examples.never_CanSync Examples.provider_idle
                              Examples.request_forced Examples.store_quiet = (inr tt, s')
    /\ In (mkTask 0 "CloudProviderSyncInfoTask" "p1"
                  (Some (mkSyncRange true true true [] [] [] [])) "" true)
          (tasks_tbl s').
Proof.
  exact (proj2 (PerformSync_forces_DeepSync Examples.never_CanSync Examples.provider_idle
                  Examples.request_forced (or_introl eq_refl))
               Examples.store_quiet Examples.account1 eq_refl eq_refl eq_refl eq_refl eq_refl).
Defined.

Lemma PerformSync_admission_witness :
  Cloudprovider.PerformSync Examples.never_CanSync Examples.provider_syncing
                            Examples.request_plain Examples.store_busy
  = (inl (InvalidStatusError "Unable to synchronize frequently"), Examples.store_busy)
  /\ exists s',
       Cloudprovider.PerformSync Examples.never_CanSync Examples.provider_syncing
                                 Examples.request_forced Examples.store_busy = (inr tt, s')
       /\ In (mkTask 0 "CloudProviderSyncInfoTask" "p1"
                     (Some (mkSyncRange true true true [] [] [] [])) "" true)
             (tasks_tbl s').
Proof.
  split.
  - exact (proj1 (PerformSync_admission Examples.never_CanSync Examples.provider_syncing
                    Examples.request_plain Examples.store_busy Examples.store_busy
                    Examples.account1 eq_refl eq_refl eq_refl)
                 eq_refl eq_refl).
  - exact (proj2 (proj2 (PerformSync_admission Examples.never_CanSync Examples.provider_syncing
                    Examples.request_forced Examples.store_busy Examples.store_busy
                    Examples.account1 eq_refl eq_refl eq_refl))
                 eq_refl eq_refl).
Defined.

Lemma markEndSyncWithLock_gated_on_regions_witness :
  (cloudproviders_tbl (snd (Cloudprovider.markEndSyncWithLock Examples.provider_syncing
                              Examples.store_busy))
   = cloudproviders_tbl Examples.store_busy)
  /\ exists s',
       Cloudprovider.markEndSyncWithLock Examples.provider_syncing Examples.store_done
       = (inr (end_sync 100%Z Examples.provider_syncing), s')
       /\ cloudproviders_tbl s' = [end_sync 100%Z Examples.provider_syncing]
       /\ cloudaccounts_tbl s' = [account_end_sync 100%Z Examples.account1].
Proof.
  split.
  - exact (proj1 (proj1 (markEndSyncWithLock_gated_on_regions
                           Examples.provider_syncing Examples.store_busy) eq_refl)).
  - destruct (proj2 (proj2 (markEndSyncWithLock_gated_on_regions
                              Examples.provider_syncing Examples.store_done))
                    eq_refl ltac:(discriminate) eq_refl Examples.account1 eq_refl)
      as (s' & E & _ & _ & Hp & Ha).
    exists s'; split; [exact E|]; split; [exact Hp | exact (Ha eq_refl)].
Defined.

Lemma cancelStartingSync_only_in_queuing_witness :
  Cloudprovider.cancelStartingSync Examples.provider_syncing Examples.store_busy
  = (inr Examples.provider_syncing, Examples.store_busy)
  /\ Cloudprovider.cancelStartingSync Examples.provider_queuing Examples.store_queuing
     = (inr Examples.provider_idle_after_cancel,
        Examples.store_of [Examples.provider_idle_after_cancel]
                          [Examples.cpr "r1" CLOUD_PROVIDER_SYNC_STATUS_IDLE;
                           Examples.cpr "r2" CLOUD_PROVIDER_SYNC_STATUS_IDLE]).
Proof.
  split.
  - exact (proj1 (cancelStartingSync_only_in_queuing Examples.provider_syncing
                    Examples.store_busy) ltac:(discriminate)).
  - exact (proj1 (proj2 (cancelStartingSync_only_in_queuing Examples.provider_queuing
                           Examples.store_queuing) eq_refl eq_refl)).
Defined.

(** ** The comparator *)

Section CompareFacts.

Variables L R : Type.
Variable keyL : L -> option string.
Variable keyR : R -> option string.

Lemma keyed_spec : forall A (key : A -> option string) l kl,
  compare.keyed key l = Some kl -> map snd kl = l /\ well_keyed key kl.
Proof.
  intros A key l; induction l as [|a l IH]; simpl; intros kl H.
  - inversion H; split; [reflexivity | constructor].
  - destruct (key a) as [k|] eqn:Ek; [|discriminate].
    destruct (compare.keyed key l) as [kl'|]; [|discriminate].
    inversion H; subst. destruct (IH kl' eq_refl) as [E W].
    split; [simpl; rewrite E; reflexivity | constructor; [exact Ek | exact W]].
Qed.

Lemma keyed_total : forall A (key : A -> option string) l,
  (forall a, In a l -> key a <> None) -> exists kl, compare.keyed key l = Some kl.
Proof.
  intros A key l; induction l as [|a l IH]; simpl; intros H.
  - eexists; reflexivity.
  - destruct (key a) as [k|] eqn:Ek; [|exfalso; apply (H a); auto].
    destruct IH as [kl E]; [intros; apply H; auto|]. rewrite E. eexists; reflexivity.
Qed.

Lemma keyed_fails : forall A (key : A -> option string) l,
  compare.keyed key l = None -> exists a, In a l /\ key a = None.
Proof.
  intros A key l; induction l as [|a l IH]; simpl; [discriminate|].
  destruct (key a) as [k|] eqn:Ek; [|intros _; exists a; auto].
  destruct (compare.keyed key l); [discriminate|].
  intros _. destruct (IH eq_refl) as (b & Hb & Eb). exists b; auto.
Qed.

Lemma take_match_Some : forall k (ext : list (string * R)) r ext',
  compare.take_match k ext = Some (r, ext') -> Permutation ext ((k, r) :: ext').
Proof.
  intros k ext; induction ext as [|[k' r'] ext IH]; simpl; intros r ext' H; [discriminate|].
  destruct (String.eqb k k') eqn:Ek.
  - apply String.eqb_eq in Ek; subst k'. inversion H; subst. apply Permutation_refl.
  - destruct (compare.take_match k ext) as [[m rest]|]; [|discriminate].
    inversion H; subst. eapply perm_trans; [apply perm_skip, IH; reflexivity | apply perm_swap].
Qed.

Lemma take_match_None : forall k (ext : list (string * R)),
  compare.take_match k ext = None -> forall k' r, In (k', r) ext -> k <> k'.
Proof.
  intros k ext; induction ext as [|[k1 r1] ext IH]; simpl; intros H k' r Hin; [contradiction|].
  destruct (String.eqb k k1) eqn:Ek; [discriminate|].
  destruct (compare.take_match k ext) as [[m rest]|]; [discriminate|].
  destruct Hin as [E|Hin]; [inversion E; subst; apply String.eqb_neq; exact Ek | eauto].
Qed.

(** The partition [pair_up] builds from keyed lists. *)
Lemma pair_up_spec : forall (db : list (string * L)) (ext : list (string * R)),
  let p := compare.pair_up db ext in
  Permutation (map snd db) (compare.removed p ++ compare.commondb p)
  /\ Permutation (map snd ext) (compare.added p ++ compare.commonext p)
  /\ Forall2 (fun l r => exists k, In (k, l) db /\ In (k, r) ext)
             (compare.commondb p) (compare.commonext p)
  /\ (forall l, In l (compare.removed p) -> exists k, In (k, l) db /\
        forall r, In r (compare.added p) -> exists k', In (k', r) ext /\ k <> k').
Proof.
  intros db; induction db as [|[k l] db IH]; intros ext; simpl.
  - repeat split.
    + apply Permutation_refl.
    + rewrite app_nil_r; apply Permutation_refl.
    + constructor.
    + intros l [].
  - destruct (compare.take_match k ext) as [[r ext']|] eqn:Et; simpl.
    + destruct (IH ext') as (P1 & P2 & F & X).
      assert (Pe := take_match_Some _ _ _ _ Et).
      assert (Sub : forall x, In x ext' -> In x ext).
      { intros x Hx. apply Permutation_sym in Pe.
        apply (Permutation_in _ Pe). right; exact Hx. }
      repeat split.
      * apply Permutation_cons_app; exact P1.
      * eapply perm_trans; [apply (Permutation_map snd Pe)|]. simpl.
        apply Permutation_cons_app; exact P2.
      * constructor.
        -- exists k; split; [left; reflexivity|].
           apply Permutation_sym in Pe. apply (Permutation_in _ Pe). left; reflexivity.
        -- eapply Forall2_impl; [|exact F]. intros a b (k0 & Ha & Hb).
           exists k0; split; [right; exact Ha | apply Sub; exact Hb].
      * intros l0 Hl0. destruct (X l0 Hl0) as (k0 & Hk0 & Hr).
        exists k0; split; [right; exact Hk0|].
        intros r0 Hr0. destruct (Hr r0 Hr0) as (k' & Hk' & Hne).
        exists k'; split; [apply Sub; exact Hk' | exact Hne].
    + destruct (IH ext) as (P1 & P2 & F & X).
      repeat split.
      * apply perm_skip; exact P1.
      * exact P2.
      * eapply Forall2_impl; [|exact F]. intros a b (k0 & Ha & Hb).
        exists k0; split; [right; exact Ha | exact Hb].
      * intros l0 [<-|Hl0].
        -- exists k; split; [left; reflexivity|].
           intros r0 Hr0.
           assert (Hin : In r0 (map snd ext)).
           { apply Permutation_sym in P2. apply (Permutation_in _ P2).
             apply in_or_app; left; exact Hr0. }
           apply in_map_iff in Hin. destruct Hin as ([k' r'] & E & Hin); simpl in E; subst r'.
           exists k'; split; [exact Hin | apply (take_match_None _ _ Et _ _ Hin)].
        -- destruct (X l0 Hl0) as (k0 & Hk0 & Hr).
           exists k0; split; [right; exact Hk0 | exact Hr].
Qed.

Lemma well_keyed_In : forall A (key : A -> option string) kl k a,
  well_keyed key kl -> In (k, a) kl -> key a = Some k.
Proof.
  intros A key kl k a W Hin. unfold well_keyed in W. rewrite Forall_forall in W.
  apply (W (k, a) Hin).
Qed.

(** What a comparison that went through guarantees. *)
Lemma CompareSets_spec : forall dbSet extSet p,
  compare.CompareSets keyL keyR dbSet extSet = inr p ->
  Permutation dbSet (compare.removed p ++ compare.commondb p)
  /\ Permutation extSet (compare.added p ++ compare.commonext p)
  /\ length (compare.removed p) + length (compare.commondb p) = length dbSet
  /\ length (compare.added p) + length (compare.commonext p) = length extSet
  /\ Forall2 (fun l r => exists k, keyL l = Some k /\ keyR r = Some k)
             (compare.commondb p) (compare.commonext p)
  /\ (forall l r, In l (compare.removed p) -> In r (compare.added p) -> keyL l <> keyR r).
Proof.
  intros dbSet extSet p H. unfold compare.CompareSets in H.
  destruct (compare.keyed keyL dbSet) as [db|] eqn:Ed; [|discriminate].
  destruct (compare.keyed keyR extSet) as [ext|] eqn:Ee; [|discriminate].
  inversion H; subst p; clear H.
  destruct (keyed_spec _ _ _ _ Ed) as [Md Wd]. destruct (keyed_spec _ _ _ _ Ee) as [Me We].
  destruct (pair_up_spec db ext) as (P1 & P2 & F & X).
  rewrite Md in P1. rewrite Me in P2.
  repeat split.
  - exact P1.
  - exact P2.
  - rewrite <- length_app. symmetry; apply Permutation_length; exact P1.
  - rewrite <- length_app. symmetry; apply Permutation_length; exact P2.
  - eapply Forall2_impl; [|exact F]. intros a b (k & Ha & Hb).
    exists k; split; [apply (well_keyed_In _ _ _ _ _ Wd Ha) | apply (well_keyed_In _ _ _ _ _ We Hb)].
  - intros l r Hl Hr. destruct (X l Hl) as (k & Hk & Hx). destruct (Hx r Hr) as (k' & Hk' & Hne).
    rewrite (well_keyed_In _ _ _ _ _ Wd Hk), (well_keyed_In _ _ _ _ _ We Hk'). congruence.
Qed.

End CompareFacts.

(** C7, on the comparator as the spec describes it. When the key of every
    record can be read, the comparison goes through and partitions by exact
    key equality: the local records are, record for record, the removed ones
    together with the matched ones, the remote records the added ones
    together with the matched ones (so the sizes add up), the matched records
    are aligned - the i-th matched local record and the i-th matched remote
    record have the same key - and no removed record has the key of an added
    one. *)
Theorem CompareSets_total_partition :
  forall (L R : Type) (keyL : L -> option string) (keyR : R -> option string)
         (dbSet : list L) (extSet : list R),
    (forall l, In l dbSet -> keyL l <> None) ->
    (forall r, In r extSet -> keyR r <> None) ->
    exists p,
      compare.CompareSets keyL keyR dbSet extSet = inr p
      /\ Permutation dbSet (compare.removed p ++ compare.commondb p)
      /\ Permutation extSet (compare.added p ++ compare.commonext p)
      /\ length (compare.removed p) + length (compare.commondb p) = length dbSet
      /\ length (compare.added p) + length (compare.commonext p) = length extSet
      /\ Forall2 (fun l r => exists k, keyL l = Some k /\ keyR r = Some k)
                 (compare.commondb p) (compare.commonext p)
      /\ (forall l r, In l (compare.removed p) -> In r (compare.added p) ->
                      keyL l <> keyR r).
Proof.
  intros L R keyL keyR dbSet extSet Hl Hr.
  destruct (keyed_total _ keyL dbSet Hl) as [db Ed].
  destruct (keyed_total _ keyR extSet Hr) as [ext Ee].
  exists (compare.pair_up db ext).
  assert (E : compare.CompareSets keyL keyR dbSet extSet = inr (compare.pair_up db ext)).
  { unfold compare.CompareSets. rewrite Ed, Ee. reflexivity. }
  split; [exact E | apply (CompareSets_spec L R keyL keyR _ _ _ E)].
Qed.

(** The comparison fails only on a record whose key cannot be read. *)
Lemma CompareSets_fails : forall (L R : Type) (keyL : L -> option string)
    (keyR : R -> option string) dbSet extSet err,
  compare.CompareSets keyL keyR dbSet extSet = inl err ->
  (exists l, In l dbSet /\ keyL l = None) \/ (exists r, In r extSet /\ keyR r = None).
Proof.
  intros L R keyL keyR dbSet extSet err H. unfold compare.CompareSets in H.
  destruct (compare.keyed keyL dbSet) eqn:Ed.
  - destruct (compare.keyed keyR extSet) eqn:Ee; [discriminate|].
    right; apply (keyed_fails _ _ _ Ee).
  - left; apply (keyed_fails _ _ _ Ed).
Qed.

(** ** Zones: one reconciliation pass *)

Section ZoneFacts.

Variable count_on_error : Z.
Variable networkCount : SZone -> Store -> Z.
Variable base_ValidateDeleteCondition : SZone -> Store -> option error.
Variable UniqueName : string -> Store -> string.
Variable NewId : Store -> string.

Lemma sync_removed_counts : forall removed out s,
  deletes (fst (Zones.sync_removed count_on_error networkCount base_ValidateDeleteCondition
                                   removed out s)) = deletes out + length removed
  /\ updates (fst (Zones.sync_removed count_on_error networkCount base_ValidateDeleteCondition
                                      removed out s)) = updates out
  /\ adds (fst (Zones.sync_removed count_on_error networkCount base_ValidateDeleteCondition
                                   removed out s)) = adds out.
Proof.
  intros removed; induction removed as [|z rest IH]; intros out s; simpl.
  - unfold deletes, updates, adds; repeat split; lia.
  - destruct (Zones.syncRemoveCloudZone count_on_error networkCount
                base_ValidateDeleteCondition z s) as [[err|u] s'].
    + destruct (IH (Zones.mkSyncOut (Zones.localZones out) (Zones.remoteZones out)
                      (compare.DeleteError err (Zones.syncResult out))) s') as (D & U & A).
      unfold deletes, updates, adds in *; simpl in *. repeat split; lia.
    + destruct (IH (Zones.mkSyncOut (Zones.localZones out) (Zones.remoteZones out)
                      (compare.Delete (Zones.syncResult out))) s') as (D & U & A).
      unfold deletes, updates, adds in *; simpl in *. repeat split; lia.
Qed.

Lemma sync_common_counts : forall region common out s,
  deletes (fst (Zones.sync_common region common out s)) = deletes out
  /\ updates (fst (Zones.sync_common region common out s)) = updates out + length common
  /\ adds (fst (Zones.sync_common region common out s)) = adds out.
Proof.
  intros region common; induction common as [|[z ext] rest IH]; intros out s; simpl.
  - unfold deletes, updates, adds; repeat split; lia.
  - destruct (Zones.syncWithCloudZone z ext region s) as [[err|z'] s'].
    + destruct (IH (Zones.mkSyncOut (Zones.localZones out) (Zones.remoteZones out)
                      (compare.UpdateError err (Zones.syncResult out))) s') as (D & U & A).
      unfold deletes, updates, adds in *; simpl in *. repeat split; lia.
    + destruct (IH (Zones.mkSyncOut (Zones.localZones out ++ [z'])
                      (Zones.remoteZones out ++ [ext])
                      (compare.Update (Zones.syncResult out))) s') as (D & U & A).
      unfold deletes, updates, adds in *; simpl in *. repeat split; lia.
Qed.

Lemma sync_added_counts : forall region added out s,
  deletes (fst (Zones.sync_added UniqueName NewId region added out s)) = deletes out
  /\ updates (fst (Zones.sync_added UniqueName NewId region added out s)) = updates out
  /\ adds (fst (Zones.sync_added UniqueName NewId region added out s)) = adds out + length added.
Proof.
  intros region added; induction added as [|ext rest IH]; intros out s; simpl.
  - unfold deletes, updates, adds; repeat split; lia.
  - destruct (Zones.newFromCloudZone UniqueName NewId ext region s) as [[err|z'] s'].
    + destruct (IH (Zones.mkSyncOut (Zones.localZones out) (Zones.remoteZones out)
                      (compare.AddError err (Zones.syncResult out))) s') as (D & U & A).
      unfold deletes, updates, adds in *; simpl in *. repeat split; lia.
    + destruct (IH (Zones.mkSyncOut (Zones.localZones out ++ [z'])
                      (Zones.remoteZones out ++ [ext])
                      (compare.Add (Zones.syncResult out))) s') as (D & U & A).
      unfold deletes, updates, adds in *; simpl in *. repeat split; lia.
Qed.

(** A pass whose fetch and comparison went through attempts every record of
    the three partitions, whatever the attempts come to. *)
Lemma SyncZones_counts : forall region zones s dbZones s1 p,
  Zones.GetZones region s = (inr dbZones, s1) ->
  Zones.CompareZones dbZones zones = inr p ->
  deletes (fst (Zones.SyncZones count_on_error networkCount base_ValidateDeleteCondition UniqueName NewId region zones s)) = length (compare.removed p)
  /\ updates (fst (Zones.SyncZones count_on_error networkCount base_ValidateDeleteCondition UniqueName NewId region zones s)) = length (compare.commondb p)
  /\ adds (fst (Zones.SyncZones count_on_error networkCount base_ValidateDeleteCondition UniqueName NewId region zones s)) = length (compare.added p).
Proof.
  intros region zones s dbZones s1 p Hg Hc.
  unfold Zones.SyncZones. rewrite Hg, Hc.
  destruct (Zones.sync_removed count_on_error networkCount base_ValidateDeleteCondition (compare.removed p) (Zones.mkSyncOut [] [] compare.empty) s1)
    as [out1 s2] eqn:E1.
  destruct (Zones.sync_common region (combine (compare.commondb p) (compare.commonext p))
                              out1 s2) as [out2 s3] eqn:E2.
  destruct (sync_removed_counts (compare.removed p) (Zones.mkSyncOut [] [] compare.empty) s1)
    as (D1 & U1 & A1).
  rewrite E1 in D1, U1, A1; simpl in D1, U1, A1.
  destruct (sync_common_counts region (combine (compare.commondb p) (compare.commonext p))
                               out1 s2) as (D2 & U2 & A2).
  rewrite E2 in D2, U2, A2; simpl in D2, U2, A2.
  destruct (sync_added_counts region (compare.added p) out2 s3) as (D3 & U3 & A3).
  assert (Hlen : length (combine (compare.commondb p) (compare.commonext p))
                 = length (compare.commondb p)).
  { unfold Zones.CompareZones in Hc.
    destruct (CompareSets_spec _ _ _ _ _ _ _ Hc) as (_ & _ & _ & _ & F & _).
    rewrite length_combine. apply Forall2_length in F. rewrite F. apply Nat.min_id. }
  rewrite D3, U3, A3, D2, U2, A2, D1, U1, A1, Hlen.
  unfold deletes, updates, adds; simpl. repeat split; lia.
Qed.

Lemma preserves_zones_CountWithError : forall R what (p : R -> bool) tbl,
  preserves zones_tbl (Zones.CountWithError what p tbl).
Proof. intros; unfold Zones.CountWithError; frame. Qed.

Lemma preserves_zones_GeneralUsage : forall zone, preserves zones_tbl (Zones.GeneralUsage count_on_error networkCount zone).
Proof.
  intros zone. unfold Zones.GeneralUsage, Zones.count_dropping_error, Zones.HostCount,
    Zones.getWireCount, Zones.getStorageCount, Zones.getNetworkCount.
  repeat (apply preserves_bind;
          [apply preserves_catch;
           [first [apply preserves_zones_CountWithError | frame] | intros [?|?]; frame]
          | intros]).
  frame.
Qed.

Lemma preserves_zones_ValidateDeleteCondition : forall zone,
  preserves zones_tbl (Zones.ValidateDeleteCondition count_on_error networkCount base_ValidateDeleteCondition zone).
Proof.
  intros zone. unfold Zones.ValidateDeleteCondition.
  apply preserves_bind; [apply preserves_zones_GeneralUsage|]. intros usage.
  destruct (negb (Zones.IsEmpty usage)); [frame|].
  intros s; simpl. destruct (base_ValidateDeleteCondition zone s); reflexivity.
Qed.

(** A zone row goes only after the zone has passed its deletion check. *)
Lemma syncRemoveCloudZone_validates : forall zone s,
  zones_tbl (snd (Zones.syncRemoveCloudZone count_on_error networkCount base_ValidateDeleteCondition zone s)) <> zones_tbl s ->
  exists s1, Zones.ValidateDeleteCondition count_on_error networkCount base_ValidateDeleteCondition zone s = (inr tt, s1).
Proof.
  intros zone s H. unfold Zones.syncRemoveCloudZone, catch in H.
  assert (P := preserves_zones_ValidateDeleteCondition zone s).
  destruct (Zones.ValidateDeleteCondition count_on_error networkCount base_ValidateDeleteCondition zone s) as [[err|[]] s1]; simpl in *.
  - exfalso; apply H; exact P.
  - exists s1; reflexivity.
Qed.

Lemma CountWithError_reliable : forall R what (p : R -> bool) tbl s,
  reliable s ->
  Zones.count_dropping_error count_on_error (Zones.CountWithError what p tbl) s
  = (inr (Zones.count_rows p (tbl s)), s).
Proof.
  intros R what p tbl s H.
  unfold Zones.count_dropping_error, Zones.CountWithError, catch.
  rewrite (db_call_reliable _ _ H). reflexivity.
Qed.

Lemma HostCount_filter_all : forall zone l,
  Zones.count_rows (Zones.HostCount_filter zone "" "" Zones.tristate_None "" Zones.tristate_None) l
  = Zones.count_rows (fun h => String.eqb (h_ZoneId h) (z_Id zone)) l.
Proof.
  intros zone l. unfold Zones.count_rows. do 2 f_equal.
  apply filter_ext. intros h. unfold Zones.HostCount_filter; simpl.
  rewrite !andb_true_r. reflexivity.
Qed.

Lemma bind_ok : forall A B (m : M A) (k : A -> M B) s a s',
  m s = (inr a, s') -> bind m k s = k a s'.
Proof. intros A B m k s a s' H; unfold bind; rewrite H; reflexivity. Qed.

Lemma getNetworkCount_reliable : forall zone s,
  reliable s ->
  Zones.count_dropping_error count_on_error (Zones.getNetworkCount networkCount zone) s
  = (inr (networkCount zone s), s).
Proof.
  intros zone s R. unfold Zones.count_dropping_error, Zones.getNetworkCount, catch.
  rewrite (db_call_reliable _ _ R). reflexivity.
Qed.

Lemma GeneralUsage_reliable : forall zone s,
  reliable s ->
  exists usage,
    Zones.GeneralUsage count_on_error networkCount zone s = (inr usage, s)
    /\ Zones.Hosts usage
       = Zones.count_rows (fun h => String.eqb (h_ZoneId h) (z_Id zone)) (hosts_tbl s)
    /\ Zones.Wires usage
       = Zones.count_rows (fun w => String.eqb (w_ZoneId w) (z_Id zone)) (wires_tbl s)
    /\ Zones.Networks usage = networkCount zone s
    /\ Zones.Storages usage
       = Zones.count_rows (fun st => String.eqb (st_ZoneId st) (z_Id zone)) (storages_tbl s).
Proof.
  intros zone s R.
  unfold Zones.GeneralUsage, Zones.HostCount, Zones.getWireCount, Zones.getStorageCount.
  do 5 (erewrite bind_ok; [|apply CountWithError_reliable; exact R]).
  erewrite bind_ok; [|apply getNetworkCount_reliable; exact R].
  erewrite bind_ok; [|apply CountWithError_reliable; exact R].
  eexists; split; [reflexivity|]. simpl.
  rewrite HostCount_filter_all. repeat split; reflexivity.
Qed.

(** With the counts going through, a zone in use is refused and its row
    stays. *)
Lemma syncRemoveCloudZone_in_use : forall zone s,
  reliable s ->
  in_use networkCount zone s = true ->
  Zones.syncRemoveCloudZone count_on_error networkCount base_ValidateDeleteCondition zone s
  = (inl (Wrap (NotEmptyError ("not empty zone: " ++ z_Id zone)) "ValidateDeleteCondition"), s).
Proof.
  intros zone s R Hu.
  destruct (GeneralUsage_reliable zone s R) as (usage & E & Hh & Hw & Hn & Hs).
  unfold Zones.syncRemoveCloudZone, catch, Zones.ValidateDeleteCondition.
  erewrite bind_ok; [|exact E].
  assert (Hne : Zones.IsEmpty usage = false).
  { unfold Zones.IsEmpty. rewrite Hh, Hw, Hn, Hs. unfold in_use in Hu.
    destruct (0 <? Zones.count_rows _ (hosts_tbl s))%Z; simpl; [reflexivity|].
    destruct (0 <? Zones.count_rows _ (wires_tbl s))%Z; simpl; [reflexivity|].
    destruct (0 <? networkCount zone s)%Z; simpl; [reflexivity|].
    simpl in Hu. rewrite Hu. reflexivity. }
  rewrite Hne. reflexivity.
Qed.

(** *** The removed records, one turn after the other *)

Lemma sync_removed_app : forall pre post out s,
  Zones.sync_removed count_on_error networkCount base_ValidateDeleteCondition
    (pre ++ post) out s
  = Zones.sync_removed count_on_error networkCount base_ValidateDeleteCondition post
      (fst (Zones.sync_removed count_on_error networkCount base_ValidateDeleteCondition
              pre out s))
      (snd (Zones.sync_removed count_on_error networkCount base_ValidateDeleteCondition
              pre out s)).
Proof.
  intros pre; induction pre as [|z pre IH]; intros post out s; simpl; [reflexivity|].
  destruct (Zones.syncRemoveCloudZone count_on_error networkCount
              base_ValidateDeleteCondition z s) as [[err|u] s']; apply IH.
Qed.

Lemma at_turn_step : forall pre z s,
  at_turn count_on_error networkCount base_ValidateDeleteCondition (pre ++ [z]) s
  = snd (Zones.syncRemoveCloudZone count_on_error networkCount base_ValidateDeleteCondition z
           (at_turn count_on_error networkCount base_ValidateDeleteCondition pre s)).
Proof.
  intros pre z s. unfold at_turn. rewrite sync_removed_app. simpl.
  destruct (Zones.syncRemoveCloudZone count_on_error networkCount
              base_ValidateDeleteCondition z _) as [[err|u] s']; reflexivity.
Qed.

Lemma result_at_turn_step : forall pre z s,
  result_at_turn count_on_error networkCount base_ValidateDeleteCondition (pre ++ [z]) s
  = match fst (Zones.syncRemoveCloudZone count_on_error networkCount
                 base_ValidateDeleteCondition z
                 (at_turn count_on_error networkCount base_ValidateDeleteCondition pre s)) with
    | inl err =>
        compare.DeleteError err
          (result_at_turn count_on_error networkCount base_ValidateDeleteCondition pre s)
    | inr _ =>
        compare.Delete
          (result_at_turn count_on_error networkCount base_ValidateDeleteCondition pre s)
    end.
Proof.
  intros pre z s. unfold result_at_turn, at_turn. rewrite sync_removed_app. simpl.
  destruct (Zones.syncRemoveCloudZone count_on_error networkCount
              base_ValidateDeleteCondition z _) as [[err|u] s']; reflexivity.
Qed.

(** The updates and the additions leave the counts of deletions as they
    were. *)
Lemma sync_common_del : forall region common out s,
  compare.DelCnt (Zones.syncResult (fst (Zones.sync_common region common out s)))
  = compare.DelCnt (Zones.syncResult out)
  /\ compare.DelErrCnt (Zones.syncResult (fst (Zones.sync_common region common out s)))
     = compare.DelErrCnt (Zones.syncResult out).
Proof.
  intros region common; induction common as [|[z ext] rest IH]; intros out s; simpl;
    [split; reflexivity|].
  destruct (Zones.syncWithCloudZone z ext region s) as [[err|z'] s'].
  - exact (IH (Zones.mkSyncOut (Zones.localZones out) (Zones.remoteZones out)
                 (compare.UpdateError err (Zones.syncResult out))) s').
  - exact (IH (Zones.mkSyncOut (Zones.localZones out ++ [z']) (Zones.remoteZones out ++ [ext])
                 (compare.Update (Zones.syncResult out))) s').
Qed.

Lemma sync_added_del : forall region added out s,
  compare.DelCnt
    (Zones.syncResult (fst (Zones.sync_added UniqueName NewId region added out s)))
  = compare.DelCnt (Zones.syncResult out)
  /\ compare.DelErrCnt
       (Zones.syncResult (fst (Zones.sync_added UniqueName NewId region added out s)))
     = compare.DelErrCnt (Zones.syncResult out).
Proof.
  intros region added; induction added as [|ext rest IH]; intros out s; simpl;
    [split; reflexivity|].
  destruct (Zones.newFromCloudZone UniqueName NewId ext region s) as [[err|z'] s'].
  - exact (IH (Zones.mkSyncOut (Zones.localZones out) (Zones.remoteZones out)
                 (compare.AddError err (Zones.syncResult out))) s').
  - exact (IH (Zones.mkSyncOut (Zones.localZones out ++ [z']) (Zones.remoteZones out ++ [ext])
                 (compare.Add (Zones.syncResult out))) s').
Qed.

(** The errors a loop has recorded stay recorded. *)
Lemma sync_removed_errors : forall l out s e,
  In e (compare.errors (Zones.syncResult out)) ->
  In e (compare.errors
          (Zones.syncResult
             (fst (Zones.sync_removed count_on_error networkCount
                     base_ValidateDeleteCondition l out s)))).
Proof.
  intros l; induction l as [|z l IH]; intros out s e H; simpl; [exact H|].
  destruct (Zones.syncRemoveCloudZone count_on_error networkCount
              base_ValidateDeleteCondition z s) as [[err|u] s']; apply IH; simpl;
    [apply in_or_app; left|]; exact H.
Qed.

Lemma sync_common_errors : forall region common out s e,
  In e (compare.errors (Zones.syncResult out)) ->
  In e (compare.errors (Zones.syncResult (fst (Zones.sync_common region common out s)))).
Proof.
  intros region common; induction common as [|[z ext] rest IH]; intros out s e H; simpl;
    [exact H|].
  destruct (Zones.syncWithCloudZone z ext region s) as [[err|z'] s']; apply IH; simpl;
    [apply in_or_app; left|]; exact H.
Qed.

Lemma sync_added_errors : forall region added out s e,
  In e (compare.errors (Zones.syncResult out)) ->
  In e (compare.errors
          (Zones.syncResult (fst (Zones.sync_added UniqueName NewId region added out s)))).
Proof.
  intros region added; induction added as [|ext rest IH]; intros out s e H; simpl;
    [exact H|].
  destruct (Zones.newFromCloudZone UniqueName NewId ext region s) as [[err|z'] s'];
    apply IH; simpl; [apply in_or_app; left|]; exact H.
Qed.

(** The error of a removed record at its turn is among the errors of the
    loop. *)
Lemma sync_removed_records : forall pre z post err sj,
  Zones.syncRemoveCloudZone count_on_error networkCount base_ValidateDeleteCondition z
    (at_turn count_on_error networkCount base_ValidateDeleteCondition pre sj) = (inl err, snd
      (Zones.syncRemoveCloudZone count_on_error networkCount base_ValidateDeleteCondition z
         (at_turn count_on_error networkCount base_ValidateDeleteCondition pre sj))) ->
  In err (compare.errors
            (Zones.syncResult
               (fst (Zones.sync_removed count_on_error networkCount
                       base_ValidateDeleteCondition (pre ++ z :: post)
                       (Zones.mkSyncOut [] [] compare.empty) sj)))).
Proof.
  intros pre z post err sj H. rewrite sync_removed_app. simpl.
  unfold at_turn in H. rewrite H.
  apply sync_removed_errors. simpl. apply in_or_app; right; left; reflexivity.
Qed.

(** The loop over removed records leaves the counts of updates and of
    additions as they were. *)
Lemma sync_removed_other_counts : forall l out s,
  let out' := fst (Zones.sync_removed count_on_error networkCount
                     base_ValidateDeleteCondition l out s) in
  compare.UpdateCnt (Zones.syncResult out') = compare.UpdateCnt (Zones.syncResult out)
  /\ compare.UpdateErrCnt (Zones.syncResult out')
     = compare.UpdateErrCnt (Zones.syncResult out)
  /\ compare.AddCnt (Zones.syncResult out') = compare.AddCnt (Zones.syncResult out)
  /\ compare.AddErrCnt (Zones.syncResult out') = compare.AddErrCnt (Zones.syncResult out).
Proof.
  intros l; induction l as [|z l IH]; intros out s; simpl; [repeat split|].
  destruct (Zones.syncRemoveCloudZone count_on_error networkCount
              base_ValidateDeleteCondition z s) as [[err|u] s'].
  - exact (IH (Zones.mkSyncOut (Zones.localZones out) (Zones.remoteZones out)
                 (compare.DeleteError err (Zones.syncResult out))) s').
  - exact (IH (Zones.mkSyncOut (Zones.localZones out) (Zones.remoteZones out)
                 (compare.Delete (Zones.syncResult out))) s').
Qed.

(** *** The zone rows through the updates and the additions *)

Lemma update_rows_ids : forall (p : SZone -> bool) (f : SZone -> SZone) l,
  (forall r, z_Id (f r) = z_Id r) ->
  map z_Id (update_rows p f l) = map z_Id l.
Proof.
  intros p f l Hf. unfold update_rows. rewrite map_map. apply map_ext; intros r.
  destruct (p r); [apply Hf | reflexivity].
Qed.

Lemma syncWithCloudZone_ids : forall z ext region,
  preserves zone_ids (Zones.syncWithCloudZone z ext region).
Proof.
  intros z ext region. unfold Zones.syncWithCloudZone, Zones.SyncI18ns, Zones.Update, LogEvent.
  frame. unfold zone_ids; simpl. apply update_rows_ids. intros r; reflexivity.
Qed.

Lemma sync_common_ids : forall region common out s,
  map z_Id (zones_tbl (snd (Zones.sync_common region common out s)))
  = map z_Id (zones_tbl s).
Proof.
  intros region common; induction common as [|[z ext] rest IH]; intros out s; simpl;
    [reflexivity|].
  pose proof (syncWithCloudZone_ids z ext region s) as P. unfold zone_ids in P.
  destruct (Zones.syncWithCloudZone z ext region s) as [[err|z'] s']; simpl in P;
    rewrite IH; exact P.
Qed.

Lemma db_call_zones : forall what s,
  zones_tbl (snd (db_call what s)) = zones_tbl s.
Proof. intros what s. apply (preserves_db_call _ zones_tbl what table_zones s). Qed.

Lemma appends_preserves : forall A (m : M A), preserves zones_tbl m -> appends m.
Proof. intros A m H s. exists []. rewrite app_nil_r. apply H. Qed.

Lemma appends_bind : forall A B (m : M A) (k : A -> M B),
  appends m -> (forall a, appends (k a)) -> appends (bind m k).
Proof.
  intros A B m k Hm Hk s. unfold bind. destruct (Hm s) as [n1 E1].
  destruct (m s) as [[e|a] s1]; simpl in *; [exists n1; exact E1|].
  destruct (Hk a s1) as [n2 E2]. exists (n1 ++ n2). rewrite E2, E1, app_assoc. reflexivity.
Qed.

Lemma appends_catch : forall A B (m : M A) (k : error + A -> M B),
  appends m -> (forall r, appends (k r)) -> appends (catch m k).
Proof.
  intros A B m k Hm Hk s. unfold catch. destruct (Hm s) as [n1 E1].
  destruct (m s) as [r s1]; simpl in *.
  destruct (Hk r s1) as [n2 E2]. exists (n1 ++ n2). rewrite E2, E1, app_assoc. reflexivity.
Qed.

Lemma Insert_appends : forall zone, appends (Zones.Insert NewId zone).
Proof.
  intros zone s. unfold Zones.Insert, bind at 1.
  pose proof (db_call_zones "Insert" s) as P.
  destruct (db_call "Insert" s) as [[err|[]] s1]; simpl in P.
  - exists []. simpl. rewrite app_nil_r. exact P.
  - unfold bind, get, modify, ret; simpl. eexists [_]. rewrite <- P. reflexivity.
Qed.

Lemma newFromCloudZone_appends : forall ext region,
  appends (Zones.newFromCloudZone UniqueName NewId ext region).
Proof.
  intros ext region. unfold Zones.newFromCloudZone. apply appends_catch.
  - apply appends_bind; [|intros; apply Insert_appends].
    apply appends_preserves. unfold Zones.GenerateName. frame.
  - intros [err|zone']; apply appends_preserves; unfold Zones.SyncI18ns, LogEvent; frame.
Qed.

Lemma sync_added_appends : forall region added out s,
  exists news,
    zones_tbl (snd (Zones.sync_added UniqueName NewId region added out s))
    = zones_tbl s ++ news.
Proof.
  intros region added; induction added as [|ext rest IH]; intros out s; simpl.
  - exists []; symmetry; apply app_nil_r.
  - destruct (newFromCloudZone_appends ext region s) as [n1 E1].
    destruct (Zones.newFromCloudZone UniqueName NewId ext region s) as [[err|z'] s'];
      simpl in E1;
      match goal with
      | |- context [Zones.sync_added _ _ _ _ ?o s'] =>
          destruct (IH o s') as [n2 E2]
      end;
      exists (n1 ++ n2); rewrite E2, E1, app_assoc; reflexivity.
Qed.

(** *** With the counts of the usage going through *)

Lemma GeneralUsage_counted : forall zone s,
  counts_go_through s = true ->
  exists usage,
    Zones.GeneralUsage count_on_error networkCount zone s = (inr usage, after_calls 7 s)
    /\ Zones.Hosts usage
       = Zones.count_rows (fun h => String.eqb (h_ZoneId h) (z_Id zone)) (hosts_tbl s)
    /\ Zones.Wires usage
       = Zones.count_rows (fun w => String.eqb (w_ZoneId w) (z_Id zone)) (wires_tbl s)
    /\ Zones.Networks usage = networkCount zone (after_calls 6 s)
    /\ Zones.Storages usage
       = Zones.count_rows (fun st => String.eqb (st_ZoneId st) (z_Id zone)) (storages_tbl s).
Proof.
  intros zone [a b c d e f g h i j k fl] H.
  unfold counts_go_through, after_calls in *. simpl in H |- *.
  unfold Zones.GeneralUsage, Zones.HostCount, Zones.getWireCount, Zones.getStorageCount,
    Zones.getNetworkCount, Zones.count_dropping_error, Zones.CountWithError, catch, bind,
    db_call, get, ret, fail.
  do 7 (destruct fl as [|[|] fl]; simpl in H |- *; try discriminate;
        [eexists; split; [reflexivity|]; simpl; rewrite HostCount_filter_all;
         repeat split|]).
  eexists; split; [reflexivity|]; simpl; rewrite HostCount_filter_all; repeat split.
Qed.

(** With the counts going through, a zone in use is refused, whatever the
    database does after that, and no zone row changes. *)
Lemma syncRemoveCloudZone_counted : forall zone s,
  counts_go_through s = true ->
  in_use_counted networkCount zone s = true ->
  Zones.syncRemoveCloudZone count_on_error networkCount base_ValidateDeleteCondition zone s
  = (inl (Wrap (NotEmptyError ("not empty zone: " ++ z_Id zone)) "ValidateDeleteCondition"),
     after_calls 7 s).
Proof.
  intros zone s Hc Hu.
  destruct (GeneralUsage_counted zone s Hc) as (usage & E & Hh & Hw & Hn & Hs).
  unfold Zones.syncRemoveCloudZone, catch, Zones.ValidateDeleteCondition.
  erewrite bind_ok; [|exact E].
  assert (Hne : Zones.IsEmpty usage = false).
  { unfold Zones.IsEmpty. rewrite Hh, Hw, Hn, Hs. unfold in_use_counted in Hu.
    destruct (0 <? Zones.count_rows _ (hosts_tbl s))%Z; simpl; [reflexivity|].
    destruct (0 <? Zones.count_rows _ (wires_tbl s))%Z; simpl; [reflexivity|].
    destruct (0 <? networkCount zone _)%Z; simpl; [reflexivity|].
    simpl in Hu. rewrite Hu. reflexivity. }
  rewrite Hne. reflexivity.
Qed.

(** *** With the database answering *)

Lemma syncRemoveCloudZone_reliable : forall zone s,
  reliable s ->
  Zones.syncRemoveCloudZone count_on_error networkCount base_ValidateDeleteCondition zone s
  = if in_use networkCount zone s
    then (inl (Wrap (NotEmptyError ("not empty zone: " ++ z_Id zone))
                    "ValidateDeleteCondition"), s)
    else match base_ValidateDeleteCondition zone s with
         | Some err => (inl (Wrap err "ValidateDeleteCondition"), s)
         | None =>
             (inr tt,
              set_zones (filter (fun r => negb (String.eqb (z_Id r) (z_Id zone)))
                                (zones_tbl s)) s)
         end.
Proof.
  intros zone s R.
  destruct (in_use networkCount zone s) eqn:Hu.
  - apply syncRemoveCloudZone_in_use; assumption.
  - destruct (GeneralUsage_reliable zone s R) as (usage & E & Hh & Hw & Hn & Hs).
    assert (He : Zones.IsEmpty usage = true).
    { unfold Zones.IsEmpty. rewrite Hh, Hw, Hn, Hs. unfold in_use in Hu.
      apply orb_false_iff in Hu; destruct Hu as [Hu H4].
      apply orb_false_iff in Hu; destruct Hu as [Hu H3].
      apply orb_false_iff in Hu; destruct Hu as [H1 H2].
      rewrite H1, H2, H3, H4. reflexivity. }
    unfold Zones.syncRemoveCloudZone, catch at 1, Zones.ValidateDeleteCondition.
    erewrite bind_ok; [|exact E]. rewrite He; simpl.
    destruct (base_ValidateDeleteCondition zone s); [reflexivity|].
    unfold bind, Zones.RemoveI18ns, catch, Zones.Delete, bind, modify, ret.
    rewrite !(db_call_reliable _ _ R). reflexivity.
Qed.

Lemma syncRemoveCloudZone_keeps_reliable : forall zone s,
  reliable s ->
  reliable (snd (Zones.syncRemoveCloudZone count_on_error networkCount
                   base_ValidateDeleteCondition zone s)).
Proof.
  intros zone s R. rewrite (syncRemoveCloudZone_reliable zone s R).
  destruct (in_use networkCount zone s); [exact R|].
  destruct (base_ValidateDeleteCondition zone s); exact R.
Qed.

Lemma at_turn_reliable : forall pre s,
  reliable s ->
  reliable (at_turn count_on_error networkCount base_ValidateDeleteCondition pre s).
Proof.
  intros pre; induction pre as [|z pre IH] using rev_ind; intros s R; [exact R|].
  rewrite at_turn_step. apply syncRemoveCloudZone_keeps_reliable. apply IH; exact R.
Qed.

Lemma syncWithCloudZone_reliable : forall z ext region s,
  reliable s ->
  Zones.syncWithCloudZone z ext region s
  = (inr (synced_with ext region z),
     set_opslogs (opslogs s ++ [mkOpsLog (z_Id z) "update"])
       (set_zones (update_rows (fun r => String.eqb (z_Id r) (z_Id z))
                               (synced_with ext region) (zones_tbl s)) s)).
Proof.
  intros z ext region s R.
  unfold Zones.syncWithCloudZone, catch, Zones.SyncI18ns, Zones.Update, LogEvent, bind,
    modify, ret.
  rewrite !(db_call_reliable _ _ R). reflexivity.
Qed.

Lemma sync_common_reliable : forall region common out s,
  reliable s ->
  let r := Zones.sync_common region common out s in
  reliable (snd r)
  /\ zones_tbl (snd r) = updated_rows region common (zones_tbl s)
  /\ compare.UpdateCnt (Zones.syncResult (fst r))
     = compare.UpdateCnt (Zones.syncResult out) + length common
  /\ compare.UpdateErrCnt (Zones.syncResult (fst r))
     = compare.UpdateErrCnt (Zones.syncResult out)
  /\ compare.AddCnt (Zones.syncResult (fst r)) = compare.AddCnt (Zones.syncResult out)
  /\ compare.AddErrCnt (Zones.syncResult (fst r))
     = compare.AddErrCnt (Zones.syncResult out).
Proof.
  intros region common; induction common as [|[z ext] rest IH]; intros out s R; simpl.
  - repeat split; [exact R | lia].
  - rewrite (syncWithCloudZone_reliable z ext region s R).
    match goal with
    | |- context [Zones.sync_common region rest ?o ?s'] =>
        destruct (IH o s' R) as (R' & Hz & Hu & Hue & Ha & Hae)
    end.
    simpl in *. repeat split; try assumption. lia.
Qed.

Lemma newFromCloudZone_reliable : forall ext region s,
  reliable s ->
  exists n s',
    Zones.newFromCloudZone UniqueName NewId ext region s = (inr n, s')
    /\ reliable s'
    /\ zones_tbl s' = zones_tbl s ++ [n]
    /\ new_row_of region n ext.
Proof.
  intros ext region s R.
  unfold Zones.newFromCloudZone, catch, Zones.GenerateName, Zones.Insert, Zones.SyncI18ns,
    LogEvent, bind, get, modify, ret.
  unfold db_call. unfold reliable in R. simpl. rewrite !R. simpl. rewrite ?R. simpl.
  eexists _, _; split; [reflexivity|]. split; [exact R|]. split; [reflexivity|].
  repeat split.
Qed.

Lemma sync_added_reliable : forall region added out s,
  reliable s ->
  let r := Zones.sync_added UniqueName NewId region added out s in
  compare.AddCnt (Zones.syncResult (fst r))
  = compare.AddCnt (Zones.syncResult out) + length added
  /\ compare.AddErrCnt (Zones.syncResult (fst r))
     = compare.AddErrCnt (Zones.syncResult out)
  /\ compare.UpdateCnt (Zones.syncResult (fst r))
     = compare.UpdateCnt (Zones.syncResult out)
  /\ compare.UpdateErrCnt (Zones.syncResult (fst r))
     = compare.UpdateErrCnt (Zones.syncResult out)
  /\ exists news,
       zones_tbl (snd r) = zones_tbl s ++ news
       /\ Forall2 (new_row_of region) news added.
Proof.
  intros region added; induction added as [|ext rest IH]; intros out s R; simpl.
  - repeat split; try lia. exists []; split; [symmetry; apply app_nil_r | constructor].
  - destruct (newFromCloudZone_reliable ext region s R) as (n & s' & E & R' & Hz & Hn).
    rewrite E.
    match goal with
    | |- context [Zones.sync_added UniqueName NewId region rest ?o s'] =>
        destruct (IH o s' R') as (Ha & Hae & Hu & Hue & news & Hz' & F)
    end.
    simpl in *. repeat split; try assumption; try lia.
    exists (n :: news); split; [rewrite Hz', Hz, <- app_assoc; reflexivity|].
    constructor; assumption.
Qed.

End ZoneFacts.

Lemma preserves_zones_GetZones : forall region, preserves zones_tbl (Zones.GetZones region).
Proof. intros region; unfold Zones.GetZones; frame. Qed.

Lemma GetZones_reliable : forall region s dbZones s1,
  reliable s -> Zones.GetZones region s = (inr dbZones, s1) -> s1 = s.
Proof.
  intros region s dbZones s1 R. unfold Zones.GetZones, bind, get, ret.
  rewrite (db_call_reliable _ _ R). intros H; injection H as _ <-; reflexivity.
Qed.



(** Scenario A of the spec, run: with zoneB free the pass deletes it, updates
    zoneA and adds z3; with a host in zoneB the deletion is refused and
    counted as an error, and the update and the addition are made all the
    same; when the fetch fails nothing is done. *)
Lemma SyncZones_scenario_A :
  Zones.syncResult (fst (ScenarioA.SyncZones ScenarioA.region
                           [ScenarioA.remote_z1; ScenarioA.remote_z3] ScenarioA.store_free))
  = compare.mkSyncResult 1 0 1 0 1 0 []
  /\ map z_Name (zones_tbl (snd (ScenarioA.SyncZones ScenarioA.region
                                   [ScenarioA.remote_z1; ScenarioA.remote_z3]
                                   ScenarioA.store_free)))
     = ["Zone-A2"; "Zone-C"]
  /\ Zones.syncResult (fst (ScenarioA.SyncZones ScenarioA.region
                              [ScenarioA.remote_z1; ScenarioA.remote_z3]
                              ScenarioA.store_in_use))
     = compare.mkSyncResult 1 0 1 0 0 1
         [Wrap (NotEmptyError "not empty zone: zB") "ValidateDeleteCondition"]
  /\ map z_Name (zones_tbl (snd (ScenarioA.SyncZones ScenarioA.region
                                   [ScenarioA.remote_z1; ScenarioA.remote_z3]
                                   ScenarioA.store_in_use)))
     = ["Zone-A2"; "Zone-B"; "Zone-C"]
  /\ fst (ScenarioA.SyncZones ScenarioA.region [ScenarioA.remote_z1; ScenarioA.remote_z3]
                              ScenarioA.store_failing)
     = aborted (ErrStorage "GetZones")
  /\ fst (ScenarioA.SyncZones ScenarioA.region
                              [ScenarioA.remote_z1; ScenarioA.remote_unreadable]
                              ScenarioA.store_free)
     = aborted (ComparisonError "key").
Proof. repeat split; vm_compute; reflexivity. Qed.


Lemma CompareSets_total_partition_witness :
  exists p,
    Zones.CompareZones [ScenarioA.zoneA; ScenarioA.zoneB]
                       [ScenarioA.remote_z1; ScenarioA.remote_z3] = inr p
    /\ Permutation [ScenarioA.zoneA; ScenarioA.zoneB] (compare.removed p ++ compare.commondb p)
    /\ Permutation [ScenarioA.remote_z1; ScenarioA.remote_z3]
                   (compare.added p ++ compare.commonext p)
    /\ length (compare.removed p) + length (compare.commondb p) = 2
    /\ length (compare.added p) + length (compare.commonext p) = 2
    /\ Forall2 (fun l r => exists k, Some (z_ExternalId l) = Some k /\ GetGlobalId r = Some k)
               (compare.commondb p) (compare.commonext p)
    /\ (forall l r, In l (compare.removed p) -> In r (compare.added p) ->
                    Some (z_ExternalId l) <> GetGlobalId r).
Proof.
  apply (CompareSets_total_partition SZone ICloudZone (fun z => Some (z_ExternalId z))
           GetGlobalId [ScenarioA.zoneA; ScenarioA.zoneB]
           [ScenarioA.remote_z1; ScenarioA.remote_z3]).
  - intros l _; discriminate.
  - intros r [<-|[<-|[]]]; discriminate.
Defined.

(** ** Sync ranges: normalisation *)

Lemma FetchByIdOrName_reliable : forall R what (key name : R -> string) tbl x s,
  reliable s ->
  SyncRange.FetchByIdOrName what key name tbl x s
  = (match SyncRange.by_id_or_name key name (tbl s) x with
     | Some r => inr r
     | None => inl ErrNoRows
     end, s).
Proof.
  intros R what key name tbl x s H.
  unfold SyncRange.FetchByIdOrName, bind, get. rewrite (db_call_reliable _ _ H).
  destruct (SyncRange.by_id_or_name key name (tbl s) x); reflexivity.
Qed.

Lemma FetchById_reliable : forall R what (key : R -> string) tbl x s,
  reliable s ->
  FetchById what key tbl x s
  = (match find_row (fun r => String.eqb (key r) x) (tbl s) with
     | Some r => inr r
     | None => inl ErrNoRows
     end, s).
Proof.
  intros R what key tbl x s H.
  unfold FetchById, bind, get. rewrite (db_call_reliable _ _ H).
  destruct (find_row _ (tbl s)); reflexivity.
Qed.

Lemma GetRegion_reliable : forall zone s,
  reliable s ->
  Zones.GetRegion zone s
  = (match SyncRange.region_of s zone with Some r => inr r | None => inl ErrNoRows end, s).
Proof. intros; unfold Zones.GetRegion; apply FetchById_reliable; assumption. Qed.

Lemma Host_GetZone_reliable : forall host s,
  reliable s ->
  SyncRange.Host_GetZone host s
  = (match SyncRange.zone_of s host with Some z => inr z | None => inl ErrNoRows end, s).
Proof. intros; unfold SyncRange.Host_GetZone; apply FetchById_reliable; assumption. Qed.

(** *** The three loops, with no database call failing *)

Lemma normalizeRegionIds_loop_reliable : forall s, reliable s -> forall todo done,
  match first_missing cr_Id cr_Name (cloudregions_tbl s) todo with
  | None => exists done',
      SyncRange.normalizeRegionIds_loop done todo s = ((None, done'), s)
  | Some x => exists l,
      SyncRange.normalizeRegionIds_loop done todo s
      = ((Some (ResourceNotFoundError ("Region " ++ x ++ " not found")), l), s)
  end.
Proof.
  intros s R todo; induction todo as [|x rest IH]; intros done; simpl.
  - eexists; reflexivity.
  - rewrite (FetchByIdOrName_reliable _ _ _ _ _ _ _ R).
    unfold first_missing, SyncRange.resolves in *; simpl.
    destruct (SyncRange.by_id_or_name cr_Id cr_Name (cloudregions_tbl s) x); simpl.
    + apply IH.
    + eexists; reflexivity.
Qed.

Lemma normalizeZoneIds_loop_reliable : forall s, reliable s -> forall todo done regions,
  match first_missing z_Id z_Name (zones_tbl s) todo with
  | None => exists done' regions',
      SyncRange.normalizeZoneIds_loop done todo regions s = ((None, (done', regions')), s)
  | Some x => exists l regions',
      SyncRange.normalizeZoneIds_loop done todo regions s
      = ((Some (ResourceNotFoundError ("Zone " ++ x ++ " not found")), (l, regions')), s)
  end.
Proof.
  intros s R todo; induction todo as [|x rest IH]; intros done regions; simpl.
  - eexists _, _; reflexivity.
  - rewrite (FetchByIdOrName_reliable _ _ _ _ _ _ _ R).
    unfold first_missing, SyncRange.resolves in *; simpl.
    destruct (SyncRange.by_id_or_name z_Id z_Name (zones_tbl s) x) as [zone|]; simpl.
    + rewrite (GetRegion_reliable _ _ R).
      destruct (SyncRange.region_of s zone); apply IH.
    + eexists _, _; reflexivity.
Qed.

Lemma normalizeHostIds_loop_reliable : forall s, reliable s -> forall todo done zones regions,
  match first_missing h_Id h_Name (hosts_tbl s) todo with
  | None => exists done' zones' regions',
      SyncRange.normalizeHostIds_loop done todo zones regions s
      = ((None, (done', zones', regions')), s)
  | Some x => exists l zones' regions',
      SyncRange.normalizeHostIds_loop done todo zones regions s
      = ((Some (ResourceNotFoundError ("Host " ++ x ++ " not found")), (l, zones', regions')),
         s)
  end.
Proof.
  intros s R todo; induction todo as [|x rest IH]; intros done zones regions; simpl.
  - eexists _, _, _; reflexivity.
  - rewrite (FetchByIdOrName_reliable _ _ _ _ _ _ _ R).
    unfold first_missing, SyncRange.resolves in *; simpl.
    destruct (SyncRange.by_id_or_name h_Id h_Name (hosts_tbl s) x) as [host|]; simpl.
    + rewrite (Host_GetZone_reliable _ _ R).
      destruct (SyncRange.zone_of s host) as [zone|]; [|apply IH].
      rewrite (GetRegion_reliable _ _ R).
      destruct (SyncRange.region_of s zone); apply IH.
    + eexists _, _, _; reflexivity.
Qed.

(** *** The three steps of [Normalize] *)

Lemma first_missing_nil : forall R (key name : R -> string) l ids,
  (0 <? length ids)%nat = false -> first_missing key name l ids = None.
Proof. intros R key name l [|x ids] H; [reflexivity | discriminate]. Qed.

Lemma Normalize_regions : forall s sr, reliable s ->
  match first_missing cr_Id cr_Name (cloudregions_tbl s) (Region sr) with
  | None => exists l,
      (if (0 <? length (Region sr))%nat then SyncRange.normalizeRegionIds sr s
       else ((None, SyncRange.set_Region [] sr), s))
      = ((None, SyncRange.set_Region l sr), s)
  | Some x => exists l,
      (if (0 <? length (Region sr))%nat then SyncRange.normalizeRegionIds sr s
       else ((None, SyncRange.set_Region [] sr), s))
      = ((Some (ResourceNotFoundError ("Region " ++ x ++ " not found")),
          SyncRange.set_Region l sr), s)
  end.
Proof.
  intros s sr R.
  destruct (0 <? length (Region sr))%nat eqn:E.
  - unfold SyncRange.normalizeRegionIds.
    assert (H := normalizeRegionIds_loop_reliable s R (Region sr) []).
    destruct (first_missing cr_Id cr_Name (cloudregions_tbl s) (Region sr));
      destruct H as [l H]; rewrite H; exists l; reflexivity.
  - rewrite (first_missing_nil _ _ _ _ _ E). eexists; reflexivity.
Qed.

Lemma Normalize_zones : forall s sr, reliable s ->
  match first_missing z_Id z_Name (zones_tbl s) (Zone sr) with
  | None => exists zs rs,
      (if (0 <? length (Zone sr))%nat then SyncRange.normalizeZoneIds sr s
       else ((None, SyncRange.set_Zone [] sr), s))
      = ((None, SyncRange.set_Region rs (SyncRange.set_Zone zs sr)), s)
  | Some x => exists zs rs,
      (if (0 <? length (Zone sr))%nat then SyncRange.normalizeZoneIds sr s
       else ((None, SyncRange.set_Zone [] sr), s))
      = ((Some (ResourceNotFoundError ("Zone " ++ x ++ " not found")),
          SyncRange.set_Region rs (SyncRange.set_Zone zs sr)), s)
  end.
Proof.
  intros s sr R.
  destruct (0 <? length (Zone sr))%nat eqn:E.
  - unfold SyncRange.normalizeZoneIds.
    assert (H := normalizeZoneIds_loop_reliable s R (Zone sr) [] (Region sr)).
    destruct (first_missing z_Id z_Name (zones_tbl s) (Zone sr));
      destruct H as (zs & rs & H); rewrite H; exists zs, rs; reflexivity.
  - rewrite (first_missing_nil _ _ _ _ _ E). exists [], (Region sr).
    destruct sr; reflexivity.
Qed.

Lemma Normalize_hosts : forall s sr, reliable s ->
  match first_missing h_Id h_Name (hosts_tbl s) (Host sr) with
  | None => exists hs zs rs,
      (if (0 <? length (Host sr))%nat then SyncRange.normalizeHostIds sr s
       else ((None, SyncRange.set_Host [] sr), s))
      = ((None, SyncRange.set_Region rs (SyncRange.set_Zone zs (SyncRange.set_Host hs sr))), s)
  | Some x => exists hs zs rs,
      (if (0 <? length (Host sr))%nat then SyncRange.normalizeHostIds sr s
       else ((None, SyncRange.set_Host [] sr), s))
      = ((Some (ResourceNotFoundError ("Host " ++ x ++ " not found")),
          SyncRange.set_Region rs (SyncRange.set_Zone zs (SyncRange.set_Host hs sr))), s)
  end.
Proof.
  intros s sr R.
  destruct (0 <? length (Host sr))%nat eqn:E.
  - unfold SyncRange.normalizeHostIds.
    assert (H := normalizeHostIds_loop_reliable s R (Host sr) [] (Zone sr) (Region sr)).
    destruct (first_missing h_Id h_Name (hosts_tbl s) (Host sr));
      destruct H as (hs & zs & rs & H); rewrite H; exists hs, zs, rs; reflexivity.
  - rewrite (first_missing_nil _ _ _ _ _ E). exists [], (Zone sr), (Region sr).
    destruct sr; reflexivity.
Qed.

(** *** Where a loop stops *)

Lemma first_missing_split : forall R (key name : R -> string) l ids x,
  first_missing key name l ids = Some x ->
  exists pre post,
    ids = pre ++ x :: post
    /\ first_missing key name l pre = None
    /\ SyncRange.resolves key name l x = false.
Proof.
  intros R key name l ids x; unfold first_missing.
  induction ids as [|y ids IH]; simpl; [discriminate|].
  destruct (SyncRange.resolves key name l y) eqn:E; simpl.
  - intros H. destruct (IH H) as (pre & post & -> & Hp & Hx).
    exists (y :: pre), post. repeat split; [|exact Hx]. simpl. rewrite E. exact Hp.
  - intros H; injection H as <-. exists [], ids. repeat split. exact E.
Qed.

Lemma nonempty_app : forall (pre : list string) x post,
  (0 <? length (pre ++ x :: post))%nat = true.
Proof. intros [|p pre] x post; reflexivity. Qed.

(** A loop that gets through the identifiers [pre] goes on with those that
    follow. *)
Lemma normalizeRegionIds_loop_app : forall pre rest done done' s s',
  SyncRange.normalizeRegionIds_loop done pre s = ((None, done'), s') ->
  SyncRange.normalizeRegionIds_loop done (pre ++ rest) s
  = SyncRange.normalizeRegionIds_loop done' rest s'.
Proof.
  intros pre; induction pre as [|x pre IH]; intros rest done done' s s'; simpl.
  - intros H; injection H as <- <-; reflexivity.
  - destruct (SyncRange.FetchByIdOrName _ _ _ _ x s) as [[err|obj] s1]; [discriminate|].
    apply IH.
Qed.

Lemma normalizeZoneIds_loop_app : forall pre rest done regions done' regions' s s',
  SyncRange.normalizeZoneIds_loop done pre regions s = ((None, (done', regions')), s') ->
  SyncRange.normalizeZoneIds_loop done (pre ++ rest) regions s
  = SyncRange.normalizeZoneIds_loop done' rest regions' s'.
Proof.
  intros pre; induction pre as [|x pre IH]; intros rest done regions done' regions' s s'; simpl.
  - intros H; injection H as <- <- <-; reflexivity.
  - destruct (SyncRange.FetchByIdOrName _ _ _ _ x s) as [[err|zone] s1]; [discriminate|].
    destruct (Zones.GetRegion zone s1) as [[err|region] s2]; apply IH.
Qed.

Lemma normalizeHostIds_loop_app :
  forall pre rest done zones regions done' zones' regions' s s',
    SyncRange.normalizeHostIds_loop done pre zones regions s
    = ((None, (done', zones', regions')), s') ->
    SyncRange.normalizeHostIds_loop done (pre ++ rest) zones regions s
    = SyncRange.normalizeHostIds_loop done' rest zones' regions' s'.
Proof.
  intros pre; induction pre as [|x pre IH];
    intros rest done zones regions done' zones' regions' s s'; simpl.
  - intros H; injection H as <- <- <- <-; reflexivity.
  - destruct (SyncRange.FetchByIdOrName _ _ _ _ x s) as [[err|host] s1]; [discriminate|].
    destruct (SyncRange.Host_GetZone host s1) as [[err|zone] s2]; [apply IH|].
    destruct (Zones.GetRegion zone s2) as [[err|region] s3]; apply IH.
Qed.

(** At an identifier that names no row a loop ends, with what it has
    rewritten so far and the rest as given. *)
Lemma normalizeRegionIds_loop_stop : forall s x post done,
  reliable s -> SyncRange.resolves cr_Id cr_Name (cloudregions_tbl s) x = false ->
  SyncRange.normalizeRegionIds_loop done (x :: post) s
  = ((Some (ResourceNotFoundError ("Region " ++ x ++ " not found")), done ++ x :: post), s).
Proof.
  intros s x post done R Hx; simpl.
  rewrite (FetchByIdOrName_reliable _ _ _ _ _ _ _ R).
  unfold SyncRange.resolves in Hx.
  destruct (SyncRange.by_id_or_name cr_Id cr_Name (cloudregions_tbl s) x);
    [discriminate | reflexivity].
Qed.

Lemma normalizeZoneIds_loop_stop : forall s x post done regions,
  reliable s -> SyncRange.resolves z_Id z_Name (zones_tbl s) x = false ->
  SyncRange.normalizeZoneIds_loop done (x :: post) regions s
  = ((Some (ResourceNotFoundError ("Zone " ++ x ++ " not found")),
      (done ++ x :: post, regions)), s).
Proof.
  intros s x post done regions R Hx; simpl.
  rewrite (FetchByIdOrName_reliable _ _ _ _ _ _ _ R).
  unfold SyncRange.resolves in Hx.
  destruct (SyncRange.by_id_or_name z_Id z_Name (zones_tbl s) x);
    [discriminate | reflexivity].
Qed.

Lemma normalizeHostIds_loop_stop : forall s x post done zones regions,
  reliable s -> SyncRange.resolves h_Id h_Name (hosts_tbl s) x = false ->
  SyncRange.normalizeHostIds_loop done (x :: post) zones regions s
  = ((Some (ResourceNotFoundError ("Host " ++ x ++ " not found")),
      (done ++ x :: post, zones, regions)), s).
Proof.
  intros s x post done zones regions R Hx; simpl.
  rewrite (FetchByIdOrName_reliable _ _ _ _ _ _ _ R).
  unfold SyncRange.resolves in Hx.
  destruct (SyncRange.by_id_or_name h_Id h_Name (hosts_tbl s) x);
    [discriminate | reflexivity].
Qed.

(** The three steps of [Normalize], from what their loops return. *)
Lemma region_step_eq : forall sr s l,
  SyncRange.normalizeRegionIds_loop [] (Region sr) s = ((None, l), s) ->
  (if (0 <? length (Region sr))%nat then SyncRange.normalizeRegionIds sr s
   else ((None, SyncRange.set_Region [] sr), s))
  = ((None, SyncRange.set_Region l sr), s).
Proof.
  intros sr s l H. unfold SyncRange.normalizeRegionIds.
  destruct (Region sr) as [|x rest]; simpl in *.
  - injection H as <-; reflexivity.
  - rewrite H; reflexivity.
Qed.

Lemma zone_step_eq : forall sr s zs rs,
  SyncRange.normalizeZoneIds_loop [] (Zone sr) (Region sr) s = ((None, (zs, rs)), s) ->
  (if (0 <? length (Zone sr))%nat then SyncRange.normalizeZoneIds sr s
   else ((None, SyncRange.set_Zone [] sr), s))
  = ((None, SyncRange.set_Region rs (SyncRange.set_Zone zs sr)), s).
Proof.
  intros sr s zs rs H. unfold SyncRange.normalizeZoneIds.
  destruct (Zone sr) as [|x rest]; simpl in *.
  - injection H as <- <-; reflexivity.
  - rewrite H; reflexivity.
Qed.

Lemma host_step_eq : forall sr s hs zs rs,
  SyncRange.normalizeHostIds_loop [] (Host sr) (Zone sr) (Region sr) s
  = ((None, (hs, zs, rs)), s) ->
  (if (0 <? length (Host sr))%nat then SyncRange.normalizeHostIds sr s
   else ((None, SyncRange.set_Host [] sr), s))
  = ((None, SyncRange.set_Region rs (SyncRange.set_Zone zs (SyncRange.set_Host hs sr))), s).
Proof.
  intros sr s hs zs rs H. unfold SyncRange.normalizeHostIds.
  destruct (Host sr) as [|x rest]; simpl in *.
  - injection H as <- <- <-; reflexivity.
  - rewrite H; reflexivity.
Qed.

(** [Normalize] with no database call failing: it ends at the first
    identifier that names no row, with the error that says so, having done
    what it does for the identifiers before that one and nothing for those
    after it. *)
Lemma Normalize_reliable : forall s sr, reliable s ->
  match first_missing cr_Id cr_Name (cloudregions_tbl s) (Region sr) with
  | Some x => exists sr',
      SyncRange.Normalize sr s
      = ((Some (ResourceNotFoundError ("Region " ++ x ++ " not found")), sr'), s)
      /\ Zone sr' = Zone sr /\ Host sr' = Host sr /\ stopped s sr sr'
  | None =>
      match first_missing z_Id z_Name (zones_tbl s) (Zone sr) with
      | Some x => exists sr',
          SyncRange.Normalize sr s
          = ((Some (ResourceNotFoundError ("Zone " ++ x ++ " not found")), sr'), s)
          /\ Host sr' = Host sr /\ stopped s sr sr'
      | None =>
          match first_missing h_Id h_Name (hosts_tbl s) (Host sr) with
          | Some x => exists sr',
              SyncRange.Normalize sr s
              = ((Some (ResourceNotFoundError ("Host " ++ x ++ " not found")), sr'), s)
              /\ stopped s sr sr'
          | None => exists sr', SyncRange.Normalize sr s = ((None, sr'), s)
          end
      end
  end.
Proof.
  intros s sr R.
  destruct (first_missing cr_Id cr_Name (cloudregions_tbl s) (Region sr)) as [x|] eqn:F1.
  { destruct (first_missing_split _ _ _ _ _ _ F1) as (pre & post & Er & Fp & Hx).
    pose proof (normalizeRegionIds_loop_reliable s R pre []) as Hpre.
    rewrite Fp in Hpre. destruct Hpre as [pre' Hpre].
    assert (E : SyncRange.Normalize sr s
                = ((Some (ResourceNotFoundError ("Region " ++ x ++ " not found")),
                    SyncRange.set_Region (pre' ++ x :: post) sr), s)).
    { unfold SyncRange.Normalize, SyncRange.normalizeRegionIds.
      rewrite Er, nonempty_app, (normalizeRegionIds_loop_app _ _ _ _ _ _ Hpre),
        (normalizeRegionIds_loop_stop _ _ _ _ R Hx). reflexivity. }
    eexists; split; [exact E|]. split; [reflexivity|]. split; [reflexivity|].
    set (T := SyncRange.set_Host [] (SyncRange.set_Zone [] (SyncRange.set_Region pre sr))).
    apply (@stopped_in_regions s sr _ pre x post
             (SyncRange.set_Host [] (SyncRange.set_Zone [] (SyncRange.set_Region pre' T))));
      [exact Er | exact Hx | | reflexivity].
    fold T. unfold SyncRange.Normalize.
    rewrite (region_step_eq T s pre' Hpre). reflexivity. }
  pose proof (normalizeRegionIds_loop_reliable s R (Region sr) []) as H1.
  rewrite F1 in H1. destruct H1 as [l H1].
  set (sr1 := SyncRange.set_Region l sr).
  destruct (first_missing z_Id z_Name (zones_tbl s) (Zone sr)) as [x|] eqn:F2.
  { destruct (first_missing_split _ _ _ _ _ _ F2) as (pre & post & Ez & Fp & Hx).
    pose proof (normalizeZoneIds_loop_reliable s R pre [] l) as Hpre.
    rewrite Fp in Hpre. destruct Hpre as (pre' & rs & Hpre).
    assert (E : SyncRange.Normalize sr s
                = ((Some (ResourceNotFoundError ("Zone " ++ x ++ " not found")),
                    SyncRange.set_Region rs
                      (SyncRange.set_Zone (pre' ++ x :: post) sr1)), s)).
    { unfold SyncRange.Normalize. rewrite (region_step_eq sr s l H1). fold sr1.
      unfold SyncRange.normalizeZoneIds.
      change (Zone sr1) with (Zone sr). change (Region sr1) with l.
      rewrite Ez, nonempty_app, (normalizeZoneIds_loop_app _ _ _ _ _ _ _ _ Hpre),
        (normalizeZoneIds_loop_stop _ _ _ _ _ R Hx). reflexivity. }
    eexists; split; [exact E|]. split; [reflexivity|].
    set (T := SyncRange.set_Host [] (SyncRange.set_Zone pre sr)).
    apply (@stopped_in_zones s sr _ pre x post
             (SyncRange.set_Host []
                (SyncRange.set_Region rs
                   (SyncRange.set_Zone pre' (SyncRange.set_Region l T)))));
      [exact Ez | exact Hx | | reflexivity].
    fold T. unfold SyncRange.Normalize.
    rewrite (region_step_eq T s l H1).
    rewrite (zone_step_eq (SyncRange.set_Region l T) s pre' rs Hpre). reflexivity. }
  pose proof (normalizeZoneIds_loop_reliable s R (Zone sr) [] l) as H2.
  rewrite F2 in H2. destruct H2 as (zs & rs & H2).
  set (sr2 := SyncRange.set_Region rs (SyncRange.set_Zone zs sr1)).
  destruct (first_missing h_Id h_Name (hosts_tbl s) (Host sr)) as [x|] eqn:F3.
  { destruct (first_missing_split _ _ _ _ _ _ F3) as (pre & post & Eh & Fp & Hx).
    pose proof (normalizeHostIds_loop_reliable s R pre [] zs rs) as Hpre.
    rewrite Fp in Hpre. destruct Hpre as (pre' & zs' & rs' & Hpre).
    assert (E : SyncRange.Normalize sr s
                = ((Some (ResourceNotFoundError ("Host " ++ x ++ " not found")),
                    SyncRange.set_Region rs'
                      (SyncRange.set_Zone zs'
                         (SyncRange.set_Host (pre' ++ x :: post) sr2))), s)).
    { unfold SyncRange.Normalize. rewrite (region_step_eq sr s l H1). fold sr1.
      rewrite (zone_step_eq sr1 s zs rs H2). fold sr2.
      unfold SyncRange.normalizeHostIds.
      change (Host sr2) with (Host sr). change (Zone sr2) with zs.
      change (Region sr2) with rs.
      rewrite Eh, nonempty_app, (normalizeHostIds_loop_app _ _ _ _ _ _ _ _ _ _ Hpre),
        (normalizeHostIds_loop_stop _ _ _ _ _ _ R Hx). reflexivity. }
    eexists; split; [exact E|].
    set (T := SyncRange.set_Host pre sr).
    apply (@stopped_in_hosts s sr _ pre x post
             (SyncRange.set_Region rs'
                (SyncRange.set_Zone zs'
                   (SyncRange.set_Host pre'
                      (SyncRange.set_Region rs
                         (SyncRange.set_Zone zs (SyncRange.set_Region l T)))))));
      [exact Eh | exact Hx | | reflexivity].
    fold T. unfold SyncRange.Normalize.
    rewrite (region_step_eq T s l H1).
    rewrite (zone_step_eq (SyncRange.set_Region l T) s zs rs H2).
    rewrite (host_step_eq (SyncRange.set_Region rs
                             (SyncRange.set_Zone zs (SyncRange.set_Region l T)))
               s pre' zs' rs' Hpre).
    reflexivity. }
  pose proof (normalizeHostIds_loop_reliable s R (Host sr) [] zs rs) as H3.
  rewrite F3 in H3. destruct H3 as (hs & zs' & rs' & H3).
  eexists. unfold SyncRange.Normalize.
  rewrite (region_step_eq sr s l H1). fold sr1.
  rewrite (zone_step_eq sr1 s zs rs H2). fold sr2.
  rewrite (host_step_eq sr2 s hs zs' rs' H3). reflexivity.
Qed.

Lemma first_missing_None : forall R (key name : R -> string) l ids,
  first_missing key name l ids = None
  <-> forallb (SyncRange.resolves key name l) ids = true.
Proof.
  intros R key name l ids; unfold first_missing.
  induction ids as [|x ids IH]; simpl; [tauto|].
  destruct (SyncRange.resolves key name l x); simpl; [exact IH | split; discriminate].
Qed.

Lemma first_unresolved_None : forall s sr,
  first_unresolved s sr = None <-> SyncRange.all_resolve s sr = true.
Proof.
  intros s sr. unfold first_unresolved, SyncRange.all_resolve.
  rewrite !andb_true_iff, <- !first_missing_None.
  destruct (first_missing cr_Id cr_Name _ _); [split; [discriminate | intros [[? _] _]; discriminate]|].
  destruct (first_missing z_Id z_Name _ _); [split; [discriminate | intros [[_ ?] _]; discriminate]|].
  destruct (first_missing h_Id h_Name _ _); [split; [discriminate | intros [_ ?]; discriminate]|].
  tauto.
Qed.

(** [Normalize] with the database answering, by what the range holds. *)
Lemma Normalize_answering :
  forall (sr : SSyncRange) (s : Store),
    reliable s ->
    (SyncRange.all_resolve s sr = true ->
     exists sr', SyncRange.Normalize sr s = ((None, sr'), s))
    /\ (SyncRange.all_resolve s sr = false ->
        exists msg sr',
          first_unresolved s sr = Some msg
          /\ SyncRange.Normalize sr s = ((Some (ResourceNotFoundError msg), sr'), s)
          /\ (first_missing cr_Id cr_Name (cloudregions_tbl s) (Region sr) <> None ->
              Zone sr' = Zone sr /\ Host sr' = Host sr)
          /\ (first_missing z_Id z_Name (zones_tbl s) (Zone sr) <> None ->
              Host sr' = Host sr)
          /\ stopped s sr sr')
    /\ (forall sr' s', SyncRange.Normalize sr s = ((None, sr'), s') ->
        SyncRange.all_resolve s sr = true).
Proof.
  intros sr s R.
  assert (H := Normalize_reliable s sr R).
  assert (HN := first_unresolved_None s sr).
  unfold first_unresolved in *.
  destruct (first_missing cr_Id cr_Name (cloudregions_tbl s) (Region sr)) as [x|].
  { destruct H as (sr' & E & Hz & Hh & Hst).
    assert (Hf : SyncRange.all_resolve s sr = false).
    { destruct (SyncRange.all_resolve s sr); [|reflexivity].
      destruct HN as [_ HN]. discriminate (HN eq_refl). }
    split; [rewrite Hf; discriminate | split].
    - intros _. eexists _, sr'. split; [reflexivity|]. split; [exact E|].
      split; [intros _; auto|]. split; [intros _; auto | exact Hst].
    - intros sr0 s0 E0. rewrite E in E0. discriminate. }
  destruct (first_missing z_Id z_Name (zones_tbl s) (Zone sr)) as [x|].
  { destruct H as (sr' & E & Hh & Hst).
    assert (Hf : SyncRange.all_resolve s sr = false).
    { destruct (SyncRange.all_resolve s sr); [|reflexivity].
      destruct HN as [_ HN]. discriminate (HN eq_refl). }
    split; [rewrite Hf; discriminate | split].
    - intros _. eexists _, sr'. split; [reflexivity|]. split; [exact E|].
      split; [intros C; exfalso; apply C; reflexivity|].
      split; [intros _; exact Hh | exact Hst].
    - intros sr0 s0 E0. rewrite E in E0. discriminate. }
  destruct (first_missing h_Id h_Name (hosts_tbl s) (Host sr)) as [x|].
  { destruct H as (sr' & E & Hst).
    assert (Hf : SyncRange.all_resolve s sr = false).
    { destruct (SyncRange.all_resolve s sr); [|reflexivity].
      destruct HN as [_ HN]. discriminate (HN eq_refl). }
    split; [rewrite Hf; discriminate | split].
    - intros _. eexists _, sr'. split; [reflexivity|]. split; [exact E|].
      split; [intros C; exfalso; apply C; reflexivity|].
      split; [intros C; exfalso; apply C; reflexivity | exact Hst].
    - intros sr0 s0 E0. rewrite E in E0. discriminate. }
  destruct H as (sr' & E).
  assert (Ht : SyncRange.all_resolve s sr = true) by (apply HN; reflexivity).
  split; [intros _; exists sr'; exact E | split].
  - rewrite Ht; discriminate.
  - intros; exact Ht.
Qed.

(** *** Whatever the faults: no error means every identifier was found *)

Lemma db_call_inventory : forall what s r s',
  db_call what s = (r, s') -> inventory s' = inventory s.
Proof.
  intros what s r s'. unfold db_call.
  destruct (faults s) as [|[|] fs]; intros H; inversion H; reflexivity.
Qed.

Lemma FetchByIdOrName_found : forall R what (key name : R -> string) tbl x s r s',
  (forall s1 s2, inventory s1 = inventory s2 -> tbl s1 = tbl s2) ->
  SyncRange.FetchByIdOrName what key name tbl x s = (r, s') ->
  inventory s' = inventory s
  /\ forall obj, r = inr obj -> SyncRange.by_id_or_name key name (tbl s) x = Some obj.
Proof.
  intros R what key name tbl x s r s' T.
  unfold SyncRange.FetchByIdOrName, bind, get.
  destruct (db_call what s) as [[e|[]] s1] eqn:Ed; intros H.
  - inversion H; subst. split; [apply (db_call_inventory _ _ _ _ Ed) | discriminate].
  - assert (I := db_call_inventory _ _ _ _ Ed). rewrite <- (T _ _ I).
    destruct (SyncRange.by_id_or_name key name (tbl s1) x) eqn:Eb;
      inversion H; subst; (split; [exact I|]); intros obj Ho; inversion Ho; reflexivity.
Qed.

Lemma FetchById_inventory : forall R what (key : R -> string) tbl x s r s',
  FetchById what key tbl x s = (r, s') -> inventory s' = inventory s.
Proof.
  intros R what key tbl x s r s'. unfold FetchById, bind, get.
  destruct (db_call what s) as [[e|[]] s1] eqn:Ed; intros H.
  - inversion H; subst. apply (db_call_inventory _ _ _ _ Ed).
  - destruct (find_row _ (tbl s1)); inversion H; subst; apply (db_call_inventory _ _ _ _ Ed).
Qed.

Lemma inventory_regions : forall s1 s2,
  inventory s1 = inventory s2 -> cloudregions_tbl s1 = cloudregions_tbl s2.
Proof. intros s1 s2 H; unfold inventory in H; congruence. Qed.

Lemma inventory_zones : forall s1 s2,
  inventory s1 = inventory s2 -> zones_tbl s1 = zones_tbl s2.
Proof. intros s1 s2 H; unfold inventory in H; congruence. Qed.

Lemma inventory_hosts : forall s1 s2,
  inventory s1 = inventory s2 -> hosts_tbl s1 = hosts_tbl s2.
Proof. intros s1 s2 H; unfold inventory in H; congruence. Qed.

Lemma resolves_found : forall R (key name : R -> string) l x obj,
  SyncRange.by_id_or_name key name l x = Some obj -> SyncRange.resolves key name l x = true.
Proof. intros R key name l x obj H; unfold SyncRange.resolves; rewrite H; reflexivity. Qed.

Lemma normalizeRegionIds_loop_None : forall todo done s l s',
  SyncRange.normalizeRegionIds_loop done todo s = ((None, l), s') ->
  inventory s' = inventory s
  /\ forallb (SyncRange.resolves cr_Id cr_Name (cloudregions_tbl s)) todo = true.
Proof.
  intros todo; induction todo as [|x rest IH]; intros done s l s'; simpl.
  - intros H; inversion H; auto.
  - destruct (SyncRange.FetchByIdOrName _ _ _ _ x s) as [[err|obj] s1] eqn:Ef; [discriminate|].
    destruct (FetchByIdOrName_found _ _ _ _ _ _ _ _ _ inventory_regions Ef) as [I Hx].
    intros H. destruct (IH _ _ _ _ H) as [I' Hr].
    split; [congruence|].
    rewrite (resolves_found _ _ _ _ _ _ (Hx obj eq_refl)); simpl.
    rewrite <- (inventory_regions _ _ I). exact Hr.
Qed.

Lemma normalizeZoneIds_loop_None : forall todo done regions s l s',
  SyncRange.normalizeZoneIds_loop done todo regions s = ((None, l), s') ->
  inventory s' = inventory s
  /\ forallb (SyncRange.resolves z_Id z_Name (zones_tbl s)) todo = true.
Proof.
  intros todo; induction todo as [|x rest IH]; intros done regions s l s'; simpl.
  - intros H; inversion H; auto.
  - destruct (SyncRange.FetchByIdOrName _ _ _ _ x s) as [[err|zone] s1] eqn:Ef; [discriminate|].
    destruct (FetchByIdOrName_found _ _ _ _ _ _ _ _ _ inventory_zones Ef) as [I Hx].
    destruct (Zones.GetRegion zone s1) as [[e|region] s2] eqn:Eg;
      assert (I2 := FetchById_inventory _ _ _ _ _ _ _ _ Eg);
      intros H; destruct (IH _ _ _ _ _ H) as [I' Hr];
      (split; [congruence|]);
      rewrite (resolves_found _ _ _ _ _ _ (Hx zone eq_refl)); simpl;
      rewrite <- (inventory_zones s2 s) by congruence; exact Hr.
Qed.

Lemma normalizeHostIds_loop_None : forall todo done zones regions s l s',
  SyncRange.normalizeHostIds_loop done todo zones regions s = ((None, l), s') ->
  inventory s' = inventory s
  /\ forallb (SyncRange.resolves h_Id h_Name (hosts_tbl s)) todo = true.
Proof.
  intros todo; induction todo as [|x rest IH]; intros done zones regions s l s'; simpl.
  - intros H; inversion H; auto.
  - destruct (SyncRange.FetchByIdOrName _ _ _ _ x s) as [[err|host] s1] eqn:Ef; [discriminate|].
    destruct (FetchByIdOrName_found _ _ _ _ _ _ _ _ _ inventory_hosts Ef) as [I Hx].
    destruct (SyncRange.Host_GetZone host s1) as [[e|zone] s2] eqn:Ez;
      assert (I2 := FetchById_inventory _ _ _ _ _ _ _ _ Ez).
    + intros H; destruct (IH _ _ _ _ _ _ H) as [I' Hr].
      split; [congruence|].
      rewrite (resolves_found _ _ _ _ _ _ (Hx host eq_refl)); simpl.
      rewrite <- (inventory_hosts s2 s) by congruence. exact Hr.
    + destruct (Zones.GetRegion zone s2) as [[e|region] s3] eqn:Eg;
        assert (I3 := FetchById_inventory _ _ _ _ _ _ _ _ Eg);
        intros H; destruct (IH _ _ _ _ _ _ H) as [I' Hr];
        (split; [congruence|]);
        rewrite (resolves_found _ _ _ _ _ _ (Hx host eq_refl)); simpl;
        rewrite <- (inventory_hosts s3 s) by congruence; exact Hr.
Qed.

(** Whatever the faults, [Normalize] returns without error only when every
    identifier of the range names a stored row. *)
Lemma Normalize_None_all_resolve : forall sr s sr' s',
  SyncRange.Normalize sr s = ((None, sr'), s') -> SyncRange.all_resolve s sr = true.
Proof.
  intros sr s sr' s'. unfold SyncRange.Normalize, SyncRange.all_resolve.
  assert (P1 : exists e1 l1 s1,
    (if (0 <? length (Region sr))%nat then SyncRange.normalizeRegionIds sr s
     else ((None, SyncRange.set_Region [] sr), s)) = ((e1, SyncRange.set_Region l1 sr), s1)
    /\ (e1 = None -> inventory s1 = inventory s
        /\ forallb (SyncRange.resolves cr_Id cr_Name (cloudregions_tbl s)) (Region sr) = true)).
  { destruct (Region sr) as [|x0 r0] eqn:Er; simpl.
    - eexists _, _, _; split; [reflexivity | auto].
    - unfold SyncRange.normalizeRegionIds. rewrite Er.
      destruct (SyncRange.normalizeRegionIds_loop [] (x0 :: r0) s) as [[e l] s1] eqn:El.
      eexists _, _, _; split; [reflexivity|]. intros ->.
      apply (normalizeRegionIds_loop_None _ _ _ _ _ El). }
  destruct P1 as (e1 & l1 & s1 & E1 & H1). rewrite E1.
  destruct e1 as [err|]; [discriminate|]. destruct (H1 eq_refl) as [I1 R1]. rewrite R1.
  set (sr1 := SyncRange.set_Region l1 sr).
  assert (P2 : exists e2 zs rs s2,
    (if (0 <? length (Zone sr1))%nat then SyncRange.normalizeZoneIds sr1 s1
     else ((None, SyncRange.set_Zone [] sr1), s1))
    = ((e2, SyncRange.set_Region rs (SyncRange.set_Zone zs sr1)), s2)
    /\ (e2 = None -> inventory s2 = inventory s1
        /\ forallb (SyncRange.resolves z_Id z_Name (zones_tbl s1)) (Zone sr) = true)).
  { change (Zone sr1) with (Zone sr).
    destruct (Zone sr) as [|x0 r0] eqn:Er; simpl.
    - exists None, [], l1, s1; split; [|auto].
      unfold sr1; destruct sr; simpl in *; subst; reflexivity.
    - unfold SyncRange.normalizeZoneIds. change (Zone sr1) with (Zone sr). rewrite Er.
      destruct (SyncRange.normalizeZoneIds_loop [] (x0 :: r0) (Region sr1) s1)
        as [[e [zs rs]] s2] eqn:El.
      eexists _, _, _, _; split; [reflexivity|]. intros ->.
      apply (normalizeZoneIds_loop_None _ _ _ _ _ _ El). }
  destruct P2 as (e2 & zs & rs & s2 & E2 & H2). rewrite E2.
  destruct e2 as [err|]; [discriminate|]. destruct (H2 eq_refl) as [I2 R2].
  rewrite (inventory_zones _ _ I1) in R2. rewrite R2.
  set (sr2 := SyncRange.set_Region rs (SyncRange.set_Zone zs sr1)).
  change (Host sr2) with (Host sr).
  destruct (Host sr) as [|x0 r0] eqn:Er; simpl; [reflexivity|].
  unfold SyncRange.normalizeHostIds. change (Host sr2) with (Host sr). rewrite Er.
  destruct (SyncRange.normalizeHostIds_loop [] (x0 :: r0) (Zone sr2) (Region sr2) s2)
    as [[e [[hs zs'] rs']] s3] eqn:El.
  intros H; inversion H; subst.
  destruct (normalizeHostIds_loop_None _ _ _ _ _ _ _ El) as [I3 R3].
  rewrite (inventory_hosts s2 s) in R3 by congruence. exact R3.
Qed.

(** C5. [Normalize] is all or nothing. Whatever happens, it returns without
    error only when every identifier of the range names a stored row. With
    the database answering, it returns without error when they all do, and
    when one does not it returns the NotFound error of the first such
    identifier - regions first, then zones, then hosts - and does not go on:
    the range is left as the normalisation of the identifiers before that
    one leaves it, with that identifier and those after it in its list as
    the request had them, and the lists after the one that failed as the
    request had them. *)
Theorem Normalize_all_or_nothing :
  forall (sr : SSyncRange) (s : Store),
    (forall sr' s', SyncRange.Normalize sr s = ((None, sr'), s') ->
                    SyncRange.all_resolve s sr = true)
    /\ (reliable s ->
        (SyncRange.all_resolve s sr = true ->
         exists sr', SyncRange.Normalize sr s = ((None, sr'), s))
        /\ (SyncRange.all_resolve s sr = false ->
            exists msg sr',
              first_unresolved s sr = Some msg
              /\ SyncRange.Normalize sr s = ((Some (ResourceNotFoundError msg), sr'), s)
              /\ (first_missing cr_Id cr_Name (cloudregions_tbl s) (Region sr) <> None ->
                  Zone sr' = Zone sr /\ Host sr' = Host sr)
              /\ (first_missing z_Id z_Name (zones_tbl s) (Zone sr) <> None ->
                  Host sr' = Host sr)
              /\ stopped s sr sr')).
Proof.
  intros sr s; split.
  - apply Normalize_None_all_resolve.
  - intros R. destruct (Normalize_answering sr s R) as (A & B & _). split; assumption.
Qed.

(** *** The closure of a normalised range *)

Lemma find_row_NoDup : forall R (key : R -> string) l r,
  NoDup (map key l) -> In r l ->
  find_row (fun r' => String.eqb (key r') (key r)) l = Some r.
Proof.
  intros R key l r; induction l as [|a l IH]; simpl; intros N Hin; [contradiction|].
  inversion N as [|? ? Hn N']; subst.
  destruct Hin as [->|Hin]; [rewrite String.eqb_refl; reflexivity|].
  destruct (String.eqb (key a) (key r)) eqn:E; [|apply IH; assumption].
  apply String.eqb_eq in E. exfalso; apply Hn. rewrite E. apply in_map; exact Hin.
Qed.

Lemma by_id_or_name_In : forall R (key name : R -> string) l x r,
  SyncRange.by_id_or_name key name l x = Some r -> In r l.
Proof.
  intros R key name l x r. unfold SyncRange.by_id_or_name.
  destruct (find_row (fun r0 => String.eqb (key r0) x) l) eqn:E.
  - intros H; inversion H; subst. apply (find_row_In _ _ _ _ E).
  - apply find_row_In.
Qed.

Lemma by_id_first : forall R (key name : R -> string) l x r r',
  find_row (fun r0 => String.eqb (key r0) x) l = Some r ->
  SyncRange.by_id_or_name key name l x = Some r' -> r' = r.
Proof.
  intros R key name l x r r' H. unfold SyncRange.by_id_or_name. rewrite H. congruence.
Qed.

Lemma append_missing_In : forall x l y,
  In y (SyncRange.append_missing x l) <-> y = x \/ In y l.
Proof.
  intros x l y. unfold SyncRange.append_missing, SyncRange.IsInStringArray.
  destruct (existsb (String.eqb x) l) eqn:E; simpl.
  - split; [auto|]. intros [->|H]; [|exact H].
    apply existsb_exists in E. destruct E as (z & Hz & Ez).
    apply String.eqb_eq in Ez; subst; exact Hz.
  - rewrite in_app_iff; simpl. split; [intros [H|[H|[]]]; auto | intros [H|H]; auto].
Qed.

Lemma zones_closed_grow : forall s zones regions regions',
  zones_closed s zones regions -> (forall y, In y regions -> In y regions') ->
  zones_closed s zones regions'.
Proof. intros s zones regions regions' H Sub id z r Hi Hz Hr. apply Sub. eapply H; eauto. Qed.

Lemma zones_closed_app : forall s zones regions id0,
  zones_closed s zones regions ->
  (forall z r, SyncRange.zone_by_id s id0 = Some z -> SyncRange.region_of s z = Some r ->
               In (cr_Id r) regions) ->
  zones_closed s (zones ++ [id0]) regions.
Proof.
  intros s zones regions id0 H H0 id z r Hi Hz Hr.
  apply in_app_or in Hi. destruct Hi as [Hi|[<-|[]]]; [eapply H; eauto | eapply H0; eauto].
Qed.

Section Closure.

Variable s : Store.
Hypothesis Hrel : reliable s.
Hypothesis Hkeys : primary_keys s.

Lemma zone_id_stable : forall x zone z,
  SyncRange.by_id_or_name z_Id z_Name (zones_tbl s) x = Some zone ->
  SyncRange.zone_by_id s (z_Id zone) = Some z -> z = zone.
Proof.
  intros x zone z H Hz. unfold SyncRange.zone_by_id in Hz.
  rewrite (find_row_NoDup _ z_Id _ zone (proj1 Hkeys) (by_id_or_name_In _ _ _ _ _ _ H)) in Hz.
  congruence.
Qed.

Lemma host_id_stable : forall x host h,
  SyncRange.by_id_or_name h_Id h_Name (hosts_tbl s) x = Some host ->
  SyncRange.host_by_id s (h_Id host) = Some h -> h = host.
Proof.
  intros x host h H Hh. unfold SyncRange.host_by_id in Hh.
  rewrite (find_row_NoDup _ h_Id _ host (proj2 Hkeys) (by_id_or_name_In _ _ _ _ _ _ H)) in Hh.
  congruence.
Qed.

Lemma normalizeZoneIds_loop_closed : forall todo done regions zs rs s',
  SyncRange.normalizeZoneIds_loop done todo regions s = ((None, (zs, rs)), s') ->
  zones_closed s done regions ->
  zones_closed s zs rs /\ (forall y, In y regions -> In y rs).
Proof.
  intros todo; induction todo as [|x rest IH]; intros done regions zs rs s'; simpl.
  - intros H C; inversion H; subst; auto.
  - rewrite (FetchByIdOrName_reliable _ _ _ _ _ _ _ Hrel).
    destruct (SyncRange.by_id_or_name z_Id z_Name (zones_tbl s) x) as [zone|] eqn:Ez;
      [|discriminate].
    rewrite (GetRegion_reliable _ _ Hrel).
    destruct (SyncRange.region_of s zone) as [region|] eqn:Er; intros H C.
    + destruct (IH _ _ _ _ _ H) as [C' Sub].
      * apply zones_closed_app.
        -- apply (zones_closed_grow _ _ _ _ C). intros y Hy. apply append_missing_In; auto.
        -- intros z r Hz Hr. rewrite (zone_id_stable _ _ _ Ez Hz) in Hr.
           rewrite Er in Hr; inversion Hr; subst. apply append_missing_In; auto.
      * split; [exact C'|]. intros y Hy. apply Sub. apply append_missing_In; auto.
    + apply (IH _ _ _ _ _ H). apply zones_closed_app; [exact C|].
      intros z r Hz Hr. unfold SyncRange.zone_by_id in Hz.
      rewrite (by_id_first _ _ _ _ _ _ _ Hz Ez) in Er. congruence.
Qed.

Lemma normalizeHostIds_loop_closed : forall todo done zones regions hs zs rs s',
  SyncRange.normalizeHostIds_loop done todo zones regions s = ((None, (hs, zs, rs)), s') ->
  hosts_closed s done zones regions -> zones_closed s zones regions ->
  hosts_closed s hs zs rs /\ zones_closed s zs rs.
Proof.
  intros todo; induction todo as [|x rest IH]; intros done zones regions hs zs rs s'; simpl.
  - intros H C Z; inversion H; subst; auto.
  - rewrite (FetchByIdOrName_reliable _ _ _ _ _ _ _ Hrel).
    destruct (SyncRange.by_id_or_name h_Id h_Name (hosts_tbl s) x) as [host|] eqn:Eh;
      [|discriminate].
    rewrite (Host_GetZone_reliable _ _ Hrel).
    assert (Skip : forall zones0 regions0,
      hosts_closed s done zones0 regions0 ->
      (forall z r, SyncRange.zone_of s host = Some z -> SyncRange.region_of s z = Some r ->
                   False) ->
      hosts_closed s (done ++ [x]) zones0 regions0).
    { intros zones0 regions0 C Hno id h z r Hi Hh Hz Hr.
      apply in_app_or in Hi. destruct Hi as [Hi|[<-|[]]]; [eapply C; eauto|].
      unfold SyncRange.host_by_id in Hh.
      rewrite (by_id_first _ _ _ _ _ _ _ Hh Eh) in Hno. exfalso; eapply Hno; eauto. }
    destruct (SyncRange.zone_of s host) as [zone|] eqn:Ez.
    + rewrite (GetRegion_reliable _ _ Hrel).
      destruct (SyncRange.region_of s zone) as [region|] eqn:Er; intros H C Z.
      * apply (IH _ _ _ _ _ _ _ H).
        -- intros id h z r Hi Hh Hz Hr.
           apply in_app_or in Hi. destruct Hi as [Hi|[<-|[]]].
           ++ destruct (C id h z r Hi Hh Hz Hr) as [A B].
              split; apply append_missing_In; auto.
           ++ rewrite (host_id_stable _ _ _ Eh Hh) in Hz. rewrite Ez in Hz.
              inversion Hz; subst. rewrite Er in Hr; inversion Hr; subst.
              split; apply append_missing_In; auto.
        -- intros id z r Hi Hz Hr. apply append_missing_In.
           apply append_missing_In in Hi. destruct Hi as [->|Hi].
           ++ left. assert (Ek := find_row_key _ _ _ _ Ez). apply String.eqb_eq in Ek.
              unfold SyncRange.zone_by_id in Hz. rewrite Ek in Hz.
              unfold SyncRange.zone_of in Ez. rewrite Ez in Hz. inversion Hz; subst.
              rewrite Er in Hr; inversion Hr; reflexivity.
           ++ right. eapply Z; eauto.
      * apply (IH _ _ _ _ _ _ _ H); [|exact Z].
        apply Skip; [exact C|]. intros z r Hz Hr. inversion Hz; subst. congruence.
    + intros H C Z. apply (IH _ _ _ _ _ _ _ H); [|exact Z].
      apply Skip; [exact C|]. intros z r Hz Hr. discriminate.
Qed.

End Closure.

Lemma region_step_store : forall s sr e sr1 s1, reliable s ->
  (if (0 <? length (Region sr))%nat then SyncRange.normalizeRegionIds sr s
   else ((None, SyncRange.set_Region [] sr), s)) = ((e, sr1), s1) ->
  s1 = s /\ Zone sr1 = Zone sr /\ Host sr1 = Host sr.
Proof.
  intros s sr e sr1 s1 R H. assert (N := Normalize_regions s sr R).
  destruct (first_missing cr_Id cr_Name (cloudregions_tbl s) (Region sr));
    destruct N as [l N]; rewrite N in H; inversion H; subst; auto.
Qed.

Lemma zone_step_closed : forall s sr sr2 s2, reliable s -> primary_keys s ->
  (if (0 <? length (Zone sr))%nat then SyncRange.normalizeZoneIds sr s
   else ((None, SyncRange.set_Zone [] sr), s)) = ((None, sr2), s2) ->
  s2 = s /\ Host sr2 = Host sr /\ zones_closed s (Zone sr2) (Region sr2).
Proof.
  intros s sr sr2 s2 R K H.
  destruct (0 <? length (Zone sr))%nat.
  - unfold SyncRange.normalizeZoneIds in H.
    assert (N := normalizeZoneIds_loop_reliable s R (Zone sr) [] (Region sr)).
    destruct (first_missing z_Id z_Name (zones_tbl s) (Zone sr));
      destruct N as (a & b & N); rewrite N in H; [discriminate|].
    inversion H; subst s2 sr2. split; [reflexivity|]. split; [reflexivity|]. simpl.
    apply (proj1 (normalizeZoneIds_loop_closed s R K _ _ _ _ _ _ N
                    (fun id z r (F : In id []) => match F with end))).
  - inversion H; subst s2 sr2. split; [reflexivity|]. split; [reflexivity|].
    intros id z r [].
Qed.

Lemma host_step_closed : forall s sr sr3 s3, reliable s -> primary_keys s ->
  zones_closed s (Zone sr) (Region sr) ->
  (if (0 <? length (Host sr))%nat then SyncRange.normalizeHostIds sr s
   else ((None, SyncRange.set_Host [] sr), s)) = ((None, sr3), s3) ->
  closed_upward s sr3.
Proof.
  intros s sr sr3 s3 R K Z H.
  destruct (0 <? length (Host sr))%nat.
  - unfold SyncRange.normalizeHostIds in H.
    assert (N := normalizeHostIds_loop_reliable s R (Host sr) [] (Zone sr) (Region sr)).
    destruct (first_missing h_Id h_Name (hosts_tbl s) (Host sr));
      destruct N as (a & b & c & N); rewrite N in H; [discriminate|].
    inversion H; subst s3 sr3. unfold closed_upward; simpl.
    destruct (normalizeHostIds_loop_closed s R K _ _ _ _ _ _ _ _ N
                (fun id h z r (F : In id []) => match F with end) Z) as [A B].
    split; assumption.
  - inversion H; subst s3 sr3. unfold closed_upward; simpl. split; [exact Z|].
    intros id h z r [].
Qed.

(** *** The range, entry by entry *)

Lemma append_missing_app : forall x l,
  exists e, SyncRange.append_missing x l = l ++ e /\ forall y, In y e -> y = x.
Proof.
  intros x l. unfold SyncRange.append_missing.
  destruct (negb (SyncRange.IsInStringArray x l)).
  - exists [x]; split; [reflexivity|]. intros y [<-|[]]; reflexivity.
  - exists []; split; [symmetry; apply app_nil_r | intros y []].
Qed.

Lemma normalizeRegionIds_loop_entries : forall s, reliable s ->
  forall todo done done' s',
    SyncRange.normalizeRegionIds_loop done todo s = ((None, done'), s') ->
    s' = s /\ exists rs, done' = done ++ rs /\ Forall2 (region_entry s) todo rs.
Proof.
  intros s R todo; induction todo as [|x rest IH]; intros done done' s'; simpl.
  - intros H; injection H as <- <-. split; [reflexivity|].
    exists []; split; [symmetry; apply app_nil_r | constructor].
  - rewrite (FetchByIdOrName_reliable _ _ _ _ _ _ _ R).
    destruct (SyncRange.by_id_or_name cr_Id cr_Name (cloudregions_tbl s) x) as [obj|] eqn:E;
      [|discriminate].
    intros H. destruct (IH _ _ _ H) as (-> & rs & -> & F). split; [reflexivity|].
    exists (cr_Id obj :: rs). split; [rewrite <- app_assoc; reflexivity|].
    constructor; [exists obj; split; [exact E | reflexivity] | exact F].
Qed.

Lemma normalizeZoneIds_loop_entries : forall s, reliable s ->
  forall todo done regions done' regions' s',
    SyncRange.normalizeZoneIds_loop done todo regions s = ((None, (done', regions')), s') ->
    s' = s
    /\ exists zs extra,
         done' = done ++ zs
         /\ Forall2 (zone_entry s) todo zs
         /\ regions' = regions ++ extra
         /\ forall y, In y extra -> exists x, In x todo /\ zone_gives s x y.
Proof.
  intros s R todo; induction todo as [|x rest IH]; intros done regions done' regions' s'; simpl.
  - intros H; injection H as <- <- <-. split; [reflexivity|].
    exists [], []; rewrite !app_nil_r. repeat split; [constructor | intros y []].
  - rewrite (FetchByIdOrName_reliable _ _ _ _ _ _ _ R).
    destruct (SyncRange.by_id_or_name z_Id z_Name (zones_tbl s) x) as [zone|] eqn:E;
      [|discriminate].
    rewrite (GetRegion_reliable _ _ R).
    destruct (SyncRange.region_of s zone) as [region|] eqn:Er; intros H;
      destruct (IH _ _ _ _ _ H) as (-> & zs & extra & -> & F & -> & Hx);
      (split; [reflexivity|]).
    + destruct (append_missing_app (cr_Id region) regions) as (e & -> & He).
      exists (z_Id zone :: zs), (e ++ extra).
      split; [rewrite <- app_assoc; reflexivity|].
      split; [constructor; [exists zone; rewrite Er; split; [exact E | reflexivity] | exact F]|].
      split; [rewrite <- app_assoc; reflexivity|].
      intros y Hy. apply in_app_or in Hy; destruct Hy as [Hy|Hy].
      * exists x; split; [left; reflexivity|].
        exists zone, region; rewrite (He y Hy); repeat split; assumption.
      * destruct (Hx y Hy) as (x0 & Hin & Hg). exists x0; split; [right; exact Hin | exact Hg].
    + exists (x :: zs), extra.
      split; [rewrite <- app_assoc; reflexivity|].
      split; [constructor; [exists zone; rewrite Er; split; [exact E | reflexivity] | exact F]|].
      split; [reflexivity|].
      intros y Hy. destruct (Hx y Hy) as (x0 & Hin & Hg).
      exists x0; split; [right; exact Hin | exact Hg].
Qed.

Lemma normalizeHostIds_loop_entries : forall s, reliable s ->
  forall todo done zones regions done' zones' regions' s',
    SyncRange.normalizeHostIds_loop done todo zones regions s
    = ((None, (done', zones', regions')), s') ->
    s' = s
    /\ exists hs zextra rextra,
         done' = done ++ hs
         /\ Forall2 (host_entry s) todo hs
         /\ zones' = zones ++ zextra
         /\ regions' = regions ++ rextra
         /\ (forall y, In y zextra -> exists x rid, In x todo /\ host_gives s x y rid)
         /\ (forall y, In y rextra -> exists x zid, In x todo /\ host_gives s x zid y).
Proof.
  intros s R todo; induction todo as [|x rest IH];
    intros done zones regions done' zones' regions' s'; simpl.
  - intros H; injection H as <- <- <- <-. split; [reflexivity|].
    exists [], [], []; rewrite !app_nil_r.
    repeat split; [constructor | intros y [] | intros y []].
  - rewrite (FetchByIdOrName_reliable _ _ _ _ _ _ _ R).
    destruct (SyncRange.by_id_or_name h_Id h_Name (hosts_tbl s) x) as [host|] eqn:E;
      [|discriminate].
    rewrite (Host_GetZone_reliable _ _ R).
    assert (Hskip : forall x',
              x' = match SyncRange.zone_of s host with
                   | Some z => match SyncRange.region_of s z with
                               | Some _ => h_Id host
                               | None => x
                               end
                   | None => x
                   end ->
              SyncRange.normalizeHostIds_loop (done ++ [x']) rest zones regions s
              = ((None, (done', zones', regions')), s') ->
              s' = s
              /\ exists hs zextra rextra,
                   done' = done ++ hs
                   /\ Forall2 (host_entry s) (x :: rest) hs
                   /\ zones' = zones ++ zextra
                   /\ regions' = regions ++ rextra
                   /\ (forall y, In y zextra ->
                       exists x0 rid, In x0 (x :: rest) /\ host_gives s x0 y rid)
                   /\ (forall y, In y rextra ->
                       exists x0 zid, In x0 (x :: rest) /\ host_gives s x0 zid y)).
    { intros x' Hx' H.
      destruct (IH _ _ _ _ _ _ _ H) as (-> & hs & ze & re & -> & F & -> & -> & Hz & Hr).
      split; [reflexivity|]. exists (x' :: hs), ze, re.
      split; [rewrite <- app_assoc; reflexivity|].
      split; [constructor; [exists host; split; [exact E | exact Hx'] | exact F]|].
      split; [reflexivity|]. split; [reflexivity|]. split.
      - intros y Hy. destruct (Hz y Hy) as (x0 & rid & Hin & Hg).
        exists x0, rid; split; [right; exact Hin | exact Hg].
      - intros y Hy. destruct (Hr y Hy) as (x0 & zid & Hin & Hg).
        exists x0, zid; split; [right; exact Hin | exact Hg]. }
    destruct (SyncRange.zone_of s host) as [zone|] eqn:Ez; [|apply Hskip; reflexivity].
    rewrite (GetRegion_reliable _ _ R).
    destruct (SyncRange.region_of s zone) as [region|] eqn:Er; [|apply Hskip; reflexivity].
    clear Hskip. intros H.
    destruct (IH _ _ _ _ _ _ _ H) as (-> & hs & ze & re & -> & F & -> & -> & Hz & Hr).
    destruct (append_missing_app (z_Id zone) zones) as (ez & -> & Hez).
    destruct (append_missing_app (cr_Id region) regions) as (er & -> & Her).
    split; [reflexivity|]. exists (h_Id host :: hs), (ez ++ ze), (er ++ re).
    assert (Hg : host_gives s x (z_Id zone) (cr_Id region)).
    { exists host, zone, region; repeat split; assumption. }
    split; [rewrite <- app_assoc; reflexivity|].
    split; [constructor; [exists host; rewrite Ez, Er; split; [exact E | reflexivity]
                         | exact F]|].
    split; [rewrite <- app_assoc; reflexivity|].
    split; [rewrite <- app_assoc; reflexivity|]. split.
    + intros y Hy. apply in_app_or in Hy; destruct Hy as [Hy|Hy].
      * exists x, (cr_Id region); split; [left; reflexivity|]. rewrite (Hez y Hy); exact Hg.
      * destruct (Hz y Hy) as (x0 & rid & Hin & Hg0).
        exists x0, rid; split; [right; exact Hin | exact Hg0].
    + intros y Hy. apply in_app_or in Hy; destruct Hy as [Hy|Hy].
      * exists x, (z_Id zone); split; [left; reflexivity|]. rewrite (Her y Hy); exact Hg.
      * destruct (Hr y Hy) as (x0 & zid & Hin & Hg0).
        exists x0, zid; split; [right; exact Hin | exact Hg0].
Qed.

(** A range that [Normalize] returns without error, with the database
    answering, is the range of the request entry by entry. *)
Lemma Normalize_entries : forall sr s sr' s',
  reliable s ->
  SyncRange.Normalize sr s = ((None, sr'), s') ->
  entry_by_entry s sr sr'.
Proof.
  intros sr s sr' s' R. unfold SyncRange.Normalize.
  assert (H1 : exists e1 l s1,
             (if (0 <? length (Region sr))%nat then SyncRange.normalizeRegionIds sr s
              else ((None, SyncRange.set_Region [] sr), s))
             = ((e1, SyncRange.set_Region l sr), s1)
             /\ (e1 = None -> s1 = s /\ Forall2 (region_entry s) (Region sr) l)).
  { unfold SyncRange.normalizeRegionIds. destruct (Region sr) as [|x rest] eqn:E; simpl.
    - exists None, [], s; split; [reflexivity|]. intros _; split; constructor.
    - destruct (SyncRange.FetchByIdOrName _ _ _ _ x s) as [[err|obj] s0] eqn:Ef.
      + eexists _, _, _; split; [reflexivity | discriminate].
      + destruct (SyncRange.normalizeRegionIds_loop [cr_Id obj] rest s0)
          as [[e l] s1] eqn:El.
        exists e, l, s1; split; [reflexivity|]. intros ->.
        assert (L : SyncRange.normalizeRegionIds_loop [] (x :: rest) s = ((None, l), s1))
          by (simpl; rewrite Ef; exact El).
        destruct (normalizeRegionIds_loop_entries s R _ _ _ _ L) as (-> & rs & -> & F).
        split; [reflexivity | exact F]. }
  destruct H1 as (e1 & l & s1 & E1 & P1). rewrite E1.
  destruct e1 as [err|]; [discriminate|]. destruct (P1 eq_refl) as [-> F1]. clear P1 E1.
  set (sr1 := SyncRange.set_Region l sr).
  assert (H2 : exists e2 zs rs s2,
             (if (0 <? length (Zone sr1))%nat then SyncRange.normalizeZoneIds sr1 s
              else ((None, SyncRange.set_Zone [] sr1), s))
             = ((e2, SyncRange.set_Region rs (SyncRange.set_Zone zs sr1)), s2)
             /\ (e2 = None ->
                 s2 = s /\ Forall2 (zone_entry s) (Zone sr) zs
                 /\ exists extra,
                      rs = l ++ extra
                      /\ forall y, In y extra -> exists x, In x (Zone sr) /\ zone_gives s x y)).
  { unfold SyncRange.normalizeZoneIds. change (Zone sr1) with (Zone sr).
    change (Region sr1) with l.
    destruct (Zone sr) as [|x rest] eqn:E.
    - exists None, [], l, s; split; [reflexivity|]. intros _.
      split; [reflexivity|]. split; [constructor|].
      exists []; split; [symmetry; apply app_nil_r | intros y []].
    - change (0 <? length (x :: rest))%nat with true. cbv iota.
      destruct (SyncRange.normalizeZoneIds_loop [] (x :: rest) l s)
        as [[e [zs rs]] s2] eqn:El.
      exists e, zs, rs, s2; split; [reflexivity|]. intros ->.
      destruct (normalizeZoneIds_loop_entries s R _ _ _ _ _ _ El)
        as (-> & zs0 & extra & -> & F & -> & Hx).
      split; [reflexivity|]. split; [exact F|]. exists extra; split; [reflexivity | exact Hx]. }
  destruct H2 as (e2 & zs & rs & s2 & E2 & P2). rewrite E2.
  destruct e2 as [err|]; [discriminate|].
  destruct (P2 eq_refl) as (-> & F2 & e2x & -> & Hx2). clear P2 E2.
  set (sr2 := SyncRange.set_Region (l ++ e2x) (SyncRange.set_Zone zs sr1)).
  change (Host sr2) with (Host sr).
  destruct (Host sr) as [|x rest] eqn:E.
  - simpl. intros H; injection H as <- <-. unfold entry_by_entry; simpl. rewrite E.
    split; [constructor|]. split.
    + exists zs, []; split; [symmetry; apply app_nil_r|]. split; [exact F2 | intros y []].
    + exists l, e2x; split; [reflexivity|]. split; [exact F1|].
      intros y Hy; left; apply Hx2; exact Hy.
  - change (0 <? length (x :: rest))%nat with true. cbv iota.
    unfold SyncRange.normalizeHostIds. change (Host sr2) with (Host sr). rewrite E.
    change (Zone sr2) with zs. change (Region sr2) with (l ++ e2x).
    destruct (SyncRange.normalizeHostIds_loop [] (x :: rest) zs (l ++ e2x) s)
      as [[e [[hs zs'] rs']] s3] eqn:El.
    intros H; injection H as -> <- <-.
    destruct (normalizeHostIds_loop_entries s R _ _ _ _ _ _ _ _ El)
      as (-> & hs0 & ze & re & -> & F3 & -> & -> & Hz & Hr).
    unfold entry_by_entry; simpl. rewrite E. split; [exact F3|]. split.
    + exists zs, ze; split; [reflexivity|]. split; [exact F2 | exact Hz].
    + exists l, (e2x ++ re); split; [symmetry; apply app_assoc|]. split; [exact F1|].
      intros y Hy. apply in_app_or in Hy; destruct Hy as [Hy|Hy];
        [left; apply Hx2; exact Hy | right; apply Hr; exact Hy].
Qed.

(** C4, as the code has it. With the database answering and ids being
    primary keys, a range that [Normalize] returns without error is closed
    upward for whatever resolves: a zone id in it has the id of the zone's
    region in it, and a host id in it whose zone and whose zone's region are
    both found has the ids of both in it. And it is the range of the request
    entry by entry: an entry whose zone or region is not found is left as
    given and brings nothing into the range, an entry whose zone and region
    are found is replaced by the id of the row it names and brings their ids
    in, and nothing else is in the range. *)
Theorem Normalize_closed_upward :
  forall (sr : SSyncRange) (s : Store) (sr' : SSyncRange) (s' : Store),
    reliable s -> primary_keys s ->
    SyncRange.Normalize sr s = ((None, sr'), s') ->
    closed_upward s sr' /\ entry_by_entry s sr sr'.
Proof.
  intros sr s sr' s' R K HN. split; [|exact (Normalize_entries sr s sr' s' R HN)].
  revert HN. unfold SyncRange.Normalize.
  destruct (if (0 <? length (Region sr))%nat then SyncRange.normalizeRegionIds sr s
            else ((None, SyncRange.set_Region [] sr), s)) as [[e1 sr1] s1] eqn:E1.
  destruct (region_step_store s sr e1 sr1 s1 R E1) as (-> & Hz1 & Hh1).
  destruct e1 as [err|]; [discriminate|].
  destruct (if (0 <? length (Zone sr1))%nat then SyncRange.normalizeZoneIds sr1 s
            else ((None, SyncRange.set_Zone [] sr1), s)) as [[e2 sr2] s2] eqn:E2.
  destruct e2 as [err|]; [discriminate|].
  destruct (zone_step_closed s sr1 sr2 s2 R K E2) as (-> & Hh2 & Z2).
  intros H. apply (host_step_closed s sr2 sr' s' R K Z2 H).
Qed.

(** C4 as stated fails: the host h9 sits in the zone z9, whose region is not
    stored; [Normalize] returns without error, keeps h9 and puts neither the
    zone nor a region into the range. *)
Lemma Normalize_skips_host_of_unresolved_region :
  SyncRange.Normalize (Inventory.scope [] [] ["h9"]) Inventory.store
  = ((None, Inventory.scope [] [] ["h9"]), Inventory.store)
  /\ SyncRange.host_by_id Inventory.store "h9" = Some Inventory.host_stray
  /\ SyncRange.zone_of Inventory.store Inventory.host_stray = Some Inventory.zone_stray
  /\ ~ In (z_Id Inventory.zone_stray) (Zone (Inventory.scope [] [] ["h9"]))
  /\ ~ closed_upward_unguarded Inventory.store (Inventory.scope [] [] ["h9"]).
Proof.
  split; [vm_compute; reflexivity|]. split; [reflexivity|]. split; [reflexivity|].
  split; [intros []|].
  intros [_ H].
  destruct (H "h9" Inventory.host_stray Inventory.zone_stray (or_introl eq_refl)
              eq_refl eq_refl) as [[] _].
Qed.

Lemma Inventory_primary_keys : primary_keys Inventory.store.
Proof.
  split; simpl; repeat constructor; simpl; intuition discriminate.
Defined.

Lemma Normalize_closed_upward_witness :
  closed_upward Inventory.store (Inventory.scope ["r1"] ["z1"] ["h1"; "host-9"])
  /\ entry_by_entry Inventory.store (Inventory.scope [] [] ["host-1"; "host-9"])
                    (Inventory.scope ["r1"] ["z1"] ["h1"; "host-9"]).
Proof.
  exact (Normalize_closed_upward (Inventory.scope [] [] ["host-1"; "host-9"]) Inventory.store
           (Inventory.scope ["r1"] ["z1"] ["h1"; "host-9"]) Inventory.store
           eq_refl Inventory_primary_keys eq_refl).
Defined.

Lemma Normalize_all_or_nothing_witness :
  (exists sr', SyncRange.Normalize (Inventory.scope ["region-1"] ["z1"] ["host-1"])
                                   Inventory.store = ((None, sr'), Inventory.store))
  /\ exists msg,
       first_unresolved Inventory.store
         (Inventory.scope [] ["zone-1"; "z2"; "zone-1"] ["host-1"])
       = Some msg
       /\ SyncRange.Normalize
            (Inventory.scope [] ["zone-1"; "z2"; "zone-1"] ["host-1"])
            Inventory.store
          = ((Some (ResourceNotFoundError msg),
              Inventory.scope ["r1"] ["z1"; "z2"; "zone-1"] ["host-1"]), Inventory.store)
       /\ stopped Inventory.store
            (Inventory.scope [] ["zone-1"; "z2"; "zone-1"] ["host-1"])
            (Inventory.scope ["r1"] ["z1"; "z2"; "zone-1"] ["host-1"]).
Proof.
  split.
  - exact (proj1 (proj2 (Normalize_all_or_nothing
                           (Inventory.scope ["region-1"] ["z1"] ["host-1"])
                           Inventory.store) eq_refl)
                 eq_refl).
  - destruct (proj2 (proj2 (Normalize_all_or_nothing
                              (Inventory.scope [] ["zone-1"; "z2"; "zone-1"]
                                               ["host-1"]) Inventory.store)
                           eq_refl)
                    eq_refl) as (msg & sr' & F & E & _ & _ & St).
    assert (Hsr : sr' = Inventory.scope ["r1"] ["z1"; "z2"; "zone-1"] ["host-1"]).
    { pose proof E as E'. vm_compute in E'. injection E' as _ <-. reflexivity. }
    subst sr'. exists msg. split; [exact F | split; [exact E | exact St]].
Defined.

(** ** Splitting and joining strings *)

Lemma Split_not_nil : forall s c, strings.Split s c <> [].
Proof.
  intros s c; destruct s as [|a s]; simpl; [discriminate|].
  destruct (Ascii.eqb a c); [discriminate|].
  destruct (strings.Split s c); discriminate.
Qed.

Lemma Split_length : forall s c, length (strings.Split s c) = S (strings.Count s c).
Proof.
  intros s c; induction s as [|a s IH]; simpl; [reflexivity|].
  destruct (Ascii.eqb a c); simpl; [now rewrite IH|].
  destruct (strings.Split s c) eqn:E; simpl in *; [discriminate | exact IH].
Qed.

Lemma Split_pieces : forall s c, Forall (fun seg => strings.Count seg c = 0) (strings.Split s c).
Proof.
  intros s c; induction s as [|a s IH]; simpl; [repeat constructor|].
  destruct (Ascii.eqb a c) eqn:Ea; [constructor; [reflexivity | exact IH]|].
  destruct (strings.Split s c) as [|seg segs]; [repeat constructor; simpl; now rewrite Ea|].
  inversion IH; subst; constructor; [simpl; now rewrite Ea | assumption].
Qed.

Lemma Join_Split : forall s c, strings.Join (strings.Split s c) c = s.
Proof.
  intros s c; unfold strings.Join; induction s as [|a s IH]; simpl; [reflexivity|].
  destruct (Ascii.eqb a c) eqn:Ea.
  - apply Ascii.eqb_eq in Ea; subst a.
    destruct (strings.Split s c) as [|seg segs] eqn:E; [now apply Split_not_nil in E|].
    simpl in *; now rewrite IH.
  - destruct (strings.Split s c) as [|seg segs] eqn:E; [now apply Split_not_nil in E|].
    destruct segs; simpl in *; now rewrite IH.
Qed.

Lemma Split_whole : forall s c, strings.Count s c = 0 -> strings.Split s c = [s].
Proof.
  intros s c; induction s as [|a s IH]; simpl; [reflexivity|].
  destruct (Ascii.eqb a c); [discriminate|]; simpl; intros H; now rewrite (IH H).
Qed.

Lemma Split_app : forall a b c,
  strings.Count a c = 0 ->
  strings.Split (a ++ String c b) c = a :: strings.Split b c.
Proof.
  intros a b c; induction a as [|x a IH]; simpl.
  - now rewrite Ascii.eqb_refl.
  - destruct (Ascii.eqb x c); [discriminate|]; simpl; intros H; now rewrite (IH H).
Qed.

Lemma Count_app : forall a b c,
  strings.Count (a ++ b) c = strings.Count a c + strings.Count b c.
Proof. intros a b c; induction a as [|x a IH]; simpl; [reflexivity | rewrite IH; lia]. Qed.

Lemma string_app_assoc : forall a b c : string, ((a ++ b) ++ c = a ++ b ++ c)%string.
Proof. intros a b c; induction a as [|x a IH]; simpl; [reflexivity | now rewrite IH]. Qed.

Lemma concat_app : forall sep l1 l2,
  l1 <> [] -> l2 <> [] ->
  String.concat sep (l1 ++ l2) = (String.concat sep l1 ++ sep ++ String.concat sep l2)%string.
Proof.
  intros sep l1 l2 H1 H2; induction l1 as [|x l1 IH]; [contradiction|].
  destruct l1 as [|y l1].
  - destruct l2; [contradiction | reflexivity].
  - change (String.concat sep ((x :: y :: l1) ++ l2))
      with (x ++ sep ++ String.concat sep ((y :: l1) ++ l2))%string.
    rewrite IH by discriminate.
    change (String.concat sep (x :: y :: l1)) with (x ++ sep ++ String.concat sep (y :: l1))%string.
    now rewrite !string_app_assoc.
Qed.

(** ** The provider factory of Huawei Cloud *)

(** [parseAccount] undoes the composition of an account from an access key
    and a project id: for a key and a project id that hold no slash, the
    account [key/project] is split back into the two. *)
Theorem parseAccount_of_key_and_project : forall accessKey projectId,
  strings.Count accessKey "/" = 0 ->
  strings.Count projectId "/" = 0 ->
  HuaweiProvider.parseAccount (accessKey ++ "/" ++ projectId) = (accessKey, projectId).
Proof.
  intros k p Hk Hp; unfold HuaweiProvider.parseAccount.
  change (k ++ "/" ++ p)%string with (k ++ String "/" p)%string.
  now rewrite (Split_app k p "/" Hk), (Split_whole p "/" Hp).
Qed.

Lemma parseAccount_of_key_and_project_witness :
  HuaweiProvider.parseAccount "AKIA123/project-7" = ("AKIA123", "project-7").
Proof.
  exact (parseAccount_of_key_and_project "AKIA123" "project-7" eq_refl eq_refl).
Defined.

(** [parseAccount] reads a project id only off an account with exactly one
    slash: with none, or with two or more, the whole account is the access
    key and the project id is empty. *)
Theorem parseAccount_without_single_slash : forall account,
  strings.Count account "/" <> 1 ->
  HuaweiProvider.parseAccount account = (account, "").
Proof.
  intros a H; unfold HuaweiProvider.parseAccount.
  pose proof (Split_length a "/") as L.
  destruct (strings.Split a "/") as [|x [|y [|z l]]]; try reflexivity.
  simpl in L; lia.
Qed.

Lemma parseAccount_without_single_slash_witness :
  HuaweiProvider.parseAccount "key/project/extra" = ("key/project/extra", "")
  /\ HuaweiProvider.parseAccount "key" = ("key", "").
Proof.
  split.
  - apply (parseAccount_without_single_slash "key/project/extra"); vm_compute; lia.
  - apply (parseAccount_without_single_slash "key"); vm_compute; lia.
Defined.

(** A credential that passes the validation for creating an account passes
    the validation for updating one, with the same account and secret; the
    update never carries an access URL, the creation carries the environment
    as its access URL. *)
Theorem create_credential_valid_for_update : forall input cloudaccount out,
  HuaweiProvider.ValidateCreateCloudaccountData input = inr out ->
  HuaweiProvider.AccessUrl out = HuaweiProvider.Environment input
  /\ HuaweiProvider.ValidateUpdateCloudaccountCredential input cloudaccount
     = inr (HuaweiProvider.mkAccount (HuaweiProvider.Account out) (HuaweiProvider.Secret out) "").
Proof.
  intros input name out; unfold HuaweiProvider.ValidateCreateCloudaccountData,
    HuaweiProvider.ValidateUpdateCloudaccountCredential.
  destruct (Nat.eqb (String.length (HuaweiProvider.AccessKeyId input)) 0); [discriminate|].
  destruct (Nat.eqb (String.length (HuaweiProvider.AccessKeySecret input)) 0); [discriminate|].
  destruct (Nat.eqb (String.length (HuaweiProvider.Environment input)) 0); [discriminate|].
  intros H; inversion H; subst; simpl; split; reflexivity.
Qed.

Lemma create_credential_valid_for_update_witness :
  HuaweiProvider.AccessUrl (HuaweiProvider.mkAccount "ak" "sk" "InternationalCloud")
  = "InternationalCloud"
  /\ HuaweiProvider.ValidateUpdateCloudaccountCredential
       (HuaweiProvider.mkCredential "ak" "sk" "InternationalCloud") "account-1"
     = inr (HuaweiProvider.mkAccount "ak" "sk" "").
Proof.
  exact (create_credential_valid_for_update
           (HuaweiProvider.mkCredential "ak" "sk" "InternationalCloud") "account-1"
           (HuaweiProvider.mkAccount "ak" "sk" "InternationalCloud") eq_refl).
Defined.

(** The region [GetClientRC] puts under [HUAWEI_REGION]: the default region
    when the name of the provider has fewer than two dashes; otherwise the
    last three dash-separated pieces of the name, that is the part of the
    name after the third dash from the end (or the whole name). *)
Theorem GetClientRC_region_is_name_suffix : forall default info,
  exists region,
    HuaweiProvider.lookup "HUAWEI_REGION" (HuaweiProvider.GetClientRC default info) = Some region
    /\ ((strings.Count (HuaweiProvider.info_Name info) "-" < 2 /\ region = default)
        \/ (2 <= strings.Count (HuaweiProvider.info_Name info) "-"
            /\ strings.Count region "-" = 2
            /\ exists prefix,
                 HuaweiProvider.info_Name info = (prefix ++ region)%string
                 /\ (prefix = "" \/ exists p, prefix = (p ++ "-")%string))).
Proof.
  intros default info; exists (HuaweiProvider.GetClientRC_region default (HuaweiProvider.info_Name info)).
  split.
  - unfold HuaweiProvider.GetClientRC.
    destruct (HuaweiProvider.parseAccount (HuaweiProvider.info_Account info)); reflexivity.
  - set (name := HuaweiProvider.info_Name info).
    unfold HuaweiProvider.GetClientRC_region.
    pose proof (Split_length name "-") as L.
    pose proof (Split_pieces name "-") as P.
    pose proof (Join_Split name "-") as J.
    set (data := strings.Split name "-") in *.
    destruct (3 <=? length data)%nat eqn:E.
    + apply Nat.leb_le in E; right; split; [lia|].
      rewrite <- (firstn_skipn (length data - 3) data) in J, P.
      assert (Hlen : length (skipn (length data - 3) data) = 3)
        by (rewrite length_skipn; lia).
      apply Forall_app in P; destruct P as [_ P].
      destruct (skipn (length data - 3) data) as [|a [|b [|c [|d l]]]] eqn:Es;
        try discriminate Hlen.
      inversion P as [|? ? Ha P1]; subst; inversion P1 as [|? ? Hb P2]; subst;
        inversion P2 as [|? ? Hc _]; subst.
      split.
      * unfold strings.Join.
        change (String.concat "-" [a; b; c]) with (a ++ String "-" (b ++ String "-" c))%string.
        rewrite Count_app; cbn [strings.Count]; rewrite Count_app; cbn [strings.Count].
        rewrite Ha, Hb, Hc; reflexivity.
      * destruct (firstn (length data - 3) data) as [|x pre] eqn:Ef.
        -- exists ""; split; [symmetry; exact J | left; reflexivity].
        -- exists (String.concat "-" (x :: pre) ++ "-")%string; split.
           ++ unfold strings.Join in *. rewrite concat_app in J by discriminate.
              rewrite string_app_assoc. symmetry; exact J.
           ++ right; eexists; reflexivity.
    + apply Nat.leb_gt in E; left; split; [lia | reflexivity].
Qed.

(** ** The project mapping of a cloudprovider *)

(** [pmCache.GetProjectMapping]: the mapping set on the provider comes
    first. With a mapping id on the provider, the result is read from the
    provider's id and flags alone, whatever the account carries; with no
    mapping id on the provider, it is read from the account's id and flags;
    with no mapping id on either, the result is a NotFound error. And no
    mapping asks for neither kind of sync: resources are synced unless
    project sync alone is enabled. *)
Theorem GetProjectMapping_provider_level_first :
  forall (PM : Type) (GetRuleMapping : string -> error + PM) (c : ProjectMapping.pmCache),
    (ProjectMapping.ManagerProjectMappingId c <> "" ->
     forall c',
       ProjectMapping.ManagerProjectMappingId c' = ProjectMapping.ManagerProjectMappingId c ->
       ProjectMapping.ManagerEnableProjectSync c' = ProjectMapping.ManagerEnableProjectSync c ->
       ProjectMapping.ManagerEnableResourceSync c' = ProjectMapping.ManagerEnableResourceSync c ->
       ProjectMapping.GetProjectMapping GetRuleMapping c'
       = ProjectMapping.GetProjectMapping GetRuleMapping c)
    /\ (ProjectMapping.ManagerProjectMappingId c = "" ->
        forall c',
          ProjectMapping.ManagerProjectMappingId c' = "" ->
          ProjectMapping.AccountProjectMappingId c' = ProjectMapping.AccountProjectMappingId c ->
          ProjectMapping.AccountEnableProjectSync c' = ProjectMapping.AccountEnableProjectSync c ->
          ProjectMapping.AccountEnableResourceSync c'
          = ProjectMapping.AccountEnableResourceSync c ->
          ProjectMapping.GetProjectMapping GetRuleMapping c'
          = ProjectMapping.GetProjectMapping GetRuleMapping c)
    /\ (ProjectMapping.ManagerProjectMappingId c = "" ->
        ProjectMapping.AccountProjectMappingId c = "" ->
        ProjectMapping.GetProjectMapping GetRuleMapping c
        = inl (Wrap ProjectMapping.ErrNotFound "empty project mapping id"))
    /\ (forall m,
          ProjectMapping.GetProjectMapping GetRuleMapping c = inr m ->
          (ProjectMapping.EnableProjectSync m
           = if (0 <? String.length (ProjectMapping.ManagerProjectMappingId c))%nat
             then ProjectMapping.ManagerEnableProjectSync c
             else ProjectMapping.AccountEnableProjectSync c)
          /\ (ProjectMapping.IsNeedResourceSync m = false ->
              ProjectMapping.IsNeedProjectSync m = true)).
Proof.
  intros PM Get c; split; [|split; [|split]].
  - intros Hn c' E1 E2 E3. unfold ProjectMapping.GetProjectMapping.
    rewrite E1, E2, E3.
    destruct (ProjectMapping.ManagerProjectMappingId c); [contradiction | reflexivity].
  - intros E0 c' E1 E2 E3 E4. unfold ProjectMapping.GetProjectMapping.
    rewrite E0, E1, E2, E3, E4. reflexivity.
  - intros E1 E2. unfold ProjectMapping.GetProjectMapping. rewrite E1, E2. reflexivity.
  - intros m. unfold ProjectMapping.GetProjectMapping.
    assert (Hsync : forall m0 : ProjectMapping.sProjectMapping PM,
              ProjectMapping.IsNeedResourceSync m0 = false ->
              ProjectMapping.IsNeedProjectSync m0 = true).
    { intros m0. unfold ProjectMapping.IsNeedResourceSync, ProjectMapping.IsNeedProjectSync.
      destruct (ProjectMapping.EnableResourceSync m0), (ProjectMapping.EnableProjectSync m0);
        simpl; congruence. }
    destruct (0 <? String.length (ProjectMapping.ManagerProjectMappingId c))%nat.
    + destruct (Get _); [discriminate|]. intros H; inversion H; subst.
      split; [reflexivity | apply Hsync].
    + destruct (0 <? String.length (ProjectMapping.AccountProjectMappingId c))%nat;
        [|discriminate].
      destruct (Get _); [discriminate|]. intros H; inversion H; subst.
      split; [reflexivity | apply Hsync].
Qed.

Lemma GetProjectMapping_provider_level_first_witness :
  ProjectMapping.GetProjectMapping (fun id : string => inr id : error + string)
    (ProjectMapping.mkPmCache "p1" "a1" "pm-account" "pm-provider" true false false true)
  = ProjectMapping.GetProjectMapping (fun id : string => inr id : error + string)
      (ProjectMapping.mkPmCache "p1" "a1" "" "pm-provider" false false true true)
  /\ ProjectMapping.GetProjectMapping (fun id : string => inr id : error + string)
       (ProjectMapping.mkPmCache "p1" "a1" "" "" true true true true)
     = inl (Wrap ProjectMapping.ErrNotFound "empty project mapping id").
Proof.
  split.
  - refine (proj1 (GetProjectMapping_provider_level_first string (fun id => inr id)
                     (ProjectMapping.mkPmCache "p1" "a1" "" "pm-provider" false false true true))
                  _ _ eq_refl eq_refl eq_refl).
    discriminate.
  - exact (proj1 (proj2 (proj2 (GetProjectMapping_provider_level_first string
                                   (fun id => inr id)
                                   (ProjectMapping.mkPmCache "p1" "a1" "" "" true true true
                                                             true))))
                 eq_refl eq_refl).
Defined.

(** ** The manager of the cloudproviders *)

Lemma filter_all : forall A (l : list A), filter (fun _ => true) l = l.
Proof. intros A l; induction l as [|a l IH]; simpl; [reflexivity | now rewrite IH]. Qed.

Lemma kept_or_idle_refl : forall l, Forall2 kept_or_idle l l.
Proof. intros l; induction l; constructor; [left; reflexivity | assumption]. Qed.

Lemma kept_or_idle_update : forall c l l',
  Forall2 kept_or_idle l l' ->
  Forall2 kept_or_idle l
    (update_rows (Cloudprovider.same_row c)
                 (Cloudprovider.set_SyncStatus CLOUD_PROVIDER_SYNC_STATUS_IDLE) l').
Proof.
  intros c l l' H; induction H as [|r r' l l' Hr H IH]; simpl; constructor; [|exact IH].
  destruct (Cloudprovider.same_row c r'); [|exact Hr].
  destruct Hr as [->| ->]; right; reflexivity.
Qed.

Lemma initAllRecords_loop_rows : forall recs s l,
  Forall2 kept_or_idle l (cloudproviders_tbl s) ->
  exists s',
    CloudproviderManager.initAllRecords_loop recs s = (inr tt, s')
    /\ Forall2 kept_or_idle l (cloudproviders_tbl s')
    /\ cloudaccounts_tbl s' = cloudaccounts_tbl s
    /\ cloudproviderregions_tbl s' = cloudproviderregions_tbl s.
Proof.
  intros recs; induction recs as [|c rest IH]; intros s l H; simpl.
  - exists s; repeat split; auto.
  - unfold catch, Cloudprovider.Update, bind, db_call, modify, ret.
    destruct (faults s) as [|[|] fs].
    + destruct (IH (set_cloudproviders
                      (update_rows (Cloudprovider.same_row c)
                         (Cloudprovider.set_SyncStatus CLOUD_PROVIDER_SYNC_STATUS_IDLE)
                         (cloudproviders_tbl s)) s) l) as (s' & E & F & A & B).
      { simpl. apply kept_or_idle_update; exact H. }
      exists s'; repeat split; auto.
    + destruct (IH (set_faults fs s) l H) as (s' & E & F & A & B).
      exists s'; repeat split; auto.
    + destruct (IH (set_cloudproviders
                      (update_rows (Cloudprovider.same_row c)
                         (Cloudprovider.set_SyncStatus CLOUD_PROVIDER_SYNC_STATUS_IDLE)
                         (cloudproviders_tbl (set_faults fs s))) (set_faults fs s)) l)
        as (s' & E & F & A & B).
      { simpl. apply kept_or_idle_update; exact H. }
      exists s'; repeat split; auto.
Qed.

Lemma set_cloudproviders_same : forall s, set_cloudproviders (cloudproviders_tbl s) s = s.
Proof. intros s; destruct s; reflexivity. Qed.

(** The loop over [recs] with no database call failing: the rows of the
    providers in [recs] are idle, the others are as they were. *)
Lemma initAllRecords_loop_reliable : forall recs s,
  reliable s ->
  CloudproviderManager.initAllRecords_loop recs s
  = (inr tt,
     set_cloudproviders
       (map (fun r => if existsb (fun c => Cloudprovider.same_row c r) recs
                      then Cloudprovider.set_SyncStatus CLOUD_PROVIDER_SYNC_STATUS_IDLE r
                      else r)
            (cloudproviders_tbl s)) s).
Proof.
  intros recs; induction recs as [|c rest IH]; intros s R; simpl.
  - unfold ret. rewrite map_id. now rewrite set_cloudproviders_same.
  - unfold catch, Cloudprovider.Update, bind, modify, ret.
    rewrite (db_call_reliable _ _ R). rewrite IH by exact R.
    f_equal. unfold set_cloudproviders; simpl. f_equal.
    unfold update_rows. rewrite map_map. apply map_ext; intros r.
    destruct (Cloudprovider.same_row c r) eqn:E; simpl; [|reflexivity].
    change (existsb (fun c0 => Cloudprovider.same_row c0
                      (Cloudprovider.set_SyncStatus CLOUD_PROVIDER_SYNC_STATUS_IDLE r)) rest)
      with (existsb (fun c0 => Cloudprovider.same_row c0 r) rest).
    destruct (existsb _ rest); reflexivity.
Qed.

(** [initAllRecords] never fails. Whatever the database does, it changes
    nothing but the sync status of cloudprovider rows, and that only to
    idle; with every database call going through, every cloudprovider row is
    idle afterwards. *)
Theorem initAllRecords_resets_sync_status : forall s,
  (exists s',
     CloudproviderManager.initAllRecords s = (inr tt, s')
     /\ Forall2 kept_or_idle (cloudproviders_tbl s) (cloudproviders_tbl s')
     /\ cloudaccounts_tbl s' = cloudaccounts_tbl s
     /\ cloudproviderregions_tbl s' = cloudproviderregions_tbl s)
  /\ (reliable s ->
      CloudproviderManager.initAllRecords s
      = (inr tt,
         set_cloudproviders
           (map (Cloudprovider.set_SyncStatus CLOUD_PROVIDER_SYNC_STATUS_IDLE)
                (cloudproviders_tbl s)) s)).
Proof.
  intros s; split.
  - unfold CloudproviderManager.initAllRecords, CloudproviderManager.fetchRecordsByQuery,
      bind, catch, db_call, get, ret.
    destruct (faults s) as [|[|] fs].
    + apply (initAllRecords_loop_rows _ s), kept_or_idle_refl.
    + exists (set_faults fs s); repeat split. apply kept_or_idle_refl.
    + apply (initAllRecords_loop_rows _ (set_faults fs s) (cloudproviders_tbl s)),
        kept_or_idle_refl.
  - intros R.
    unfold CloudproviderManager.initAllRecords, CloudproviderManager.fetchRecordsByQuery,
      bind, catch, get, ret.
    rewrite (db_call_reliable _ _ R), filter_all, (initAllRecords_loop_reliable _ s R).
    f_equal; f_equal. apply map_ext_in; intros r Hin.
    replace (existsb _ _) with true; [reflexivity|].
    symmetry; apply existsb_exists. exists r; split; [exact Hin|].
    apply String.eqb_refl.
Qed.

Lemma initAllRecords_resets_sync_status_witness :
  CloudproviderManager.initAllRecords Examples.store_busy
  = (inr tt, Examples.store_of [Examples.provider_idle_after_cancel]
                               [Examples.cpr "r1" CLOUD_PROVIDER_SYNC_STATUS_SYNCING]).
Proof.
  exact (proj2 (initAllRecords_resets_sync_status Examples.store_busy) eq_refl).
Defined.

(** ** Requests for a sync: what the checks of [PerformSync] stand on *)

Lemma table_sync_rows : table sync_rows.
Proof. intros fs s; reflexivity. Qed.

Lemma preserves_rows_GetCloudaccount : forall self,
  preserves sync_rows (Cloudprovider.GetCloudaccount self).
Proof.
  intros self. unfold Cloudprovider.GetCloudaccount, FetchById.
  apply preserves_catch; [|intros [?|?]; frame].
  apply preserves_bind; [apply preserves_db_call, table_sync_rows | intros].
  apply preserves_bind; [frame | intros s0].
  destruct (find_row _ _); frame.
Qed.

(** The only errors [StartSyncCloudProviderInfoTask] returns are those of
    the creation of the task, before anything is written, and of its
    scheduling. *)
Lemma StartSyncCloudProviderInfoTask_errors : forall self range parent s e s',
  Cloudprovider.StartSyncCloudProviderInfoTask self range parent s = (inl e, s') ->
  (e = Wrap (ErrStorage "NewTask") "NewTask" /\ sync_rows s' = sync_rows s)
  \/ e = ErrStorage "ScheduleRun".
Proof.
  intros self range parent s e s'.
  unfold Cloudprovider.StartSyncCloudProviderInfoTask, catch at 1, taskman.NewTask.
  unfold bind at 1, db_call.
  destruct (faults s) as [|[|] fs].
  - unfold bind, get, modify, ret, catch, LogEvent, modify, taskman.ScheduleRun, bind, db_call.
    repeat match goal with
           | |- context [match ?m ?x with (_, _) => _ end] => destruct (m x) as [[?|?] ?]
           | |- context [let (_, _) := ?m ?x in _] => destruct (m x) as [[?|?] ?]
           end; simpl;
    repeat match goal with
           | |- context [faults ?x] => destruct (faults x) as [|[|] ?]
           end; intros H; inversion H; auto.
  - intros H; inversion H; subst. left; split; reflexivity.
  - unfold bind, get, modify, ret, catch, LogEvent, modify, taskman.ScheduleRun, bind, db_call.
    repeat match goal with
           | |- context [match ?m ?x with (_, _) => _ end] => destruct (m x) as [[?|?] ?]
           | |- context [let (_, _) := ?m ?x in _] => destruct (m x) as [[?|?] ?]
           end; simpl;
    repeat match goal with
           | |- context [faults ?x] => destruct (faults x) as [|[|] ?]
           end; intros H; inversion H; auto.
Qed.

(** A sync request that [PerformSync] turns down leaves no trace: when it
    returns an error, no account, provider, binding, task or log row has
    changed, unless the error is that of scheduling the task that was
    already created. This holds whatever the request forces and whatever
    the database does. *)
Theorem PerformSync_refused_leaves_no_trace :
  forall (CanSync : SCloudprovider -> Store -> bool) (self : SCloudprovider)
         (input : SSyncRange) (s : Store) (e : error) (s' : Store),
    Cloudprovider.PerformSync CanSync self input s = (inl e, s') ->
    e = ErrStorage "ScheduleRun" \/ sync_rows s' = sync_rows s.
Proof.
  intros CanSync self input s e s'.
  unfold Cloudprovider.PerformSync.
  destruct (negb (Cloudprovider.GetEnabled self)).
  - intros H; inversion H; subst; right; reflexivity.
  - unfold catch at 1.
    pose proof (preserves_rows_GetCloudaccount self s) as P.
    destruct (Cloudprovider.GetCloudaccount self s) as [[err|account] s1]; simpl in P.
    + intros H; inversion H; subst; right; exact P.
    + destruct (negb (ca_Enabled account)).
      * intros H; inversion H; subst; right; exact P.
      * unfold bind at 1, get.
        destruct (CanSync self s1 || Force (Cloudprovider.PerformSync_range input)).
        -- intros H. apply StartSyncCloudProviderInfoTask_errors in H.
           destruct H as [[_ H]|H]; [right; congruence | left; exact H].
        -- intros H; inversion H; subst; right; exact P.
Qed.

Lemma PerformSync_refused_leaves_no_trace_witness :
  InvalidStatusError "Cloudprovider disabled" = ErrStorage "ScheduleRun"
  \/ sync_rows (Examples.store_of [Examples.provider_disabled] []) 
     = sync_rows (Examples.store_of [Examples.provider_disabled] []).
Proof.
  exact (PerformSync_refused_leaves_no_trace Examples.never_CanSync Examples.provider_disabled
           Examples.request_forced (Examples.store_of [Examples.provider_disabled] [])
           (InvalidStatusError "Cloudprovider disabled")
           (Examples.store_of [Examples.provider_disabled] []) eq_refl).
Defined.

Lemma FetchCloudproviderById_reliable : forall providerId s,
  reliable s ->
  CloudproviderManager.FetchCloudproviderById providerId s
  = (inr (find_row (fun r => String.eqb (Id r) providerId) (cloudproviders_tbl s)), s).
Proof.
  intros providerId s R.
  unfold CloudproviderManager.FetchCloudproviderById, catch, FetchById, bind, get.
  rewrite (db_call_reliable _ _ R).
  destruct (find_row _ _); reflexivity.
Qed.

(** [IsProviderAccountEnabled] and the checks of [PerformSync] agree: for a
    stored provider (with no database call failing), [PerformSync] goes on
    to the admission of the request exactly when [IsProviderAccountEnabled]
    says true; when it says false the request is refused, forced or not,
    and the store is as it was. *)
Theorem IsProviderAccountEnabled_is_PerformSync_precondition :
  forall (CanSync : SCloudprovider -> Store -> bool) (self : SCloudprovider)
         (input : SSyncRange) (s : Store),
    reliable s ->
    Id self <> "" ->
    find_row (fun r => String.eqb (Id r) (Id self)) (cloudproviders_tbl s) = Some self ->
    exists b,
      CloudproviderManager.IsProviderAccountEnabled (Id self) s = (inr b, s)
      /\ (b = true ->
          Cloudprovider.PerformSync CanSync self input s
          = if CanSync self s || Force input
            then Cloudprovider.StartSyncCloudProviderInfoTask
                   self (Some (Cloudprovider.PerformSync_range input)) "" s
            else (inl (InvalidStatusError "Unable to synchronize frequently"), s))
      /\ (b = false ->
          exists e, Cloudprovider.PerformSync CanSync self input s = (inl e, s)
                    /\ e <> InvalidStatusError "Unable to synchronize frequently").
Proof.
  intros CanSync self input s R Hid Hrow.
  unfold CloudproviderManager.IsProviderAccountEnabled.
  destruct (Id self) as [|c id'] eqn:Eid; [contradiction|]. rewrite <- Eid in *.
  replace (Nat.eqb (String.length (Id self)) 0) with false by now rewrite Eid.
  unfold CloudproviderManager.Manager_IsProviderAccountEnabled, bind.
  rewrite (FetchCloudproviderById_reliable _ _ R), Hrow.
  unfold Cloudprovider.PerformSync.
  destruct (Cloudprovider.GetEnabled self) eqn:He; simpl.
  - unfold catch. rewrite (GetCloudaccount_reliable self s R).
    destruct (account_of self s) as [account|].
    + exists (ca_Enabled account); split; [reflexivity|]. unfold ret.
      destruct (ca_Enabled account); simpl; split; intros H; try discriminate.
      * unfold bind, get. rewrite Force_PerformSync_range.
        destruct (CanSync self s || Force input); reflexivity.
      * eexists; split; [reflexivity | discriminate].
    + exists false; split; [reflexivity|]; split; intros H; try discriminate.
      eexists; split; [reflexivity | discriminate].
  - exists false; split; [reflexivity|]; split; intros H; try discriminate.
    eexists; split; [reflexivity | discriminate].
Qed.

Lemma IsProviderAccountEnabled_is_PerformSync_precondition_witness :
  exists b,
    CloudproviderManager.IsProviderAccountEnabled "p1" Examples.store_quiet
    = (inr b, Examples.store_quiet)
    /\ (b = true ->
        Cloudprovider.PerformSync Examples.never_CanSync Examples.provider_idle
          Examples.request_plain Examples.store_quiet
        = (inl (InvalidStatusError "Unable to synchronize frequently"), Examples.store_quiet))
    /\ (b = false ->
        exists e, Cloudprovider.PerformSync Examples.never_CanSync Examples.provider_idle
                    Examples.request_plain Examples.store_quiet
                  = (inl e, Examples.store_quiet)
                  /\ e <> InvalidStatusError "Unable to synchronize frequently").
Proof.
  refine (IsProviderAccountEnabled_is_PerformSync_precondition Examples.never_CanSync
            Examples.provider_idle Examples.request_plain Examples.store_quiet eq_refl _ eq_refl).
  discriminate.
Defined.

(** The scopes [PerformSync] turns into deep syncs are exactly those for
    which [NeedSyncInfo] holds, the test [OnCloudaccountSyncReady] skips
    the sync on; deepening a scope does not change that test; and a scope
    for which it fails names no resource, so that every resource kind passes
    [NeedSyncResource]. *)
Theorem PerformSync_deepens_what_NeedSyncInfo_accepts :
  forall (input : SSyncRange),
    Cloudprovider.PerformSync_range input
    = (if SyncRange.NeedSyncInfo input then set_DeepSync true input else input)
    /\ SyncRange.NeedSyncInfo (Cloudprovider.PerformSync_range input)
       = SyncRange.NeedSyncInfo input
    /\ (SyncRange.NeedSyncInfo input = false ->
        forall res, SyncRange.NeedSyncResource input res = true).
Proof.
  intros [f fs d rs zs hs res].
  unfold Cloudprovider.PerformSync_range, SyncRange.NeedSyncInfo, SyncRange.NeedSyncResource;
    simpl.
  destruct fs; simpl; [repeat split; discriminate|].
  destruct rs, zs, hs, res; simpl; repeat split; try discriminate; reflexivity.
Qed.

(** ** Cloudproviders: the start of a sync *)

Lemma start_row_step : forall range c rest r,
  start_row range rest
    (if Cloudproviderregion.same_row c r && cpr_Enabled c
        && Cloudproviderregion.in_scope c range
     then Cloudproviderregion.set_SyncStatus CLOUD_PROVIDER_SYNC_STATUS_QUEUING r else r)
  = start_row range (c :: rest) r.
Proof.
  intros range c rest r. unfold start_row; simpl.
  destruct (Cloudproviderregion.same_row c r && cpr_Enabled c
            && Cloudproviderregion.in_scope c range); simpl; [|reflexivity].
  change (existsb (fun c0 => Cloudproviderregion.same_row c0
                     (Cloudproviderregion.set_SyncStatus CLOUD_PROVIDER_SYNC_STATUS_QUEUING r)
                   && cpr_Enabled c0 && Cloudproviderregion.in_scope c0 range) rest)
    with (existsb (fun c0 => Cloudproviderregion.same_row c0 r && cpr_Enabled c0
                             && Cloudproviderregion.in_scope c0 range) rest).
  destruct (existsb _ rest); reflexivity.
Qed.

(** The loop of [markStartSync] and [markStartingSync] over the bindings
    [l], when no database call fails. *)
Lemma start_loop : forall range msg l s,
  reliable s ->
  Cloudprovider.for_each_cpr
    (fun c => if cpr_Enabled c then Cloudproviderregion.markStartingSync c range else ret c)
    msg l s
  = (inr tt,
     set_cloudproviderregions (map (start_row range l) (cloudproviderregions_tbl s)) s).
Proof.
  intros range msg l; induction l as [|c rest IH]; intros s R; simpl.
  - unfold ret. f_equal. rewrite <- (set_cloudproviderregions_same s) at 1.
    f_equal. symmetry. rewrite <- (map_id (cloudproviderregions_tbl s)) at 2.
    apply map_ext; intros r; reflexivity.
  - unfold catch, Cloudproviderregion.markStartingSync.
    destruct (cpr_Enabled c) eqn:Ee; simpl.
    + destruct (Cloudproviderregion.in_scope c range) eqn:Es; simpl.
      * unfold Cloudproviderregion.Update, bind, modify, ret.
        rewrite (db_call_reliable _ _ R).
        rewrite IH by exact R. simpl. f_equal. unfold set_cloudproviderregions; simpl.
        f_equal. unfold update_rows. rewrite map_map. apply map_ext; intros r.
        rewrite <- start_row_step. rewrite Ee, Es, !andb_true_r. reflexivity.
      * unfold ret. rewrite IH by exact R. f_equal. f_equal.
        apply map_ext; intros r. rewrite <- start_row_step. rewrite Es, andb_false_r.
        reflexivity.
    + unfold ret. rewrite IH by exact R. f_equal. f_equal.
      apply map_ext; intros r. rewrite <- start_row_step. rewrite Ee, andb_false_r.
      reflexivity.
Qed.

Lemma GetCloudproviderRegions_reliable : forall self s,
  reliable s ->
  Cloudprovider.GetCloudproviderRegions self s = (inr (bindings_of self s), s).
Proof.
  intros self s R. unfold Cloudprovider.GetCloudproviderRegions, catch, bind, get, ret.
  rewrite (db_call_reliable _ _ R). reflexivity.
Qed.

Lemma markStartSync_reliable : forall self range s,
  reliable s ->
  Cloudprovider.markStartSync self range s
  = (inr (Cloudprovider.set_SyncStatus CLOUD_PROVIDER_SYNC_STATUS_QUEUED self),
     set_cloudproviderregions
       (map (start_row range (bindings_of self s)) (cloudproviderregions_tbl s))
       (set_cloudproviders
          (update_rows (Cloudprovider.same_row self)
                       (Cloudprovider.set_SyncStatus CLOUD_PROVIDER_SYNC_STATUS_QUEUED)
                       (cloudproviders_tbl s)) s)).
Proof.
  intros self range s R.
  unfold Cloudprovider.markStartSync, catch, Cloudprovider.Update, bind at 1 2, modify, ret.
  rewrite (db_call_reliable _ _ R).
  set (s1 := set_cloudproviders _ s).
  assert (R1 : reliable s1) by exact R.
  unfold bind at 1. rewrite (GetCloudproviderRegions_reliable _ s1 R1).
  unfold bind. rewrite (start_loop _ _ _ s1 R1). reflexivity.
Qed.

Lemma markStartingSync_reliable : forall self range s,
  reliable s ->
  Cloudprovider.markStartingSync self range s
  = (inr (Cloudprovider.set_SyncStatus CLOUD_PROVIDER_SYNC_STATUS_QUEUING self),
     set_cloudproviderregions
       (map (start_row range (bindings_of self s)) (cloudproviderregions_tbl s))
       (set_cloudproviders
          (update_rows (Cloudprovider.same_row self)
                       (Cloudprovider.set_SyncStatus CLOUD_PROVIDER_SYNC_STATUS_QUEUING)
                       (cloudproviders_tbl s)) s)).
Proof.
  intros self range s R.
  unfold Cloudprovider.markStartingSync, catch, Cloudprovider.Update, bind at 1 2, modify, ret.
  rewrite (db_call_reliable _ _ R).
  set (s1 := set_cloudproviders _ s).
  assert (R1 : reliable s1) by exact R.
  unfold bind at 1. rewrite (GetCloudproviderRegions_reliable _ s1 R1).
  unfold bind. rewrite (start_loop _ _ _ s1 R1). reflexivity.
Qed.

Lemma same_row_child : forall self c r,
  Cloudprovider.is_child self c = true ->
  Cloudproviderregion.same_row c r = true ->
  Cloudprovider.is_child self r = true.
Proof.
  intros self c r Hc Hs. unfold Cloudprovider.is_child, Cloudproviderregion.same_row in *.
  apply andb_true_iff in Hs; destruct Hs as [Hs _].
  apply String.eqb_eq in Hc, Hs. apply String.eqb_eq. congruence.
Qed.

Lemma start_row_other : forall range self l r,
  Cloudprovider.is_child self r = false ->
  start_row range (filter (Cloudprovider.is_child self) l) r = r.
Proof.
  intros range self l r Hr. unfold start_row.
  replace (existsb _ _) with false; [reflexivity|].
  symmetry. apply not_true_is_false; intros H.
  apply existsb_exists in H; destruct H as (c & Hin & Hc).
  apply filter_In in Hin; destruct Hin as [_ Hch].
  apply andb_true_iff in Hc; destruct Hc as [Hc _].
  apply andb_true_iff in Hc; destruct Hc as [Hs _].
  rewrite (same_row_child self c r Hch Hs) in Hr; discriminate.
Qed.

(** Two bindings with the same keys are within the same scopes. *)
Lemma in_scope_same_row : forall range c r,
  Cloudproviderregion.same_row c r = true ->
  Cloudproviderregion.in_scope c range = Cloudproviderregion.in_scope r range.
Proof.
  intros range c r Hs. unfold Cloudproviderregion.same_row in Hs.
  apply andb_true_iff in Hs; destruct Hs as [_ Hs]. apply String.eqb_eq in Hs.
  unfold Cloudproviderregion.in_scope. rewrite Hs. reflexivity.
Qed.

Lemma start_row_out_of_scope : forall range l r,
  Cloudproviderregion.in_scope r range = false ->
  start_row range l r = r.
Proof.
  intros range l r Hr. unfold start_row.
  replace (existsb _ _) with false; [reflexivity|].
  symmetry. apply not_true_is_false; intros H.
  apply existsb_exists in H; destruct H as (c & _ & Hc).
  apply andb_true_iff in Hc; destruct Hc as [Hc Hin].
  apply andb_true_iff in Hc; destruct Hc as [Hs _].
  rewrite (in_scope_same_row range c r Hs) in Hin. congruence.
Qed.

Lemma start_row_enabled : forall range self l r,
  In r l -> Cloudprovider.is_child self r = true -> cpr_Enabled r = true ->
  Cloudproviderregion.in_scope r range = true ->
  start_row range (filter (Cloudprovider.is_child self) l) r
  = Cloudproviderregion.set_SyncStatus CLOUD_PROVIDER_SYNC_STATUS_QUEUING r.
Proof.
  intros range self l r Hin Hc He Hsc. unfold start_row.
  replace (existsb _ _) with true; [reflexivity|].
  symmetry; apply existsb_exists. exists r; split.
  - apply filter_In; auto.
  - rewrite same_row_refl, He, Hsc; reflexivity.
Qed.

(** What [StartSyncCloudProviderInfoTask] leaves when no database call
    fails. *)
Lemma StartSyncCloudProviderInfoTask_reliable :
  forall (self : SCloudprovider) (range : option SSyncRange) (parent : string) (s : Store),
    reliable s ->
    exists s',
      Cloudprovider.StartSyncCloudProviderInfoTask self range parent s = (inr tt, s')
      /\ reliable s'
      /\ cloudproviders_tbl s'
         = update_rows (Cloudprovider.same_row self)
                       (Cloudprovider.set_SyncStatus CLOUD_PROVIDER_SYNC_STATUS_QUEUED)
                       (cloudproviders_tbl s)
      /\ cloudproviderregions_tbl s'
         = map (start_row range (bindings_of self s)) (cloudproviderregions_tbl s)
      /\ cloudaccounts_tbl s'
         = match account_of self s with
           | Some a =>
               update_rows (fun r => String.eqb (ca_Id r) (ca_Id a))
                           (Cloudaccount.set_sync CLOUD_PROVIDER_SYNC_STATUS_SYNCING
                                                  (now s) time_zero)
                           (cloudaccounts_tbl s)
           | None => cloudaccounts_tbl s
           end
      /\ opslogs s' = opslogs s ++ [mkOpsLog (Id self) ACT_SYNC_HOST_START]
      /\ tasks_tbl s'
         = update_rows (fun t => Nat.eqb (task_Id t) (length (tasks_tbl s))) taskman.set_Scheduled
             (tasks_tbl s
              ++ [mkTask (length (tasks_tbl s)) "CloudProviderSyncInfoTask" (Id self) range
                         parent false]).
Proof.
  intros self range parent s R.
  unfold Cloudprovider.StartSyncCloudProviderInfoTask, catch at 1.
  rewrite (NewTask_reliable _ _ _ _ _ R).
  set (task := mkTask (length (tasks_tbl s)) _ _ _ _ false).
  set (s1 := set_tasks (tasks_tbl s ++ [task]) s).
  assert (R1 : reliable s1) by exact R.
  unfold bind at 1, catch at 1.
  rewrite (GetCloudaccount_reliable _ _ R1).
  change (account_of self s1) with (account_of self s).
  assert (Hend : forall s2, reliable s2 ->
            cloudproviders_tbl s2 = cloudproviders_tbl s ->
            cloudproviderregions_tbl s2 = cloudproviderregions_tbl s ->
            opslogs s2 = opslogs s ->
            tasks_tbl s2 = tasks_tbl s ++ [task] ->
            exists s',
              (catch (Cloudprovider.markStartSync self range) (fun _ => ret tt) ;;;
               LogEvent (Id self) ACT_SYNC_HOST_START ;;;
               taskman.ScheduleRun task) s2 = (inr tt, s')
              /\ reliable s'
              /\ cloudproviders_tbl s'
                 = update_rows (Cloudprovider.same_row self)
                     (Cloudprovider.set_SyncStatus CLOUD_PROVIDER_SYNC_STATUS_QUEUED)
                     (cloudproviders_tbl s)
              /\ cloudproviderregions_tbl s'
                 = map (start_row range (bindings_of self s)) (cloudproviderregions_tbl s)
              /\ cloudaccounts_tbl s' = cloudaccounts_tbl s2
              /\ opslogs s' = opslogs s ++ [mkOpsLog (Id self) ACT_SYNC_HOST_START]
              /\ tasks_tbl s'
                 = update_rows (fun t => Nat.eqb (task_Id t) (length (tasks_tbl s)))
                     taskman.set_Scheduled (tasks_tbl s ++ [task])).
  { intros s2 R2 Hp Hc Ho Ht.
    unfold bind at 1, catch at 1. rewrite (markStartSync_reliable _ _ _ R2).
    unfold ret at 1. unfold bind, LogEvent, modify, taskman.ScheduleRun, bind, modify.
    rewrite db_call_reliable by exact R2.
    eexists; split; [reflexivity|]; simpl.
    unfold bindings_of. rewrite Hp, Hc, Ho, Ht. repeat split. exact R2. }
  destruct (account_of self s) as [account|].
  - unfold catch at 1, Cloudaccount.MarkSyncing, bind at 1 2 3, UtcNow, Cloudaccount.Update,
      bind at 1 2, modify, ret at 1 2.
    rewrite (db_call_reliable _ _ R1).
    set (s2 := set_cloudaccounts _ s1).
    destruct (Hend s2 R eq_refl eq_refl eq_refl eq_refl) as (s' & E & R' & Hp & Hc & Ha & Ho & Ht).
    exists s'; split; [exact E|]. rewrite Ha. repeat split; auto.
  - unfold ret at 1.
    destruct (Hend s1 R eq_refl eq_refl eq_refl eq_refl) as (s' & E & R' & Hp & Hc & Ha & Ho & Ht).
    exists s'; split; [exact E|]. rewrite Ha. repeat split; auto.
Qed.

(** With every database call going through, [StartSyncCloudProviderInfoTask]
    marks the account of the provider syncing (last sync now, no last end)
    and the provider queued, logs the start, and marks queuing the bindings
    of the provider that are enabled and within the scope of the request; a
    binding outside the scope and a binding of another provider are left as
    they are. *)
Theorem StartSyncCloudProviderInfoTask_marks :
  forall (self : SCloudprovider) (range : option SSyncRange) (parent : string) (s : Store),
    reliable s ->
    exists s',
      Cloudprovider.StartSyncCloudProviderInfoTask self range parent s = (inr tt, s')
      /\ cloudproviders_tbl s'
         = update_rows (Cloudprovider.same_row self)
                       (Cloudprovider.set_SyncStatus CLOUD_PROVIDER_SYNC_STATUS_QUEUED)
                       (cloudproviders_tbl s)
      /\ cloudproviderregions_tbl s'
         = map (start_row range (bindings_of self s)) (cloudproviderregions_tbl s)
      /\ cloudaccounts_tbl s'
         = match account_of self s with
           | Some a =>
               update_rows (fun r => String.eqb (ca_Id r) (ca_Id a))
                           (Cloudaccount.set_sync CLOUD_PROVIDER_SYNC_STATUS_SYNCING
                                                  (now s) time_zero)
                           (cloudaccounts_tbl s)
           | None => cloudaccounts_tbl s
           end
      /\ opslogs s' = opslogs s ++ [mkOpsLog (Id self) ACT_SYNC_HOST_START]
      /\ forall r, In r (cloudproviderregions_tbl s) ->
           (Cloudprovider.is_child self r = false ->
            start_row range (bindings_of self s) r = r)
           /\ (Cloudproviderregion.in_scope r range = false ->
               start_row range (bindings_of self s) r = r)
           /\ (Cloudprovider.is_child self r = true -> cpr_Enabled r = true ->
               Cloudproviderregion.in_scope r range = true ->
               start_row range (bindings_of self s) r
               = Cloudproviderregion.set_SyncStatus CLOUD_PROVIDER_SYNC_STATUS_QUEUING r).
Proof.
  intros self range parent s R.
  destruct (StartSyncCloudProviderInfoTask_reliable self range parent s R)
    as (s' & E & _ & Hp & Hc & Ha & Ho & _).
  exists s'; repeat split; auto.
  - apply start_row_other; assumption.
  - apply start_row_out_of_scope; assumption.
  - apply start_row_enabled; assumption.
Qed.

Lemma StartSyncCloudProviderInfoTask_marks_witness :
  exists s',
    Cloudprovider.StartSyncCloudProviderInfoTask Examples.provider_syncing
      (Some (SyncRange.set_Region ["r1"] Examples.request_plain)) "" Examples.store_done
    = (inr tt, s')
    /\ cloudproviders_tbl s'
       = [Cloudprovider.set_SyncStatus CLOUD_PROVIDER_SYNC_STATUS_QUEUED
            Examples.provider_syncing]
    /\ cloudproviderregions_tbl s'
       = [Examples.cpr "r1" CLOUD_PROVIDER_SYNC_STATUS_QUEUING;
          Examples.cpr "r2" CLOUD_PROVIDER_SYNC_STATUS_IDLE].
Proof.
  destruct (StartSyncCloudProviderInfoTask_marks Examples.provider_syncing
              (Some (SyncRange.set_Region ["r1"] Examples.request_plain)) ""
              Examples.store_done eq_refl) as (s' & E & Hp & Hc & _).
  exists s'; split; [exact E | split; [exact Hp | exact Hc]].
Defined.

(** ** Cloudproviders: a start that is cancelled *)

Lemma store_ext : forall a b : Store,
  cloudaccounts_tbl a = cloudaccounts_tbl b ->
  cloudproviders_tbl a = cloudproviders_tbl b ->
  cloudproviderregions_tbl a = cloudproviderregions_tbl b ->
  cloudregions_tbl a = cloudregions_tbl b ->
  zones_tbl a = zones_tbl b ->
  hosts_tbl a = hosts_tbl b ->
  wires_tbl a = wires_tbl b ->
  storages_tbl a = storages_tbl b ->
  tasks_tbl a = tasks_tbl b ->
  opslogs a = opslogs b ->
  now a = now b ->
  faults a = faults b ->
  a = b.
Proof. intros [] []; simpl; intros; subst; reflexivity. Qed.

Lemma same_row_trans : forall a b c,
  Cloudproviderregion.same_row a b = true -> Cloudproviderregion.same_row b c = true ->
  Cloudproviderregion.same_row a c = true.
Proof.
  intros a b c H1 H2. unfold Cloudproviderregion.same_row in *.
  apply andb_true_iff in H1, H2. destruct H1 as [H1 H1'], H2 as [H2 H2'].
  apply String.eqb_eq in H1, H1', H2, H2'.
  apply andb_true_iff; split; apply String.eqb_eq; congruence.
Qed.

Lemma start_row_keys : forall range l r,
  cpr_CloudproviderId (start_row range l r) = cpr_CloudproviderId r
  /\ cpr_CloudregionId (start_row range l r) = cpr_CloudregionId r.
Proof. intros range l r; unfold start_row; destruct (existsb _ l); split; reflexivity. Qed.

(** Starting the idle bindings of a provider and cancelling the start
    leaves every binding as it was. *)
Lemma start_then_cancel_row : forall range self l r,
  (forall c, In c l -> Cloudprovider.is_child self c = true ->
             cpr_SyncStatus c = CLOUD_PROVIDER_SYNC_STATUS_IDLE) ->
  In r l ->
  cancel_row (filter (Cloudprovider.is_child self)
                     (map (start_row range (filter (Cloudprovider.is_child self) l)) l))
             (start_row range (filter (Cloudprovider.is_child self) l) r)
  = r.
Proof.
  intros range self l r Hidle Hin.
  set (ch := filter (Cloudprovider.is_child self) l).
  destruct (Cloudprovider.is_child self r) eqn:Hc.
  - pose proof (Hidle r Hin Hc) as Hr.
    unfold start_row at 2.
    destruct (existsb (fun c => Cloudproviderregion.same_row c r && cpr_Enabled c
                                && Cloudproviderregion.in_scope c range) ch) eqn:Hs.
    + rewrite (cancel_row_queuing self).
      * destruct r; simpl in *; subst; reflexivity.
      * apply in_map_iff. exists r; split; [|exact Hin].
        unfold start_row; fold ch; rewrite Hs; reflexivity.
      * exact Hc.
      * reflexivity.
    + unfold cancel_row.
      replace (existsb _ _) with false; [reflexivity|].
      symmetry. apply not_true_is_false; intros H.
      apply existsb_exists in H; destruct H as (c & Hcin & Hcq).
      apply filter_In in Hcin; destruct Hcin as [Hcin Hcc].
      apply in_map_iff in Hcin; destruct Hcin as (c0 & <- & Hc0).
      apply andb_true_iff in Hcq; destruct Hcq as [Hsame Hq].
      apply status_eqb_eq in Hq.
      assert (Hc0c : Cloudprovider.is_child self c0 = true).
      { unfold Cloudprovider.is_child in *.
        destruct (start_row_keys range ch c0) as [<- _]; exact Hcc. }
      assert (Hsame0 : Cloudproviderregion.same_row c0 r = true).
      { unfold Cloudproviderregion.same_row in *.
        destruct (start_row_keys range ch c0) as [<- <-]; exact Hsame. }
      unfold start_row in Hq.
      destruct (existsb (fun c => Cloudproviderregion.same_row c c0 && cpr_Enabled c
                                  && Cloudproviderregion.in_scope c range) ch) eqn:Hs0.
      * apply existsb_exists in Hs0; destruct Hs0 as (c1 & Hc1 & Hp).
        apply andb_true_iff in Hp; destruct Hp as [Hp Hi1].
        apply andb_true_iff in Hp; destruct Hp as [Hs1 He1].
        assert (Ht : existsb (fun c => Cloudproviderregion.same_row c r && cpr_Enabled c
                                       && Cloudproviderregion.in_scope c range) ch = true).
        { apply existsb_exists. exists c1; split; [exact Hc1|].
          rewrite (same_row_trans c1 c0 r Hs1 Hsame0), He1, Hi1; reflexivity. }
        congruence.
      * rewrite (Hidle c0 Hc0 Hc0c) in Hq; discriminate.
  - subst ch. rewrite (start_row_other range self l r Hc). apply cancel_row_other; exact Hc.
Qed.

(** A start that is cancelled leaves no trace: on an idle provider whose
    rows and bindings are idle (with every database call going through),
    [markStartingSync] followed by [cancelStartingSync] gives back the
    provider and the store as they were. *)
Theorem markStartingSync_then_cancelStartingSync :
  forall (self : SCloudprovider) (range : option SSyncRange) (s : Store),
    reliable s ->
    SyncStatus self = CLOUD_PROVIDER_SYNC_STATUS_IDLE ->
    rows_idle self s ->
    regions_idle self s = true ->
    (self' <- Cloudprovider.markStartingSync self range ;;
     Cloudprovider.cancelStartingSync self') s
    = (inr self, s).
Proof.
  intros self range s R Hi Hrows Hreg.
  unfold bind at 1. rewrite (markStartingSync_reliable self range s R).
  set (self1 := Cloudprovider.set_SyncStatus CLOUD_PROVIDER_SYNC_STATUS_QUEUING self).
  set (s1 := set_cloudproviderregions _ _).
  assert (R1 : reliable s1) by exact R.
  unfold Cloudprovider.cancelStartingSync.
  change (status_eqb (SyncStatus self1) CLOUD_PROVIDER_SYNC_STATUS_QUEUING) with true.
  cbv iota.
  unfold bind at 1. rewrite (GetCloudproviderRegions_reliable self1 s1 R1).
  unfold bind at 1. rewrite (cancel_loop _ _ s1 R1).
  unfold catch, Cloudprovider.Update, bind, modify, ret.
  rewrite db_call_reliable by exact R1.
  f_equal.
  - f_equal. unfold self1. destruct self; simpl in *; subst; reflexivity.
  - assert (Hp : update_rows (Cloudprovider.same_row self1)
                   (Cloudprovider.set_SyncStatus CLOUD_PROVIDER_SYNC_STATUS_IDLE)
                   (update_rows (Cloudprovider.same_row self)
                      (Cloudprovider.set_SyncStatus CLOUD_PROVIDER_SYNC_STATUS_QUEUING)
                      (cloudproviders_tbl s))
                 = cloudproviders_tbl s).
    { unfold update_rows. rewrite map_map.
      transitivity (map (fun r => r) (cloudproviders_tbl s)); [|apply map_id].
      apply map_ext_in; intros r Hin.
      destruct (Cloudprovider.same_row self r) eqn:Es.
      - change (Cloudprovider.same_row self1
                  (Cloudprovider.set_SyncStatus CLOUD_PROVIDER_SYNC_STATUS_QUEUING r))
          with (Cloudprovider.same_row self r). rewrite Es.
        pose proof (Hrows r Hin Es) as Hr. destruct r; simpl in *; subst; reflexivity.
      - change (Cloudprovider.same_row self1 r) with (Cloudprovider.same_row self r).
        rewrite Es; reflexivity. }
    assert (Hc : map (cancel_row (bindings_of self1 s1))
                     (map (start_row range (bindings_of self s)) (cloudproviderregions_tbl s))
                 = cloudproviderregions_tbl s).
    { rewrite map_map.
      transitivity (map (fun r => r) (cloudproviderregions_tbl s)); [|apply map_id].
      apply map_ext_in; intros r Hin.
      apply (start_then_cancel_row range self (cloudproviderregions_tbl s) r); [|exact Hin].
      intros c Hcin Hcc. unfold regions_idle in Hreg.
      rewrite forallb_forall in Hreg. specialize (Hreg c Hcin). rewrite Hcc in Hreg.
      apply status_eqb_eq; exact Hreg. }
    apply store_ext; try reflexivity; [exact Hp | exact Hc].
Qed.

Lemma markStartingSync_then_cancelStartingSync_witness :
  (self' <- Cloudprovider.markStartingSync Examples.provider_idle None ;;
   Cloudprovider.cancelStartingSync self') Examples.store_quiet
  = (inr Examples.provider_idle, Examples.store_quiet).
Proof.
  apply (markStartingSync_then_cancelStartingSync Examples.provider_idle None
           Examples.store_quiet eq_refl eq_refl).
  - intros r [<-|[]] _; reflexivity.
  - reflexivity.
Defined.

(** ** Cloudproviders: the fan-out of a sync over the regions *)

Lemma markSyncing_reliable : forall self s,
  reliable s ->
  Cloudprovider.markSyncing self s = (inr (mark_syncing (now s) self), syncing_store self s).
Proof.
  intros self s R. unfold Cloudprovider.markSyncing, bind, UtcNow, Cloudprovider.Update, bind,
    modify, ret.
  rewrite (db_call_reliable _ _ R). reflexivity.
Qed.

Lemma scan_rows_reliable : forall rows acc s,
  reliable s -> SyncRangeQuery.scan_rows rows acc s = (inr (acc ++ rows), s).
Proof.
  intros rows; induction rows as [|x rows IH]; intros acc s R; simpl.
  - unfold ret. now rewrite app_nil_r.
  - unfold catch. rewrite (db_call_reliable _ _ R), (IH _ _ R).
    now rewrite <- app_assoc.
Qed.

Lemma GetRegionIds_reliable : forall sr s,
  reliable s ->
  SyncRangeQuery.GetRegionIds sr s
  = (inr (if Nat.eqb (length (Host sr)) 0 && Nat.eqb (length (Zone sr)) 0
             && Nat.eqb (length (Region sr)) 0
          then []
          else map cr_Id (SyncRangeQuery.regions_named sr s)), s).
Proof.
  intros sr s R. unfold SyncRangeQuery.GetRegionIds.
  destruct (_ && _); [reflexivity|].
  unfold catch, bind, get. rewrite (db_call_reliable _ _ R).
  apply (scan_rows_reliable _ [] s R).
Qed.

Lemma submit_loop_none :
  forall (cpr_CanSync : SCloudproviderregion -> Store -> bool)
         (submitSyncTask : SCloudproviderregion -> SSyncRange -> Store -> Store)
         cprs regionIds syncRange n s,
    (forall c, In c cprs -> cpr_Enabled c && cpr_CanSync c s = false) ->
    CloudproviderRegions.submit_loop cpr_CanSync submitSyncTask cprs regionIds syncRange n s
    = (n, s).
Proof.
  intros CanSync submit cprs ids sr n s; induction cprs as [|c rest IH]; intros H; simpl.
  - reflexivity.
  - rewrite (H c (or_introl eq_refl)); simpl. apply IH; intros; apply H; right; assumption.
Qed.

Lemma siblings_idle_syncing : forall self account t l,
  forallb (fun p => Cloudprovider.same_row self p
                    || negb (String.eqb (CloudaccountId p) (ca_Id account))
                    || is_idle (SyncStatus p))
          (update_rows (Cloudprovider.same_row self) (mark_syncing t) l)
  = forallb (fun p => Cloudprovider.same_row self p
                      || negb (String.eqb (CloudaccountId p) (ca_Id account))
                      || is_idle (SyncStatus p)) l.
Proof.
  intros self account t l; induction l as [|p l IH]; simpl; [reflexivity|].
  rewrite IH. destruct (Cloudprovider.same_row self p) eqn:E; [|rewrite E; reflexivity].
  change (Cloudprovider.same_row self (mark_syncing t p)) with (Cloudprovider.same_row self p).
  rewrite E; reflexivity.
Qed.

(** A sync of a provider that has nothing to submit ends at once: when no
    binding of the provider is enabled and able to sync, and every binding is
    idle (with every database call going through), [syncCloudproviderRegions]
    leaves the rows of the provider idle, with the time as last sync and as
    last sync end, and, with the sibling providers idle, ends the sync of
    the account. *)
Theorem syncCloudproviderRegions_nothing_to_submit :
  forall (cpr_CanSync : SCloudproviderregion -> Store -> bool)
         (submitSyncTask : SCloudproviderregion -> SSyncRange -> Store -> Store)
         (provider : SCloudprovider) (syncRange : SSyncRange) (s : Store)
         (account : SCloudaccount),
    reliable s ->
    (forall c, In c (bindings_of provider s) ->
               cpr_Enabled c && cpr_CanSync c (syncing_store provider s) = false) ->
    regions_idle provider s = true ->
    account_of provider s = Some account ->
    let s' := CloudproviderRegions.syncCloudproviderRegions cpr_CanSync submitSyncTask
                provider syncRange s in
    cloudproviders_tbl s'
    = update_rows (Cloudprovider.same_row provider)
                  (fun r => end_sync (now s) (mark_syncing (now s) r))
                  (cloudproviders_tbl s)
    /\ (siblings_idle provider account s = true ->
        cloudaccounts_tbl s'
        = update_rows (fun r => String.eqb (ca_Id r) (ca_Id account))
                      (account_end_sync (now s)) (cloudaccounts_tbl s)).
Proof.
  intros CanSync submit provider sr s account R Hnone Hreg Hacc.
  unfold CloudproviderRegions.syncCloudproviderRegions.
  rewrite (markSyncing_reliable provider s R).
  set (p0 := mark_syncing (now s) provider).
  set (s0 := syncing_store provider s).
  assert (R0 : reliable s0) by exact R.
  rewrite (GetCloudproviderRegions_reliable p0 s0 R0).
  rewrite (GetRegionIds_reliable sr s0 R0).
  rewrite submit_loop_none by exact Hnone.
  simpl Nat.eqb. cbv iota.
  destruct (markEndSyncWithLock_completes p0 s0 account R0) as (s1 & E & Hp & Ha & _).
  - discriminate.
  - exact Hreg.
  - exact Hacc.
  - rewrite E; simpl. split.
    + rewrite Hp. unfold s0, syncing_store; simpl. unfold update_rows. rewrite map_map.
      apply map_ext; intros r.
      destruct (Cloudprovider.same_row provider r) eqn:Er.
      * change (Cloudprovider.same_row p0 (mark_syncing (now s) r))
          with (Cloudprovider.same_row provider r). rewrite Er; reflexivity.
      * change (Cloudprovider.same_row p0 r) with (Cloudprovider.same_row provider r).
        rewrite Er; reflexivity.
    + intros Hsib. apply Ha. unfold siblings_idle, s0, syncing_store; simpl.
      change (Cloudprovider.same_row p0) with (Cloudprovider.same_row provider).
      rewrite siblings_idle_syncing. exact Hsib.
Qed.

Lemma syncCloudproviderRegions_nothing_to_submit_witness :
  cloudproviders_tbl
    (CloudproviderRegions.syncCloudproviderRegions (fun _ _ => false) (fun _ _ s => s)
       Examples.provider_idle Examples.request_plain Examples.store_quiet)
  = [mkCloudprovider "p1" "provider-1" true CLOUD_PROVIDER_SYNC_STATUS_IDLE 100%Z 100%Z "a1"].
Proof.
  refine (proj1 (syncCloudproviderRegions_nothing_to_submit (fun _ _ => false) (fun _ _ s => s)
                   Examples.provider_idle Examples.request_plain Examples.store_quiet
                   Examples.account1 eq_refl _ eq_refl eq_refl)).
  intros c _; apply andb_false_r.
Defined.

(** ** Zones: usage, removal, update and creation *)

Lemma filter_length_le : forall A (p q : A -> bool) l,
  (forall a, p a = true -> q a = true) ->
  length (filter p l) <= length (filter q l).
Proof.
  intros A p q l H; induction l as [|a l IH]; simpl; [lia|].
  destruct (p a) eqn:Ep.
  - rewrite (H a Ep); simpl; lia.
  - destruct (q a); simpl; lia.
Qed.

Lemma count_rows_le : forall A (p q : A -> bool) l,
  (forall a, p a = true -> q a = true) ->
  (0 <= Zones.count_rows p l <= Zones.count_rows q l)%Z.
Proof.
  intros A p q l H. unfold Zones.count_rows.
  pose proof (filter_length_le A p q l H). lia.
Qed.

(** The host counts of a zone's usage are consistent: with the counts going
    through, the enabled hosts and the baremetal hosts are among the hosts,
    and the enabled baremetal hosts are among both. *)
Theorem GeneralUsage_host_counts_nested :
  forall (count_on_error : Z) (networkCount : SZone -> Store -> Z) (zone : SZone) (s : Store),
    reliable s ->
    exists usage,
      Zones.GeneralUsage count_on_error networkCount zone s = (inr usage, s)
      /\ (0 <= Zones.BaremetalsEnabled usage <= Zones.HostsEnabled usage)%Z
      /\ (Zones.BaremetalsEnabled usage <= Zones.Baremetals usage)%Z
      /\ (Zones.HostsEnabled usage <= Zones.Hosts usage)%Z
      /\ (Zones.Baremetals usage <= Zones.Hosts usage)%Z
      /\ (0 <= Zones.Wires usage)%Z /\ (0 <= Zones.Storages usage)%Z.
Proof.
  intros count_on_error networkCount zone s R.
  unfold Zones.GeneralUsage, Zones.HostCount, Zones.getWireCount, Zones.getStorageCount.
  do 5 (erewrite bind_ok; [|apply CountWithError_reliable; exact R]).
  erewrite bind_ok; [|apply getNetworkCount_reliable; exact R].
  erewrite bind_ok; [|apply CountWithError_reliable; exact R].
  eexists; split; [reflexivity|]. simpl.
  assert (Hsub : forall en bm en' bm' h,
            (en' = Zones.tristate_None \/ en' = en) ->
            (bm' = Zones.tristate_None \/ bm' = bm) ->
            Zones.HostCount_filter zone "" "" en "" bm h = true ->
            Zones.HostCount_filter zone "" "" en' "" bm' h = true).
  { intros en bm en' bm' h He Hb. unfold Zones.HostCount_filter; simpl.
    rewrite !andb_true_r. intros H.
    apply andb_true_iff in H; destruct H as [H Hbm].
    apply andb_true_iff in H; destruct H as [Hz Hen].
    rewrite Hz; simpl.
    destruct He as [-> | ->], Hb as [-> | ->]; simpl; rewrite ?Hen, ?Hbm; reflexivity. }
  pose proof (count_rows_le _ _ _ (hosts_tbl s)
                (fun h => Hsub Zones.tristate_True Zones.tristate_True
                               Zones.tristate_True Zones.tristate_None h
                               (or_intror eq_refl) (or_introl eq_refl))) as H1.
  pose proof (count_rows_le _ _ _ (hosts_tbl s)
                (fun h => Hsub Zones.tristate_True Zones.tristate_True
                               Zones.tristate_None Zones.tristate_True h
                               (or_introl eq_refl) (or_intror eq_refl))) as H2.
  pose proof (count_rows_le _ _ _ (hosts_tbl s)
                (fun h => Hsub Zones.tristate_True Zones.tristate_None
                               Zones.tristate_None Zones.tristate_None h
                               (or_introl eq_refl) (or_introl eq_refl))) as H3.
  pose proof (count_rows_le _ _ _ (hosts_tbl s)
                (fun h => Hsub Zones.tristate_None Zones.tristate_True
                               Zones.tristate_None Zones.tristate_None h
                               (or_introl eq_refl) (or_introl eq_refl))) as H4.
  unfold Zones.count_rows in *.
  repeat match goal with |- _ /\ _ => split end; lia.
Qed.

Lemma GeneralUsage_host_counts_nested_witness :
  exists usage,
    Zones.GeneralUsage ScenarioA.count_on_error ScenarioA.networkCount ScenarioA.zoneB
      ScenarioA.store_in_use = (inr usage, ScenarioA.store_in_use)
    /\ (0 <= Zones.BaremetalsEnabled usage <= Zones.HostsEnabled usage)%Z
    /\ (Zones.BaremetalsEnabled usage <= Zones.Baremetals usage)%Z
    /\ (Zones.HostsEnabled usage <= Zones.Hosts usage)%Z
    /\ (Zones.Baremetals usage <= Zones.Hosts usage)%Z
    /\ (0 <= Zones.Wires usage)%Z /\ (0 <= Zones.Storages usage)%Z.
Proof.
  exact (GeneralUsage_host_counts_nested ScenarioA.count_on_error ScenarioA.networkCount
           ScenarioA.zoneB ScenarioA.store_in_use eq_refl).
Defined.

(** A zone that nothing hangs on and that passes the check of its base type
    is removed (with every database call going through): its row is gone, a
    lookup of its id finds no row, and every other zone is still there. *)
Theorem syncRemoveCloudZone_removes :
  forall (count_on_error : Z) (networkCount : SZone -> Store -> Z)
         (base : SZone -> Store -> option error) (zone : SZone) (s : Store),
    reliable s ->
    in_use networkCount zone s = false ->
    base zone s = None ->
    exists s',
      Zones.syncRemoveCloudZone count_on_error networkCount base zone s = (inr tt, s')
      /\ zones_tbl s'
         = filter (fun r => negb (String.eqb (z_Id r) (z_Id zone))) (zones_tbl s)
      /\ FetchById "FetchById" z_Id zones_tbl (z_Id zone) s' = (inl ErrNoRows, s')
      /\ forall z, In z (zones_tbl s) -> z_Id z <> z_Id zone -> In z (zones_tbl s').
Proof.
  intros count_on_error networkCount base zone s R Hu Hb.
  destruct (GeneralUsage_reliable count_on_error networkCount zone s R)
    as (usage & E & Hh & Hw & Hn & Hs).
  assert (He : Zones.IsEmpty usage = true).
  { unfold Zones.IsEmpty. rewrite Hh, Hw, Hn, Hs. unfold in_use in Hu.
    apply orb_false_iff in Hu; destruct Hu as [Hu H4].
    apply orb_false_iff in Hu; destruct Hu as [Hu H3].
    apply orb_false_iff in Hu; destruct Hu as [H1 H2].
    rewrite H1, H2, H3, H4. reflexivity. }
  unfold Zones.syncRemoveCloudZone, catch at 1, Zones.ValidateDeleteCondition.
  erewrite bind_ok; [|exact E]. rewrite He; simpl. rewrite Hb.
  unfold bind, Zones.RemoveI18ns, catch, Zones.Delete, bind, modify, ret.
  rewrite !(db_call_reliable _ _ R).
  eexists; split; [reflexivity|]. simpl. split; [reflexivity|]. split.
  - rewrite FetchById_reliable by exact R. simpl.
    destruct (find_row _ _) as [z|] eqn:F; [|reflexivity].
    pose proof (find_row_key _ _ _ _ F) as K. apply find_row_In in F.
    apply filter_In in F. destruct F as [_ F]. simpl in K. rewrite K in F. discriminate.
  - intros z Hin Hne. apply filter_In; split; [exact Hin|].
    apply negb_true_iff, String.eqb_neq; exact Hne.
Qed.

Lemma syncRemoveCloudZone_removes_witness :
  exists s',
    Zones.syncRemoveCloudZone ScenarioA.count_on_error ScenarioA.networkCount
      ScenarioA.base_ValidateDeleteCondition ScenarioA.zoneB ScenarioA.store_free = (inr tt, s')
    /\ zones_tbl s' = [ScenarioA.zoneA].
Proof.
  destruct (syncRemoveCloudZone_removes ScenarioA.count_on_error ScenarioA.networkCount
              ScenarioA.base_ValidateDeleteCondition ScenarioA.zoneB ScenarioA.store_free
              eq_refl eq_refl eq_refl) as (s' & E & Hz & _).
  exists s'; split; [exact E | exact Hz].
Defined.

(** [syncWithCloudZone] never changes the id or the external id of a zone
    row, whatever the database does: the records stay matched to the same
    remote zones. When it returns an error no zone row has changed; when it
    succeeds the zone carries the name, status and emulation flag of the
    remote zone and the id of the region. *)
Theorem syncWithCloudZone_keeps_keys :
  forall (self : SZone) (extZone : ICloudZone) (region : SCloudregion) (s : Store),
    let (r, s') := Zones.syncWithCloudZone self extZone region s in
    map z_Id (zones_tbl s') = map z_Id (zones_tbl s)
    /\ map z_ExternalId (zones_tbl s') = map z_ExternalId (zones_tbl s)
    /\ match r with
       | inl _ => zones_tbl s' = zones_tbl s
       | inr zone' =>
           zone' = mkZone (z_Id self) (GetName extZone) (z_ExternalId self)
                          (GetStatus extZone) (IsEmulated extZone) (cr_Id region)
           /\ zones_tbl s'
              = update_rows (fun z => String.eqb (z_Id z) (z_Id self))
                  (fun z => mkZone (z_Id z) (GetName extZone) (z_ExternalId z)
                                   (GetStatus extZone) (IsEmulated extZone) (cr_Id region))
                  (zones_tbl s)
       end.
Proof.
  intros self extZone region s.
  assert (Hk : forall l,
            map z_Id (update_rows (fun z => String.eqb (z_Id z) (z_Id self))
                        (fun z => mkZone (z_Id z) (GetName extZone) (z_ExternalId z)
                                         (GetStatus extZone) (IsEmulated extZone)
                                         (cr_Id region)) l) = map z_Id l
            /\ map z_ExternalId
                 (update_rows (fun z => String.eqb (z_Id z) (z_Id self))
                    (fun z => mkZone (z_Id z) (GetName extZone) (z_ExternalId z)
                                     (GetStatus extZone) (IsEmulated extZone)
                                     (cr_Id region)) l) = map z_ExternalId l).
  { intros l. unfold update_rows. rewrite !map_map.
    split; apply map_ext; intros z; destruct (String.eqb _ _); reflexivity. }
  unfold Zones.syncWithCloudZone, catch, Zones.SyncI18ns, Zones.Update, bind, LogEvent,
    modify, ret, db_call.
  destruct (Hk (zones_tbl s)) as [K1 K2].
  destruct (faults s) as [|[|] fs] eqn:F; simpl; rewrite ?F; simpl.
  - repeat split; auto.
  - repeat split.
  - destruct fs as [|[|] fs']; simpl; repeat split; auto.
Qed.


(** [newFromCloudZone] stores the zone before it syncs its translations: on
    success the new row is the last of the zone table and carries the global
    id of the remote zone as its external id and the id of the region; an
    error of the insertion leaves the table as it was; an error of the
    translation sync is returned although the row has been stored. *)
Theorem newFromCloudZone_stores_before_i18n :
  forall (UniqueName : string -> Store -> string) (NewId : Store -> string)
         (extZone : ICloudZone) (region : SCloudregion) (s : Store),
    let (r, s') := Zones.newFromCloudZone UniqueName NewId extZone region s in
    match r with
    | inr zone' =>
        zones_tbl s' = zones_tbl s ++ [zone']
        /\ z_ExternalId zone' = match GetGlobalId extZone with Some g => g | None => "" end
        /\ z_CloudregionId zone' = cr_Id region
        /\ z_Status zone' = GetStatus extZone
        /\ z_IsEmulated zone' = IsEmulated extZone
    | inl err =>
        (exists e, err = Wrap e "Insert" /\ zones_tbl s' = zones_tbl s)
        \/ (exists e zone',
              err = Wrap e "SyncI18ns"
              /\ zones_tbl s' = zones_tbl s ++ [zone']
              /\ z_ExternalId zone'
                 = match GetGlobalId extZone with Some g => g | None => "" end
              /\ z_CloudregionId zone' = cr_Id region)
    end.
Proof.
  intros UniqueName NewId extZone region s.
  unfold Zones.newFromCloudZone, catch, Zones.GenerateName, Zones.Insert, Zones.SyncI18ns,
    bind, get, modify, ret, LogEvent, modify, db_call.
  destruct (faults s) as [|[|] fs] eqn:F; simpl; rewrite ?F; simpl; rewrite ?F; simpl;
    rewrite ?F; simpl.
  - repeat split.
  - left; eexists; split; reflexivity.
  - destruct fs as [|[|] fs'] eqn:F'; simpl.
    + repeat split.
    + left; eexists; split; reflexivity.
    + destruct fs' as [|[|] fs'']; simpl.
      * repeat split.
      * right; eexists _, _; repeat split.
      * repeat split.
Qed.

Lemma syncWithCloudZone_external_id : forall self extZone region s zone' s',
  Zones.syncWithCloudZone self extZone region s = (inr zone', s') ->
  z_ExternalId zone' = z_ExternalId self.
Proof.
  intros self extZone region s zone' s'.
  unfold Zones.syncWithCloudZone, catch, Zones.SyncI18ns, Zones.Update, bind, LogEvent,
    modify, ret, fail, db_call.
  destruct (faults s) as [|[|] fs] eqn:F; simpl; rewrite ?F; simpl.
  - intros H; inversion H; reflexivity.
  - discriminate.
  - destruct fs as [|[|] fs']; simpl; intros H; inversion H; reflexivity.
Qed.

Lemma newFromCloudZone_external_id :
  forall (UniqueName : string -> Store -> string) (NewId : Store -> string)
         extZone region s zone' s',
    Zones.newFromCloudZone UniqueName NewId extZone region s = (inr zone', s') ->
    z_ExternalId zone' = match GetGlobalId extZone with Some g => g | None => "" end.
Proof.
  intros UniqueName NewId extZone region s zone' s'.
  unfold Zones.newFromCloudZone, catch, Zones.GenerateName, Zones.Insert, Zones.SyncI18ns,
    bind, get, modify, ret, fail, LogEvent, modify, db_call.
  destruct (faults s) as [|[|] fs] eqn:F; simpl; rewrite ?F; simpl; rewrite ?F; simpl;
    rewrite ?F; simpl.
  - intros H; inversion H; reflexivity.
  - discriminate.
  - destruct fs as [|[|] fs'] eqn:F'; simpl.
    + intros H; inversion H; reflexivity.
    + discriminate.
    + destruct fs' as [|[|] fs'']; simpl; intros H; inversion H; reflexivity.
Qed.

(** *** The records a pass hands back *)

Section PassFacts.

Variable count_on_error : Z.
Variable networkCount : SZone -> Store -> Z.
Variable base_ValidateDeleteCondition : SZone -> Store -> option error.
Variable UniqueName : string -> Store -> string.
Variable NewId : Store -> string.

Lemma sync_removed_lists : forall removed out s,
  Zones.localZones (fst (Zones.sync_removed count_on_error networkCount
                           base_ValidateDeleteCondition removed out s)) = Zones.localZones out
  /\ Zones.remoteZones (fst (Zones.sync_removed count_on_error networkCount
                               base_ValidateDeleteCondition removed out s))
     = Zones.remoteZones out
  /\ compare.UpdateCnt (Zones.syncResult (fst (Zones.sync_removed count_on_error networkCount
                           base_ValidateDeleteCondition removed out s)))
     = compare.UpdateCnt (Zones.syncResult out)
  /\ compare.AddCnt (Zones.syncResult (fst (Zones.sync_removed count_on_error networkCount
                           base_ValidateDeleteCondition removed out s)))
     = compare.AddCnt (Zones.syncResult out).
Proof.
  intros removed; induction removed as [|z rest IH]; intros out s; simpl.
  - repeat split.
  - destruct (Zones.syncRemoveCloudZone count_on_error networkCount
                base_ValidateDeleteCondition z s) as [[err|u] s'];
      match goal with |- context [Zones.sync_removed _ _ _ rest ?o ?x] =>
        destruct (IH o x) as (A & B & C & D) end;
      rewrite A, B, C, D; repeat split.
Qed.

Lemma sync_common_lists : forall region common out s,
  Forall (fun ze => in_step (fst ze) (snd ze)) common ->
  Forall2 in_step (Zones.localZones out) (Zones.remoteZones out) ->
  length (Zones.localZones out)
  = compare.UpdateCnt (Zones.syncResult out) + compare.AddCnt (Zones.syncResult out) ->
  let out' := fst (Zones.sync_common region common out s) in
  Forall2 in_step (Zones.localZones out') (Zones.remoteZones out')
  /\ length (Zones.localZones out')
     = compare.UpdateCnt (Zones.syncResult out') + compare.AddCnt (Zones.syncResult out').
Proof.
  intros region common; induction common as [|[z ext] rest IH]; intros out s Hc Hf Hl; simpl.
  - split; assumption.
  - inversion Hc as [|? ? Hze Hrest]; subst. simpl in Hze.
    destruct (Zones.syncWithCloudZone z ext region s) as [[err|z'] s'] eqn:E.
    + apply IH; assumption.
    + pose proof (syncWithCloudZone_external_id _ _ _ _ _ _ E) as K.
      apply IH; simpl.
      * exact Hrest.
      * apply Forall2_app; [exact Hf | constructor; [|constructor]].
        unfold in_step in *. rewrite K. exact Hze.
      * rewrite length_app; simpl; lia.
Qed.

Lemma sync_added_lists : forall region added out s,
  Forall (fun e => GetGlobalId e <> None) added ->
  Forall2 in_step (Zones.localZones out) (Zones.remoteZones out) ->
  length (Zones.localZones out)
  = compare.UpdateCnt (Zones.syncResult out) + compare.AddCnt (Zones.syncResult out) ->
  let out' := fst (Zones.sync_added UniqueName NewId region added out s) in
  Forall2 in_step (Zones.localZones out') (Zones.remoteZones out')
  /\ length (Zones.localZones out')
     = compare.UpdateCnt (Zones.syncResult out') + compare.AddCnt (Zones.syncResult out').
Proof.
  intros region added; induction added as [|ext rest IH]; intros out s Hc Hf Hl; simpl.
  - split; assumption.
  - inversion Hc as [|? ? He Hrest]; subst.
    destruct (Zones.newFromCloudZone UniqueName NewId ext region s) as [[err|z'] s'] eqn:E.
    + apply IH; assumption.
    + pose proof (newFromCloudZone_external_id _ _ _ _ _ _ _ E) as Hx.
      apply IH; simpl.
      * exact Hrest.
      * apply Forall2_app; [exact Hf|]. constructor; [|constructor].
        unfold in_step. rewrite Hx. destruct (GetGlobalId ext); [reflexivity | contradiction].
      * rewrite length_app; simpl; lia.
Qed.

Lemma Forall2_combine : forall A B (P : A -> B -> Prop) l1 l2,
  Forall2 P l1 l2 -> Forall (fun ab => P (fst ab) (snd ab)) (combine l1 l2).
Proof. intros A B P l1 l2 H; induction H; simpl; constructor; assumption. Qed.

End PassFacts.

(** The two lists a pass of [SyncZones] hands back are in step, whatever
    the database does: they have the same length, the number of updates and
    additions that went through, and the i-th local zone has the global id
    of the i-th remote zone as its external id. *)
Theorem SyncZones_hands_back_matched_pairs :
  forall (count_on_error : Z) (networkCount : SZone -> Store -> Z)
         (base : SZone -> Store -> option error)
         (UniqueName : string -> Store -> string) (NewId : Store -> string)
         (region : SCloudregion) (zones : list ICloudZone) (s : Store),
    let out := fst (Zones.SyncZones count_on_error networkCount base UniqueName NewId
                      region zones s) in
    Forall2 in_step (Zones.localZones out) (Zones.remoteZones out)
    /\ length (Zones.localZones out)
       = compare.UpdateCnt (Zones.syncResult out) + compare.AddCnt (Zones.syncResult out).
Proof.
  intros count_on_error networkCount base_ValidateDeleteCondition UniqueName NewId region zones s.
  unfold Zones.SyncZones.
  destruct (Zones.GetZones region s) as [[err|dbZones] s1]; simpl; [split; [constructor | reflexivity]|].
  destruct (Zones.CompareZones dbZones zones) as [err|p] eqn:Hc; simpl;
    [split; [constructor | reflexivity]|].
  pose proof (sync_removed_lists count_on_error networkCount base_ValidateDeleteCondition
                (compare.removed p) (Zones.mkSyncOut [] [] compare.empty) s1)
    as (A & B & C & D).
  destruct (Zones.sync_removed _ _ _ (compare.removed p) _ s1) as [out1 s2]; simpl in *.
  assert (Hkeys : forall e, In e zones -> GetGlobalId e <> None).
  { unfold Zones.CompareZones, compare.CompareSets in Hc.
    destruct (compare.keyed (fun z => Some (z_ExternalId z)) dbZones); [|discriminate].
    destruct (compare.keyed GetGlobalId zones) as [ext|] eqn:Ee; [|discriminate].
    destruct (keyed_spec _ _ _ _ Ee) as [Me We].
    intros e Hin. rewrite <- Me in Hin. apply in_map_iff in Hin.
    destruct Hin as ([k e'] & <- & Hin). simpl.
    rewrite (well_keyed_In _ _ _ _ _ We Hin). discriminate. }
  unfold Zones.CompareZones in Hc.
  destruct (CompareSets_spec _ _ _ _ _ _ _ Hc) as (_ & P2 & _ & _ & F & _).
  pose proof (sync_common_lists region
                (combine (compare.commondb p) (compare.commonext p)) out1 s2) as Hcommon.
  destruct (Zones.sync_common region _ out1 s2) as [out2 s3]; simpl in *.
  destruct Hcommon as [F2 L2].
  { apply Forall2_combine. eapply Forall2_impl; [|exact F].
    intros z e (k & Hz & He). unfold in_step. inversion Hz; subst. exact He. }
  { rewrite A, B. constructor. }
  { rewrite A, C, D. reflexivity. }
  apply (sync_added_lists UniqueName NewId); [|exact F2 | exact L2].
  apply Forall_forall. intros e Hin. apply Hkeys.
  apply Permutation_sym in P2. apply (Permutation_in _ P2). apply in_or_app; left; exact Hin.
Qed.


(** *** The usage of a zone when counts fail *)

Lemma set_faults_same : forall s, set_faults (faults s) s = s.
Proof. intros []; reflexivity. Qed.

Lemma count_dropping_step :
  forall (count_on_error : Z) R what (p : R -> bool) (tbl : Store -> list R) B
         (k : Z -> M B) s,
    table tbl ->
    exists n fs,
      bind (Zones.count_dropping_error count_on_error (Zones.CountWithError what p tbl)) k s
      = k n (set_faults fs s)
      /\ (n = Zones.count_rows p (tbl s) \/ n = count_on_error).
Proof.
  intros coe R what p tbl B k s T.
  unfold bind, Zones.count_dropping_error, Zones.CountWithError, catch, db_call, get, ret, fail.
  destruct (faults s) as [|[|] fs] eqn:F.
  - exists (Zones.count_rows p (tbl s)), (faults s). rewrite set_faults_same.
    split; [reflexivity | auto].
  - exists coe, fs. split; [reflexivity | auto].
  - exists (Zones.count_rows p (tbl (set_faults fs s))), fs.
    split; [reflexivity | rewrite T; auto].
Qed.

Lemma network_count_step :
  forall (count_on_error : Z) (networkCount : SZone -> Store -> Z) zone B (k : Z -> M B) s,
    exists n fs,
      bind (Zones.count_dropping_error count_on_error
              (Zones.getNetworkCount networkCount zone)) k s
      = k n (set_faults fs s).
Proof.
  intros coe nc zone B k s.
  unfold bind, Zones.count_dropping_error, Zones.getNetworkCount, catch, db_call, get, ret, fail.
  destruct (faults s) as [|[|] fs] eqn:F.
  - exists (nc zone s), (faults s). rewrite set_faults_same. reflexivity.
  - exists coe, fs. reflexivity.
  - exists (nc zone (set_faults fs s)), fs. reflexivity.
Qed.

(** [GeneralUsage] never fails, whatever the database does: a count whose
    query fails reads as what [CountWithError] hands back with its error,
    the other counts are still taken, and no table is written. So the check
    before the removal of a zone sees the number of hosts, wires and
    storages of the zone, or that stand-in. *)
Theorem GeneralUsage_never_fails :
  forall (count_on_error : Z) (networkCount : SZone -> Store -> Z) (zone : SZone) (s : Store),
    exists usage fs,
      Zones.GeneralUsage count_on_error networkCount zone s = (inr usage, set_faults fs s)
      /\ (Zones.Hosts usage
          = Zones.count_rows (fun h => String.eqb (h_ZoneId h) (z_Id zone)) (hosts_tbl s)
          \/ Zones.Hosts usage = count_on_error)
      /\ (Zones.Wires usage
          = Zones.count_rows (fun w => String.eqb (w_ZoneId w) (z_Id zone)) (wires_tbl s)
          \/ Zones.Wires usage = count_on_error)
      /\ (Zones.Storages usage
          = Zones.count_rows (fun st => String.eqb (st_ZoneId st) (z_Id zone)) (storages_tbl s)
          \/ Zones.Storages usage = count_on_error).
Proof.
  intros coe nc zone s.
  assert (Th : table hosts_tbl) by (intros ? ?; reflexivity).
  assert (Tw : table wires_tbl) by (intros ? ?; reflexivity).
  assert (Ts : table storages_tbl) by (intros ? ?; reflexivity).
  unfold Zones.GeneralUsage, Zones.HostCount, Zones.getWireCount, Zones.getStorageCount.
  destruct (count_dropping_step coe _ "HostCount"
              (Zones.HostCount_filter zone "" "" Zones.tristate_None "" Zones.tristate_None)
              hosts_tbl _
              (fun hosts =>
                 hostsEnabled <- Zones.count_dropping_error coe
                                   (Zones.CountWithError "HostCount"
                                      (Zones.HostCount_filter zone "" "" Zones.tristate_True ""
                                         Zones.tristate_None) hosts_tbl) ;;
                 baremetals <- Zones.count_dropping_error coe
                                 (Zones.CountWithError "HostCount"
                                    (Zones.HostCount_filter zone "" "" Zones.tristate_None ""
                                       Zones.tristate_True) hosts_tbl) ;;
                 baremetalsEnabled <- Zones.count_dropping_error coe
                                        (Zones.CountWithError "HostCount"
                                           (Zones.HostCount_filter zone "" ""
                                              Zones.tristate_True "" Zones.tristate_True)
                                           hosts_tbl) ;;
                 wires <- Zones.count_dropping_error coe
                            (Zones.CountWithError "getWireCount"
                               (fun w => String.eqb (w_ZoneId w) (z_Id zone)) wires_tbl) ;;
                 networks <- Zones.count_dropping_error coe (Zones.getNetworkCount nc zone) ;;
                 storages <- Zones.count_dropping_error coe
                               (Zones.CountWithError "getStorageCount"
                                  (fun st => String.eqb (st_ZoneId st) (z_Id zone))
                                  storages_tbl) ;;
                 ret (Zones.mkUsage hosts hostsEnabled baremetals baremetalsEnabled wires
                                    networks storages))
              s Th) as (n1 & fs1 & E1 & H1).
  rewrite E1; clear E1.
  rewrite HostCount_filter_all in H1.
  repeat match goal with
         | |- context [bind (Zones.count_dropping_error coe (Zones.CountWithError ?w ?p hosts_tbl))
                            ?k ?x] =>
             let n := fresh "n" in let fs := fresh "fs" in
             let E := fresh "E" in let H := fresh "H" in
             destruct (count_dropping_step coe _ w p hosts_tbl _ k x Th) as (n & fs & E & H);
             rewrite E; clear E H
         end.
  match goal with
  | |- context [bind (Zones.count_dropping_error coe (Zones.CountWithError ?w ?p wires_tbl))
                     ?k ?x] =>
      destruct (count_dropping_step coe _ w p wires_tbl _ k x Tw) as (nw & fsw & Ew & Hw);
      rewrite Ew; clear Ew
  end.
  match goal with
  | |- context [bind (Zones.count_dropping_error coe (Zones.getNetworkCount nc zone)) ?k ?x] =>
      destruct (network_count_step coe nc zone _ k x) as (nn & fsn & En);
      rewrite En; clear En
  end.
  match goal with
  | |- context [bind (Zones.count_dropping_error coe (Zones.CountWithError ?w ?p storages_tbl))
                     ?k ?x] =>
      destruct (count_dropping_step coe _ w p storages_tbl _ k x Ts) as (ns & fss & Es & Hs);
      rewrite Es; clear Es
  end.
  eexists _, fss; split; [reflexivity|]. simpl. repeat split; assumption.
Qed.

(** ** The account sync task: the fan-out over the providers *)

Lemma set_Scheduled_scheduled : forall t,
  task_Scheduled t = true -> taskman.set_Scheduled t = t.
Proof. intros [] H; simpl in *; subst; reflexivity. Qed.

Lemma start_provider_tasks_spec : forall providers range parent s,
  reliable s ->
  let s' := CloudAccountSyncInfoTask.start_provider_tasks providers range parent s in
  reliable s'
  /\ length (tasks_tbl s') = length (tasks_tbl s) + length providers
  /\ (forall t, In t (tasks_tbl s) -> task_Scheduled t = true -> In t (tasks_tbl s'))
  /\ (forall p, In p providers -> exists t, In t (tasks_tbl s') /\ started_for p parent range t).
Proof.
  intros providers range parent; induction providers as [|p rest IH]; intros s R; simpl.
  - repeat split; auto; try lia; intros p [].
  - destruct (StartSyncCloudProviderInfoTask_reliable p (Some range) parent s R)
      as (s1 & E & R1 & _ & _ & _ & _ & Ht).
    unfold CloudAccountSyncInfoTask.dropping. rewrite E; simpl.
    destruct (IH s1 R1) as (R' & L & Keep & New).
    assert (Hold : forall t, In t (tasks_tbl s) -> task_Scheduled t = true ->
                             In t (tasks_tbl s1)).
    { intros t Hin Hs. rewrite Ht. unfold update_rows. apply in_map_iff.
      exists t; split; [|apply in_or_app; left; exact Hin].
      destruct (Nat.eqb _ _); [apply set_Scheduled_scheduled; exact Hs | reflexivity]. }
    split; [exact R'|]. split; [|split].
    + rewrite L, Ht. unfold update_rows. rewrite length_map, length_app; simpl. lia.
    + intros t Hin Hs. apply Keep; [apply Hold; assumption | exact Hs].
    + intros q [<-|Hq]; [|apply New; exact Hq].
      exists (mkTask (length (tasks_tbl s)) "CloudProviderSyncInfoTask" (Id p) (Some range)
                     parent true).
      split; [|repeat split].
      apply Keep; [|reflexivity].
      rewrite Ht. unfold update_rows. rewrite map_app. apply in_or_app; right; simpl.
      rewrite Nat.eqb_refl. left; reflexivity.
Qed.

(** [OnCloudaccountSyncReady] fans the sync out over the enabled providers
    of the account: when the scope needs a sync and (after the resources of
    the account are synced, with every later database call going through)
    the account has enabled providers, the task moves to the stage
    [on_cloudaccount_sync_complete] without ending, and one sync task per
    enabled provider is created and scheduled, each under this task and
    with this scope; with no enabled provider, or a scope that needs no
    sync, the task completes at once. A task without a [sync_range] always
    needs the sync. *)
Theorem OnCloudaccountSyncReady_fans_out :
  forall (SyncCloudaccountResources : SCloudaccount -> SSyncRange -> M unit)
         (self : CloudAccountSyncInfoTask.STaskSelf) (cloudaccount : SCloudaccount)
         (s : Store),
    let range := task_range self in
    let s1 := CloudAccountSyncInfoTask.dropping (SyncCloudaccountResources cloudaccount range) s in
    let providers := CloudAccountSyncInfoTask.GetEnabledCloudproviders cloudaccount s1 in
    let out := CloudAccountSyncInfoTask.OnCloudaccountSyncReady SyncCloudaccountResources
                 self cloudaccount s in
    (CloudAccountSyncInfoTask.Params_sync_range self = None ->
     SyncRange.NeedSyncInfo range = true)
    /\ (SyncRange.NeedSyncInfo range = false ->
        out = CloudAccountSyncInfoTask.OnCloudaccountSyncComplete self cloudaccount s
        /\ CloudAccountSyncInfoTask.Status (fst out) = CloudAccountSyncInfoTask.task_complete)
    /\ (SyncRange.NeedSyncInfo range = true -> providers = [] ->
        out = CloudAccountSyncInfoTask.OnCloudaccountSyncComplete self cloudaccount s1
        /\ CloudAccountSyncInfoTask.Status (fst out) = CloudAccountSyncInfoTask.task_complete)
    /\ (SyncRange.NeedSyncInfo range = true -> providers <> [] -> reliable s1 ->
        CloudAccountSyncInfoTask.Stage (fst out) = "on_cloudaccount_sync_complete"
        /\ CloudAccountSyncInfoTask.Status (fst out) = CloudAccountSyncInfoTask.Status self
        /\ length (tasks_tbl (snd out)) = length (tasks_tbl s1) + length providers
        /\ forall p, In p providers ->
             exists t, In t (tasks_tbl (snd out))
                       /\ started_for p (CloudAccountSyncInfoTask.GetId self) range t).
Proof.
  intros SyncRes self account s range s1 providers out.
  split; [|split; [|split]].
  - unfold range, task_range. intros ->; reflexivity.
  - intros H. unfold out, CloudAccountSyncInfoTask.OnCloudaccountSyncReady.
    fold (task_range self). fold range. rewrite H; simpl. split; reflexivity.
  - intros H Hp. unfold out, CloudAccountSyncInfoTask.OnCloudaccountSyncReady.
    fold (task_range self). fold range. rewrite H; simpl.
    fold s1. fold providers. rewrite Hp; simpl. split; reflexivity.
  - intros H Hp R1. unfold out, CloudAccountSyncInfoTask.OnCloudaccountSyncReady.
    fold (task_range self). fold range. rewrite H; simpl.
    fold s1. fold providers.
    destruct providers as [|p rest] eqn:Ep; [contradiction|].
    cbv beta iota zeta.
    replace (0 <? length (p :: rest))%nat with true by reflexivity.
    cbv iota. unfold fst, snd.
    destruct (start_provider_tasks_spec (p :: rest) range
                (CloudAccountSyncInfoTask.GetId self) s1 R1) as (_ & L & _ & New).
    repeat split; auto.
Qed.

Lemma OnCloudaccountSyncReady_fans_out_witness :
  length (tasks_tbl (snd (CloudAccountSyncInfoTask.OnCloudaccountSyncReady
                            Examples.no_SyncResources Examples.task1 Examples.account1
                            Examples.store_quiet)))
  = 0 + 1.
Proof.
  refine (proj1 (proj2 (proj2 (proj2 (proj2 (proj2
            (OnCloudaccountSyncReady_fans_out Examples.no_SyncResources Examples.task1
               Examples.account1 Examples.store_quiet))) eq_refl _ eq_refl)))).
  discriminate.
Defined.

(** ** Cloudproviders: switching the sync of regions on and off *)

Lemma validate_regions_store : forall V ids acc s,
  snd (CloudproviderRegions.validate_regions V ids acc s) = s.
Proof.
  intros V ids; induction ids as [|x rest IH]; intros acc s; simpl; [reflexivity|].
  unfold bind. destruct (V x s); [reflexivity | apply IH].
Qed.

Lemma validate_regions_valid : forall V ids acc s,
  (forall x, In x ids -> V x s = inr x) ->
  CloudproviderRegions.validate_regions V ids acc s = (inr (acc ++ ids), s).
Proof.
  intros V ids; induction ids as [|x rest IH]; intros acc s H; simpl.
  - unfold ret. now rewrite app_nil_r.
  - unfold bind. rewrite (H x (or_introl eq_refl)).
    rewrite IH by (intros; apply H; right; assumption).
    now rewrite <- app_assoc.
Qed.

Lemma validate_regions_invalid : forall V ids acc s x e,
  In x ids -> V x s = inl e ->
  exists e', CloudproviderRegions.validate_regions V ids acc s = (inl e', s).
Proof.
  intros V ids; induction ids as [|y rest IH]; intros acc s x e Hin Hx; [contradiction|].
  simpl. unfold bind. destruct (V y s) as [e0|y'] eqn:Ey.
  - exists e0; reflexivity.
  - destruct Hin as [->|Hin]; [congruence|]. apply (IH _ _ x e Hin Hx).
Qed.

Lemma kept_or_switched_refl : forall self b l, Forall2 (kept_or_switched self b) l l.
Proof. intros self b l; induction l; constructor; [left; reflexivity | assumption]. Qed.

Lemma kept_or_switched_update : forall self b c l l',
  Cloudprovider.is_child self c = true ->
  Forall2 (kept_or_switched self b) l l' ->
  Forall2 (kept_or_switched self b) l
    (update_rows (Cloudproviderregion.same_row c) (CloudproviderRegions.set_Enabled b) l').
Proof.
  intros self b c l l' Hc H; induction H as [|r r' l l' Hr H IH]; simpl; constructor;
    [|exact IH].
  destruct (Cloudproviderregion.same_row c r') eqn:Es; [|exact Hr].
  destruct Hr as [->|[Hch ->]]; right; split; auto.
  apply (same_row_child self c r Hc Es).
Qed.

Lemma enable_loop_rows : forall self b l s l0,
  (forall c, In c l -> Cloudprovider.is_child self c = true) ->
  Forall2 (kept_or_switched self b) l0 (cloudproviderregions_tbl s) ->
  let (r, s') := CloudproviderRegions.enable_loop b l s in
  Forall2 (kept_or_switched self b) l0 (cloudproviderregions_tbl s')
  /\ cloudproviders_tbl s' = cloudproviders_tbl s
  /\ cloudaccounts_tbl s' = cloudaccounts_tbl s.
Proof.
  intros self b l; induction l as [|c rest IH]; intros s l0 Hl H; simpl.
  - repeat split; auto.
  - unfold catch, Cloudproviderregion.Update, bind, db_call, modify, ret.
    assert (Hrest : forall c0, In c0 rest -> Cloudprovider.is_child self c0 = true)
      by (intros; apply Hl; right; assumption).
    pose proof (Hl c (or_introl eq_refl)) as Hc.
    destruct (faults s) as [|[|] fs].
    + specialize (IH (set_cloudproviderregions
                        (update_rows (Cloudproviderregion.same_row c)
                           (CloudproviderRegions.set_Enabled b)
                           (cloudproviderregions_tbl s)) s) l0 Hrest).
      simpl in IH. apply IH. apply kept_or_switched_update; assumption.
    + repeat split; auto.
    + specialize (IH (set_cloudproviderregions
                        (update_rows (Cloudproviderregion.same_row c)
                           (CloudproviderRegions.set_Enabled b)
                           (cloudproviderregions_tbl (set_faults fs s))) (set_faults fs s))
                     l0 Hrest).
      simpl in IH. apply IH. apply kept_or_switched_update; assumption.
Qed.

Lemma enable_loop_reliable : forall b l s,
  reliable s ->
  CloudproviderRegions.enable_loop b l s
  = (inr tt,
     set_cloudproviderregions
       (map (fun r => if existsb (fun c => Cloudproviderregion.same_row c r) l
                      then CloudproviderRegions.set_Enabled b r else r)
            (cloudproviderregions_tbl s)) s).
Proof.
  intros b l; induction l as [|c rest IH]; intros s R; simpl.
  - unfold ret. rewrite map_id. now rewrite set_cloudproviderregions_same.
  - unfold catch, Cloudproviderregion.Update, bind, modify, ret.
    rewrite (db_call_reliable _ _ R). rewrite IH by exact R.
    f_equal. unfold set_cloudproviderregions; simpl. f_equal.
    unfold update_rows. rewrite map_map. apply map_ext; intros r.
    destruct (Cloudproviderregion.same_row c r) eqn:E; simpl; [|reflexivity].
    change (existsb (fun c0 => Cloudproviderregion.same_row c0
                      (CloudproviderRegions.set_Enabled b r)) rest)
      with (existsb (fun c0 => Cloudproviderregion.same_row c0 r) rest).
    destruct (existsb _ rest); reflexivity.
Qed.

(** [PerformSetSyncing] switches regions of this provider on or off and
    does nothing else. Whatever the database does, a binding is afterwards
    as it was or, if it is a binding of this provider, as it was with its
    enabled flag set as asked - its sync status is never touched - and no
    provider or account row changes. With no region id it does nothing; an
    id that does not pass validation makes it fail before anything is
    written; when all ids are valid and every database call goes through,
    exactly the bindings of the provider in the listed regions are
    switched. *)
Theorem PerformSetSyncing_switches_listed_regions :
  forall (ValidateModel : string -> Store -> error + string) (self : SCloudprovider)
         (enabled : bool) (ids : list string) (s : Store),
    (let (r, s') := CloudproviderRegions.PerformSetSyncing ValidateModel self enabled ids s in
     Forall2 (kept_or_switched self enabled)
             (cloudproviderregions_tbl s) (cloudproviderregions_tbl s')
     /\ cloudproviders_tbl s' = cloudproviders_tbl s
     /\ cloudaccounts_tbl s' = cloudaccounts_tbl s)
    /\ (ids = [] ->
        CloudproviderRegions.PerformSetSyncing ValidateModel self enabled ids s = (inr tt, s))
    /\ (forall x e, In x ids -> ValidateModel x s = inl e ->
        exists e', CloudproviderRegions.PerformSetSyncing ValidateModel self enabled ids s
                   = (inl e', s))
    /\ (reliable s -> (forall x, In x ids -> ValidateModel x s = inr x) ->
        CloudproviderRegions.PerformSetSyncing ValidateModel self enabled ids s
        = (inr tt,
           set_cloudproviderregions
             (map (fun r => if Cloudprovider.is_child self r
                               && SyncRange.IsInStringArray (cpr_CloudregionId r) ids
                            then CloudproviderRegions.set_Enabled enabled r else r)
                  (cloudproviderregions_tbl s)) s)).
Proof.
  intros V self b ids s. split; [|split; [|split]].
  - unfold CloudproviderRegions.PerformSetSyncing, bind at 1.
    pose proof (validate_regions_store V ids [] s) as Hs.
    destruct (CloudproviderRegions.validate_regions V ids [] s) as [[e|regionIds] s0];
      simpl in Hs; subst s0.
    + repeat split. apply kept_or_switched_refl.
    + destruct (Nat.eqb (length regionIds) 0).
      * repeat split. apply kept_or_switched_refl.
      * unfold bind, db_call, get.
        destruct (faults s) as [|[|] fs].
        -- apply (enable_loop_rows self b _ s).
           ++ intros c Hc. apply filter_In in Hc. destruct Hc as [_ Hc].
              apply andb_true_iff in Hc. apply Hc.
           ++ apply kept_or_switched_refl.
        -- repeat split. apply kept_or_switched_refl.
        -- apply (enable_loop_rows self b _ (set_faults fs s)
                    (cloudproviderregions_tbl s)).
           ++ intros c Hc. apply filter_In in Hc. destruct Hc as [_ Hc].
              apply andb_true_iff in Hc. apply Hc.
           ++ apply kept_or_switched_refl.
  - intros ->. reflexivity.
  - intros x e Hin Hx.
    destruct (validate_regions_invalid V ids [] s x e Hin Hx) as [e' E].
    exists e'. unfold CloudproviderRegions.PerformSetSyncing, bind. rewrite E. reflexivity.
  - intros R Hv. unfold CloudproviderRegions.PerformSetSyncing, bind at 1.
    rewrite (validate_regions_valid V ids [] s Hv).
    destruct ids as [|x ids'].
    + simpl. unfold ret. f_equal.
      rewrite <- (set_cloudproviderregions_same s) at 1. f_equal.
      rewrite <- (map_id (cloudproviderregions_tbl s)) at 1.
      apply map_ext; intros r. rewrite andb_false_r. reflexivity.
    + change ([] ++ x :: ids') with (x :: ids').
      change (Nat.eqb (length (x :: ids')) 0) with false. cbv iota.
      unfold bind, get. rewrite (db_call_reliable _ _ R).
      rewrite (enable_loop_reliable _ _ s R). f_equal. f_equal.
      apply map_ext_in; intros r Hin.
      match goal with |- (if ?a then _ else _) = (if ?c then _ else _) =>
        assert (Hab : a = c); [|rewrite Hab; reflexivity] end.
      apply eq_true_iff_eq. rewrite existsb_exists. split.
      * intros (c & Hc & Hs). apply filter_In in Hc. destruct Hc as [_ Hc].
        apply andb_true_iff in Hc. destruct Hc as [Hc1 Hc2].
        unfold Cloudproviderregion.same_row in Hs. apply andb_true_iff in Hs.
        destruct Hs as [Hs1 Hs2]. apply String.eqb_eq in Hs1, Hs2.
        unfold Cloudprovider.is_child. rewrite <- Hs1, <- Hs2, Hc1, Hc2. reflexivity.
      * intros Hr. exists r; split; [|apply same_row_refl].
        apply filter_In; split; [exact Hin | exact Hr].
Qed.

Lemma PerformSetSyncing_switches_listed_regions_witness :
  CloudproviderRegions.PerformSetSyncing (fun x _ => inr x) Examples.provider_idle false ["r1"]
    Examples.store_done
  = (inr tt,
     Examples.store_of [Examples.provider_syncing]
       [mkCloudproviderregion "p1" "r1" false CLOUD_PROVIDER_SYNC_STATUS_IDLE;
        Examples.cpr "r2" CLOUD_PROVIDER_SYNC_STATUS_IDLE]).
Proof.
  refine (proj2 (proj2 (proj2 (PerformSetSyncing_switches_listed_regions (fun x _ => inr x)
            Examples.provider_idle false ["r1"] Examples.store_done))) eq_refl _).
  intros x _; reflexivity.
Defined.

(** ** Sync ranges: the normal form *)

Lemma find_row_exists : forall R (p : R -> bool) l r,
  In r l -> p r = true -> exists r1, find_row p l = Some r1.
Proof.
  intros R p l r; induction l as [|a l IH]; simpl; intros Hin Hp; [contradiction|].
  destruct (p a) eqn:Ea; [eexists; reflexivity|].
  destruct Hin as [->|Hin]; [congruence | apply IH; assumption].
Qed.

Lemma IsInStringArray_In : forall x l, SyncRange.IsInStringArray x l = true <-> In x l.
Proof.
  intros x l. unfold SyncRange.IsInStringArray. rewrite existsb_exists. split.
  - intros (y & Hy & E). apply String.eqb_eq in E; subst; exact Hy.
  - intros H. exists x; split; [exact H | apply String.eqb_refl].
Qed.

Lemma append_missing_present : forall x l, In x l -> SyncRange.append_missing x l = l.
Proof.
  intros x l H. unfold SyncRange.append_missing.
  apply IsInStringArray_In in H. rewrite H. reflexivity.
Qed.

Lemma region_of_stored : forall s z r,
  SyncRange.region_of s z = Some r -> In r (cloudregions_tbl s).
Proof. intros s z r H. apply (find_row_In _ _ _ _ H). Qed.

Lemma zone_entry_normal_mono : forall s regions regions' x,
  (forall y, In y regions -> In y regions') ->
  zone_entry_normal s regions x -> zone_entry_normal s regions' x.
Proof.
  intros s regions regions' x Sub (z & Hz & H). exists z; split; [exact Hz|].
  destruct (SyncRange.region_of s z); [|exact I]. destruct H as [-> H]; auto.
Qed.

Lemma host_entry_normal_mono : forall s zones zones' regions regions' x,
  (forall y, In y zones -> In y zones') ->
  (forall y, In y regions -> In y regions') ->
  host_entry_normal s zones regions x -> host_entry_normal s zones' regions' x.
Proof.
  intros s zones zones' regions regions' x SubZ SubR (h & Hh & H).
  exists h; split; [exact Hh|].
  destruct (SyncRange.zone_of s h) as [z|]; [|exact I].
  destruct (SyncRange.region_of s z); [|exact I]. destruct H as (-> & A & B); auto.
Qed.

Section NormalForm.

Variable s : Store.
Hypothesis Hrel : reliable s.

(** *** A range in normal form is left as it is *)

Lemma normalizeRegionIds_loop_fix : forall todo done,
  region_ids_stored s todo ->
  SyncRange.normalizeRegionIds_loop done todo s = ((None, done ++ todo), s).
Proof.
  intros todo; induction todo as [|x rest IH]; intros done H; simpl.
  - now rewrite app_nil_r.
  - rewrite (FetchByIdOrName_reliable _ _ _ _ _ _ _ Hrel).
    destruct (H x (or_introl eq_refl)) as (r & Hr & Er).
    destruct (find_row_exists _ (fun r0 => String.eqb (cr_Id r0) x) _ r Hr) as [r1 F];
      [subst; apply String.eqb_refl|].
    unfold SyncRange.by_id_or_name. rewrite F.
    apply find_row_key in F. apply String.eqb_eq in F. rewrite F.
    rewrite IH by (intros id Hid; apply H; right; exact Hid).
    now rewrite <- app_assoc.
Qed.

Lemma normalizeZoneIds_loop_fix : forall todo done regions,
  Forall (zone_entry_normal s regions) todo ->
  SyncRange.normalizeZoneIds_loop done todo regions s
  = ((None, (done ++ todo, regions)), s).
Proof.
  intros todo; induction todo as [|x rest IH]; intros done regions H; simpl.
  - now rewrite app_nil_r.
  - inversion H as [|? ? (z & Hz & Hx) Hrest]; subst.
    rewrite (FetchByIdOrName_reliable _ _ _ _ _ _ _ Hrel), Hz.
    rewrite (GetRegion_reliable _ _ Hrel).
    destruct (SyncRange.region_of s z) as [r|].
    + destruct Hx as [Ex Hin]. rewrite <- Ex, (append_missing_present _ _ Hin).
      rewrite IH by exact Hrest. now rewrite <- app_assoc.
    + rewrite IH by exact Hrest. now rewrite <- app_assoc.
Qed.

Lemma normalizeHostIds_loop_fix : forall todo done zones regions,
  Forall (host_entry_normal s zones regions) todo ->
  SyncRange.normalizeHostIds_loop done todo zones regions s
  = ((None, (done ++ todo, zones, regions)), s).
Proof.
  intros todo; induction todo as [|x rest IH]; intros done zones regions H; simpl.
  - now rewrite app_nil_r.
  - inversion H as [|? ? (h & Hh & Hx) Hrest]; subst.
    rewrite (FetchByIdOrName_reliable _ _ _ _ _ _ _ Hrel), Hh.
    rewrite (Host_GetZone_reliable _ _ Hrel).
    destruct (SyncRange.zone_of s h) as [z|].
    + rewrite (GetRegion_reliable _ _ Hrel).
      destruct (SyncRange.region_of s z) as [r|].
      * destruct Hx as (Ex & Hz & Hr).
        rewrite <- Ex, (append_missing_present _ _ Hz), (append_missing_present _ _ Hr).
        rewrite IH by exact Hrest. now rewrite <- app_assoc.
      * rewrite IH by exact Hrest. now rewrite <- app_assoc.
    + rewrite IH by exact Hrest. now rewrite <- app_assoc.
Qed.

Lemma Normalize_fix : forall sr,
  normal_form s sr -> SyncRange.Normalize sr s = ((None, sr), s).
Proof.
  intros [f fs d rs zs hs res] (HR & HZ & HH); simpl in *.
  unfold SyncRange.Normalize; simpl.
  assert (E1 : (if (0 <? length rs)%nat
                then SyncRange.normalizeRegionIds (mkSyncRange f fs d rs zs hs res) s
                else ((None, SyncRange.set_Region [] (mkSyncRange f fs d rs zs hs res)), s))
               = ((None, mkSyncRange f fs d rs zs hs res), s)).
  { destruct rs as [|x rs']; [reflexivity|].
    unfold SyncRange.normalizeRegionIds; simpl Region.
    rewrite (normalizeRegionIds_loop_fix _ [] HR). reflexivity. }
  rewrite E1; simpl.
  assert (E2 : (if (0 <? length zs)%nat
                then SyncRange.normalizeZoneIds (mkSyncRange f fs d rs zs hs res) s
                else ((None, SyncRange.set_Zone [] (mkSyncRange f fs d rs zs hs res)), s))
               = ((None, mkSyncRange f fs d rs zs hs res), s)).
  { destruct zs as [|x zs']; [reflexivity|].
    unfold SyncRange.normalizeZoneIds; simpl Zone; simpl Region.
    rewrite (normalizeZoneIds_loop_fix _ [] rs HZ). reflexivity. }
  rewrite E2; simpl.
  destruct hs as [|x hs']; [reflexivity|].
  unfold SyncRange.normalizeHostIds; simpl Host; simpl Zone; simpl Region.
  rewrite (normalizeHostIds_loop_fix _ [] zs rs HH). reflexivity.
Qed.

(** *** What [Normalize] returns is in normal form *)

Lemma normalizeRegionIds_loop_stored : forall todo done l s',
  SyncRange.normalizeRegionIds_loop done todo s = ((None, l), s') ->
  region_ids_stored s done -> region_ids_stored s l.
Proof.
  intros todo; induction todo as [|x rest IH]; intros done l s'; simpl.
  - intros H; inversion H; subst; auto.
  - rewrite (FetchByIdOrName_reliable _ _ _ _ _ _ _ Hrel).
    destruct (SyncRange.by_id_or_name cr_Id cr_Name (cloudregions_tbl s) x) as [obj|] eqn:E;
      [|discriminate].
    intros H Hd. apply (IH _ _ _ H).
    intros id Hid. apply in_app_or in Hid. destruct Hid as [Hid|[<-|[]]]; [auto|].
    exists obj; split; [apply (by_id_or_name_In _ _ _ _ _ _ E) | reflexivity].
Qed.

Hypothesis Hkeys : primary_keys s.

Lemma zone_found_by_id : forall zone,
  In zone (zones_tbl s) ->
  SyncRange.by_id_or_name z_Id z_Name (zones_tbl s) (z_Id zone) = Some zone.
Proof.
  intros zone Hin. unfold SyncRange.by_id_or_name.
  rewrite (find_row_NoDup _ z_Id _ zone (proj1 Hkeys) Hin). reflexivity.
Qed.

Lemma host_found_by_id : forall host,
  In host (hosts_tbl s) ->
  SyncRange.by_id_or_name h_Id h_Name (hosts_tbl s) (h_Id host) = Some host.
Proof.
  intros host Hin. unfold SyncRange.by_id_or_name.
  rewrite (find_row_NoDup _ h_Id _ host (proj2 Hkeys) Hin). reflexivity.
Qed.

Lemma normalizeZoneIds_loop_normal : forall todo done regions zs rs s',
  SyncRange.normalizeZoneIds_loop done todo regions s = ((None, (zs, rs)), s') ->
  region_ids_stored s regions ->
  Forall (zone_entry_normal s regions) done ->
  region_ids_stored s rs
  /\ Forall (zone_entry_normal s rs) zs
  /\ (forall y, In y regions -> In y rs).
Proof.
  intros todo; induction todo as [|x rest IH]; intros done regions zs rs s'; simpl.
  - intros H; inversion H; subst; auto.
  - rewrite (FetchByIdOrName_reliable _ _ _ _ _ _ _ Hrel).
    destruct (SyncRange.by_id_or_name z_Id z_Name (zones_tbl s) x) as [zone|] eqn:Ez;
      [|discriminate].
    rewrite (GetRegion_reliable _ _ Hrel).
    destruct (SyncRange.region_of s zone) as [region|] eqn:Er; intros H HR HD.
    + assert (Sub : forall y, In y regions ->
                              In y (SyncRange.append_missing (cr_Id region) regions))
        by (intros y Hy; apply append_missing_In; auto).
      destruct (IH _ _ _ _ _ H) as (A & B & C).
      * intros id Hid. apply append_missing_In in Hid. destruct Hid as [->|Hid]; [|auto].
        exists region; split; [apply (region_of_stored _ _ _ Er) | reflexivity].
      * apply Forall_app; split.
        -- eapply Forall_impl; [|exact HD]. intros a. apply zone_entry_normal_mono; exact Sub.
        -- constructor; [|constructor]. exists zone; split.
           ++ apply zone_found_by_id. apply (by_id_or_name_In _ _ _ _ _ _ Ez).
           ++ rewrite Er. split; [reflexivity | apply append_missing_In; auto].
      * repeat split; auto.
    + apply (IH _ _ _ _ _ H HR).
      apply Forall_app; split; [exact HD|]. constructor; [|constructor].
      exists zone; split; [exact Ez|]. rewrite Er; exact I.
Qed.

Lemma normalizeHostIds_loop_normal : forall todo done zones regions hs zs rs s',
  SyncRange.normalizeHostIds_loop done todo zones regions s = ((None, (hs, zs, rs)), s') ->
  region_ids_stored s regions ->
  Forall (zone_entry_normal s regions) zones ->
  Forall (host_entry_normal s zones regions) done ->
  region_ids_stored s rs
  /\ Forall (zone_entry_normal s rs) zs
  /\ Forall (host_entry_normal s zs rs) hs.
Proof.
  intros todo; induction todo as [|x rest IH]; intros done zones regions hs zs rs s'; simpl.
  - intros H; inversion H; subst; auto.
  - rewrite (FetchByIdOrName_reliable _ _ _ _ _ _ _ Hrel).
    destruct (SyncRange.by_id_or_name h_Id h_Name (hosts_tbl s) x) as [host|] eqn:Eh;
      [|discriminate].
    rewrite (Host_GetZone_reliable _ _ Hrel).
    destruct (SyncRange.zone_of s host) as [zone|] eqn:Ez.
    + rewrite (GetRegion_reliable _ _ Hrel).
      destruct (SyncRange.region_of s zone) as [region|] eqn:Er; intros H HR HZ HD.
      * assert (SubR : forall y, In y regions ->
                                 In y (SyncRange.append_missing (cr_Id region) regions))
          by (intros y Hy; apply append_missing_In; auto).
        assert (SubZ : forall y, In y zones ->
                                 In y (SyncRange.append_missing (z_Id zone) zones))
          by (intros y Hy; apply append_missing_In; auto).
        apply (IH _ _ _ _ _ _ _ H).
        -- intros id Hid. apply append_missing_In in Hid. destruct Hid as [->|Hid]; [|auto].
           exists region; split; [apply (region_of_stored _ _ _ Er) | reflexivity].
        -- apply Forall_forall. intros y Hy. apply append_missing_In in Hy.
           destruct Hy as [->|Hy].
           ++ exists zone; split.
              ** apply zone_found_by_id. apply (find_row_In _ _ _ _ Ez).
              ** rewrite Er. split; [reflexivity | apply append_missing_In; auto].
           ++ rewrite Forall_forall in HZ.
              apply (zone_entry_normal_mono _ _ _ _ SubR (HZ y Hy)).
        -- apply Forall_app; split.
           ++ eapply Forall_impl; [|exact HD]. intros a.
              apply host_entry_normal_mono; assumption.
           ++ constructor; [|constructor]. exists host; split.
              ** apply host_found_by_id. apply (by_id_or_name_In _ _ _ _ _ _ Eh).
              ** rewrite Ez, Er. split; [reflexivity|].
                 split; apply append_missing_In; auto.
      * apply (IH _ _ _ _ _ _ _ H HR HZ).
        apply Forall_app; split; [exact HD|]. constructor; [|constructor].
        exists host; split; [exact Eh|]. rewrite Ez, Er; exact I.
    + intros H HR HZ HD. apply (IH _ _ _ _ _ _ _ H HR HZ).
      apply Forall_app; split; [exact HD|]. constructor; [|constructor].
      exists host; split; [exact Eh|]. rewrite Ez; exact I.
Qed.

Lemma Normalize_normal : forall sr sr' s',
  SyncRange.Normalize sr s = ((None, sr'), s') -> s' = s /\ normal_form s sr'.
Proof.
  intros [f fs d rs zs hs res] sr' s'. unfold SyncRange.Normalize; simpl.
  (* the regions *)
  assert (E1 : exists e rs1,
            (if (0 <? length rs)%nat
             then SyncRange.normalizeRegionIds (mkSyncRange f fs d rs zs hs res) s
             else ((None, SyncRange.set_Region [] (mkSyncRange f fs d rs zs hs res)), s))
            = ((e, mkSyncRange f fs d rs1 zs hs res), s)
            /\ (e = None -> region_ids_stored s rs1)).
  { destruct rs as [|x rs'].
    - exists None, []; split; [reflexivity | intros _ id []].
    - unfold SyncRange.normalizeRegionIds; simpl Region.
      destruct (SyncRange.normalizeRegionIds_loop [] (x :: rs') s) as [[e l] s1] eqn:L.
      assert (s1 = s).
      { pose proof (normalizeRegionIds_loop_reliable s Hrel (x :: rs') []) as N.
        destruct (first_missing _ _ _ _); destruct N as [l' N]; rewrite N in L;
          inversion L; reflexivity. }
      subst s1. exists e, l; split; [reflexivity|]. intros ->.
      apply (normalizeRegionIds_loop_stored _ _ _ _ L). intros id []. }
  destruct E1 as (e1 & rs1 & E1 & HR1). rewrite E1; clear E1.
  destruct e1 as [err|]; [discriminate|]. specialize (HR1 eq_refl). simpl.
  (* the zones *)
  assert (E2 : exists e zs2 rs2,
            (if (0 <? length zs)%nat
             then SyncRange.normalizeZoneIds (mkSyncRange f fs d rs1 zs hs res) s
             else ((None, SyncRange.set_Zone [] (mkSyncRange f fs d rs1 zs hs res)), s))
            = ((e, mkSyncRange f fs d rs2 zs2 hs res), s)
            /\ (e = None -> region_ids_stored s rs2
                            /\ Forall (zone_entry_normal s rs2) zs2)).
  { destruct zs as [|x zs'].
    - exists None, [], rs1; split; [reflexivity | intros _; split; [exact HR1 | constructor]].
    - unfold SyncRange.normalizeZoneIds; simpl Zone; simpl Region.
      destruct (SyncRange.normalizeZoneIds_loop [] (x :: zs') rs1 s) as [[e [l r]] s1] eqn:L.
      assert (s1 = s).
      { pose proof (normalizeZoneIds_loop_reliable s Hrel (x :: zs') [] rs1) as N.
        destruct (first_missing _ _ _ _); destruct N as (a & b & N); rewrite N in L;
          inversion L; reflexivity. }
      subst s1. exists e, l, r; split; [reflexivity|]. intros ->.
      destruct (normalizeZoneIds_loop_normal _ _ _ _ _ _ L HR1 (Forall_nil _)) as (A & B & _).
      split; assumption. }
  destruct E2 as (e2 & zs2 & rs2 & E2 & HZ2). rewrite E2; clear E2.
  destruct e2 as [err|]; [discriminate|]. destruct (HZ2 eq_refl) as [HR2 HZ2']. simpl.
  (* the hosts *)
  destruct hs as [|x hs'].
  - intros H; injection H as <- <-. split; [reflexivity|].
    split; [exact HR2 | split; [exact HZ2' | constructor]].
  - unfold SyncRange.normalizeHostIds; simpl Host; simpl Zone; simpl Region.
    destruct (SyncRange.normalizeHostIds_loop [] (x :: hs') zs2 rs2 s)
      as [[e [[l z] r]] s1] eqn:L.
    assert (s1 = s).
    { pose proof (normalizeHostIds_loop_reliable s Hrel (x :: hs') [] zs2 rs2) as N.
      destruct (first_missing _ _ _ _); destruct N as (a & b & c & N); rewrite N in L;
        inversion L; reflexivity. }
    subst s1. intros H; injection H as -> <- <-. split; [reflexivity|].
    destruct (normalizeHostIds_loop_normal _ _ _ _ _ _ _ _ L HR2 HZ2' (Forall_nil _))
      as (A & B & C).
    split; [exact A | split; [exact B | exact C]].
Qed.

End NormalForm.

(** [Normalize] is idempotent: a range it has returned without error (the
    database answering, ids being primary keys) is in normal form, and
    normalising it again returns it unchanged. *)
Theorem Normalize_idempotent :
  forall (sr : SSyncRange) (s : Store) (sr' : SSyncRange) (s' : Store),
    reliable s -> primary_keys s ->
    SyncRange.Normalize sr s = ((None, sr'), s') ->
    normal_form s' sr' /\ SyncRange.Normalize sr' s' = ((None, sr'), s').
Proof.
  intros sr s sr' s' R K H.
  destruct (Normalize_normal s R K sr sr' s' H) as [-> N].
  split; [exact N | apply (Normalize_fix s R sr' N)].
Qed.

Lemma Normalize_idempotent_witness :
  normal_form Inventory.store (Inventory.scope ["r1"] ["z1"] ["h1"])
  /\ SyncRange.Normalize (Inventory.scope ["r1"] ["z1"] ["h1"]) Inventory.store
     = ((None, Inventory.scope ["r1"] ["z1"] ["h1"]), Inventory.store).
Proof.
  apply (Normalize_idempotent (Inventory.scope [] [] ["host-1"]) Inventory.store
           (Inventory.scope ["r1"] ["z1"] ["h1"]) Inventory.store eq_refl).
  - apply Inventory_primary_keys.
  - reflexivity.
Defined.

(** The regions [GetRegionIds] finds for a normalised range include every
    region of the range: after a [Normalize] that returned without error
    (the database answering, ids being primary keys), each id of the region
    list is among the ids [GetRegionIds] returns. A range that names no
    region, zone or host reaches no region and asks the database nothing. *)
Theorem GetRegionIds_covers_normalized_regions :
  forall (sr : SSyncRange) (s : Store),
    (Region sr = [] -> Zone sr = [] -> Host sr = [] ->
     SyncRangeQuery.GetRegionIds sr s = (inr [], s))
    /\ (forall sr' s',
          reliable s -> primary_keys s ->
          SyncRange.Normalize sr s = ((None, sr'), s') ->
          exists ids,
            SyncRangeQuery.GetRegionIds sr' s' = (inr ids, s')
            /\ forall id, In id (Region sr') -> In id ids).
Proof.
  intros sr s; split.
  - intros Hr Hz Hh. unfold SyncRangeQuery.GetRegionIds. rewrite Hr, Hz, Hh. reflexivity.
  - intros sr' s' R K H.
    destruct (Normalize_normal s R K sr sr' s' H) as [-> (HR & _ & _)].
    rewrite (GetRegionIds_reliable sr' s R).
    eexists; split; [reflexivity|]. intros id Hid.
    destruct (Nat.eqb (length (Host sr')) 0 && Nat.eqb (length (Zone sr')) 0
              && Nat.eqb (length (Region sr')) 0) eqn:E.
    + apply andb_true_iff in E. destruct E as [_ E].
      destruct (Region sr'); [contradiction | discriminate].
    + destruct (HR id Hid) as (r & Hr & <-).
      apply in_map. unfold SyncRangeQuery.regions_named. apply filter_In; split; [exact Hr|].
      apply IsInStringArray_In in Hid. rewrite Hid. reflexivity.
Qed.

Lemma GetRegionIds_covers_normalized_regions_witness :
  exists ids,
    SyncRangeQuery.GetRegionIds (Inventory.scope ["r1"] ["z1"] ["h1"]) Inventory.store
    = (inr ids, Inventory.store)
    /\ forall id, In id ["r1"] -> In id ids.
Proof.
  apply (proj2 (GetRegionIds_covers_normalized_regions
                  (Inventory.scope [] [] ["host-1"]) Inventory.store)
               (Inventory.scope ["r1"] ["z1"] ["h1"]) Inventory.store eq_refl).
  - apply Inventory_primary_keys.
  - reflexivity.
Defined.

(** *** What [Normalize] never does *)

Lemma append_missing_length : forall x l,
  length l <= length (SyncRange.append_missing x l).
Proof.
  intros x l. unfold SyncRange.append_missing.
  destruct (negb _); [rewrite length_app; simpl; lia | lia].
Qed.

Lemma normalizeRegionIds_loop_length : forall todo done s,
  length (snd (fst (SyncRange.normalizeRegionIds_loop done todo s)))
  = length done + length todo.
Proof.
  intros todo; induction todo as [|x rest IH]; intros done s; simpl; [lia|].
  destruct (SyncRange.FetchByIdOrName _ _ _ _ x s) as [[err|obj] s1]; simpl.
  - rewrite length_app; simpl; lia.
  - rewrite IH, length_app; simpl; lia.
Qed.

Lemma normalizeZoneIds_loop_length : forall todo done regions s,
  let '(_, (zs, rs), _) := SyncRange.normalizeZoneIds_loop done todo regions s in
  length zs = length done + length todo /\ length regions <= length rs.
Proof.
  intros todo; induction todo as [|x rest IH]; intros done regions s; simpl; [lia|].
  destruct (SyncRange.FetchByIdOrName _ _ _ _ x s) as [[err|zone] s1]; simpl.
  - rewrite length_app; simpl; lia.
  - destruct (Zones.GetRegion zone s1) as [[err|region] s2].
    + specialize (IH (done ++ [x]) regions s2).
      destruct (SyncRange.normalizeZoneIds_loop _ rest regions s2) as [[e [zs rs]] s3].
      rewrite length_app in IH; simpl in IH; lia.
    + specialize (IH (done ++ [z_Id zone])
                     (SyncRange.append_missing (cr_Id region) regions) s2).
      destruct (SyncRange.normalizeZoneIds_loop _ rest _ s2) as [[e [zs rs]] s3].
      pose proof (append_missing_length (cr_Id region) regions).
      rewrite length_app in IH; simpl in IH; lia.
Qed.

Lemma normalizeHostIds_loop_length : forall todo done zones regions s,
  let '(_, (hs, zs, rs), _) := SyncRange.normalizeHostIds_loop done todo zones regions s in
  length hs = length done + length todo
  /\ length zones <= length zs /\ length regions <= length rs.
Proof.
  intros todo; induction todo as [|x rest IH]; intros done zones regions s; simpl; [lia|].
  destruct (SyncRange.FetchByIdOrName _ _ _ _ x s) as [[err|host] s1]; simpl.
  - rewrite length_app; simpl; lia.
  - destruct (SyncRange.Host_GetZone host s1) as [[err|zone] s2].
    + specialize (IH (done ++ [x]) zones regions s2).
      destruct (SyncRange.normalizeHostIds_loop _ rest zones regions s2)
        as [[e [[hs zs] rs]] s3].
      rewrite length_app in IH; simpl in IH; lia.
    + destruct (Zones.GetRegion zone s2) as [[err|region] s3].
      * specialize (IH (done ++ [x]) zones regions s3).
        destruct (SyncRange.normalizeHostIds_loop _ rest zones regions s3)
          as [[e [[hs zs] rs]] s4].
        rewrite length_app in IH; simpl in IH; lia.
      * specialize (IH (done ++ [h_Id host])
                       (SyncRange.append_missing (z_Id zone) zones)
                       (SyncRange.append_missing (cr_Id region) regions) s3).
        destruct (SyncRange.normalizeHostIds_loop _ rest _ _ s3) as [[e [[hs zs] rs]] s4].
        pose proof (append_missing_length (cr_Id region) regions).
        pose proof (append_missing_length (z_Id zone) zones).
        rewrite length_app in IH; simpl in IH; lia.
Qed.

(** [Normalize] only rewrites and extends the three lists of identifiers,
    whatever the outcome and whatever the database does: the flags and the
    list of resources are as they were, no entry is dropped - the host list
    keeps its length, the zone and region lists never get shorter. *)
Theorem Normalize_only_extends :
  forall (sr : SSyncRange) (s : Store),
    let sr' := snd (fst (SyncRange.Normalize sr s)) in
    Force sr' = Force sr /\ FullSync sr' = FullSync sr /\ DeepSync sr' = DeepSync sr
    /\ Resources sr' = Resources sr
    /\ length (Host sr') = length (Host sr)
    /\ length (Zone sr) <= length (Zone sr')
    /\ length (Region sr) <= length (Region sr').
Proof.
  intros [f fs d rs zs hs res] s. unfold SyncRange.Normalize; simpl.
  assert (E1 : exists e rs1 s1,
            (if (0 <? length rs)%nat
             then SyncRange.normalizeRegionIds (mkSyncRange f fs d rs zs hs res) s
             else ((None, SyncRange.set_Region [] (mkSyncRange f fs d rs zs hs res)), s))
            = ((e, mkSyncRange f fs d rs1 zs hs res), s1)
            /\ length rs <= length rs1).
  { destruct rs as [|x rs'].
    - exists None, [], s; split; [reflexivity | simpl; lia].
    - unfold SyncRange.normalizeRegionIds; cbn [Region].
      pose proof (normalizeRegionIds_loop_length (x :: rs') [] s) as L.
      destruct (SyncRange.normalizeRegionIds_loop [] (x :: rs') s) as [[e l] s1].
      exists e, l, s1; split; [reflexivity | simpl in *; lia]. }
  destruct E1 as (e1 & rs1 & s1 & E1 & L1). rewrite E1; clear E1.
  destruct e1 as [err|]; [simpl; repeat split; lia|]. simpl.
  assert (E2 : exists e zs2 rs2 s2,
            (if (0 <? length zs)%nat
             then SyncRange.normalizeZoneIds (mkSyncRange f fs d rs1 zs hs res) s1
             else ((None, SyncRange.set_Zone [] (mkSyncRange f fs d rs1 zs hs res)), s1))
            = ((e, mkSyncRange f fs d rs2 zs2 hs res), s2)
            /\ length zs <= length zs2 /\ length rs1 <= length rs2).
  { destruct zs as [|x zs'].
    - exists None, [], rs1, s1; split; [reflexivity | simpl; lia].
    - unfold SyncRange.normalizeZoneIds; cbn [Zone Region].
      pose proof (normalizeZoneIds_loop_length (x :: zs') [] rs1 s1) as L.
      destruct (SyncRange.normalizeZoneIds_loop [] (x :: zs') rs1 s1) as [[e [l r]] s2].
      exists e, l, r, s2; split; [reflexivity | simpl in *; lia]. }
  destruct E2 as (e2 & zs2 & rs2 & s2 & E2 & LZ & LR). rewrite E2; clear E2.
  destruct e2 as [err|]; [simpl; repeat split; lia|]. simpl.
  destruct hs as [|x hs']; [simpl; repeat split; lia|].
  unfold SyncRange.normalizeHostIds; cbn [Host Zone Region].
  pose proof (normalizeHostIds_loop_length (x :: hs') [] zs2 rs2 s2) as L.
  destruct (SyncRange.normalizeHostIds_loop [] (x :: hs') zs2 rs2 s2) as [[e [[l z] r]] s3].
  simpl in *. repeat split; lia.
Qed.

(** ** Cloudproviders: when the database fails *)

(** A provider whose count of busy bindings cannot be read is not ended:
    when the count fails, [markEndSyncWithLock] leaves the rows of the
    provider and the provider object as they were, even if every binding is
    idle ([getSyncStatus2] reads the failure as [error], not as idle). *)
Theorem markEndSyncWithLock_count_failure :
  forall (self : SCloudprovider) (s : Store) (fs : list bool),
    faults s = true :: fs ->
    SyncStatus self <> CLOUD_PROVIDER_SYNC_STATUS_IDLE ->
    Cloudprovider.getSyncStatus2 self s
    = (inr CLOUD_PROVIDER_SYNC_STATUS_ERROR, set_faults fs s)
    /\ Cloudprovider.markEndSyncLocked self s = (inr self, set_faults fs s)
    /\ cloudproviders_tbl (snd (Cloudprovider.markEndSyncWithLock self s))
       = cloudproviders_tbl s.
Proof.
  intros self s fs F Hn.
  assert (E : Cloudprovider.getSyncStatus2 self s
              = (inr CLOUD_PROVIDER_SYNC_STATUS_ERROR, set_faults fs s)).
  { unfold Cloudprovider.getSyncStatus2, catch, db_call. rewrite F. reflexivity. }
  assert (L : Cloudprovider.markEndSyncLocked self s = (inr self, set_faults fs s)).
  { unfold Cloudprovider.markEndSyncLocked. apply status_eqb_neq in Hn. rewrite Hn.
    unfold bind. rewrite E. reflexivity. }
  split; [exact E | split; [exact L|]].
  rewrite markEndSyncWithLock_providers, L. reflexivity.
Qed.

Lemma markEndSyncWithLock_count_failure_witness :
  cloudproviders_tbl
    (snd (Cloudprovider.markEndSyncWithLock Examples.provider_syncing
            (set_faults [true] Examples.store_done)))
  = cloudproviders_tbl (set_faults [true] Examples.store_done).
Proof.
  refine (proj2 (proj2 (markEndSyncWithLock_count_failure Examples.provider_syncing
                          (set_faults [true] Examples.store_done) [] eq_refl _))).
  discriminate.
Defined.

Lemma kept_or_cancelled_refl : forall self l, Forall2 (kept_or_cancelled self) l l.
Proof. intros self l; induction l; constructor; [left; reflexivity | assumption]. Qed.

Lemma kept_or_cancelled_update : forall self c l l',
  Cloudprovider.is_child self c = true ->
  Forall2 (kept_or_cancelled self) l l' ->
  Forall2 (kept_or_cancelled self) l
    (update_rows (Cloudproviderregion.same_row c)
       (Cloudproviderregion.set_SyncStatus CLOUD_PROVIDER_SYNC_STATUS_IDLE) l').
Proof.
  intros self c l l' Hc H; induction H as [|r r' l l' Hr H IH]; simpl; constructor;
    [|exact IH].
  destruct (Cloudproviderregion.same_row c r') eqn:Es; [|exact Hr].
  destruct Hr as [->|[Hch ->]]; right; split; auto.
  apply (same_row_child self c r Hc Es).
Qed.

Lemma cancel_loop_rows : forall self msg l s l0,
  (forall c, In c l -> Cloudprovider.is_child self c = true) ->
  Forall2 (kept_or_cancelled self) l0 (cloudproviderregions_tbl s) ->
  let (r, s') := Cloudprovider.for_each_cpr Cloudproviderregion.cancelStartingSync msg l s in
  Forall2 (kept_or_cancelled self) l0 (cloudproviderregions_tbl s')
  /\ cloudproviders_tbl s' = cloudproviders_tbl s.
Proof.
  intros self msg l; induction l as [|c rest IH]; intros s l0 Hl H; simpl.
  - split; [exact H | reflexivity].
  - assert (Hrest : forall c0, In c0 rest -> Cloudprovider.is_child self c0 = true)
      by (intros; apply Hl; right; assumption).
    pose proof (Hl c (or_introl eq_refl)) as Hc.
    unfold catch, Cloudproviderregion.cancelStartingSync.
    destruct (status_eqb (cpr_SyncStatus c) CLOUD_PROVIDER_SYNC_STATUS_QUEUING).
    + unfold Cloudproviderregion.Update, bind, db_call, modify, ret.
      destruct (faults s) as [|[|] fs].
      * specialize (IH (set_cloudproviderregions
                          (update_rows (Cloudproviderregion.same_row c)
                             (Cloudproviderregion.set_SyncStatus
                                CLOUD_PROVIDER_SYNC_STATUS_IDLE)
                             (cloudproviderregions_tbl s)) s) l0 Hrest).
        simpl in IH. apply IH. apply kept_or_cancelled_update; assumption.
      * split; [exact H | reflexivity].
      * specialize (IH (set_cloudproviderregions
                          (update_rows (Cloudproviderregion.same_row c)
                             (Cloudproviderregion.set_SyncStatus
                                CLOUD_PROVIDER_SYNC_STATUS_IDLE)
                             (cloudproviderregions_tbl (set_faults fs s)))
                          (set_faults fs s)) l0 Hrest).
        simpl in IH. apply IH. apply kept_or_cancelled_update; assumption.
    + unfold ret. apply IH; assumption.
Qed.

(** Whatever the database does, [cancelStartingSync] only ever sets rows
    idle: a binding is afterwards as it was or, if it is a binding of this
    provider, as it was but idle; and the rows of the provider change only
    when the call returns without error - a cancellation that fails on the
    way leaves the provider queuing. *)
Theorem cancelStartingSync_failure_keeps_provider :
  forall (self : SCloudprovider) (s : Store),
    let (r, s') := Cloudprovider.cancelStartingSync self s in
    Forall2 (kept_or_cancelled self)
            (cloudproviderregions_tbl s) (cloudproviderregions_tbl s')
    /\ match r with
       | inl _ => cloudproviders_tbl s' = cloudproviders_tbl s
       | inr self' =>
           cloudproviders_tbl s' = cloudproviders_tbl s
           \/ (SyncStatus self = CLOUD_PROVIDER_SYNC_STATUS_QUEUING
               /\ self' = Cloudprovider.set_SyncStatus CLOUD_PROVIDER_SYNC_STATUS_IDLE self
               /\ cloudproviders_tbl s'
                  = update_rows (Cloudprovider.same_row self)
                      (Cloudprovider.set_SyncStatus CLOUD_PROVIDER_SYNC_STATUS_IDLE)
                      (cloudproviders_tbl s))
       end.
Proof.
  intros self s. unfold Cloudprovider.cancelStartingSync.
  destruct (status_eqb (SyncStatus self) CLOUD_PROVIDER_SYNC_STATUS_QUEUING) eqn:Eq.
  - apply status_eqb_eq in Eq.
    unfold bind at 1, Cloudprovider.GetCloudproviderRegions, catch at 1.
    assert (Hloop : forall s0 l,
              cloudproviderregions_tbl s0 = cloudproviderregions_tbl s ->
              cloudproviders_tbl s0 = cloudproviders_tbl s ->
              (forall c, In c l -> Cloudprovider.is_child self c = true) ->
              let (r, s') :=
                (Cloudprovider.for_each_cpr Cloudproviderregion.cancelStartingSync
                   "cprs[i].cancelStartingSync" l ;;;
                 catch (Cloudprovider.Update self
                          (Cloudprovider.set_SyncStatus CLOUD_PROVIDER_SYNC_STATUS_IDLE))
                       (fun r => match r with
                                 | inl err => fail (Wrap err "db.Update")
                                 | inr self' => ret self'
                                 end)) s0 in
              Forall2 (kept_or_cancelled self)
                      (cloudproviderregions_tbl s) (cloudproviderregions_tbl s')
              /\ match r with
                 | inl _ => cloudproviders_tbl s' = cloudproviders_tbl s
                 | inr self' =>
                     cloudproviders_tbl s' = cloudproviders_tbl s
                     \/ (SyncStatus self = CLOUD_PROVIDER_SYNC_STATUS_QUEUING
                         /\ self' = Cloudprovider.set_SyncStatus
                                      CLOUD_PROVIDER_SYNC_STATUS_IDLE self
                         /\ cloudproviders_tbl s'
                            = update_rows (Cloudprovider.same_row self)
                                (Cloudprovider.set_SyncStatus CLOUD_PROVIDER_SYNC_STATUS_IDLE)
                                (cloudproviders_tbl s))
                 end).
    { intros s0 l Hc Hp Hl.
      pose proof (cancel_loop_rows self "cprs[i].cancelStartingSync" l s0
                    (cloudproviderregions_tbl s) Hl) as K.
      rewrite Hc in K. specialize (K (kept_or_cancelled_refl self _)).
      unfold bind at 1.
      destruct (Cloudprovider.for_each_cpr _ _ l s0) as [[e|u] s1].
      - destruct K as [K1 K2]. split; [exact K1 | congruence].
      - destruct K as [K1 K2].
        unfold catch, Cloudprovider.Update, bind, db_call, modify, ret, fail.
        destruct (faults s1) as [|[|] fs]; simpl.
        + split; [exact K1|]. right. rewrite K2, Hp. auto.
        + split; [exact K1 | congruence].
        + split; [exact K1|]. right. rewrite K2, Hp. auto. }
    unfold db_call. destruct (faults s) as [|[|] fs].
    + unfold bind at 1, get, ret at 1.
      apply (Hloop s); auto. intros c Hc. apply filter_In in Hc. apply Hc.
    + unfold ret at 1. apply (Hloop (set_faults fs s) []); auto.
    + unfold bind at 1, get, ret at 1.
      apply (Hloop (set_faults fs s)); auto. intros c Hc. apply filter_In in Hc. apply Hc.
  - split; [apply kept_or_cancelled_refl | left; reflexivity].
Qed.

